(** * nyc-cuisine-map: the Google Maps enrichment scrapers and the merge stage

    A shallow embedding of

    - [scripts/scrape_google_maps_parallel.py] (module [Parallel]),
    - [scripts/scrape_google_maps.py]          (module [Single]),
    - [scripts/merge_google_data.py]           (module [Merge]),

    together with the two pieces of the Python standard library they lean on:
    the string methods ([PyStr]) and [difflib.SequenceMatcher] ([Difflib]).

    Conventions.
    - A Python [str] is a [string]; its characters are the code points below
      256, so [ascii] stands for one character.
    - A similarity score is the exact rational [2*M/T] that [ratio()] divides
      out; the thresholds [0.9], [0.8], [0.7], [0.5] are the rationals of the
      same name.  The scripts compare doubles: the division is correctly
      rounded and rounding is monotone, so [2.0*M/T > 0.9] and the rational
      comparison agree as long as [T] stays below [2^49], far above any text
      the scripts meet.
    - Whatever the scripts read from the outside world (the clock, the page,
      the progress file) is an explicit argument. *)

From Stdlib Require Import QArith Qround Ascii String DecimalN.
From stdpp Require Import base list strings gmap sorting.


(** ** Python string methods *)

Module PyStr.

Definition chars (s : string) : list ascii := list_ascii_of_string s.
Definition str (l : list ascii) : string := string_of_list_ascii l.

Definition code (c : ascii) : nat := nat_of_ascii c.

(** [str.lower] on one code point: A-Z, and the Latin-1 capitals
    U+00C0..U+00DE without the multiplication sign U+00D7. *)
Definition lower_char (c : ascii) : ascii :=
  let n := code c in
  if ((65 <=? n) && (n <=? 90)) || ((192 <=? n) && (n <=? 222) && negb (n =? 215))
  then ascii_of_nat (n + 32) else c.

Definition lower_chars (l : list ascii) : list ascii := map lower_char l.
Definition lower (s : string) : string := str (lower_chars (chars s)).

(** [str.isspace] on one code point. *)
Definition is_space (c : ascii) : bool :=
  let n := code c in
  ((9 <=? n) && (n <=? 13)) || ((28 <=? n) && (n <=? 32)) || (n =? 133) || (n =? 160).

Fixpoint lstrip_chars (l : list ascii) : list ascii :=
  match l with
  | c :: l' => if is_space c then lstrip_chars l' else l
  | [] => []
  end.

Definition rstrip_chars (l : list ascii) : list ascii :=
  rev (lstrip_chars (rev l)).

Definition strip_chars (l : list ascii) : list ascii :=
  rstrip_chars (lstrip_chars l).

Definition strip (s : string) : string := str (strip_chars (chars s)).

Fixpoint starts_with (p l : list ascii) : bool :=
  match p, l with
  | [], _ => true
  | x :: p', y :: l' => if decide (x = y) then starts_with p' l' else false
  | _ :: _, [] => false
  end.

(** [sub in s] *)
Fixpoint contains_chars (sub l : list ascii) : bool :=
  starts_with sub l ||
  match l with
  | [] => false
  | _ :: l' => contains_chars sub l'
  end.

Definition contains (sub s : string) : bool := contains_chars (chars sub) (chars s).

(** [s.split(c)[0]]: the segment before the first [c], all of [s] when
    there is none. *)
Fixpoint before_first (c : ascii) (l : list ascii) : list ascii :=
  match l with
  | [] => []
  | x :: l' => if decide (x = c) then [] else x :: before_first c l'
  end.

(** [s.replace(old, new)] for a non-empty [old]: one pass from the left,
    occurrences do not overlap, the text put in is not scanned again.  The
    fuel is the length of what is left to scan. *)
Fixpoint replace_fuel (n : nat) (old new l : list ascii) : list ascii :=
  match n with
  | O => l
  | S n' =>
      match l with
      | [] => []
      | c :: l' =>
          if starts_with old l
          then new ++ replace_fuel n' old new (drop (length old) l)
          else c :: replace_fuel n' old new l'
      end
  end.

Definition replace_chars (old new l : list ascii) : list ascii :=
  replace_fuel (length l) old new l.

Definition replace (old new s : string) : string :=
  str (replace_chars (chars old) (chars new) (chars s)).

(** Every run of blanks in [l] is shorter than [limit], when [k] blanks
    stand right before [l]. *)
Fixpoint runs_below (limit k : nat) (l : list ascii) : bool :=
  match l with
  | [] => true
  | c :: l' =>
      if decide (c = " "%char) then (S k <? limit) && runs_below limit (S k) l'
      else runs_below limit 0 l'
  end.

(** [not s] *)
Definition is_empty (s : string) : bool :=
  match s with EmptyString => true | String _ _ => false end.

(** The last of the replacements: two blanks become one. *)
Abbreviation halve n l := (replace_fuel n [" "; " "]%char [" "]%char l).

(** No blank in [l]. *)
Definition blank_free (l : list ascii) : Prop := Forall (λ c, c ≠ " "%char) l.

(** No blank at the head. *)
Definition no_lead (l : list ascii) : Prop :=
  match l with c :: _ => c ≠ " "%char | [] => True end.

End PyStr.

(** ** difflib.SequenceMatcher(None, a, b), with [autojunk] at its default *)

Module Difflib.
Section SequenceMatcher.

Context {A : Type} `{EqDecision A}.
Variables a b : list A.

(** [__chain_b]: [b2j[x]] lists the positions of [x] in [b], increasing. *)
Fixpoint indices_from (i : nat) (l : list A) (x : A) : list nat :=
  match l with
  | [] => []
  | y :: l' =>
      if decide (y = x) then i :: indices_from (S i) l' x
      else indices_from (S i) l' x
  end.

(** With [isjunk = None] nothing is junk; with [autojunk] an element of a
    [b] of 200 or more that fills more than 1% + 1 positions is popular
    and leaves [b2j]. *)
Definition popular (x : A) : bool :=
  let n := length b in
  (200 <=? n) && (n `div` 100 + 1 <? length (indices_from 0 b x)).

Definition b2j (x : A) : list nat :=
  if popular x then [] else indices_from 0 b x.

(** [j2len.get(j-1, 0)]: the key [-1] is never there. *)
Definition j2len_get (j2len : gmap nat nat) (j : nat) : nat :=
  match j with
  | O => 0
  | S j' => default 0 (j2len !! j')
  end.

Record best := Best { besti : nat; bestj : nat; bestsize : nat }.

(** The inner [for j in b2j.get(a[i], nothing)] of [find_longest_match]. *)
Fixpoint scan_row (i blo bhi : nat) (j2len : gmap nat nat) (js : list nat)
         (bst : best) (newj2len : gmap nat nat) : best * gmap nat nat :=
  match js with
  | [] => (bst, newj2len)
  | j :: js' =>
      if j <? blo then scan_row i blo bhi j2len js' bst newj2len
      else if bhi <=? j then (bst, newj2len)
      else
        let k := j2len_get j2len j + 1 in
        let newj2len' := <[j := k]> newj2len in
        if bestsize bst <? k
        then scan_row i blo bhi j2len js' (Best (i + 1 - k) (j + 1 - k) k) newj2len'
        else scan_row i blo bhi j2len js' bst newj2len'
  end.

(** The outer [for i in range(alo, ahi)]; [n] counts the rows left. *)
Fixpoint scan_rows (n i blo bhi : nat) (j2len : gmap nat nat) (bst : best) : best :=
  match n with
  | O => bst
  | S n' =>
      let js := match a !! i with Some x => b2j x | None => [] end in
      let '(bst', newj2len) := scan_row i blo bhi j2len js bst ∅ in
      scan_rows n' (S i) blo bhi newj2len bst'
  end.

Definition same_at (i j : nat) : bool :=
  match a !! i, b !! j with
  | Some x, Some y => bool_decide (x = y)
  | _, _ => false
  end.

(** First [while]: grow the block to the left over equal elements. *)
Fixpoint extend_left (alo blo i j k : nat) {struct i} : best :=
  match i, j with
  | S i', S j' =>
      if (alo <? i) && (blo <? j) && same_at i' j'
      then extend_left alo blo i' j' (S k)
      else Best i j k
  | _, _ => Best i j k
  end.

(** Second [while]: grow it to the right; [n] is [ahi - (besti+bestsize)],
    the distance the loop's first test measures. *)
Fixpoint extend_right (n ahi bhi i j k : nat) : nat :=
  match n with
  | O => k
  | S n' =>
      if (i + k <? ahi) && (j + k <? bhi) && same_at (i + k) (j + k)
      then extend_right n' ahi bhi i j (S k)
      else k
  end.

(** [find_longest_match(alo, ahi, blo, bhi)].  The last two [while] loops
    of the source only run over junk, of which there is none. *)
Definition find_longest_match (alo ahi blo bhi : nat) : best :=
  let b0 := scan_rows (ahi - alo) alo blo bhi ∅ (Best alo blo 0) in
  let b1 := extend_left alo blo (besti b0) (bestj b0) (bestsize b0) in
  let k := extend_right (ahi - (besti b1 + bestsize b1)) ahi bhi
                        (besti b1) (bestj b1) (bestsize b1) in
  Best (besti b1) (bestj b1) k.

Definition region : Type := nat * nat * nat * nat.
Definition block : Type := nat * nat * nat.

(** The [while queue:] loop of [get_matching_blocks].  The Python list
    [queue] is used as a stack; its top is the head here. *)
Fixpoint drain (fuel : nat) (queue : list region) (matching_blocks : list block)
  : list region * list block :=
  match fuel with
  | O => (queue, matching_blocks)
  | S fuel' =>
      match queue with
      | [] => ([], matching_blocks)
      | (alo, ahi, blo, bhi) :: queue' =>
          let x := find_longest_match alo ahi blo bhi in
          let '(i, j, k) := (besti x, bestj x, bestsize x) in
          if k =? 0 then drain fuel' queue' matching_blocks
          else
            let q1 := if (alo <? i) && (blo <? j)
                      then (alo, i, blo, j) :: queue' else queue' in
            let q2 := if (i + k <? ahi) && (j + k <? bhi)
                      then (i + k, ahi, j + k, bhi) :: q1 else q1 in
            drain fuel' q2 (matching_blocks ++ [(i, j, k)])
      end
  end.

(** Tuples compare lexicographically. *)
Definition block_le (x y : block) : Prop :=
  let '(i1, j1, k1) := x in
  let '(i2, j2, k2) := y in
  i1 < i2 ∨ (i1 = i2 ∧ (j1 < j2 ∨ (j1 = j2 ∧ k1 ≤ k2))).

#[export] Instance block_le_dec : RelDecision block_le.
Proof.
  intros [[i1 j1] k1] [[i2 j2] k2]. unfold block_le. apply _.
Defined.

(** The collapsing of adjacent blocks. *)
Fixpoint collapse (cur : block) (non_adjacent : list block) (bs : list block)
  : block * list block :=
  match bs with
  | [] => (cur, non_adjacent)
  | (i2, j2, k2) :: bs' =>
      let '(i1, j1, k1) := cur in
      if (i1 + k1 =? i2) && (j1 + k1 =? j2)
      then collapse (i1, j1, k1 + k2) non_adjacent bs'
      else collapse (i2, j2, k2)
                    (if k1 =? 0 then non_adjacent else non_adjacent ++ [cur]) bs'
  end.

Definition drain_fuel : nat := 2 * length a + 1.

Definition get_matching_blocks : list block :=
  let la := length a in
  let lb := length b in
  let matching_blocks := snd (drain drain_fuel [(0, la, 0, lb)] []) in
  let sorted := merge_sort block_le matching_blocks in
  let '((i1, j1, k1), non_adjacent) := collapse (0, 0, 0) [] sorted in
  let non_adjacent := if k1 =? 0 then non_adjacent else non_adjacent ++ [(i1, j1, k1)] in
  non_adjacent ++ [(la, lb, 0)].

Definition block_size (x : block) : nat := snd x.

Definition matches : nat := sum_list_with block_size get_matching_blocks.

(** [_calculate_ratio(matches, length)] *)
Definition calculate_ratio (m len : nat) : Q :=
  if len =? 0 then 1%Q
  else Qmake (Z.of_nat (2 * m)) (Pos.of_nat len).

Definition ratio : Q := calculate_ratio matches (length a + length b).

End SequenceMatcher.
(** *** What the loops keep true *)

(** A block that lies in [a[alo:ahi]] and [b[blo:bhi]]. *)
Definition inside (alo ahi blo bhi : nat) (x : best) : Prop :=
alo ≤ besti x ∧ besti x + bestsize x ≤ ahi ∧
blo ≤ bestj x ∧ bestj x + bestsize x ≤ bhi.

(** The lengths a row of [j2len] may hold when row [i] is about to be
  scanned. *)
Definition row_ok (rows blo : nat) (m : gmap nat nat) : Prop :=
∀ j k, m !! j = Some k → k ≤ rows ∧ k ≤ j + 1 - blo ∧ blo ≤ j.

Definition region_ok (r : region) : Prop :=
let '(alo, ahi, blo, bhi) := r in alo ≤ ahi ∧ blo ≤ bhi.

Definition width_a (r : region) : nat := let '(alo, ahi, _, _) := r in ahi - alo.
Definition width_b (r : region) : nat := let '(_, _, blo, bhi) := r in bhi - blo.

(** What a region can still cost the loop: one turn for itself and two
  for each element of [a] in it. *)
Definition weight (r : region) : nat := 2 * width_a r + 1.

End Difflib.


(** ** Python values that live in JSON files, and dictionaries *)

(** A number as its decimal text has it: a sign, the digits before the point
    as a number, the digits after the point as they stand.  An [int] has no
    digit after the point, a [float] has one at least. *)
Record number := Number {
  negative : bool;
  whole : N;
  fraction : Decimal.uint
}.

Fixpoint all_zero (u : Decimal.uint) : bool :=
  match u with
  | Decimal.Nil => true
  | Decimal.D0 u' => all_zero u'
  | _ => false
  end.

Definition number_of_int (z : Z) : number :=
  Number (z <? 0)%Z (Z.abs_N z) Decimal.Nil.

#[warnings="-register-all"]
Inductive json :=
| JNull
| JBool (b : bool)
| JNum (n : number)
| JStr (s : string)
| JArr (l : list json)
| JObj (kvs : list (string * json)).

(** A [dict] with string keys, in insertion order. *)
Abbreviation dict := (list (string * json)).

Module PyDict.

Fixpoint get (k : string) (d : dict) : option json :=
  match d with
  | [] => None
  | (k', v) :: d' => if decide (k' = k) then Some v else get k d'
  end.

(** [d[k] = v]: an existing key keeps its place. *)
Fixpoint set (k : string) (v : json) (d : dict) : dict :=
  match d with
  | [] => [(k, v)]
  | (k', v') :: d' =>
      if decide (k' = k) then (k, v) :: d' else (k', v') :: set k v d'
  end.

(** [d.update(other)] *)
Definition update (d other : dict) : dict :=
  fold_left (fun acc kv => set (fst kv) (snd kv) acc) other d.

(** Truth value of [d.get(k)]; a missing key reads [None]. *)
Definition truthy (v : option json) : bool :=
  match v with
  | Some (JBool b) => b
  | Some (JNum n) => negb ((whole n =? 0)%N && all_zero (fraction n))
  | Some (JStr s) => negb (PyStr.is_empty s)
  | Some (JArr l) => match l with [] => false | _ => true end
  | Some (JObj kvs) => match kvs with [] => false | _ => true end
  | Some JNull | None => false
  end.

Definition as_str (v : option json) : string :=
  match v with Some (JStr s) => s | _ => EmptyString end.

(** An optional text as a value: [None] or the string. *)
Definition of_opt (o : option string) : json :=
  match o with Some s => JStr s | None => JNull end.

End PyDict.


(** ** The [json] module: [json.dumps(obj)] with its defaults, [json.loads]

    Outside the model: code points from 256 on, exponents in numbers, [NaN]
    and [Infinity]; a text that needs them does not load. *)

Module JsonText.
Import Decimal.

Fixpoint uint_chars (u : uint) : list ascii :=
  match u with
  | Nil => []
  | D0 u' => "0"%char :: uint_chars u'
  | D1 u' => "1"%char :: uint_chars u'
  | D2 u' => "2"%char :: uint_chars u'
  | D3 u' => "3"%char :: uint_chars u'
  | D4 u' => "4"%char :: uint_chars u'
  | D5 u' => "5"%char :: uint_chars u'
  | D6 u' => "6"%char :: uint_chars u'
  | D7 u' => "7"%char :: uint_chars u'
  | D8 u' => "8"%char :: uint_chars u'
  | D9 u' => "9"%char :: uint_chars u'
  end.

Definition digit_of (c : ascii) : option (uint -> uint) :=
  match c with
  | "0"%char => Some D0 | "1"%char => Some D1 | "2"%char => Some D2
  | "3"%char => Some D3 | "4"%char => Some D4 | "5"%char => Some D5
  | "6"%char => Some D6 | "7"%char => Some D7 | "8"%char => Some D8
  | "9"%char => Some D9
  | _ => None
  end.

Definition digit_of_N (n : N) : uint -> uint :=
  match n with
  | 0%N => D0 | 1%N => D1 | 2%N => D2 | 3%N => D3 | 4%N => D4
  | 5%N => D5 | 6%N => D6 | 7%N => D7 | 8%N => D8 | _ => D9
  end.

(** The longest run of digits at the head. *)
Fixpoint read_digits (s : list ascii) : uint * list ascii :=
  match s with
  | [] => (Nil, [])
  | c :: s' =>
      match digit_of c with
      | Some d => let '(u, rest) := read_digits s' in (d u, rest)
      | None => (Nil, s)
      end
  end.

Definition fraction_chars (f : uint) : list ascii :=
  match f with
  | Nil => []
  | _ => "."%char :: uint_chars f
  end.

(** [int.__repr__] and [float.__repr__] *)
Definition number_chars (n : number) : list ascii :=
  (if negative n then ["-"%char] else [])
  ++ uint_chars (N.to_uint (whole n))
  ++ fraction_chars (fraction n).

Definition is_nil (u : uint) : bool :=
  match u with Nil => true | _ => false end.

(** The digits after the point without the zeros at their end, one digit
    kept: [float("12.50")] is [12.5]. *)
Definition trim_fraction (f : uint) : uint :=
  Decimal.rev (unorm (Decimal.rev f)).

Definition starts_exponent (s : list ascii) : bool :=
  match s with
  | c :: _ => bool_decide (c = "e"%char) || bool_decide (c = "E"%char)
  | [] => false
  end.

Definition read_sign (s : list ascii) : bool * list ascii :=
  match s with
  | "-"%char :: r => (true, r)
  | _ => (false, s)
  end.

(** The point and the digits after it, when there is a point: [Nil] stands
    for none. *)
Definition read_fraction (s : list ascii) : option (uint * list ascii) :=
  match s with
  | "."%char :: s' =>
      let '(f, rest) := read_digits s' in
      if is_nil f then None else Some (trim_fraction f, rest)
  | _ => Some (Nil, s)
  end.

(** A number at the head of [s]: an optional minus, digits without a
    leading zero, and optionally a point and digits.  [int("-0")] is [0]. *)
Definition parse_number (s : list ascii) : option (number * list ascii) :=
  let '(neg, s1) := read_sign s in
  let '(w, s2) := read_digits s1 in
  if is_nil w || negb (uint_beq w (unorm w)) then None
  else
    match read_fraction s2 with
    | Some (f, rest) =>
        if starts_exponent rest then None
        else
          let neg' := if is_nil f then neg && negb (N.of_uint w =? 0)%N else neg in
          Some (Number neg' (N.of_uint w) f, rest)
    | None => None
    end.

Definition hex_char (n : nat) : ascii :=
  nth n (PyStr.chars "0123456789abcdef") "0"%char.

Definition hex_val (c : ascii) : option nat :=
  let n := PyStr.code c in
  if (48 <=? n) && (n <=? 57) then Some (n - 48)
  else if (97 <=? n) && (n <=? 102) then Some (n - 87)
  else if (65 <=? n) && (n <=? 70) then Some (n - 55)
  else None.

(** [py_encode_basestring_ascii] on one character. *)
Definition escape_char (c : ascii) : list ascii :=
  let n := PyStr.code c in
  if n =? 34 then ["\"; "034"]%char
  else if n =? 92 then ["\"; "\"]%char
  else if n =? 8 then ["\"; "b"]%char
  else if n =? 12 then ["\"; "f"]%char
  else if n =? 10 then ["\"; "n"]%char
  else if n =? 13 then ["\"; "r"]%char
  else if n =? 9 then ["\"; "t"]%char
  else if (n <? 32) || (126 <? n)
       then ["\"; "u"; "0"; "0"; hex_char (n / 16); hex_char (n mod 16)]%char
  else [c].

Definition quote_chars (l : list ascii) : list ascii :=
  "034"%char :: concat (map escape_char l) ++ ["034"%char].

(** [py_scanstring], strict, from after the opening quote. *)
Fixpoint scan_string (s : list ascii) (acc : list ascii)
  : option (list ascii * list ascii) :=
  match s with
  | [] => None
  | c :: r =>
      if PyStr.code c =? 34 then Some (List.rev acc, r)
      else if PyStr.code c =? 92 then
        match r with
        | [] => None
        | e :: r1 =>
            let n := PyStr.code e in
            if n =? 34 then scan_string r1 ("034"%char :: acc)
            else if n =? 92 then scan_string r1 ("\"%char :: acc)
            else if n =? 47 then scan_string r1 ("/"%char :: acc)
            else if n =? 98 then scan_string r1 ("008"%char :: acc)
            else if n =? 102 then scan_string r1 ("012"%char :: acc)
            else if n =? 110 then scan_string r1 ("010"%char :: acc)
            else if n =? 114 then scan_string r1 ("013"%char :: acc)
            else if n =? 116 then scan_string r1 ("009"%char :: acc)
            else if n =? 117 then
              match r1 with
              | h1 :: h2 :: h3 :: h4 :: r2 =>
                  match hex_val h1, hex_val h2, hex_val h3, hex_val h4 with
                  | Some 0, Some 0, Some a, Some b =>
                      scan_string r2 (ascii_of_nat (16 * a + b) :: acc)
                  | _, _, _, _ => None
                  end
              | _ => None
              end
            else None
        end
      else if PyStr.code c <? 32 then None
      else scan_string r (c :: acc)
  end.

Definition is_json_space (c : ascii) : bool :=
  let n := PyStr.code c in (n =? 32) || (n =? 9) || (n =? 10) || (n =? 13).

Fixpoint skip_ws (s : list ascii) : list ascii :=
  match s with
  | c :: s' => if is_json_space c then skip_ws s' else s
  | [] => []
  end.

(** [", ".join(parts)] *)
Fixpoint join (parts : list (list ascii)) : list ascii :=
  match parts with
  | [] => []
  | [x] => x
  | x :: rest => x ++ ","%char :: " "%char :: join rest
  end.

Fixpoint print (v : json) : list ascii :=
  match v with
  | JNull => PyStr.chars "null"
  | JBool true => PyStr.chars "true"
  | JBool false => PyStr.chars "false"
  | JNum n => number_chars n
  | JStr s => quote_chars (PyStr.chars s)
  | JArr l => "["%char :: join (map print l) ++ ["]"%char]
  | JObj kvs =>
      "{"%char
      :: join (map (fun kv => let '(k, x) := kv in
                              quote_chars (PyStr.chars k)
                              ++ ":"%char :: " "%char :: print x) kvs)
      ++ ["}"%char]
  end.

Definition dumps (v : json) : string := PyStr.str (print v).

(** The scanner: one value at the head of [s], white space skipped.  An
    object is built as a [dict] is: a key met again keeps its place and takes
    the later value. *)
Fixpoint parse_value (fuel : nat) (s : list ascii) : option (json * list ascii) :=
  match fuel with
  | O => None
  | S fuel' =>
      match skip_ws s with
      | [] => None
      | c :: r =>
          if bool_decide (c = "034"%char) then
            match scan_string r [] with
            | Some (l, r') => Some (JStr (PyStr.str l), r')
            | None => None
            end
          else if bool_decide (c = "["%char) then
            match skip_ws r with
            | c' :: r' =>
                if bool_decide (c' = "]"%char) then Some (JArr [], r')
                else parse_items fuel' r []
            | [] => None
            end
          else if bool_decide (c = "{"%char) then
            match skip_ws r with
            | c' :: r' =>
                if bool_decide (c' = "}"%char) then Some (JObj [], r')
                else parse_members fuel' r []
            | [] => None
            end
          else if PyStr.starts_with (PyStr.chars "null") (c :: r)
          then Some (JNull, drop 4 (c :: r))
          else if PyStr.starts_with (PyStr.chars "true") (c :: r)
          then Some (JBool true, drop 4 (c :: r))
          else if PyStr.starts_with (PyStr.chars "false") (c :: r)
          then Some (JBool false, drop 5 (c :: r))
          else
            match parse_number (c :: r) with
            | Some (n, r') => Some (JNum n, r')
            | None => None
            end
      end
  end
with parse_items (fuel : nat) (s : list ascii) (acc : list json)
  : option (json * list ascii) :=
  match fuel with
  | O => None
  | S fuel' =>
      match parse_value fuel' s with
      | Some (v, r) =>
          match skip_ws r with
          | c :: r' =>
              if bool_decide (c = ","%char) then parse_items fuel' r' (acc ++ [v])
              else if bool_decide (c = "]"%char) then Some (JArr (acc ++ [v]), r')
              else None
          | [] => None
          end
      | None => None
      end
  end
with parse_members (fuel : nat) (s : list ascii) (acc : dict)
  : option (json * list ascii) :=
  match fuel with
  | O => None
  | S fuel' =>
      match skip_ws s with
      | c :: r =>
          if bool_decide (c = "034"%char) then
            match scan_string r [] with
            | Some (k, r1) =>
                match skip_ws r1 with
                | c1 :: r2 =>
                    if bool_decide (c1 = ":"%char) then
                      match parse_value fuel' r2 with
                      | Some (v, r3) =>
                          let acc' := PyDict.set (PyStr.str k) v acc in
                          match skip_ws r3 with
                          | c3 :: r4 =>
                              if bool_decide (c3 = ","%char)
                              then parse_members fuel' r4 acc'
                              else if bool_decide (c3 = "}"%char)
                              then Some (JObj acc', r4)
                              else None
                          | [] => None
                          end
                      | None => None
                      end
                    else None
                | [] => None
                end
            | None => None
            end
          else None
      | [] => None
      end
  end.

Definition loads (text : string) : option json :=
  let s := PyStr.chars text in
  match parse_value (S (length s)) s with
  | Some (v, rest) => match skip_ws rest with [] => Some v | _ => None end
  | None => None
  end.

(** A number as [repr] writes it: the [int] zero has no sign, a [float] has
    no spare zero at its end. *)
Definition canonical (n : number) : bool :=
  match fraction n with
  | Nil => negb (negative n && (whole n =? 0)%N)
  | f => uint_beq (trim_fraction f) f
  end.

(** The values a Python object can be: every dictionary has each key once,
    every number is as [repr] writes it. *)
Fixpoint well_formed (v : json) : bool :=
  match v with
  | JNum n => canonical n
  | JArr l => forallb well_formed l
  | JObj kvs =>
      bool_decide (NoDup (map fst kvs))
      && forallb (fun kv => well_formed (snd kv)) kvs
  | _ => true
  end.

(** *** What the proofs of the reading speak of *)

(** What may stand right after a value in a text that [print] wrote. *)
Definition closes (rest : list ascii) : Prop :=
  match rest with
  | [] => True
  | c :: _ => c = ","%char ∨ c = "]"%char ∨ c = "}"%char
  end.

(** What a value may start with. *)
Definition opens (c : ascii) : Prop :=
  is_json_space c = false ∧ c ≠ "]"%char ∧ c ≠ "}"%char.

(** One member of an object, as [print] writes it. *)
Definition member (kv : string * json) : list ascii :=
  quote_chars (PyStr.chars kv.1) ++ ":"%char :: " "%char :: print kv.2.

(** The scanner reads back, with [fuel] turns, what [print] wrote. *)
Definition reads_values (fuel : nat) : Prop :=
  ∀ v rest,
    length (print v) ≤ fuel → well_formed v = true → closes rest →
    parse_value fuel (print v ++ rest) = Some (v, rest).

Definition reads_items (fuel : nat) : Prop :=
  ∀ l acc rest,
    l ≠ [] → length (join (map print l)) + 1 ≤ fuel →
    forallb well_formed l = true →
    parse_items fuel (join (map print l) ++ "]"%char :: rest) acc
    = Some (JArr (acc ++ l), rest).

Definition reads_members (fuel : nat) : Prop :=
  ∀ kvs (acc : dict) rest,
    kvs ≠ [] → length (join (map member kvs)) + 1 ≤ fuel →
    NoDup (map fst (acc ++ kvs)) →
    forallb (λ kv, well_formed kv.2) kvs = true →
    parse_members fuel (join (map member kvs) ++ "}"%char :: rest) acc
    = Some (JObj (acc ++ kvs), rest).

End JsonText.

(** [x > y] on scores *)
Definition Qgtb (x y : Q) : bool := negb (Qle_bool x y).

(** ** What the three scripts share *)

Module Common.

(** [similarity(a, b)], the same five lines in the three scripts. *)
Definition similarity (a b : string) : Q :=
  if PyStr.is_empty a || PyStr.is_empty b then 0%Q
  else Difflib.ratio (PyStr.chars (PyStr.lower a)) (PyStr.chars (PyStr.lower b)).

(** One entry of [restaurants.json], as [preprocess_data.py] writes it. *)
Record restaurant := Restaurant {
  name : string;
  address : string;
  category : string;
  boro : string
}.

(** [f"{restaurant['name']}|{restaurant['address']}"] *)
Definition restaurant_id (r : restaurant) : string :=
  (name r +:+ "|" +:+ address r)%string.

(** [re.sub(r'\s+', ' ', s)]: [in_run] tells that the previous character
    was white space already replaced. *)
Fixpoint sub_spaces (in_run : bool) (l : list ascii) : list ascii :=
  match l with
  | [] => []
  | c :: l' =>
      if PyStr.is_space c
      then (if in_run then sub_spaces true l' else " "%char :: sub_spaces true l')
      else c :: sub_spaces false l'
  end.

(** The double quote of the f-string. *)
Definition quote : string := String "034"%char EmptyString.

Definition build_search_query (r : restaurant) : string :=
  let name := PyStr.strip (PyStr.str (sub_spaces false (PyStr.chars (name r)))) in
  (quote +:+ name +:+ quote +:+ " " +:+ address r +:+ " " +:+ boro r +:+ " NYC")%string.

(** The progress dictionary: [scraped_ids], [results], [failed],
    [last_updated]. *)
Record progress := Progress {
  scraped_ids : list string;
  results : list dict;
  failed : list dict;
  last_updated : option string
}.

Definition empty_progress : progress := Progress [] [] [] None.

(** The recording of one result, the same in both scrapers:
    [scraped_ids.append(restaurant_id)], then [results.append(result)] or
    [failed.append(result)] on [result.get('found')]. *)
Definition record (r : restaurant) (result : dict) (p : progress) : progress :=
  let ids := scraped_ids p ++ [restaurant_id r] in
  if PyDict.truthy (PyDict.get "found" result)
  then Progress ids (results p ++ [result]) (failed p) (last_updated p)
  else Progress ids (results p) (failed p ++ [result]) (last_updated p).

(** As many keys as outcomes. *)
Definition counts_agree (p : progress) : Prop :=
  length (scraped_ids p) = length (results p) + length (failed p).

(** The identity key an outcome was recorded under. *)
Definition result_id (result : dict) : string :=
  (PyDict.as_str (PyDict.get "original_name" result) +:+ "|" +:+
   PyDict.as_str (PyDict.get "original_address" result))%string.

(** The key of every stored outcome is among the scraped ones. *)
Definition results_keyed (p : progress) : Prop :=
  ∀ o, o ∈ results p ++ failed p → result_id o ∈ scraped_ids p.

(** The first lines of [scrape_restaurant]'s [result]. *)
Definition base_result (now : string) (r : restaurant) : dict :=
  [ ("original_name", JStr (name r));
    ("original_address", JStr (address r));
    ("original_category", JStr (category r));
    ("original_boro", JStr (boro r));
    ("search_query", JStr (build_search_query r));
    ("scraped_at", JStr now) ]%string.

(** The queue of a run: what is left after the scraped ones are filtered
    out, the "Unspecified" ones first when asked, cut to the sample size.
    [remaining[:n]] keeps [n] items, and for a negative [n] drops the last
    [-n]; [None] and [0] are false. *)
Definition slice_to (sample_size : option Z) (l : list restaurant) : list restaurant :=
  match sample_size with
  | None => l
  | Some n =>
      if (n =? 0)%Z then l
      else if (0 <? n)%Z then take (Z.to_nat n) l
      else take (length l - Z.to_nat (- n)) l
  end.

Definition is_unspecified (r : restaurant) : bool :=
  PyStr.contains "Unspecified" (category r).

Definition remaining_tasks (sample_size : option Z) (prioritize_unspecified : bool)
           (restaurants : list restaurant) (progress_data : progress)
  : list restaurant :=
  let scraped_set : gset string := list_to_set (scraped_ids progress_data) in
  let remaining :=
    filter (fun r => restaurant_id r ∉ scraped_set) restaurants in
  let remaining :=
    if prioritize_unspecified then
      let unspecified := filter (fun r => is_unspecified r = true) remaining in
      let specified := filter (fun r => is_unspecified r ≠ true) remaining in
      unspecified ++ specified
    else remaining in
  slice_to sample_size remaining.

(** What running code can meet: a value, or an exception with its text. *)
Inductive attempt (A : Type) :=
| Got (x : A)
| Raised (e : string).
Arguments Got {A} x.
Arguments Raised {A} e.

(** What the selectors of [extract_place_info] read on the page.  A
    selector that finds nothing, or whose own [try] swallows an error,
    reads [None]; the address and the category are what the strategies of
    the script end with. *)
Record page := Page {
  page_url : attempt string;
  h1_text : option string;
  address_text : option string;
  category_text : option string;
  rating_read : option number;
  reviews_read : option Z
}.

(** One [page.goto] and what follows. *)
Inductive visit :=
| GotoRaised (e : string)
| Arrived (p : page).

(** A run seen from the dictionary: the recordings, in the order they
    happen, each with the task, the clock reading and the visit. *)
Definition record_all (scrape : string -> restaurant -> visit -> dict)
           (trace : list (restaurant * string * visit)) (p : progress) : progress :=
  fold_left (fun p t => record t.1.1 (scrape t.1.2 t.1.1 t.2) p) trace p.

(** [if text and len(text) < 200: info['google_name'] = text.strip()] *)
Definition read_name (p : page) : json :=
  match h1_text p with
  | Some text =>
      if negb (PyStr.is_empty text) && (String.length text <? 200)
      then JStr (PyStr.strip text) else JNull
  | None => JNull
  end.

(** The progress file: [None] when it does not exist, else its text. *)
Abbreviation file := (option string).

Definition progress_to_json (p : progress) : json :=
  JObj [ ("scraped_ids", JArr (map JStr (scraped_ids p)));
         ("results", JArr (map JObj (results p)));
         ("failed", JArr (map JObj (failed p)));
         ("last_updated", PyDict.of_opt (last_updated p)) ]%string.

(** ** The dictionary as [json.load] returns it

    [load_progress] hands over whatever document the file holds, and
    [run_scraper] goes on to subscript it.  What Python does then is given
    here on every value a JSON text can stand for; an exception is told by
    the name of its class. *)

#[global] Instance attempt_bind : MBind attempt :=
  λ A B f x, match x with Got a => f a | Raised e => Raised e end.

(** [obj[key]]: only a [dict] takes a string between the brackets. *)
Definition getitem (key : string) (obj : json) : attempt json :=
  match obj with
  | JObj d =>
      match PyDict.get key d with
      | Some v => Got v
      | None => Raised "KeyError"
      end
  | _ => Raised "TypeError"
  end.

(** [obj[key] = value] *)
Definition setitem (key : string) (value obj : json) : attempt json :=
  match obj with
  | JObj d => Got (JObj (PyDict.set key value d))
  | _ => Raised "TypeError"
  end.

(** [len(obj)]: lists, strings and dictionaries have one. *)
Definition len (obj : json) : attempt nat :=
  match obj with
  | JArr l => Got (length l)
  | JStr s => Got (String.length s)
  | JObj d => Got (length d)
  | _ => Raised "TypeError"
  end.

(** [obj[key].append(item)]: only a list has [append]; the list is changed
    in place, so the key keeps its place in the dictionary. *)
Definition append (key : string) (item obj : json) : attempt json :=
  l ← getitem key obj;
  match l with
  | JArr items => setitem key (JArr (items ++ [item])) obj
  | _ => Raised "AttributeError"
  end.

(** Lists and dictionaries cannot be members of a [set]. *)
Definition hashable (v : json) : bool :=
  match v with
  | JArr _ | JObj _ => false
  | _ => true
  end.

Definition json_str (v : json) : option string :=
  match v with JStr s => Some s | _ => None end.

(** The strings that are members of [set(value)]: the strings among the
    items of a list, the characters of a string, the keys of a dictionary.
    A number, a boolean or [None] is not iterable.  The other members of
    the set are never equal to a string. *)
Definition str_items (value : json) : attempt (list string) :=
  match value with
  | JArr l => if forallb hashable l then Got (omap json_str l) else Raised "TypeError"
  | JStr s => Got ((λ c, String c EmptyString) <$> PyStr.chars s)
  | JObj d => Got d.*1
  | _ => Raised "TypeError"
  end.

(** [scraped_set = set(progress_data['scraped_ids'])], as the keys of the
    restaurants are looked up in it. *)
Definition scraped_set (progress_data : json) : attempt (gset string) :=
  ids ← getitem "scraped_ids" progress_data;
  items ← str_items ids;
  Got (list_to_set items).

End Common.

(** ** scripts/merge_google_data.py *)

Module Merge.

Definition similarity := Common.similarity.

Definition replacements : list (string * string) :=
  [ ("street", "st"); ("avenue", "ave"); ("boulevard", "blvd"); ("road", "rd");
    ("drive", "dr"); ("place", "pl"); ("court", "ct"); ("lane", "ln");
    ("  ", " ") ]%string.

(** The [for old, new in replacements] loop, on characters. *)
Definition apply_replacements (l : list ascii) : list ascii :=
  fold_left
    (fun addr on => PyStr.replace_chars (PyStr.chars (fst on)) (PyStr.chars (snd on)) addr)
    replacements l.

Definition normalize_chars (addr : list ascii) : list ascii :=
  let addr := PyStr.lower_chars addr in
  let addr := if bool_decide (","%char ∈ addr)
              then PyStr.before_first ","%char addr else addr in
  PyStr.strip_chars (apply_replacements addr).

Definition normalize_address (addr : string) : string :=
  if PyStr.is_empty addr then EmptyString
  else PyStr.str (normalize_chars (PyStr.chars addr)).

Definition address_similarity (addr1 addr2 : string) : Q :=
  let norm1 := normalize_address addr1 in
  let norm2 := normalize_address addr2 in
  similarity norm1 norm2.

(** The test of [merge_data] on a stored name score and the normalized
    address score. *)
Definition is_confident (name_sim addr_sim : Q) : bool :=
  (Qgtb name_sim (8 # 10) && Qgtb addr_sim (7 # 10))
  || (Qgtb name_sim (5 # 10) && Qgtb addr_sim (9 # 10)).

End Merge.

(** ** scripts/scrape_google_maps_parallel.py *)

Module Parallel.
Import Common.

Definition similarity := Common.similarity.
Definition build_search_query := Common.build_search_query.

Definition DEFAULT_WORKERS : nat := 5.

(** [load_progress()] *)
Definition empty_progress := Common.empty_progress.

(** One visit as the browser lives it, call by call.  [page.goto] and
    [page.url] stand under the [try] of [scrape_restaurant] and of
    [extract_place_info]; every other call stands in a block of its own,
    [try: ... except: pass].  A block is given as what it would assign
    ([None] when it comes to assign nothing) or as the error it meets:
    the wait for the main element, which assigns nothing; the text of the
    [h1]; the three strategies for the address and the three for the
    category, each with the value it would write. *)
Record session := Session {
  goto : attempt unit;
  url : attempt string;
  main_wait : attempt unit;
  name_block : attempt (option string);
  address_button : attempt (option string);
  address_label : attempt (option string);
  address_pattern : attempt (option string);
  category_buttons : attempt (option string);
  category_spans : attempt (option string);
  category_labels : attempt (option string)
}.

(** [try: block except: pass] *)
Definition guarded {A} (block : attempt (option A)) : option A :=
  match block with
  | Got x => x
  | Raised _ => None
  end.

(** [if not info[key]: try: block except: pass] *)
Definition fallback (value : option string) (block : attempt (option string))
  : option string :=
  if PyDict.truthy (Some (PyDict.of_opt value)) then value
  else match guarded block with
       | Some v => Some v
       | None => value
       end.

(** What the blocks leave to read. *)
Definition page_of (s : session) : page :=
  Page (url s)
       (guarded (name_block s))
       (fallback (fallback (guarded (address_button s)) (address_label s))
                 (address_pattern s))
       (fallback (fallback (guarded (category_buttons s)) (category_spans s))
                 (category_labels s))
       None None.

Definition visit_of (s : session) : visit :=
  match goto s with
  | Raised e => GotoRaised e
  | Got _ => Arrived (page_of s)
  end.

(** The same visit with every block that met an error finding nothing. *)
Definition quiet {A} (block : attempt (option A)) : attempt (option A) :=
  Got (guarded block).

Definition without_errors (s : session) : session :=
  Session (goto s) (url s) (Got tt)
          (quiet (name_block s))
          (quiet (address_button s)) (quiet (address_label s)) (quiet (address_pattern s))
          (quiet (category_buttons s)) (quiet (category_spans s))
          (quiet (category_labels s)).

Section Runtime.

(** The interpreter's [round(x, 2)] on a score, and the two ends of the
    [json] module. *)
Variable round2 : Q -> number.
Variable json_dumps : json -> string.
Variable json_loads : string -> option json.

Definition extract_place_info (p : page) : dict :=
  let info := [ ("found", JBool false); ("google_name", JNull);
                ("google_address", JNull); ("google_category", JNull);
                ("google_url", JNull) ]%string in
  match page_url p with
  | Raised e => PyDict.set "error" (JStr e) info
  | Got url =>
      let info := PyDict.set "google_url" (JStr url) info in
      let info := PyDict.set "google_name" (read_name p) info in
      let info := PyDict.set "google_address" (PyDict.of_opt (address_text p)) info in
      let info := PyDict.set "google_category" (PyDict.of_opt (category_text p)) info in
      PyDict.set "found" (JBool (PyDict.truthy (PyDict.get "google_name" info))) info
  end.

(** [addr_sim] of [scrape_restaurant]: 0 unless both addresses are there. *)
Definition addr_sim_of (restaurant : restaurant) (info : dict) : Q :=
  if PyDict.truthy (PyDict.get "google_address" info)
     && negb (PyStr.is_empty (address restaurant))
  then similarity (address restaurant) (PyDict.as_str (PyDict.get "google_address" info))
  else 0%Q.

Definition name_sim_of (restaurant : restaurant) (info : dict) : Q :=
  similarity (name restaurant) (PyDict.as_str (PyDict.get "google_name" info)).

(** [name_sim > 0.9 or (name_sim > 0.5 and addr_sim > 0.8)] *)
Definition confident_match (name_sim addr_sim : Q) : bool :=
  Qgtb name_sim (9 # 10) || (Qgtb name_sim (5 # 10) && Qgtb addr_sim (8 # 10)).

Definition scrape_restaurant (now : string) (restaurant : restaurant) (v : visit) : dict :=
  let result := base_result now restaurant in
  match v with
  | GotoRaised e =>
      PyDict.set "found" (JBool false) (PyDict.set "error" (JStr e) result)
  | Arrived p =>
      let info := extract_place_info p in
      let result := PyDict.update result info in
      if PyDict.truthy (PyDict.get "google_name" info) then
        let name_sim := name_sim_of restaurant info in
        let result := PyDict.set "name_similarity" (JNum (round2 name_sim)) result in
        let addr_sim := addr_sim_of restaurant info in
        let result :=
          if PyDict.truthy (PyDict.get "google_address" info)
             && negb (PyStr.is_empty (address restaurant))
          then PyDict.set "address_similarity" (JNum (round2 addr_sim)) result
          else result in
        PyDict.set "confident_match" (JBool (confident_match name_sim addr_sim)) result
      else result
  end.

(** What the outside gives the [n]-th task a worker takes: the clock
    reading and the visit. *)
Definition world : Type := nat -> string * visit.

(** One worker draining the queue alone. *)
Fixpoint worker (w : world) (tick : nat) (queue : list restaurant)
         (progress_data : progress) : progress :=
  match queue with
  | [] => progress_data
  | restaurant :: queue' =>
      let '(now, v) := w tick in
      let result := scrape_restaurant now restaurant v in
      worker w (S tick) queue' (record restaurant result progress_data)
  end.

(** Several workers on one queue.  A worker that is not busy takes the
    head of the queue; a busy one comes back from its visit and records.
    Nothing else touches the shared dictionary while a run lasts, apart
    from the stamping of [last_updated]. *)
Record pool := Pool {
  queue : list restaurant;
  busy : list (nat * restaurant);
  progress_data : progress
  }.

Inductive step (num_workers : nat) : pool -> pool -> Prop :=
  | step_take wid r q bs p :
    wid < num_workers -> wid ∉ bs.*1 ->
    step num_workers (Pool (r :: q) bs p) (Pool q ((wid, r) :: bs) p)
  | step_record wid r now v q bs1 bs2 p :
    step num_workers (Pool q (bs1 ++ (wid, r) :: bs2) p)
         (Pool q (bs1 ++ bs2) (record r (scrape_restaurant now r v) p)).

(** [load_progress()]: the document of the file when it exists, whatever
    it holds, else the empty dictionary.  A text that is no JSON raises in
    [json.load]. *)
Definition load_progress (f : file) : attempt json :=
  match f with
  | Some text =>
      match json_loads text with
      | Some v => Got v
      | None => Raised "JSONDecodeError"
      end
  | None => Got (progress_to_json empty_progress)
  end.

(** [save_progress(progress)]: stamps the dictionary it is given, then
    overwrites the file. *)
Definition save_progress (now : string) (p : progress) : progress * file :=
  let p' := Progress (scraped_ids p) (results p) (failed p) (Some now) in
  (p', Some (json_dumps (progress_to_json p'))).

(** The arguments of [run_scraper]. *)
Record args := Args {
  sample_size : option Z;
  resume : bool;
  num_workers : nat;
  prioritize_unspecified : bool
  }.

(** [progress_data = load_progress() if resume else {...}] *)
Definition initial_progress (a : args) (f : file) : attempt json :=
  if resume a then load_progress f else Got (progress_to_json empty_progress).

(** The next lines of [run_scraper]: the message
    [if resume and progress_data['scraped_ids']: print(... len(...) ...)],
    then [scraped_set = set(progress_data['scraped_ids'])]. *)
Definition scraped_keys (a : args) (progress_data : json) : attempt (gset string) :=
  _ ← (if resume a then
         ids ← getitem "scraped_ids" progress_data;
         if PyDict.truthy (Some ids) then len ids else Got 0
       else Got 0);
  scraped_set progress_data.

(** The queue of [run_scraper]. *)
Definition task_queue (a : args) (restaurants : list restaurant)
           (progress_data : progress) : list restaurant :=
  remaining_tasks (sample_size a) (prioritize_unspecified a) restaurants progress_data.

(** The verdict of a run started with the arguments [a]: [run_scraper]
    hands none of them to [scrape_restaurant]. *)
Definition verdict (a : args) (name_sim addr_sim : Q) : bool :=
  confident_match name_sim addr_sim.

End Runtime.
End Parallel.

(** ** scripts/scrape_google_maps.py *)

Module Single.
Import Common.

Definition similarity := Common.similarity.
Definition build_search_query := Common.build_search_query.
Definition empty_progress := Common.empty_progress.

Section Runtime.

Variable round2 : Q -> number.
Variable json_dumps : json -> string.
Variable json_loads : string -> option json.

Definition of_num (o : option number) : json :=
  match o with Some n => JNum n | None => JNull end.

Definition extract_place_info (p : page) : dict :=
  let info := [ ("found", JBool false); ("google_name", JNull);
                ("google_address", JNull); ("google_category", JNull);
                ("google_rating", JNull); ("google_reviews", JNull);
                ("google_url", JNull) ]%string in
  match page_url p with
  | Raised e => PyDict.set "error" (JStr e) info
  | Got url =>
      let info := PyDict.set "google_url" (JStr url) info in
      let info := PyDict.set "google_name" (read_name p) info in
      let info := PyDict.set "google_category" (PyDict.of_opt (category_text p)) info in
      let info := PyDict.set "google_rating" (of_num (rating_read p)) info in
      let info := PyDict.set "google_reviews"
                    (of_num (number_of_int <$> reviews_read p)) info in
      let info := PyDict.set "google_address" (PyDict.of_opt (address_text p)) info in
      PyDict.set "found" (JBool (PyDict.truthy (PyDict.get "google_name" info))) info
  end.

Definition name_sim_of (restaurant : restaurant) (info : dict) : Q :=
  similarity (name restaurant) (PyDict.as_str (PyDict.get "google_name" info)).

(** [name_sim > 0.7] *)
Definition confident_match (name_sim : Q) : bool := Qgtb name_sim (7 # 10).

Definition scrape_restaurant (now : string) (restaurant : restaurant) (v : visit) : dict :=
  let result := base_result now restaurant in
  match v with
  | GotoRaised e =>
      PyDict.set "found" (JBool false) (PyDict.set "error" (JStr e) result)
  | Arrived p =>
      let info := extract_place_info p in
      let result := PyDict.update result info in
      if PyDict.truthy (PyDict.get "google_name" info) then
        let name_sim := name_sim_of restaurant info in
        let result := PyDict.set "name_similarity" (JNum (round2 name_sim)) result in
        PyDict.set "confident_match" (JBool (confident_match name_sim)) result
      else result
  end.

Definition load_progress (f : file) : attempt json :=
  match f with
  | Some text =>
      match json_loads text with
      | Some v => Got v
      | None => Raised "JSONDecodeError"
      end
  | None => Got (progress_to_json empty_progress)
  end.

Definition save_progress (now : string) (p : progress) : progress * file :=
  let p' := Progress (scraped_ids p) (results p) (failed p) (Some now) in
  (p', Some (json_dumps (progress_to_json p'))).

Definition world : Type := nat -> string * visit.

(** The scrape loop of [run_scraper]: [for i, restaurant in
    enumerate(remaining)], with a save after every tenth restaurant.
    [clock i] is what the clock reads at that save. *)
Fixpoint scrape_loop (w : world) (clock : nat -> string) (i : nat)
         (remaining : list restaurant) (st : progress * file) : progress * file :=
  match remaining with
  | [] => st
  | restaurant :: remaining' =>
      let '(now, v) := w i in
      let result := scrape_restaurant now restaurant v in
      let p := record restaurant result (fst st) in
      let st' := if (i + 1) mod 10 =? 0 then save_progress (clock i) p
                 else (p, snd st) in
      scrape_loop w clock (S i) remaining' st'
  end.

Record args := Args {
  sample_size : option Z;
  resume : bool;
  prioritize_unspecified : bool
  }.

Definition initial_progress (a : args) (f : file) : attempt json :=
  if resume a then load_progress f else Got (progress_to_json empty_progress).

Definition scraped_keys (a : args) (progress_data : json) : attempt (gset string) :=
  _ ← (if resume a then
         ids ← getitem "scraped_ids" progress_data;
         if PyDict.truthy (Some ids) then len ids else Got 0
       else Got 0);
  scraped_set progress_data.

Definition task_queue (a : args) (restaurants : list restaurant)
           (progress_data : progress) : list restaurant :=
  remaining_tasks (sample_size a) (prioritize_unspecified a) restaurants progress_data.

(** The verdict of a run started with the arguments [a]. *)
Definition verdict (a : args) (name_sim : Q) : bool := confident_match name_sim.

End Runtime.
End Single.

(** Data for the worked inputs below. *)
Module Sample.
Import Common.

Definition joes : restaurant :=
  Restaurant "Joe's Pizza" "123 Bleecker St" "Pizza" "Manhattan".
Definition cafe : restaurant :=
  Restaurant "Cafe X" "1 Main St" "Asian (Unspecified)" "Queens".
Definition deli : restaurant :=
  Restaurant "Deli Y" "9 Elm Ave" "Sandwiches" "Bronx".

Definition joes_page : page :=
  Page (Got "https://www.google.com/maps/place/joes") (Some "Joe's Pizza")
       (Some "123 Bleecker Street, New York, NY") (Some "Pizza restaurant")
       None None.
Definition joes_page_no_address : page :=
  Page (Got "https://www.google.com/maps/place/joes") (Some "Joe's Pizza")
       None (Some "Pizza restaurant") None None.

(** A visit in which the wait for the main element and the read of the
    address button both time out, while the name and the category are
    read. *)
Definition joes_session : Parallel.session :=
  Parallel.Session
    (Got tt) (Got "https://www.google.com/maps/place/joes")
    (Raised "Timeout 5000ms exceeded.")
    (Got (Some "Joe's Pizza"))
    (Raised "Timeout 30000ms exceeded.") (Got None) (Got None)
    (Got (Some "Pizza restaurant")) (Got None) (Got None).

(** A stand-in for the interpreter's [round(x, 2)] on the worked inputs:
    two places, halves up. *)
Definition round2 (q : Q) : number :=
  let n := Z.to_N (Qfloor (q * 100 + (1 # 2))) in
  let d1 := JsonText.digit_of_N ((n mod 100) / 10) in
  let d2 := JsonText.digit_of_N (n mod 10) in
  Number false (n / 100)
         (if (n mod 10 =? 0)%N then d1 Decimal.Nil else d1 (d2 Decimal.Nil)).

Definition ten : list restaurant :=
  map (λ n, Restaurant n "1 Main St" "Pizza" "Queens")
      ["R0"; "R1"; "R2"; "R3"; "R4"; "R5"; "R6"; "R7"; "R8"; "R9"]%string.

Definition now : string := "2026-01-01T00:00:00".
Definition later : string := "2026-01-01T00:00:30".

Definition two_results : progress :=
  record cafe (Parallel.scrape_restaurant round2 now cafe (GotoRaised "timeout"))
    (record joes (Parallel.scrape_restaurant round2 now joes (Arrived joes_page))
       empty_progress).
End Sample.

(** ** The runs of the two scrapers, from [main] to the files *)

Module Runs.
Import Common.

(** [main]: [--all] gives no sample size, [--sample N] gives [N] unless it
    is 0, anything else the default of the script (100 for the parallel
    scraper, 10 for the single-stream one). *)
Definition main_sample_size (default : Z) (all : bool) (sample : option Z) : option Z :=
  if all then None
  else match sample with
       | Some n => if (n =? 0)%Z then Some default else Some n
       | None => Some default
       end.

(** The queue of [run_scraper], from the set it looks the keys up in:
    the restaurants whose key is not in the set, the "Unspecified" ones
    first when asked, cut to the sample size. *)
Definition task_queue (sample_size : option Z) (prioritize_unspecified : bool)
           (restaurants : list restaurant) (scraped_set : gset string)
  : list restaurant :=
  let remaining := filter (λ r, restaurant_id r ∉ scraped_set) restaurants in
  let remaining :=
    if prioritize_unspecified then
      let unspecified := filter (λ r, is_unspecified r = true) remaining in
      let specified := filter (λ r, is_unspecified r ≠ true) remaining in
      unspecified ++ specified
    else remaining in
  slice_to sample_size remaining.

(** The recording of one result on the dictionary the run holds, be it
    the fresh one or a loaded document:
    [progress_data['scraped_ids'].append(restaurant_id)], then
    [progress_data['results'].append(result)] or
    [progress_data['failed'].append(result)] on [result.get('found')]. *)
Definition record (r : restaurant) (result : dict) (progress_data : json)
  : attempt json :=
  progress_data ← append "scraped_ids" (JStr (restaurant_id r)) progress_data;
  if PyDict.truthy (PyDict.get "found" result)
  then append "results" (JObj result) progress_data
  else append "failed" (JObj result) progress_data.

(** A dictionary with a list under each of the three keys a run appends
    to, whatever else it holds or lacks. *)
Definition three_lists (progress_data : json) : Prop :=
  ∃ ids res fl,
    getitem "scraped_ids" progress_data = Got (JArr ids) ∧
    getitem "results" progress_data = Got (JArr res) ∧
    getitem "failed" progress_data = Got (JArr fl).

(** [save_results(results)]: what it hands to [json.dump], with
    [len(results)] under [count]. *)
Definition save_results (now : string) (results : json) : attempt json :=
  count ← len results;
  Got (JObj [ ("scraped_at", JStr now);
              ("count", JNum (number_of_int (Z.of_nat count)));
              ("results", results) ]%string).

(** The two files a run writes: the progress file as its text, the results
    file as the document written to it. *)
Record disk := Disk {
  progress_file : file;
  output_file : option json
}.

(** The pool of workers over the dictionary of the run. *)
Record pool := Pool {
  queue : list restaurant;
  busy : list (nat * restaurant);
  progress_data : json
}.

Section Runtime.

Variable round2 : Q → number.
Variable json_dumps : json → string.
Variable json_loads : string → option json.

(** [save_progress(progress)]: the stamp, then the file. *)
Definition save_progress (now : string) (progress : json) : attempt (json * file) :=
  progress ← setitem "last_updated" (JStr now) progress;
  Got (progress, Some (json_dumps progress)).

(** The first lines of [run_scraper] of the parallel scraper: the
    dictionary, the set of its keys, the queue. *)
Definition parallel_start (a : Parallel.args) (restaurants : list restaurant) (f : file)
  : attempt (json * list restaurant) :=
  progress_data ← Parallel.initial_progress json_loads a f;
  scraped_set ← Parallel.scraped_keys a progress_data;
  Got (progress_data,
       task_queue (Parallel.sample_size a) (Parallel.prioritize_unspecified a)
                  restaurants scraped_set).

(** A worker that is not busy takes the head of the queue; a busy one
    comes back from its visit and records, when the dictionary lets it. *)
Inductive step (num_workers : nat) : pool → pool → Prop :=
  | step_take wid r q bs d :
    wid < num_workers → wid ∉ bs.*1 →
    step num_workers (Pool (r :: q) bs d) (Pool q ((wid, r) :: bs) d)
  | step_record wid r now v q bs1 bs2 d d' :
    record r (Parallel.scrape_restaurant round2 now r v) d = Got d' →
    step num_workers (Pool q (bs1 ++ (wid, r) :: bs2) d) (Pool q (bs1 ++ bs2) d').

(** A worker that comes back and cannot record: nothing catches the
    exception in [worker], and [gather] hands it on to [run_scraper]. *)
Inductive crash : pool → string → Prop :=
  | crash_record wid r now v q bs1 bs2 d e :
    record r (Parallel.scrape_restaurant round2 now r v) d = Raised e →
    crash (Pool q (bs1 ++ (wid, r) :: bs2) d) e.

(** The end of [run_scraper] of the parallel scraper: the final save,
    [save_results(progress_data['results'])], and the summary, which takes
    the [len] of the three lists. *)
Definition parallel_finish (now1 now2 : string) (progress_data : json) : attempt disk :=
  saved ← save_progress now1 progress_data;
  results ← getitem "results" saved.1;
  output ← save_results now2 results;
  ids ← getitem "scraped_ids" saved.1;
  _ ← len ids;
  failed ← getitem "failed" saved.1;
  _ ← len failed;
  Got (Disk saved.2 (Some output)).

(** [run_scraper] of the parallel scraper, with [num_workers] as [argparse]
    hands it over, an [int] of any sign.  Nothing is written when nothing
    is queued; the estimate of the time divides by [num_workers]; with no
    worker started [gather] returns at once; else the workers run until one
    cannot record or until the queue is empty and each has come back.  The
    saves of [save_periodically] are overwritten by the final one, and
    what a run that raises leaves on the disk is not told.  [now1] and
    [now2] are the clock readings of [save_progress] and [save_results].
    The browser of each worker is taken to launch, the files to be
    writable and the durations the tracker averages to be above zero: a
    failure of Playwright's [launch], of [open] or of [print_status] is
    outside the relation. *)
Inductive parallel_run (sample_size : option Z) (resume : bool) (num_workers : Z)
          (prioritize_unspecified : bool) (restaurants : list restaurant) (d : disk)
  : attempt disk → Prop :=
| run_start_raised e :
  parallel_start
    (Parallel.Args sample_size resume (Z.to_nat num_workers) prioritize_unspecified)
    restaurants (progress_file d) = Raised e →
  parallel_run sample_size resume num_workers prioritize_unspecified restaurants d
    (Raised e)
| run_nothing p0 :
  parallel_start
    (Parallel.Args sample_size resume (Z.to_nat num_workers) prioritize_unspecified)
    restaurants (progress_file d) = Got (p0, []) →
  parallel_run sample_size resume num_workers prioritize_unspecified restaurants d
    (Got d)
| run_no_worker p0 remaining :
  parallel_start
    (Parallel.Args sample_size resume (Z.to_nat num_workers) prioritize_unspecified)
    restaurants (progress_file d) = Got (p0, remaining) →
  remaining ≠ [] →
  num_workers = 0%Z →
  parallel_run sample_size resume num_workers prioritize_unspecified restaurants d
    (Raised "ZeroDivisionError")
| run_idle p0 remaining now1 now2 :
  parallel_start
    (Parallel.Args sample_size resume (Z.to_nat num_workers) prioritize_unspecified)
    restaurants (progress_file d) = Got (p0, remaining) →
  remaining ≠ [] →
  (num_workers < 0)%Z →
  parallel_run sample_size resume num_workers prioritize_unspecified restaurants d
    (parallel_finish now1 now2 p0)
| run_crashed p0 remaining s e :
  parallel_start
    (Parallel.Args sample_size resume (Z.to_nat num_workers) prioritize_unspecified)
    restaurants (progress_file d) = Got (p0, remaining) →
  remaining ≠ [] →
  (0 < num_workers)%Z →
  rtc (step (Z.to_nat num_workers)) (Pool remaining [] p0) s →
  crash s e →
  parallel_run sample_size resume num_workers prioritize_unspecified restaurants d
    (Raised e)
| run_complete p0 remaining s' now1 now2 :
  parallel_start
    (Parallel.Args sample_size resume (Z.to_nat num_workers) prioritize_unspecified)
    restaurants (progress_file d) = Got (p0, remaining) →
  remaining ≠ [] →
  (0 < num_workers)%Z →
  rtc (step (Z.to_nat num_workers)) (Pool remaining [] p0) s' →
  queue s' = [] → busy s' = [] →
  parallel_run sample_size resume num_workers prioritize_unspecified restaurants d
    (parallel_finish now1 now2 (progress_data s')).

(** The first lines of [run_scraper] of the single-stream scraper. *)
Definition single_start (a : Single.args) (restaurants : list restaurant) (f : file)
  : attempt (json * list restaurant) :=
  progress ← Single.initial_progress json_loads a f;
  scraped_set ← Single.scraped_keys a progress;
  Got (progress,
       task_queue (Single.sample_size a) (Single.prioritize_unspecified a)
                  restaurants scraped_set).

(** The scrape loop of the single-stream scraper on the dictionary of the
    run: the recording, and after every tenth restaurant the save and its
    message, which takes the [len] of [results] and of [failed]. *)
Fixpoint scrape_loop (w : Single.world) (clock : nat → string) (i : nat)
         (remaining : list restaurant) (st : json * file) : attempt (json * file) :=
  match remaining with
  | [] => Got st
  | restaurant :: remaining' =>
      let '(now, v) := w i in
      let result := Single.scrape_restaurant round2 now restaurant v in
      progress ← record restaurant result st.1;
      st' ← (if (i + 1) mod 10 =? 0 then
               saved ← save_progress (clock i) progress;
               results ← getitem "results" saved.1;
               _ ← len results;
               failed ← getitem "failed" saved.1;
               _ ← len failed;
               Got saved
             else Got (progress, st.2));
      scrape_loop w clock (S i) remaining' st'
  end.

(** The end of [run_scraper] of the single-stream scraper: the final save,
    the results, and the summary, whose match rate divides by
    [len(progress['scraped_ids'])]. *)
Definition single_finish (now1 now2 : string) (progress : json) : attempt disk :=
  saved ← save_progress now1 progress;
  results ← getitem "results" saved.1;
  output ← save_results now2 results;
  ids ← getitem "scraped_ids" saved.1;
  scraped ← len ids;
  failed ← getitem "failed" saved.1;
  _ ← len failed;
  if scraped =? 0 then Raised "ZeroDivisionError"
  else Got (Disk saved.2 (Some output)).

(** [run_scraper] of the single-stream scraper: the loop, then the final
    save of the progress and of the results, the browser again taken to
    launch. *)
Definition single_run (a : Single.args) (restaurants : list restaurant)
           (w : Single.world) (clock : nat → string) (now1 now2 : string) (d : disk)
  : attempt disk :=
  started ← single_start a restaurants (progress_file d);
  match started.2 with
  | [] => Got d
  | _ :: _ =>
      st ← scrape_loop w clock 0 started.2 (started.1, progress_file d);
      single_finish now1 now2 st.1
  end.

End Runtime.
End Runs.

(** ** [ProgressTracker] of the parallel scraper *)

Module Tracker.
Section Durations.

(** The durations are differences of [time.time()]; the counters do not
    look into them. *)
Variable duration : Type.

Record tracker := Tracker {
  total : nat;
  completed : nat;
  found : nat;
  failed : nat;
  recent_times : list duration
}.

(** [ProgressTracker(total)] *)
Definition init (total : nat) : tracker := Tracker total 0 0 0 [].

(** [deque(maxlen=50).append(x)]: a full deque drops its oldest item. *)
Definition deque_append (q : list duration) (x : duration) : list duration :=
  if length q <? 50 then q ++ [x] else drop 1 q ++ [x].

(** [update(found, duration)], [found] being the truth value of what the
    worker passes. *)
Definition update (is_found : bool) (d : duration) (t : tracker) : tracker :=
  let completed := completed t + 1 in
  if is_found
  then Tracker (total t) completed (found t + 1) (failed t)
               (deque_append (recent_times t) d)
  else Tracker (total t) completed (found t) (failed t + 1)
               (deque_append (recent_times t) d).

(** A sequence of updates, each with the truth value and the duration it
    is passed. *)
Definition updates (us : list (bool * duration)) (t : tracker) : tracker :=
  fold_left (λ t u, update u.1 u.2 t) us t.

(** The guard of [get_eta]: it answers "calculating..." on it. *)
Definition eta_unknown (t : tracker) : bool :=
  match recent_times t with [] => true | _ => completed t =? 0 end.

(** One worker with the tracker beside the progress dictionary:
    [progress.update(found=result.get('found', False), duration=duration)]
    follows the recording. *)
Fixpoint worker (round2 : Q → number) (w : Parallel.world) (took : nat → duration)
         (tick : nat) (queue : list Common.restaurant)
         (st : Common.progress * tracker) : Common.progress * tracker :=
  match queue with
  | [] => st
  | restaurant :: queue' =>
      let '(now, v) := w tick in
      let result := Parallel.scrape_restaurant round2 now restaurant v in
      worker round2 w took (S tick) queue'
        (Common.record restaurant result st.1,
         update (PyDict.truthy (PyDict.get "found" result)) (took tick) st.2)
  end.

End Durations.
End Tracker.

(** ** scripts/category_mapping.py, as far as the merge stage and the map
    preparation call it *)

Module CategoryMapping.

(** [GOOGLE_TO_ETHNICITY], in the order of the source: the loop over its
    items follows it.  [None] marks a label too generic to map. *)
Definition GOOGLE_TO_ETHNICITY : list (string * option string) :=
  [ ("chinese restaurant", Some "Chinese"); ("cantonese restaurant", Some "Cantonese");
    ("dim sum restaurant", Some "Cantonese"); ("szechuan restaurant", Some "Sichuan");
    ("sichuan restaurant", Some "Sichuan"); ("hunan restaurant", Some "Hunan");
    ("shanghai restaurant", Some "Shanghainese");
    ("shanghainese restaurant", Some "Shanghainese"); ("beijing restaurant", Some "Beijing");
    ("hong kong style fast food restaurant", Some "Hong Kong");
    ("hong kong restaurant", Some "Hong Kong"); ("chinese bakery", Some "Chinese Bakery");
    ("taiwanese restaurant", Some "Taiwanese"); ("taiwanese noodle house", Some "Taiwanese");
    ("japanese restaurant", Some "Japanese"); ("sushi restaurant", Some "Sushi");
    ("ramen restaurant", Some "Ramen"); ("izakaya", Some "Japanese");
    ("udon restaurant", Some "Japanese"); ("tempura restaurant", Some "Japanese");
    ("teppanyaki restaurant", Some "Japanese"); ("yakitori restaurant", Some "Japanese");
    ("japanese curry restaurant", Some "Japanese"); ("tonkatsu restaurant", Some "Japanese");
    ("okonomiyaki restaurant", Some "Japanese"); ("korean restaurant", Some "Korean");
    ("korean bbq restaurant", Some "Korean BBQ");
    ("korean fried chicken restaurant", Some "Korean");
    ("vietnamese restaurant", Some "Vietnamese"); ("pho restaurant", Some "Vietnamese");
    ("banh mi shop", Some "Vietnamese"); ("thai restaurant", Some "Thai");
    ("laotian restaurant", Some "Laotian"); ("filipino restaurant", Some "Filipino");
    ("indonesian restaurant", Some "Indonesian"); ("malaysian restaurant", Some "Malaysian");
    ("singaporean restaurant", Some "Singaporean"); ("burmese restaurant", Some "Burmese");
    ("cambodian restaurant", Some "Cambodian"); ("tibetan restaurant", Some "Tibetan");
    ("indian restaurant", Some "Indian"); ("south indian restaurant", Some "South Indian");
    ("north indian restaurant", Some "North Indian"); ("punjabi restaurant", Some "Punjabi");
    ("gujarati restaurant", Some "Gujarati"); ("biryani restaurant", Some "Indian");
    ("dosa restaurant", Some "South Indian"); ("pakistani restaurant", Some "Pakistani");
    ("bangladeshi restaurant", Some "Bangladeshi"); ("nepalese restaurant", Some "Nepalese");
    ("sri lankan restaurant", Some "Sri Lankan"); ("afghan restaurant", Some "Afghan");
    ("middle eastern restaurant", Some "Middle Eastern (Unspecified)");
    ("lebanese restaurant", Some "Lebanese"); ("syrian restaurant", Some "Syrian");
    ("turkish restaurant", Some "Turkish"); ("persian restaurant", Some "Persian");
    ("iranian restaurant", Some "Persian"); ("israeli restaurant", Some "Israeli");
    ("moroccan restaurant", Some "Moroccan"); ("egyptian restaurant", Some "Egyptian");
    ("yemeni restaurant", Some "Yemeni"); ("palestinian restaurant", Some "Palestinian");
    ("jordanian restaurant", Some "Jordanian"); ("iraqi restaurant", Some "Iraqi");
    ("armenian restaurant", Some "Armenian"); ("georgian restaurant", Some "Georgian");
    ("azerbaijani restaurant", Some "Azerbaijani"); ("uzbek restaurant", Some "Uzbek");
    ("falafel restaurant", Some "Middle Eastern (Unspecified)");
    ("shawarma restaurant", Some "Middle Eastern (Unspecified)");
    ("kebab restaurant", Some "Middle Eastern (Unspecified)");
    ("hummus restaurant", Some "Middle Eastern (Unspecified)");
    ("italian restaurant", Some "Italian"); ("pizza restaurant", Some "Pizza");
    ("pizzeria", Some "Pizza"); ("neapolitan pizza restaurant", Some "Neapolitan Pizza");
    ("sicilian restaurant", Some "Sicilian"); ("tuscan restaurant", Some "Tuscan");
    ("french restaurant", Some "French"); ("bistro", Some "French");
    ("brasserie", Some "French"); ("spanish restaurant", Some "Spanish");
    ("tapas restaurant", Some "Spanish Tapas"); ("tapas bar", Some "Spanish Tapas");
    ("basque restaurant", Some "Basque"); ("catalan restaurant", Some "Catalan");
    ("portuguese restaurant", Some "Portuguese"); ("greek restaurant", Some "Greek");
    ("german restaurant", Some "German"); ("austrian restaurant", Some "Austrian");
    ("swiss restaurant", Some "Swiss"); ("polish restaurant", Some "Polish");
    ("russian restaurant", Some "Russian"); ("ukrainian restaurant", Some "Ukrainian");
    ("hungarian restaurant", Some "Hungarian"); ("czech restaurant", Some "Czech");
    ("romanian restaurant", Some "Romanian"); ("serbian restaurant", Some "Serbian");
    ("croatian restaurant", Some "Croatian"); ("bosnian restaurant", Some "Bosnian");
    ("bulgarian restaurant", Some "Bulgarian"); ("british restaurant", Some "British");
    ("irish restaurant", Some "Irish"); ("scottish restaurant", Some "Scottish");
    ("belgian restaurant", Some "Belgian"); ("dutch restaurant", Some "Dutch");
    ("scandinavian restaurant", Some "Scandinavian"); ("swedish restaurant", Some "Swedish");
    ("danish restaurant", Some "Danish"); ("norwegian restaurant", Some "Norwegian");
    ("finnish restaurant", Some "Finnish"); ("icelandic restaurant", Some "Icelandic");
    ("mediterranean restaurant", Some "Mediterranean (Unspecified)");
    ("mexican restaurant", Some "Mexican"); ("taqueria", Some "Mexican");
    ("tex-mex restaurant", Some "Tex-Mex"); ("oaxacan restaurant", Some "Oaxacan");
    ("yucatecan restaurant", Some "Yucatecan"); ("cuban restaurant", Some "Cuban");
    ("puerto rican restaurant", Some "Puerto Rican");
    ("dominican restaurant", Some "Dominican"); ("jamaican restaurant", Some "Jamaican");
    ("trinidadian restaurant", Some "Trinidadian"); ("haitian restaurant", Some "Haitian");
    ("guyanese restaurant", Some "Guyanese");
    ("caribbean restaurant", Some "Caribbean (Unspecified)");
    ("brazilian restaurant", Some "Brazilian");
    ("brazilian steakhouse", Some "Brazilian Steakhouse");
    ("churrascaria", Some "Brazilian Steakhouse"); ("peruvian restaurant", Some "Peruvian");
    ("ceviche restaurant", Some "Peruvian"); ("colombian restaurant", Some "Colombian");
    ("argentine restaurant", Some "Argentinian");
    ("argentinian restaurant", Some "Argentinian");
    ("argentine steakhouse", Some "Argentinian Steakhouse");
    ("venezuelan restaurant", Some "Venezuelan"); ("chilean restaurant", Some "Chilean");
    ("ecuadorian restaurant", Some "Ecuadorian"); ("bolivian restaurant", Some "Bolivian");
    ("uruguayan restaurant", Some "Uruguayan"); ("paraguayan restaurant", Some "Paraguayan");
    ("salvadoran restaurant", Some "Salvadoran"); ("guatemalan restaurant", Some "Guatemalan");
    ("honduran restaurant", Some "Honduran"); ("nicaraguan restaurant", Some "Nicaraguan");
    ("costa rican restaurant", Some "Costa Rican");
    ("panamanian restaurant", Some "Panamanian");
    ("latin american restaurant", Some "Latin American (Unspecified)");
    ("south american restaurant", Some "Latin American (Unspecified)");
    ("central american restaurant", Some "Latin American (Unspecified)");
    ("ethiopian restaurant", Some "Ethiopian"); ("eritrean restaurant", Some "Eritrean");
    ("nigerian restaurant", Some "Nigerian"); ("ghanaian restaurant", Some "Ghanaian");
    ("senegalese restaurant", Some "Senegalese"); ("ivorian restaurant", Some "Ivorian");
    ("cameroonian restaurant", Some "Cameroonian"); ("somali restaurant", Some "Somali");
    ("kenyan restaurant", Some "Kenyan"); ("ugandan restaurant", Some "Ugandan");
    ("tanzanian restaurant", Some "Tanzanian");
    ("south african restaurant", Some "South African");
    ("african restaurant", Some "African (Unspecified)");
    ("west african restaurant", Some "West African");
    ("east african restaurant", Some "East African");
    ("north african restaurant", Some "North African");
    ("american restaurant", Some "American"); ("new american restaurant", Some "New American");
    ("soul food restaurant", Some "Soul Food"); ("southern restaurant", Some "Southern");
    ("cajun restaurant", Some "Cajun"); ("creole restaurant", Some "Creole");
    ("cajun creole restaurant", Some "Cajun-Creole"); ("bbq restaurant", Some "BBQ");
    ("barbecue restaurant", Some "BBQ"); ("texas bbq", Some "Texas BBQ");
    ("smokehouse", Some "BBQ"); ("diner", Some "Diner"); ("steakhouse", Some "Steakhouse");
    ("seafood restaurant", Some "Seafood"); ("oyster bar", Some "Seafood");
    ("fish & chips restaurant", Some "Fish & Chips"); ("hamburger restaurant", Some "Burgers");
    ("burger restaurant", Some "Burgers"); ("hot dog restaurant", Some "Hot Dogs");
    ("sandwich shop", Some "Sandwiches"); ("deli", Some "Deli"); ("delicatessen", Some "Deli");
    ("jewish restaurant", Some "Jewish"); ("kosher restaurant", Some "Kosher");
    ("jewish deli", Some "Jewish Deli"); ("asian restaurant", Some "Asian (Unspecified)");
    ("asian fusion restaurant", Some "Asian Fusion");
    ("pan-asian restaurant", Some "Pan-Asian"); ("noodle shop", Some "Noodles");
    ("bar", Some "Bar"); ("cocktail bar", Some "Cocktail Bar"); ("wine bar", Some "Wine Bar");
    ("sports bar", Some "Sports Bar"); ("pub", Some "Pub"); ("irish pub", Some "Irish Pub");
    ("british pub", Some "British Pub"); ("gastropub", Some "Gastropub");
    ("bar & grill", Some "Bar & Grill"); ("beer hall", Some "Beer Hall");
    ("beer garden", Some "Beer Garden"); ("brewery", Some "Brewery");
    ("brewpub", Some "Brewpub"); ("cafe", Some "Cafe"); ("coffee shop", Some "Coffee Shop");
    ("tea house", Some "Tea House"); ("bubble tea store", Some "Bubble Tea");
    ("bakery", Some "Bakery"); ("pastry shop", Some "Pastry Shop");
    ("patisserie", Some "Patisserie"); ("dessert shop", Some "Dessert Shop");
    ("ice cream shop", Some "Ice Cream"); ("donut shop", Some "Donuts");
    ("bagel shop", Some "Bagels"); ("brunch restaurant", Some "Brunch");
    ("breakfast restaurant", Some "Breakfast"); ("pancake restaurant", Some "Pancakes");
    ("vegetarian restaurant", Some "Vegetarian"); ("vegan restaurant", Some "Vegan");
    ("health food restaurant", Some "Health Food"); ("juice bar", Some "Juice Bar");
    ("salad shop", Some "Salads"); ("acai shop", Some "Acai");
    ("food truck", Some "Food Truck"); ("street food restaurant", Some "Street Food");
    ("restaurant", None); ("fast food restaurant", Some "Fast Food");
    ("family restaurant", None); ("fine dining restaurant", Some "Fine Dining");
    ("buffet restaurant", Some "Buffet"); ("food court", None); ("catering service", None) ]%string.

(** [LOCATION_BASED_CATEGORIES]; a set, here only asked for membership. *)
Definition LOCATION_BASED_CATEGORIES : list string :=
  [ "Chinese"; "Japanese"; "Korean"; "Vietnamese"; "Thai"; "Filipino"; "Indonesian";
    "Malaysian"; "Singaporean"; "Burmese"; "Cambodian"; "Laotian"; "Tibetan"; "Taiwanese";
    "Cantonese"; "Sichuan"; "Hunan"; "Shanghainese"; "Beijing"; "Hong Kong"; "Indian";
    "Pakistani"; "Bangladeshi"; "Nepalese"; "Sri Lankan"; "Afghan"; "South Indian";
    "North Indian"; "Punjabi"; "Gujarati"; "Lebanese"; "Syrian"; "Turkish"; "Persian";
    "Israeli"; "Moroccan"; "Egyptian"; "Yemeni"; "Palestinian"; "Jordanian"; "Iraqi";
    "Armenian"; "Georgian"; "Azerbaijani"; "Uzbek"; "Italian"; "French"; "Spanish";
    "Portuguese"; "Greek"; "German"; "Austrian"; "Swiss"; "Polish"; "Russian"; "Ukrainian";
    "Hungarian"; "Czech"; "Romanian"; "Serbian"; "Croatian"; "Bosnian"; "Bulgarian"; "British";
    "Irish"; "Scottish"; "Belgian"; "Dutch"; "Swedish"; "Danish"; "Norwegian"; "Finnish";
    "Icelandic"; "Neapolitan Pizza"; "Sicilian"; "Tuscan"; "Basque"; "Catalan"; "Scandinavian";
    "Mexican"; "Cuban"; "Puerto Rican"; "Dominican"; "Jamaican"; "Trinidadian"; "Haitian";
    "Guyanese"; "Brazilian"; "Peruvian"; "Colombian"; "Argentinian"; "Venezuelan"; "Chilean";
    "Ecuadorian"; "Bolivian"; "Uruguayan"; "Paraguayan"; "Salvadoran"; "Guatemalan"; "Honduran";
    "Nicaraguan"; "Costa Rican"; "Panamanian"; "Oaxacan"; "Yucatecan"; "Tex-Mex"; "Ethiopian";
    "Eritrean"; "Nigerian"; "Ghanaian"; "Senegalese"; "Ivorian"; "Cameroonian"; "Somali";
    "Kenyan"; "Ugandan"; "Tanzanian"; "South African"; "American"; "New American"; "Southern";
    "Cajun"; "Creole"; "Cajun-Creole"; "Texas BBQ"; "Jewish"; "Kosher"; "Jewish Deli";
    "Soul Food"; "Caribbean (Unspecified)"; "Latin American (Unspecified)";
    "Middle Eastern (Unspecified)"; "African (Unspecified)"; "West African"; "East African";
    "North African"; "Mediterranean (Unspecified)"; "Asian (Unspecified)"; "Asian Fusion";
    "Pan-Asian" ]%string.

(** [FOOD_TYPE_CATEGORIES] *)
Definition FOOD_TYPE_CATEGORIES : list string :=
  [ "Sushi"; "Ramen"; "Pizza"; "Noodles"; "BBQ"; "Burgers"; "Seafood"; "Steakhouse";
    "Korean BBQ"; "Brazilian Steakhouse"; "Argentinian Steakhouse"; "Hot Dogs"; "Sandwiches";
    "Deli"; "Fish & Chips"; "Bar"; "Cocktail Bar"; "Wine Bar"; "Sports Bar"; "Pub"; "Irish Pub";
    "British Pub"; "Gastropub"; "Bar & Grill"; "Beer Hall"; "Beer Garden"; "Brewery"; "Brewpub";
    "Cafe"; "Coffee Shop"; "Tea House"; "Bubble Tea"; "Bistro"; "Brasserie"; "Diner"; "Bakery";
    "Chinese Bakery"; "Pastry Shop"; "Patisserie"; "Dessert Shop"; "Ice Cream"; "Donuts";
    "Bagels"; "Brunch"; "Breakfast"; "Pancakes"; "Vegetarian"; "Vegan"; "Health Food";
    "Juice Bar"; "Salads"; "Acai"; "Fast Food"; "Fine Dining"; "Buffet"; "Food Truck";
    "Street Food"; "Spanish Tapas" ]%string.

(** [SPECIFIC_TO_GENERAL]: a category and its immediate parent. *)
Definition SPECIFIC_TO_GENERAL : list (string * string) :=
  [ ("Cantonese", "Chinese"); ("Sichuan", "Chinese"); ("Hunan", "Chinese");
    ("Shanghainese", "Chinese"); ("Beijing", "Chinese"); ("Hong Kong", "Chinese");
    ("Taiwanese", "Chinese"); ("Chinese Bakery", "Chinese"); ("Chinese", "Asian");
    ("Sushi", "Japanese"); ("Ramen", "Japanese"); ("Japanese", "Asian");
    ("Korean BBQ", "Korean"); ("Korean", "Asian"); ("South Indian", "Indian");
    ("North Indian", "Indian"); ("Punjabi", "Indian"); ("Gujarati", "Indian");
    ("Indian", "South Asian"); ("Pakistani", "South Asian"); ("Bangladeshi", "South Asian");
    ("Nepalese", "South Asian"); ("Sri Lankan", "South Asian"); ("Afghan", "South Asian");
    ("South Asian", "Asian"); ("Filipino", "Southeast Asian");
    ("Indonesian", "Southeast Asian"); ("Malaysian", "Southeast Asian");
    ("Singaporean", "Southeast Asian"); ("Burmese", "Southeast Asian");
    ("Cambodian", "Southeast Asian"); ("Laotian", "Southeast Asian");
    ("Tibetan", "Southeast Asian"); ("Vietnamese", "Southeast Asian");
    ("Thai", "Southeast Asian"); ("Southeast Asian", "Asian"); ("Asian (Unspecified)", "Asian");
    ("Asian Fusion", "Asian"); ("Pan-Asian", "Asian"); ("Chinese-Japanese", "Asian");
    ("Chinese-Cuban", "Asian"); ("Southeast Asian (Unspecified)", "Southeast Asian");
    ("Fish & Chips", "English"); ("British", "English"); ("British Pub", "English");
    ("English", "Western European"); ("Irish", "Western European");
    ("Irish Pub", "Western European"); ("Scottish", "Western European");
    ("French", "Western European"); ("Bistro", "French"); ("Brasserie", "French");
    ("Patisserie", "French"); ("Basque", "Spanish"); ("Catalan", "Spanish");
    ("Spanish Tapas", "Spanish"); ("Tapas", "Spanish"); ("Spanish", "Western European");
    ("Sicilian", "Italian"); ("Tuscan", "Italian"); ("Italian", "Western European");
    ("Pizza", "Pizza Shop"); ("Neapolitan Pizza", "Pizza Shop");
    ("Portuguese", "Western European"); ("Greek", "Western European");
    ("Belgian", "Western European"); ("Dutch", "Western European");
    ("German", "Western European"); ("Austrian", "Western European");
    ("Swiss", "Western European"); ("Swedish", "Western European");
    ("Danish", "Western European"); ("Norwegian", "Western European");
    ("Finnish", "Western European"); ("Icelandic", "Western European");
    ("Scandinavian", "Western European"); ("Continental European", "Western European");
    ("Mediterranean", "Western European"); ("Mediterranean (Unspecified)", "Western European");
    ("Polish", "Eastern European"); ("Russian", "Eastern European");
    ("Ukrainian", "Eastern European"); ("Hungarian", "Eastern European");
    ("Czech", "Eastern European"); ("Romanian", "Eastern European");
    ("Serbian", "Eastern European"); ("Croatian", "Eastern European");
    ("Bosnian", "Eastern European"); ("Bulgarian", "Eastern European");
    ("Moldovan", "Eastern European"); ("Eastern European (Unspecified)", "Eastern European");
    ("Lebanese", "Middle Eastern"); ("Syrian", "Middle Eastern"); ("Turkish", "Middle Eastern");
    ("Persian", "Middle Eastern"); ("Iranian", "Middle Eastern"); ("Israeli", "Middle Eastern");
    ("Moroccan", "Middle Eastern"); ("Egyptian", "Middle Eastern");
    ("Yemeni", "Middle Eastern"); ("Palestinian", "Middle Eastern");
    ("Jordanian", "Middle Eastern"); ("Iraqi", "Middle Eastern");
    ("Armenian", "Middle Eastern"); ("Georgian", "Middle Eastern");
    ("Azerbaijani", "Middle Eastern"); ("Uzbek", "Middle Eastern");
    ("Cypriot", "Middle Eastern"); ("Middle Eastern (Unspecified)", "Middle Eastern");
    ("Ethiopian", "African"); ("Eritrean", "African"); ("Nigerian", "African");
    ("Ghanaian", "African"); ("Senegalese", "African"); ("Ivorian", "African");
    ("Cameroonian", "African"); ("Somali", "African"); ("Kenyan", "African");
    ("Ugandan", "African"); ("Tanzanian", "African"); ("South African", "African");
    ("West African", "African"); ("East African", "African"); ("North African", "African");
    ("African (Unspecified)", "African"); ("Tex-Mex", "Mexican"); ("Oaxacan", "Mexican");
    ("Yucatecan", "Mexican"); ("Mexican", "Latin American"); ("Brazilian", "Latin American");
    ("Peruvian", "Latin American"); ("Colombian", "Latin American");
    ("Argentinian", "Latin American"); ("Venezuelan", "Latin American");
    ("Chilean", "Latin American"); ("Ecuadorian", "Latin American");
    ("Bolivian", "Latin American"); ("Uruguayan", "Latin American");
    ("Paraguayan", "Latin American"); ("Salvadoran", "Latin American");
    ("Guatemalan", "Latin American"); ("Honduran", "Latin American");
    ("Nicaraguan", "Latin American"); ("Costa Rican", "Latin American");
    ("Panamanian", "Latin American"); ("Brazilian Steakhouse", "Latin American");
    ("Argentinian Steakhouse", "Latin American");
    ("Latin American (Unspecified)", "Latin American"); ("Jamaican", "Caribbean");
    ("Trinidadian", "Caribbean"); ("Haitian", "Caribbean"); ("Guyanese", "Caribbean");
    ("Cuban", "Caribbean"); ("Puerto Rican", "Caribbean"); ("Dominican", "Caribbean");
    ("Caribbean (Unspecified)", "Caribbean"); ("Southern", "American"); ("Cajun", "American");
    ("Creole", "American"); ("Cajun-Creole", "American"); ("Soul Food", "American");
    ("Texas BBQ", "American"); ("New American", "American"); ("BBQ", "American");
    ("Steakhouse", "American"); ("Juice Bar", "American"); ("Diner", "American");
    ("Brunch", "American"); ("Breakfast", "American"); ("Burgers", "American");
    ("Health Food", "American"); ("Vegan", "American"); ("Vegetarian", "American");
    ("Seafood", "American"); ("Hotel Food", "American"); ("Bar & Grill", "American");
    ("Deli", "American"); ("Hot Dogs", "American"); ("Sandwiches", "American");
    ("Salads", "American"); ("Acai", "American"); ("Pancakes", "American");
    ("Fine Dining", "American"); ("Southwestern", "American"); ("Buffet", "American");
    ("Hawaiian", "American"); ("Fast Food", "American"); ("Sports Bar", "Bar");
    ("Wine Bar", "Bar"); ("Cocktail Bar", "Bar"); ("Pub", "Bar"); ("Gastropub", "Bar");
    ("Beer Hall", "Bar"); ("Beer Garden", "Bar"); ("Brewery", "Bar"); ("Brewpub", "Bar");
    ("Kosher", "Jewish/Kosher"); ("Jewish", "Jewish/Kosher"); ("Jewish Deli", "Jewish/Kosher");
    ("Coffee Shop", "Cafe"); ("Tea House", "Cafe"); ("Bubble Tea", "Cafe");
    ("Pastry Shop", "Bakery"); ("Dessert Shop", "Bakery"); ("Ice Cream", "Bakery");
    ("Donuts", "Bakery"); ("Bagels", "Bakery") ]%string.

(** [d.get(k)] on a table with each key once. *)
Fixpoint lookup {V} (k : string) (d : list (string * V)) : option V :=
  match d with
  | [] => None
  | (k', v) :: d' => if decide (k' = k) then Some v else lookup k d'
  end.

(** [if x:] on a category that may be [None]. *)
Definition given (category : option string) : bool :=
  match category with
  | Some s => negb (PyStr.is_empty s)
  | None => false
  end.

(** [\w] on one code point. *)
Definition is_word (c : ascii) : bool :=
  let n := PyStr.code c in
  ((48 <=? n) && (n <=? 57)) || ((65 <=? n) && (n <=? 90)) || (n =? 95)
  || ((97 <=? n) && (n <=? 122)) || (n =? 170) || (n =? 178) || (n =? 179)
  || (n =? 181) || (n =? 185) || (n =? 186) || ((188 <=? n) && (n <=? 190))
  || ((192 <=? n) && (n <=? 214)) || ((216 <=? n) && (n <=? 246)) || (248 <=? n).

(** The longest head of [l] that [p] holds on, and what follows it. *)
Fixpoint span (p : ascii → bool) (l : list ascii) : list ascii * list ascii :=
  match l with
  | [] => ([], [])
  | c :: l' => if p c then let '(a, b) := span p l' in (c :: a, b) else ([], l)
  end.

(** [re.search(r'(\w+)\s+restaurant', s)], its group 1.  A match that
    starts at a word character takes the whole run of word characters, then
    the whole run of white space, since neither class meets the other nor
    the letter [r] is white space; the first start that matches wins. *)
Fixpoint search_cuisine (l : list ascii) : option (list ascii) :=
  match l with
  | [] => None
  | c :: l' =>
      if is_word c then
        let '(word, rest) := span is_word l in
        let '(blanks, rest') := span PyStr.is_space rest in
        if match blanks with [] => false | _ => true end
           && PyStr.starts_with (PyStr.chars "restaurant") rest'
        then Some word
        else search_cuisine l'
      else search_cuisine l'
  end.

(** [for google_cat, ethnicity in GOOGLE_TO_ETHNICITY.items(): if google_cat
    in normalized: return ethnicity] *)
Definition partial_match (normalized : string) : option (string * option string) :=
  List.find (λ kv, PyStr.contains kv.1 normalized) GOOGLE_TO_ETHNICITY.

Definition map_google_category (google_category : string) : option string :=
  if PyStr.is_empty google_category then None
  else
    let normalized := PyStr.strip (PyStr.lower google_category) in
    match lookup normalized GOOGLE_TO_ETHNICITY with
    | Some ethnicity => ethnicity
    | None =>
        match partial_match normalized with
        | Some (_, ethnicity) => ethnicity
        | None =>
            match search_cuisine (PyStr.chars normalized) with
            | Some cuisine_word =>
                let test_key := (PyStr.str cuisine_word +:+ " restaurant")%string in
                match lookup test_key GOOGLE_TO_ETHNICITY with
                | Some ethnicity => ethnicity
                | None => None
                end
            | None => None
            end
        end
    end.

Definition is_location_based (category : option string) : bool :=
  match category with
  | Some c => negb (PyStr.is_empty c) && bool_decide (c ∈ LOCATION_BASED_CATEGORIES)
  | None => false
  end.

Definition get_general_category (specific_cat : option string) : option string :=
  match specific_cat with
  | Some c =>
      if PyStr.is_empty c then None
      else Some (default c (lookup c SPECIFIC_TO_GENERAL))
  | None => None
  end.

(** The [while current in SPECIFIC_TO_GENERAL and current not in visited]
    loop of [get_category_chain]; [visited] is a set, asked for membership.
    The loop goes round at most once per key of the table, which is the
    fuel it is given. *)
Fixpoint climb (fuel : nat) (current : string) (visited : list string)
         (chain : list string) : list string :=
  match fuel with
  | O => chain
  | S fuel' =>
      match lookup current SPECIFIC_TO_GENERAL with
      | Some parent =>
          if bool_decide (current ∈ visited) then chain
          else climb fuel' parent (current :: visited) (chain ++ [parent])
      | None => chain
      end
  end.

(** Each item of [chain] but the last has the next one as its parent. *)
Fixpoint is_path (chain : list string) : bool :=
  match chain with
  | x :: (y :: _) as chain' =>
      bool_decide (lookup x SPECIFIC_TO_GENERAL = Some y) && is_path chain'
  | _ => true
  end.

Definition get_category_chain (category : option string) : list string :=
  match category with
  | Some c =>
      if PyStr.is_empty c then []
      else climb (S (length SPECIFIC_TO_GENERAL)) c [] [c]
  | None => []
  end.

(** The same loop in [get_top_level_category], which keeps [current] only. *)
Fixpoint climb_top (fuel : nat) (current : string) (visited : list string) : string :=
  match fuel with
  | O => current
  | S fuel' =>
      match lookup current SPECIFIC_TO_GENERAL with
      | Some parent =>
          if bool_decide (current ∈ visited) then current
          else climb_top fuel' parent (current :: visited)
      | None => current
      end
  end.

Definition get_top_level_category (category : option string) : option string :=
  match category with
  | Some c =>
      if PyStr.is_empty c then None
      else Some (climb_top (S (length SPECIFIC_TO_GENERAL)) c [])
  | None => None
  end.

Definition determine_final_categories (original_cat google_cat_mapped : option string)
  : option string * option string :=
  let final_specific :=
    if given google_cat_mapped && is_location_based google_cat_mapped
    then google_cat_mapped
    else if given original_cat && is_location_based original_cat then original_cat
    else if given google_cat_mapped then google_cat_mapped
    else original_cat in
  (final_specific, get_general_category final_specific).

Definition determine_final_category (original_cat google_cat_mapped : option string)
  : option string :=
  (determine_final_categories original_cat google_cat_mapped).1.

End CategoryMapping.

(** ** [merge_data] and [main] of scripts/merge_google_data.py

    The restaurants and the Google results are the dictionaries of the two
    JSON files.  Their values are read with the types [preprocess_data.py]
    and the scrapers write: strings under [name], [address], [category],
    [original_name], [original_address], [google_address],
    [google_category]; a number under [name_similarity]. *)

Module MergeData.

(** The value of a stored number.  A score is stored with two places, and
    for a decimal of up to 15 digits the comparison of its double with a
    threshold is the comparison of the decimals. *)
Definition number_to_Q (n : number) : Q :=
  let scale := (10 ^ N.of_nat (Decimal.nb_digits (fraction n)))%N in
  let magnitude :=
    Qmake (Z.of_N (whole n * scale + N.of_uint (fraction n)))
          (N.succ_pos (N.pred scale)) in
  if negative n then Qopp magnitude else magnitude.

(** [google_result.get('name_similarity', 0)] *)
Definition stored_score (v : option json) : number :=
  match v with
  | Some (JNum n) => n
  | _ => number_of_int 0
  end.

(** [l[:limit]] under [if limit:]: [None] and [0] leave the list whole, a
    negative limit drops from the end. *)
Definition slice {A} (limit : option Z) (l : list A) : list A :=
  match limit with
  | None => l
  | Some n =>
      if (n =? 0)%Z then l
      else if (0 <? n)%Z then take (Z.to_nat n) l
      else take (length l - Z.to_nat (- n)) l
  end.

(** [f"{name}|{address}"] *)
Definition create_lookup_key (name address : string) : string :=
  (name +:+ "|" +:+ address)%string.

Definition result_key (result : dict) : string :=
  create_lookup_key (PyDict.as_str (PyDict.get "original_name" result))
                    (PyDict.as_str (PyDict.get "original_address" result)).

Definition restaurant_key (restaurant : dict) : string :=
  create_lookup_key (PyDict.as_str (PyDict.get "name" restaurant))
                    (PyDict.as_str (PyDict.get "address" restaurant)).

(** [google_lookup[key] = result] for each result in turn. *)
Definition google_lookup (google_results : list dict) : gmap string dict :=
  fold_left (λ lookup result, <[result_key result := result]> lookup) google_results ∅.

Record stats := Stats {
  total_restaurants : nat;
  google_matches : nat;
  confident_matches : nat;
  low_confidence_skipped : nat;
  no_google_category : nat;
  matches : list dict
}.

(** [d.get(k)] as a value: [None] for a missing key. *)
Definition value (v : option json) : json := default JNull v.

Section Runtime.

(** [round(x, 2)] on a computed score and on a stored one. *)
Variable round2 : Q → number.
Variable round2_stored : number → number.

(** [addr_sim] of the loop: 0 unless both addresses are there. *)
Definition addr_sim_of (restaurant google_result : dict) : Q :=
  let google_addr := PyDict.get "google_address" google_result in
  let original_addr := PyDict.get "address" restaurant in
  if PyDict.truthy google_addr && PyDict.truthy original_addr
  then Merge.address_similarity (PyDict.as_str original_addr) (PyDict.as_str google_addr)
  else 0%Q.

Definition is_confident (restaurant google_result : dict) : bool :=
  Merge.is_confident
    (number_to_Q (stored_score (PyDict.get "name_similarity" google_result)))
    (addr_sim_of restaurant google_result).

Definition original_cat_of (restaurant : dict) : option string :=
  Some (PyDict.as_str (PyDict.get "category" restaurant)).

Definition mapped_of (google_result : dict) : option string :=
  CategoryMapping.map_google_category
    (PyDict.as_str (PyDict.get "google_category" google_result)).

Definition final_of (restaurant google_result : dict) : option string * option string :=
  CategoryMapping.determine_final_categories (original_cat_of restaurant)
                                             (mapped_of google_result).

(** [google_result.get('google_category', '')] *)
Definition google_cat_of (google_result : dict) : json :=
  default (JStr EmptyString) (PyDict.get "google_category" google_result).

(** The entry appended to [stats['matches']]. *)
Definition match_entry (restaurant google_result : dict) : dict :=
  [ ("name", value (PyDict.get "name" restaurant));
    ("address", value (PyDict.get "address" restaurant));
    ("original_category", default (JStr EmptyString) (PyDict.get "category" restaurant));
    ("google_category", google_cat_of google_result);
    ("mapped_category", PyDict.of_opt (mapped_of google_result));
    ("final_cat_specific", PyDict.of_opt (final_of restaurant google_result).1);
    ("final_cat_general", PyDict.of_opt (final_of restaurant google_result).2);
    ("name_similarity",
     JNum (round2_stored (stored_score (PyDict.get "name_similarity" google_result))));
    ("address_similarity", JNum (round2 (addr_sim_of restaurant google_result))) ]%string.

(** The eight assignments to [restaurant[...]]. *)
Definition enrich (restaurant google_result : dict) : dict :=
  let r := PyDict.set "google_name" (value (PyDict.get "google_name" google_result))
                      restaurant in
  let r := PyDict.set "google_address"
                      (default (JStr EmptyString) (PyDict.get "google_address" google_result))
                      r in
  let r := PyDict.set "google_category" (google_cat_of google_result) r in
  let r := PyDict.set "google_category_mapped" (PyDict.of_opt (mapped_of google_result)) r in
  let r := PyDict.set "final_cat_specific"
                      (PyDict.of_opt (final_of restaurant google_result).1) r in
  let r := PyDict.set "final_cat_general"
                      (PyDict.of_opt (final_of restaurant google_result).2) r in
  let r := PyDict.set "name_similarity"
             (JNum (round2_stored (stored_score (PyDict.get "name_similarity" google_result))))
             r in
  PyDict.set "address_similarity" (JNum (round2 (addr_sim_of restaurant google_result))) r.

(** One turn of [for restaurant in restaurants]. *)
Definition merge_one (dry_run : bool) (lookup : gmap string dict)
           (st : stats) (restaurant : dict) : dict * stats :=
  match lookup !! restaurant_key restaurant with
  | None => (restaurant, st)
  | Some google_result =>
      let google_matches := google_matches st + 1 in
      if negb (is_confident restaurant google_result) then
        (restaurant,
         Stats (total_restaurants st) google_matches (confident_matches st)
               (low_confidence_skipped st + 1) (no_google_category st) (matches st))
      else
        let confident_matches := confident_matches st + 1 in
        if negb (PyDict.truthy (PyDict.get "google_category" google_result)) then
          (restaurant,
           Stats (total_restaurants st) google_matches confident_matches
                 (low_confidence_skipped st) (no_google_category st + 1) (matches st))
        else
          (if dry_run then restaurant else enrich restaurant google_result,
           Stats (total_restaurants st) google_matches confident_matches
                 (low_confidence_skipped st) (no_google_category st)
                 (matches st ++ [match_entry restaurant google_result]))
  end.

(** The loop, with the restaurants it has been through. *)
Fixpoint merge_loop (dry_run : bool) (lookup : gmap string dict)
         (restaurants : list dict) (st : stats) : list dict * stats :=
  match restaurants with
  | [] => ([], st)
  | restaurant :: restaurants' =>
      let '(restaurant', st') := merge_one dry_run lookup st restaurant in
      let '(rest, st'') := merge_loop dry_run lookup restaurants' st' in
      (restaurant' :: rest, st'')
  end.

(** [merge_data(original_data, google_data, dry_run, limit)], on the list
    under [restaurants] and the list under [results]; the first component
    is the list the returned data holds under [restaurants]. *)
Definition merge_data (restaurants google_results : list dict)
           (dry_run : bool) (limit : option Z) : list dict * stats :=
  let restaurants := slice limit restaurants in
  merge_loop dry_run (google_lookup google_results) restaurants
             (Stats (length restaurants) 0 0 0 0 []).

(** [main]: what is written to [restaurants_enriched.json], if anything. *)
Definition main (restaurants google_results : list dict)
           (dry_run : bool) (limit : option Z) : option (list dict) :=
  let '(merged, st) := merge_data restaurants google_results dry_run limit in
  if negb dry_run && (0 <? confident_matches st) then Some merged else None.

End Runtime.

(** The keys [enrich] writes. *)
Definition enrichment_keys : list string :=
  [ "google_name"; "google_address"; "google_category"; "google_category_mapped";
    "final_cat_specific"; "final_cat_general"; "name_similarity";
    "address_similarity" ]%string.

End MergeData.

(** ** [clean_address] of the parallel scraper

    The text of a page is not Latin-1: the function removes the icons of the
    private use area.  Here a text is the list of its code points. *)

Module CleanAddress.

Abbreviation text := (list N).

Definition newline : N := 10%N.
Definition blank : N := 32%N.
Definition comma : N := 44%N.

(** [\s] on one code point, the white space of Unicode. *)
Definition is_space (c : N) : bool :=
  (((9 <=? c) && (c <=? 13)) || ((28 <=? c) && (c <=? 32)) || (c =? 133) || (c =? 160)
   || (c =? 5760) || ((8192 <=? c) && (c <=? 8202)) || (c =? 8232) || (c =? 8233)
   || (c =? 8239) || (c =? 8287) || (c =? 12288))%N.

(** [[\ue000-\uf8ff]] *)
Definition is_private (c : N) : bool := ((57344 <=? c) && (c <=? 63743))%N.

(** [re.sub(r'[\ue000-\uf8ff]', '', text)] *)
Definition drop_private (l : text) : text :=
  List.filter (λ c, negb (is_private c)) l.

(** [re.sub(r'\n+', ', ', text)]; [in_run] tells that the previous code point
    was a newline already replaced. *)
Fixpoint sub_newlines (in_run : bool) (l : text) : text :=
  match l with
  | [] => []
  | c :: l' =>
      if (c =? newline)%N
      then (if in_run then sub_newlines true l'
            else comma :: blank :: sub_newlines true l')
      else c :: sub_newlines false l'
  end.

Fixpoint skip_spaces (l : text) : text :=
  match l with
  | c :: l' => if is_space c then skip_spaces l' else l
  | [] => []
  end.

(** [re.sub(r',\s*,', ',', text)]: at a comma, the white space after it and
    a second comma are replaced with the comma, and the scan goes on after
    the second comma; matches do not overlap.  The fuel is the length of
    what is left to scan. *)
Fixpoint sub_commas (fuel : nat) (l : text) : text :=
  match fuel with
  | O => l
  | S fuel' =>
      match l with
      | [] => []
      | c :: l' =>
          if (c =? comma)%N then
            match skip_spaces l' with
            | d :: rest =>
                if (d =? comma)%N then comma :: sub_commas fuel' rest
                else c :: sub_commas fuel' l'
            | [] => c :: sub_commas fuel' l'
            end
          else c :: sub_commas fuel' l'
      end
  end.

(** [re.sub(r'\s+', ' ', text)] *)
Fixpoint sub_spaces (in_run : bool) (l : text) : text :=
  match l with
  | [] => []
  | c :: l' =>
      if is_space c
      then (if in_run then sub_spaces true l' else blank :: sub_spaces true l')
      else c :: sub_spaces false l'
  end.

(** [text.strip(' ,')] *)
Definition is_edge (c : N) : bool := ((c =? blank) || (c =? comma))%N.

Fixpoint lstrip (l : text) : text :=
  match l with
  | c :: l' => if is_edge c then lstrip l' else l
  | [] => []
  end.

Definition strip (l : text) : text := rev (lstrip (rev (lstrip l))).

Definition clean_address (t : text) : option text :=
  match t with
  | [] => None
  | _ =>
      let t := drop_private t in
      let t := sub_newlines false t in
      let t := sub_commas (length t) t in
      let t := sub_spaces false t in
      let t := strip t in
      match t with [] => None | _ => Some t end
  end.

(** No two blanks touch in [l], when [after_blank] tells that a blank stands
    right before it. *)
Fixpoint blanks_apart (after_blank : bool) (l : text) : bool :=
  match l with
  | [] => true
  | c :: l' =>
      if (c =? blank)%N then negb after_blank && blanks_apart true l'
      else blanks_apart false l'
  end.

(** A code point the cleaning has nothing against: no white space, no
    comma, no icon. *)
Definition is_core (c : N) : bool :=
  negb (is_space c) && negb (c =? comma)%N && negb (is_private c).

(** The code points of a Latin-1 string. *)
Definition of_string (s : string) : text :=
  (λ c, N.of_nat (PyStr.code c)) <$> PyStr.chars s.

End CleanAddress.

(** ** A sequence matched with itself: what [find_longest_match] keeps true *)

Module Diagonal.
Section Same.

Context {A : Type} `{EqDecision A}.
Variable a : list A.

(** The element at [i] is in [b2j]: it is not popular. *)
Definition live (i : nat) : bool :=
  match a !! i with
  | Some x => negb (Difflib.popular a x)
  | None => false
  end.

(** The length of the run of such elements that ends at [i]. *)
Fixpoint run (i : nat) : nat :=
  if live i then S (match i with O => 0 | S i' => run i' end) else 0.

(** The run that ends right before [i]. *)
Definition prev_run (i : nat) : nat :=
  match i with O => 0 | S i' => run i' end.

(** [j2len] when row [i] is about to be scanned: no length is above the
    runs that end at the two indices before, and the diagonal holds the
    run. *)
Definition row_inv (i : nat) (j2len : gmap nat nat) : Prop :=
  (∀ j k, j2len !! j = Some k → k ≤ prev_run i ∧ k ≤ run j) ∧
  Difflib.j2len_get j2len i = prev_run i.

(** The best block when row [i] is about to be scanned: it lies on the
    diagonal and is no shorter than any run met so far. *)
Definition best_inv (i : nat) (bst : Difflib.best) : Prop :=
  Difflib.besti bst = Difflib.bestj bst ∧
  ∀ t, t < i → run t ≤ Difflib.bestsize bst.

End Same.
End Diagonal.

(** * Properties *)

(** ** The matcher stays inside its windows *)

Module DifflibFacts.
Import Difflib.
Section Bounds.

Context {A : Type} `{EqDecision A}.
Variables a b : list A.

Lemma row_ok_empty rows blo : row_ok rows blo ∅.
Proof. intros j k Hjk. by rewrite lookup_empty in Hjk. Qed.

Lemma j2len_get_bound rows blo m j :
  row_ok rows blo m → blo ≤ j →
  j2len_get m j ≤ rows ∧ j2len_get m j ≤ j - blo.
Proof.
  intros Hm Hj. destruct j as [|j']; simpl; [lia|].
  destruct (m !! j') as [k|] eqn:E; simpl; [|lia].
  destruct (Hm _ _ E) as (? & ? & ?). lia.
Qed.

Lemma scan_row_inside i alo ahi blo bhi j2len js bst new :
  alo ≤ i → i < ahi →
  row_ok (i - alo) blo j2len →
  inside alo ahi blo bhi bst →
  row_ok (S i - alo) blo new →
  inside alo ahi blo bhi (scan_row i blo bhi j2len js bst new).1 ∧
  row_ok (S i - alo) blo (scan_row i blo bhi j2len js bst new).2.
Proof.
  intros Hlo Hhi Hprev. revert bst new.
  induction js as [|j js IH]; intros bst new Hbst Hnew; simpl; [done|].
  destruct (j <? blo) eqn:Ejlo; [by apply IH|].
  destruct (bhi <=? j) eqn:Ejhi; [done|].
  apply Nat.ltb_ge in Ejlo. apply Nat.leb_gt in Ejhi.
  destruct (j2len_get_bound _ _ _ j Hprev Ejlo) as [Hk1 Hk2].
  assert (Hnew' : row_ok (S i - alo) blo (<[j := j2len_get j2len j + 1]> new)).
  { intros j0 k0. rewrite lookup_insert. case_decide.
    - intros [= <-]. subst j0. lia.
    - apply Hnew. }
  destruct (bestsize bst <? j2len_get j2len j + 1); apply IH; try done.
  unfold inside; simpl. lia.
Qed.

Lemma scan_rows_inside n i alo ahi blo bhi j2len bst :
  alo ≤ i → i + n = ahi →
  row_ok (i - alo) blo j2len →
  inside alo ahi blo bhi bst →
  inside alo ahi blo bhi (scan_rows a b n i blo bhi j2len bst).
Proof.
  revert i j2len bst. induction n as [|n IH]; intros i j2len bst Hlo Hn Hrow Hbst;
    simpl; [done|].
  destruct (scan_row i blo bhi j2len _ bst ∅) as [bst' new] eqn:E.
  assert (Hrowi : inside alo ahi blo bhi bst' ∧ row_ok (S i - alo) blo new).
  { pose proof (scan_row_inside i alo ahi blo bhi j2len
                  (match a !! i with Some x => b2j b x | None => [] end) bst ∅) as Hr.
    rewrite E in Hr. apply Hr; try done; try lia; try apply row_ok_empty. }
  destruct Hrowi as [Hb' Hn'].
  apply IH; try done; lia.
Qed.

Lemma extend_left_inside alo ahi blo bhi i j k :
  inside alo ahi blo bhi (Best i j k) →
  inside alo ahi blo bhi (extend_left a b alo blo i j k).
Proof.
  revert j k. induction i as [|i IH]; intros j k Hin; simpl; [done|].
  destruct j as [|j]; [done|].
  destruct ((alo <? S i) && (blo <? S j) && same_at a b i j) eqn:E; [|done].
  apply andb_prop in E as [E _]. apply andb_prop in E as [E1 E2].
  apply Nat.ltb_lt in E1, E2.
  apply IH. unfold inside in *; simpl in *. lia.
Qed.

Lemma extend_right_inside n ahi bhi i j k :
  i + k ≤ ahi → j + k ≤ bhi →
  k ≤ extend_right a b n ahi bhi i j k ∧
  i + extend_right a b n ahi bhi i j k ≤ ahi ∧
  j + extend_right a b n ahi bhi i j k ≤ bhi.
Proof.
  revert k. induction n as [|n IH]; intros k Hi Hj; simpl; [lia|].
  destruct ((i + k <? ahi) && (j + k <? bhi) && same_at a b (i + k) (j + k)) eqn:E;
    [|lia].
  apply andb_prop in E as [E _]. apply andb_prop in E as [E1 E2].
  apply Nat.ltb_lt in E1, E2.
  destruct (IH (S k)) as (? & ? & ?); lia.
Qed.

Lemma find_longest_match_inside alo ahi blo bhi :
  alo ≤ ahi → blo ≤ bhi →
  inside alo ahi blo bhi (find_longest_match a b alo ahi blo bhi).
Proof.
  intros Ha Hb. unfold find_longest_match.
  set (b0 := scan_rows a b (ahi - alo) alo blo bhi ∅ (Best alo blo 0)).
  assert (H0 : inside alo ahi blo bhi b0).
  { apply scan_rows_inside; try lia.
    - apply row_ok_empty.
    - unfold inside; simpl; lia. }
  set (b1 := extend_left a b alo blo (besti b0) (bestj b0) (bestsize b0)).
  assert (H1 : inside alo ahi blo bhi b1).
  { apply extend_left_inside. by destruct b0. }
  destruct H1 as (? & ? & ? & ?).
  destruct (extend_right_inside (ahi - (besti b1 + bestsize b1)) ahi bhi
              (besti b1) (bestj b1) (bestsize b1)) as (? & ? & ?); try lia.
  unfold inside; simpl. lia.
Qed.

(** The count handed to [extend_right] is enough: when it returns, the
    test of the [while] is false. *)
Lemma extend_right_stops n ahi bhi i j :
  ∀ k, ahi - (i + k) ≤ n →
       let k' := extend_right a b n ahi bhi i j k in
       (i + k' <? ahi) && (j + k' <? bhi) && same_at a b (i + k') (j + k') = false.
Proof.
  induction n as [|n IH]; intros k Hn; simpl.
  - rewrite (proj2 (Nat.ltb_ge (i + k) ahi)) by lia. done.
  - destruct ((i + k <? ahi) && (j + k <? bhi) && same_at a b (i + k) (j + k)) eqn:E;
      [|done].
    apply IH. lia.
Qed.

(** *** The queue of [get_matching_blocks] *)

Lemma sum_with_cons {X} (f : X → nat) x l :
  sum_list_with f (x :: l) = f x + sum_list_with f l.
Proof. reflexivity. Qed.

Lemma drain_step fuel alo ahi blo bhi q acc :
  drain a b (S fuel) ((alo, ahi, blo, bhi) :: q) acc
  = let x := find_longest_match a b alo ahi blo bhi in
    if bestsize x =? 0 then drain a b fuel q acc
    else
      let q1 := if (alo <? besti x) && (blo <? bestj x)
                then (alo, besti x, blo, bestj x) :: q else q in
      let q2 := if (besti x + bestsize x <? ahi) && (bestj x + bestsize x <? bhi)
                then (besti x + bestsize x, ahi, bestj x + bestsize x, bhi) :: q1
                else q1 in
      drain a b fuel q2 (acc ++ [(besti x, bestj x, bestsize x)]).
Proof. reflexivity. Qed.

Lemma drain_bound (width : region → nat) fuel q acc :
  (∀ alo ahi blo bhi x, inside alo ahi blo bhi x →
     bestsize x
       + width (alo, besti x, blo, bestj x)
       + width (besti x + bestsize x, ahi, bestj x + bestsize x, bhi)
     ≤ width (alo, ahi, blo, bhi)) →
  Forall region_ok q →
  sum_list_with block_size (drain a b fuel q acc).2
    + sum_list_with width (drain a b fuel q acc).1
  ≤ sum_list_with block_size acc + sum_list_with width q.
Proof.
  intros Hw. revert q acc.
  induction fuel as [|fuel IH]; intros q acc Hq; [done|].
  destruct q as [|[[[alo ahi] blo] bhi] q]; [simpl; lia|].
  rewrite drain_step.
  apply Forall_cons in Hq as [[Ha Hb] Hq].
  pose proof (find_longest_match_inside alo ahi blo bhi Ha Hb) as Hin.
  set (x := find_longest_match a b alo ahi blo bhi) in *.
  pose proof (Hw _ _ _ _ _ Hin) as Hx. cbv zeta. clearbody x.
  rewrite sum_with_cons.
  destruct Hin as (H1 & H2 & H3 & H4).
  destruct (bestsize x =? 0) eqn:Ek.
  { etrans; [apply IH; done|]. lia. }
  set (q1 := if (alo <? besti x) && (blo <? bestj x)
             then (alo, besti x, blo, bestj x) :: q else q).
  set (q2 := if (besti x + bestsize x <? ahi) && (bestj x + bestsize x <? bhi)
             then (besti x + bestsize x, ahi, bestj x + bestsize x, bhi) :: q1 else q1).
  assert (Hq1 : Forall region_ok q1 ∧
                sum_list_with width q1
                ≤ width (alo, besti x, blo, bestj x) + sum_list_with width q).
  { unfold q1. destruct ((alo <? besti x) && (blo <? bestj x)).
    - split; [apply Forall_cons; split; [red; lia | done] | rewrite sum_with_cons; lia].
    - split; [done | lia]. }
  destruct Hq1 as [Hq1 Hs1].
  assert (Hq2 : Forall region_ok q2 ∧
                sum_list_with width q2
                ≤ width (besti x + bestsize x, ahi, bestj x + bestsize x, bhi)
                  + sum_list_with width q1).
  { unfold q2.
    destruct ((besti x + bestsize x <? ahi) && (bestj x + bestsize x <? bhi)).
    - split; [apply Forall_cons; split; [red; lia | done] | rewrite sum_with_cons; lia].
    - split; [done | lia]. }
  destruct Hq2 as [Hq2 Hs2].
  etrans; [apply IH; done|].
  rewrite sum_list_with_app. unfold block_size. simpl. lia.
Qed.

Lemma drain_done fuel q acc :
  Forall region_ok q →
  sum_list_with weight q ≤ fuel →
  (drain a b fuel q acc).1 = [].
Proof.
  revert q acc. induction fuel as [|fuel IH]; intros q acc Hq Hf.
  { destruct q as [|r q]; [done|]. simpl in Hf. unfold weight in Hf. lia. }
  destruct q as [|[[[alo ahi] blo] bhi] q]; [done|].
  rewrite drain_step.
  apply Forall_cons in Hq as [[Ha Hb] Hq].
  pose proof (find_longest_match_inside alo ahi blo bhi Ha Hb) as Hin.
  set (x := find_longest_match a b alo ahi blo bhi) in *.
  destruct Hin as (H1 & H2 & H3 & H4). cbv zeta. clearbody x.
  simpl in Hf. unfold weight at 1 in Hf. simpl in Hf.
  destruct (bestsize x =? 0) eqn:Ek.
  { apply IH; [done | lia]. }
  apply Nat.eqb_neq in Ek.
  destruct ((alo <? besti x) && (blo <? bestj x)) eqn:E1;
    destruct ((besti x + bestsize x <? ahi) && (bestj x + bestsize x <? bhi)) eqn:E2;
    (apply IH;
     [ repeat (apply Forall_cons; split); try done; red; lia
     | rewrite ?sum_with_cons; unfold weight, width_a in *; simpl in *; lia ]).
Qed.

Lemma collapse_sum cur na bs :
  sum_list_with block_size (collapse cur na bs).2 + block_size (collapse cur na bs).1
  = sum_list_with block_size na + block_size cur + sum_list_with block_size bs.
Proof.
  revert cur na. induction bs as [|[[i2 j2] k2] bs IH]; intros [[i1 j1] k1] na; simpl.
  { unfold block_size; simpl; lia. }
  destruct ((i1 + k1 =? i2) && (j1 + k1 =? j2)).
  - rewrite IH. unfold block_size; simpl. lia.
  - rewrite IH. destruct (k1 =? 0) eqn:Ek.
    + apply Nat.eqb_eq in Ek. unfold block_size; simpl. lia.
    + rewrite sum_list_with_app. unfold block_size; simpl. lia.
Qed.

(** [ratio()] sums what the queue loop found: the sort and the collapsing
    keep the sum, and the closing dummy adds none. *)
Lemma matches_drain :
  matches a b
  = sum_list_with block_size (drain a b (drain_fuel a) [(0, length a, 0, length b)] []).2.
Proof.
  unfold matches, get_matching_blocks.
  set (mb := (drain a b (drain_fuel a) [(0, length a, 0, length b)] []).2).
  pose proof (collapse_sum (0, 0, 0) [] (merge_sort block_le mb)) as Hc.
  destruct (collapse (0, 0, 0) [] (merge_sort block_le mb)) as [[[i1 j1] k1] na].
  simpl in Hc. rewrite (merge_sort_Permutation block_le mb) in Hc.
  rewrite sum_list_with_app. simpl.
  destruct (k1 =? 0) eqn:Ek.
  - apply Nat.eqb_eq in Ek. unfold block_size in *; simpl in *. lia.
  - rewrite sum_list_with_app. unfold block_size in *; simpl in *. lia.
Qed.

(** The loop has emptied its queue when it stops. *)
Lemma get_matching_blocks_drained :
  (drain a b (drain_fuel a) [(0, length a, 0, length b)] []).1 = [].
Proof.
  apply drain_done.
  - apply Forall_cons; split; [simpl; lia | done].
  - simpl. unfold weight, drain_fuel. simpl. lia.
Qed.

Lemma matches_le_a : matches a b ≤ length a.
Proof.
  rewrite matches_drain.
  pose proof (drain_bound width_a (drain_fuel a) [(0, length a, 0, length b)] []) as Hb.
  simpl in Hb. etrans; [|etrans; [apply Hb|]]; [lia| | |lia].
  - intros alo ahi blo bhi x (? & ? & ? & ?). simpl. lia.
  - apply Forall_cons; split; [simpl; lia | done].
Qed.

Lemma matches_le_b : matches a b ≤ length b.
Proof.
  rewrite matches_drain.
  pose proof (drain_bound width_b (drain_fuel a) [(0, length a, 0, length b)] []) as Hb.
  simpl in Hb. etrans; [|etrans; [apply Hb|]]; [lia| | |lia].
  - intros alo ahi blo bhi x (? & ? & ? & ?). simpl. lia.
  - apply Forall_cons; split; [simpl; lia | done].
Qed.

Lemma calculate_ratio_range m len :
  2 * m ≤ len → (0 <= calculate_ratio m len <= 1)%Q.
Proof.
  intros Hm. unfold calculate_ratio.
  destruct (len =? 0) eqn:E; [split; discriminate|].
  apply Nat.eqb_neq in E.
  assert (Hden : Zpos (Pos.of_nat len) = Z.of_nat len).
  { rewrite <- positive_nat_Z, Nat2Pos.id by done. done. }
  unfold Qle; cbn [Qnum Qden]. rewrite Hden. lia.
Qed.

Lemma ratio_range : (0 <= ratio a b <= 1)%Q.
Proof.
  apply calculate_ratio_range.
  pose proof matches_le_a. pose proof matches_le_b. lia.
Qed.

End Bounds.
End DifflibFacts.

(** ** Dictionaries *)

Module PyDictFacts.
Import PyDict.

Lemma get_set_eq k v d : get k (set k v d) = Some v.
Proof.
  induction d as [|[k' v'] d IH]; simpl.
  - by rewrite decide_True.
  - destruct (decide (k' = k)) as [->|Hne]; simpl.
    + by rewrite decide_True.
    + by rewrite decide_False.
Qed.

Lemma get_set_ne k k' v d : k ≠ k' → get k (set k' v d) = get k d.
Proof.
  intros Hne. induction d as [|[k0 v0] d IH]; simpl.
  - by rewrite decide_False.
  - destruct (decide (k0 = k')) as [->|Hne0]; simpl.
    + rewrite !decide_False; done.
    + by rewrite IH.
Qed.

End PyDictFacts.

(** ** Scores and thresholds *)

Module ScoreFacts.

Lemma Qgtb_lt x t : Qgtb x t = true ↔ (t < x)%Q.
Proof.
  unfold Qgtb. rewrite negb_true_iff.
  split.
  - intros Hb. apply Qnot_le_lt. intros Hle.
    apply Qle_bool_iff in Hle. congruence.
  - intros Hlt. destruct (Qle_bool x t) eqn:E; [|done].
    apply Qle_bool_iff in E. exfalso. by apply (Qlt_not_le _ _ Hlt).
Qed.

Lemma Qgtb_mono x y t : (x <= y)%Q → Qgtb x t = true → Qgtb y t = true.
Proof.
  rewrite !Qgtb_lt. intros Hxy Ht. by apply Qlt_le_trans with x.
Qed.

Lemma Qgtb_zero t : (0 <= t)%Q → Qgtb 0 t = false.
Proof.
  intros Ht. destruct (Qgtb 0 t) eqn:E; [|done].
  apply Qgtb_lt in E. exfalso. by apply (Qlt_not_le _ _ E).
Qed.

(** Lower-casing twice is lower-casing once. *)
Lemma lower_char_idem c : PyStr.lower_char (PyStr.lower_char c) = PyStr.lower_char c.
Proof. by destruct c as [[] [] [] [] [] [] [] []]. Qed.

Lemma chars_str l : PyStr.chars (PyStr.str l) = l.
Proof. apply list_ascii_of_string_of_list_ascii. Qed.

Lemma str_chars s : PyStr.str (PyStr.chars s) = s.
Proof. apply string_of_list_ascii_of_string. Qed.

Lemma lower_idem s : PyStr.lower (PyStr.lower s) = PyStr.lower s.
Proof.
  unfold PyStr.lower, PyStr.lower_chars. rewrite chars_str. f_equal.
  rewrite <- list_fmap_compose. apply list_fmap_ext. intros _ c _. simpl.
  apply lower_char_idem.
Qed.

Lemma is_empty_lower s : PyStr.is_empty (PyStr.lower s) = PyStr.is_empty s.
Proof. by destruct s. Qed.

(** The characters [str.lower] changes, by their code points: A to Z, and
    the Latin-1 capitals.  Any other character stays. *)
Lemma lower_char_other c :
  ¬ (65 ≤ nat_of_ascii c ≤ 90 ∨ (192 ≤ nat_of_ascii c ≤ 222 ∧ nat_of_ascii c ≠ 215)) →
  PyStr.lower_char c = c.
Proof.
  intros Hno. unfold PyStr.lower_char, PyStr.code.
  destruct (_ || _) eqn:E; [|done]. exfalso. apply Hno.
  apply orb_true_iff in E as [E|E]; apply andb_true_iff in E as [E1 E2].
  - apply Nat.leb_le in E1, E2. lia.
  - apply andb_true_iff in E1 as [E0 E1]. apply negb_true_iff, Nat.eqb_neq in E2.
    apply Nat.leb_le in E0, E1. lia.
Qed.

(** A capital and the letter 32 code points further on are lower-cased to
    the same character. *)
Lemma lower_char_capital n :
  65 ≤ n ≤ 90 ∨ (192 ≤ n ≤ 222 ∧ n ≠ 215) →
  PyStr.lower_char (ascii_of_nat n) = PyStr.lower_char (ascii_of_nat (n + 32)).
Proof.
  intros Hn.
  assert (H1 : PyStr.lower_char (ascii_of_nat n) = ascii_of_nat (n + 32)).
  { unfold PyStr.lower_char, PyStr.code. rewrite nat_ascii_embedding by lia.
    destruct (_ || _) eqn:E; [done|]. exfalso.
    apply orb_false_iff in E as [E1 E2].
    destruct Hn as [[Ha Hb]|[[Ha Hb] Hc]].
    - by rewrite (proj2 (Nat.leb_le _ _) Ha), (proj2 (Nat.leb_le _ _) Hb) in E1.
    - by rewrite (proj2 (Nat.leb_le _ _) Ha), (proj2 (Nat.leb_le _ _) Hb),
        (proj2 (Nat.eqb_neq _ _) Hc) in E2. }
  rewrite H1. symmetry. apply lower_char_other.
  rewrite nat_ascii_embedding by lia. lia.
Qed.

Lemma lower_chars_other l :
  Forall (λ c, ¬ (65 ≤ nat_of_ascii c ≤ 90
                  ∨ (192 ≤ nat_of_ascii c ≤ 222 ∧ nat_of_ascii c ≠ 215))) l →
  PyStr.lower_chars l = l.
Proof.
  induction 1 as [|c l Hc _ IH]; [done|].
  unfold PyStr.lower_chars in *. simpl. by rewrite IH, lower_char_other.
Qed.

Lemma is_empty_str l : PyStr.is_empty (PyStr.str l) = match l with [] => true | _ => false end.
Proof. by destruct l. Qed.

(** The score of two texts that differ in the case of one letter. *)
Lemma similarity_swap_left n u v b :
  65 ≤ n ≤ 90 ∨ (192 ≤ n ≤ 222 ∧ n ≠ 215) →
  Common.similarity (PyStr.str (u ++ ascii_of_nat n :: v)) b
  = Common.similarity (PyStr.str (u ++ ascii_of_nat (n + 32) :: v)) b.
Proof.
  intros Hn. unfold Common.similarity, PyStr.lower.
  rewrite !is_empty_str, !chars_str.
  unfold PyStr.lower_chars. rewrite !map_app. simpl.
  rewrite (lower_char_capital n Hn). by destruct u.
Qed.

Lemma similarity_swap_right n u v a :
  65 ≤ n ≤ 90 ∨ (192 ≤ n ≤ 222 ∧ n ≠ 215) →
  Common.similarity a (PyStr.str (u ++ ascii_of_nat n :: v))
  = Common.similarity a (PyStr.str (u ++ ascii_of_nat (n + 32) :: v)).
Proof.
  intros Hn. unfold Common.similarity, PyStr.lower.
  rewrite !is_empty_str, !chars_str.
  unfold PyStr.lower_chars. rewrite !map_app. simpl.
  rewrite (lower_char_capital n Hn). by destruct u.
Qed.

Lemma similarity_range a b : (0 <= Common.similarity a b <= 1)%Q.
Proof.
  unfold Common.similarity.
  destruct (PyStr.is_empty a || PyStr.is_empty b); [split; discriminate|].
  apply DifflibFacts.ratio_range.
Qed.

End ScoreFacts.

(** ** The similarity function (all three scripts) *)

(** C10.  [similarity(a, b)] is 0 as soon as one argument is empty, two empty
    strings included; on two non-empty strings it is the matcher's ratio of
    the lower-cased strings, and it always lies between 0 and 1.  The case
    of the letters does not count: a capital (A to Z, or a Latin-1 capital)
    can be put for its small letter, 32 code points further on, at any
    place of either argument, and the score stays.  Nothing else is folded:
    two strings without capitals are matched as they stand.  So "ABC" and
    "abc" score 1, as "abc" and "abc" do.  The three scripts carry the same
    function. *)
Theorem similarity_zero_on_empty_else_ratio (a b : string) :
  Common.similarity EmptyString b = 0%Q ∧
  Common.similarity a EmptyString = 0%Q ∧
  Common.similarity EmptyString EmptyString = 0%Q ∧
  (∀ c a' d b',
      Common.similarity (String c a') (String d b')
      = Difflib.ratio (PyStr.chars (PyStr.lower (String c a')))
                      (PyStr.chars (PyStr.lower (String d b')))) ∧
  Common.similarity (PyStr.lower a) (PyStr.lower b) = Common.similarity a b ∧
  (∀ (n : nat) (u v : list ascii),
      65 ≤ n ≤ 90 ∨ (192 ≤ n ≤ 222 ∧ n ≠ 215) →
      Common.similarity (PyStr.str (u ++ ascii_of_nat n :: v)) b
      = Common.similarity (PyStr.str (u ++ ascii_of_nat (n + 32) :: v)) b
      ∧ Common.similarity a (PyStr.str (u ++ ascii_of_nat n :: v))
        = Common.similarity a (PyStr.str (u ++ ascii_of_nat (n + 32) :: v))) ∧
  (a ≠ EmptyString → b ≠ EmptyString →
   Forall (λ c, ¬ (65 ≤ nat_of_ascii c ≤ 90
                   ∨ (192 ≤ nat_of_ascii c ≤ 222 ∧ nat_of_ascii c ≠ 215)))
          (PyStr.chars a ++ PyStr.chars b) →
   Common.similarity a b = Difflib.ratio (PyStr.chars a) (PyStr.chars b)) ∧
  Qred (Common.similarity "ABC" "abc") = 1%Q ∧
  Qred (Common.similarity "Joe's PIZZA" "joe's pizza") = 1%Q ∧
  Qred (Common.similarity "abcd" "BCDE") = (3 # 4)%Q ∧
  (0 <= Common.similarity a b <= 1)%Q ∧
  Parallel.similarity = Common.similarity ∧
  Single.similarity = Common.similarity ∧
  Merge.similarity = Common.similarity.
Proof.
  split_and!; try reflexivity.
  - unfold Common.similarity. by rewrite orb_true_r.
  - unfold Common.similarity.
    by rewrite !ScoreFacts.is_empty_lower, !ScoreFacts.lower_idem.
  - intros n u v Hn. split.
    + by apply ScoreFacts.similarity_swap_left.
    + by apply ScoreFacts.similarity_swap_right.
  - intros Ha Hb Hsmall. apply Forall_app in Hsmall as [Hsa Hsb].
    unfold Common.similarity, PyStr.lower.
    rewrite !ScoreFacts.lower_chars_other, !ScoreFacts.str_chars by done.
    destruct a; [done|]. by destruct b.
  - apply ScoreFacts.similarity_range.
  - apply ScoreFacts.similarity_range.
Qed.

(** ** The confidence verdict *)

Module VerdictFacts.
Import Common PyDictFacts ScoreFacts.

Lemma parallel_info_got p url :
  page_url p = Got url →
  Parallel.extract_place_info p =
  [ ("found", JBool (PyDict.truthy (Some (read_name p))));
    ("google_name", read_name p);
    ("google_address", PyDict.of_opt (address_text p));
    ("google_category", PyDict.of_opt (category_text p));
    ("google_url", JStr url) ]%string.
Proof. intros H. unfold Parallel.extract_place_info. rewrite H. reflexivity. Qed.

Lemma parallel_info_raised p e :
  page_url p = Raised e →
  Parallel.extract_place_info p =
  [ ("found", JBool false); ("google_name", JNull); ("google_address", JNull);
    ("google_category", JNull); ("google_url", JNull); ("error", JStr e) ]%string.
Proof. intros H. unfold Parallel.extract_place_info. rewrite H. reflexivity. Qed.

Lemma single_info_got p url :
  page_url p = Got url →
  Single.extract_place_info p =
  [ ("found", JBool (PyDict.truthy (Some (read_name p))));
    ("google_name", read_name p);
    ("google_address", PyDict.of_opt (address_text p));
    ("google_category", PyDict.of_opt (category_text p));
    ("google_rating", Single.of_num (rating_read p));
    ("google_reviews", Single.of_num (number_of_int <$> reviews_read p));
    ("google_url", JStr url) ]%string.
Proof. intros H. unfold Single.extract_place_info. rewrite H. reflexivity. Qed.

Lemma single_info_raised p e :
  page_url p = Raised e →
  Single.extract_place_info p =
  [ ("found", JBool false); ("google_name", JNull); ("google_address", JNull);
    ("google_category", JNull); ("google_rating", JNull); ("google_reviews", JNull);
    ("google_url", JNull); ("error", JStr e) ]%string.
Proof. intros H. unfold Single.extract_place_info. rewrite H. reflexivity. Qed.


(** A name is there only on a page that was read. *)
Lemma named_page p :
  PyDict.truthy (PyDict.get "google_name" (Parallel.extract_place_info p)) = true →
  ∃ url, page_url p = Got url ∧ PyDict.truthy (Some (read_name p)) = true.
Proof.
  destruct (page_url p) as [url|e] eqn:E.
  - rewrite (parallel_info_got _ _ E). eauto.
  - by rewrite (parallel_info_raised _ _ E).
Qed.



Lemma parallel_verdict_stored round2 now r p :
  PyDict.truthy (PyDict.get "google_name" (Parallel.extract_place_info p)) = true →
  PyDict.get "confident_match" (Parallel.scrape_restaurant round2 now r (Arrived p))
  = Some (JBool (Parallel.confident_match
                   (Parallel.name_sim_of r (Parallel.extract_place_info p))
                   (Parallel.addr_sim_of r (Parallel.extract_place_info p)))).
Proof.
  intros Hn. unfold Parallel.scrape_restaurant. rewrite Hn. apply get_set_eq.
Qed.


End VerdictFacts.




(** C9.  For a fixed address score, a larger name score keeps a confident
    verdict confident, under the parallel rule and under the single-stream
    rule. *)
Theorem confidence_monotone_in_name (s n1 n2 : Q) :
  (n1 <= n2)%Q →
  (Parallel.confident_match n1 s = true → Parallel.confident_match n2 s = true) ∧
  (Single.confident_match n1 = true → Single.confident_match n2 = true).
Proof.
  intros Hle. split.
  - unfold Parallel.confident_match.
    rewrite !orb_true_iff, !andb_true_iff.
    intros [H|[H1 H2]]; [left | right; split; [|done]];
      eapply ScoreFacts.Qgtb_mono; eauto.
  - unfold Single.confident_match. by apply ScoreFacts.Qgtb_mono.
Qed.

Lemma confidence_monotone_in_name_witness :
  (6 # 10 <= 95 # 100)%Q ∧
  (Parallel.confident_match (6 # 10) (85 # 100) = true →
   Parallel.confident_match (95 # 100) (85 # 100) = true) ∧
  (Single.confident_match (6 # 10) = true → Single.confident_match (95 # 100) = true).
Proof.
  assert (H : (6 # 10 <= 95 # 100)%Q) by (unfold Qle; simpl; lia).
  split; [exact H|].
  exact (confidence_monotone_in_name (85 # 100) (6 # 10) (95 # 100) H).
Defined.

(** C8.  When the page gives no address (none, or an empty one) or the
    restaurant has none, the address score that enters the verdict is the
    number 0: it is not above 0.8, the verdict is [name_sim > 0.9] alone, and
    no [address_similarity] is stored. *)
Theorem missing_address_scores_zero
        (round2 : Q → number) (now : string) (r : Common.restaurant) (p : Common.page) :
  PyDict.truthy (PyDict.get "google_name" (Parallel.extract_place_info p)) = true →
  (Common.address_text p = None ∨ Common.address_text p = Some EmptyString
   ∨ Common.address r = EmptyString) →
  let info := Parallel.extract_place_info p in
  let result := Parallel.scrape_restaurant round2 now r (Common.Arrived p) in
  Parallel.addr_sim_of r info = 0%Q ∧
  Qgtb (Parallel.addr_sim_of r info) (8 # 10) = false ∧
  (∀ n, Parallel.confident_match n (Parallel.addr_sim_of r info) = Qgtb n (9 # 10)) ∧
  PyDict.get "confident_match" result
  = Some (JBool (Qgtb (Parallel.name_sim_of r info) (9 # 10))) ∧
  PyDict.get "address_similarity" result = None.
Proof.
  intros Hn Haddr info result.
  destruct (VerdictFacts.named_page p Hn) as (url & Hurl & Hname).
  assert (Hcond : PyDict.truthy (PyDict.get "google_address" info)
                  && negb (PyStr.is_empty (Common.address r)) = false).
  { unfold info. rewrite (VerdictFacts.parallel_info_got _ _ Hurl).
    change (PyDict.get "google_address" _)
      with (Some (PyDict.of_opt (Common.address_text p))).
    destruct Haddr as [-> | [-> | ->]]; try done. by rewrite andb_false_r. }
  assert (Hzero : Parallel.addr_sim_of r info = 0%Q).
  { unfold Parallel.addr_sim_of. by rewrite Hcond. }
  assert (Hrule : ∀ n, Parallel.confident_match n 0 = Qgtb n (9 # 10)).
  { intros n. unfold Parallel.confident_match.
    change (Qgtb 0 (8 # 10)) with false. by rewrite andb_false_r, orb_false_r. }
  repeat split.
  - exact Hzero.
  - by rewrite Hzero.
  - intros n. rewrite Hzero. apply Hrule.
  - unfold result. rewrite (VerdictFacts.parallel_verdict_stored _ _ _ _ Hn).
    fold info. by rewrite Hzero, Hrule.
  - unfold result, Parallel.scrape_restaurant. rewrite Hn. fold info. rewrite Hcond.
    rewrite !PyDictFacts.get_set_ne by done.
    unfold info. rewrite (VerdictFacts.parallel_info_got _ _ Hurl). reflexivity.
Qed.

Lemma missing_address_scores_zero_witness :
  PyDict.truthy
    (PyDict.get "google_name" (Parallel.extract_place_info Sample.joes_page_no_address))
  = true ∧
  (Common.address_text Sample.joes_page_no_address = None
   ∨ Common.address_text Sample.joes_page_no_address = Some EmptyString
   ∨ Common.address Sample.joes = EmptyString) ∧
  Parallel.addr_sim_of Sample.joes (Parallel.extract_place_info Sample.joes_page_no_address)
  = 0%Q.
Proof.
  assert (Hn : PyDict.truthy
                 (PyDict.get "google_name"
                    (Parallel.extract_place_info Sample.joes_page_no_address))
               = true) by reflexivity.
  assert (Ha : Common.address_text Sample.joes_page_no_address = None
               ∨ Common.address_text Sample.joes_page_no_address = Some EmptyString
               ∨ Common.address Sample.joes = EmptyString) by (left; reflexivity).
  split; [exact Hn|]. split; [exact Ha|].
  exact (proj1 (missing_address_scores_zero Sample.round2 Sample.now Sample.joes
                  Sample.joes_page_no_address Hn Ha)).
Defined.

(** ** Address normalization (merge stage) *)

Module AddressFacts.
Import PyStr.

Lemma starts_with_split old l :
  starts_with old l = true → l = old ++ drop (length old) l.
Proof.
  revert l. induction old as [|x old IH]; intros l Hs; simpl in *; [done|].
  destruct l as [|y l]; [done|].
  destruct (decide (x = y)) as [->|]; [|done].
  simpl. f_equal. by apply IH.
Qed.

Lemma runs_below_mono limit l :
  ∀ k k', k' ≤ k → runs_below limit k l = true → runs_below limit k' l = true.
Proof.
  induction l as [|c l IH]; intros k k' Hk; simpl; [done|].
  destruct (decide (c = " "%char)); [|done].
  rewrite !andb_true_iff, !Nat.ltb_lt. intros [? Hl].
  split; [lia|]. apply (IH (S k)); [lia | done].
Qed.

Lemma runs_below_weaken limit k l :
  runs_below limit k l = true → runs_below limit 0 l = true.
Proof. apply runs_below_mono. lia. Qed.

(** A word without blanks resets the count. *)
Lemma runs_below_word limit k w l :
  blank_free w → w ≠ [] →
  runs_below limit k (w ++ l) = runs_below limit 0 l.
Proof.
  intros Hw Hne. destruct w as [|c w]; [done|]. clear Hne.
  apply Forall_cons in Hw as [Hc Hw]. simpl. rewrite decide_False by done.
  induction Hw as [|d w Hd Hw IH]; simpl; [done|].
  by rewrite decide_False.
Qed.

Lemma runs_below_prefix limit k l1 l2 :
  runs_below limit k (l1 ++ l2) = true → runs_below limit k l1 = true.
Proof.
  revert k. induction l1 as [|c l1 IH]; intros k; simpl; [done|].
  destruct (decide (c = " "%char)); [|apply IH].
  rewrite !andb_true_iff. intros [? ?]. split; [done|]. by eapply IH.
Qed.

Lemma lower_char_blank c : lower_char c = " "%char ↔ c = " "%char.
Proof. destruct c as [[] [] [] [] [] [] [] []]; by vm_compute. Qed.

Lemma runs_below_lower limit k l :
  runs_below limit k (lower_chars l) = runs_below limit k l.
Proof.
  revert k. induction l as [|c l IH]; intros k; simpl; [done|].
  destruct (decide (c = " "%char)) as [->|Hc].
  - rewrite decide_True by done. by rewrite IH.
  - rewrite decide_False by (by rewrite lower_char_blank). apply IH.
Qed.

Lemma before_first_prefix c l : ∃ rest, l = before_first c l ++ rest.
Proof.
  induction l as [|x l [rest IH]]; simpl; [by exists []|].
  destruct (decide (x = c)); [by eexists|].
  exists rest. simpl. by f_equal.
Qed.

Lemma lstrip_suffix l : ∃ pre, l = pre ++ lstrip_chars l.
Proof.
  induction l as [|c l [pre IH]]; simpl; [by exists []|].
  destruct (is_space c); [|by exists []].
  exists (c :: pre). simpl. by f_equal.
Qed.

Lemma rstrip_prefix l : ∃ rest, l = rstrip_chars l ++ rest.
Proof.
  unfold rstrip_chars. destruct (lstrip_suffix (rev l)) as [pre Hpre].
  exists (rev pre).
  rewrite <- rev_app_distr, <- Hpre. by rewrite rev_involutive.
Qed.

Lemma runs_below_suffix limit k pre l :
  runs_below limit k (pre ++ l) = true → runs_below limit 0 l = true.
Proof.
  revert k. induction pre as [|c pre IH]; intros k; simpl.
  - apply runs_below_weaken.
  - destruct (decide (c = " "%char)); [|apply IH].
    rewrite andb_true_iff. intros [_ ?]. by eapply IH.
Qed.

Lemma runs_below_strip limit l :
  runs_below limit 0 l = true → runs_below limit 0 (strip_chars l) = true.
Proof.
  intros Hl. unfold strip_chars.
  destruct (lstrip_suffix l) as [pre Hpre].
  destruct (rstrip_prefix (lstrip_chars l)) as [rest Hrest].
  rewrite Hpre in Hl. apply runs_below_suffix in Hl.
  rewrite Hrest in Hl. by apply runs_below_prefix in Hl.
Qed.

(** Replacing a word without blanks by another keeps every run. *)
Lemma runs_below_replace_word limit old new n :
  blank_free old → old ≠ [] → blank_free new → new ≠ [] →
  ∀ k l, runs_below limit k l = true →
         runs_below limit k (replace_fuel n old new l) = true.
Proof.
  intros Hold Hold' Hnew Hnew'.
  induction n as [|n IH]; intros k l Hl; simpl; [done|].
  destruct l as [|c l]; [done|].
  destruct (starts_with old (c :: l)) eqn:Es.
  - apply starts_with_split in Es. rewrite Es in Hl.
    rewrite runs_below_word in Hl by done.
    rewrite runs_below_word by done. by apply IH.
  - simpl in *. destruct (decide (c = " "%char)); [|by apply IH].
    apply andb_true_iff in Hl as [? ?]. apply andb_true_iff. split; [done|].
    by apply IH.
Qed.

Lemma runs_below_after_blank l :
  no_lead l → runs_below 2 0 l = true → runs_below 2 1 l = true.
Proof.
  destruct l as [|c l]; simpl; [done|]. intros Hc. by rewrite !decide_False by done.
Qed.

Lemma halve_nil n : halve n [] = [].
Proof. by destruct n. Qed.

Lemma halve_two n l :
  halve (S n) (" " :: " " :: l)%char = (" "%char :: halve n l).
Proof. reflexivity. Qed.

Lemma halve_one n d l :
  d ≠ " "%char → halve (S n) (" "%char :: d :: l) = " "%char :: halve n (d :: l).
Proof.
  intros Hd. simpl. repeat case_decide; congruence.
Qed.

Lemma halve_last n : halve (S n) [" "%char] = [" "%char].
Proof. simpl. by rewrite halve_nil. Qed.

Lemma halve_other n c l :
  c ≠ " "%char → halve (S n) (c :: l) = c :: halve n l.
Proof.
  intros Hc. simpl. repeat case_decide; congruence.
Qed.

Lemma runs_below_blank limit k l :
  runs_below limit k (" "%char :: l) = (S k <? limit) && runs_below limit (S k) l.
Proof. simpl. repeat case_decide; congruence. Qed.

Lemma runs_below_other limit k c l :
  c ≠ " "%char → runs_below limit k (c :: l) = runs_below limit 0 l.
Proof. intros Hc. simpl. by rewrite decide_False. Qed.

(** The last replacement halves the runs: when none is of three or more,
    none of two is left. *)
Lemma runs_below_halved n :
  ∀ l, length l ≤ n →
       runs_below 3 0 l = true →
       runs_below 2 0 (halve n l) = true ∧ (no_lead l → no_lead (halve n l)).
Proof.
  induction n as [|n IH]; intros l Hlen Hl.
  { destruct l; [done | simpl in Hlen; lia]. }
  destruct l as [|c l]; [done|].
  simpl in Hlen.
  destruct (decide (c = " "%char)) as [->|Hc].
  - rewrite runs_below_blank in Hl. apply andb_true_iff in Hl as [_ Hl].
    destruct l as [|d l].
    + rewrite halve_last. split; [done | by intros []].
    + destruct (decide (d = " "%char)) as [->|Hd].
      * (* two blanks: one is written, the scan resumes after both *)
        rewrite runs_below_blank in Hl. apply andb_true_iff in Hl as [_ Hl].
        assert (Hl2 : no_lead l ∧ runs_below 3 0 l = true).
        { destruct l as [|e l]; [done|].
          destruct (decide (e = " "%char)) as [->|He].
          - by rewrite runs_below_blank in Hl.
          - split; [done|]. by rewrite runs_below_other in * by done. }
        destruct Hl2 as [Hlead Hl2]. simpl in Hlen.
        destruct (IH l ltac:(lia) Hl2) as [HA HB].
        rewrite halve_two. split; [|by intros []].
        rewrite runs_below_blank. apply runs_below_after_blank; auto.
      * (* one blank, then something else *)
        assert (Hl2 : runs_below 3 0 (d :: l) = true).
        { by apply runs_below_weaken in Hl. }
        destruct (IH (d :: l) ltac:(simpl in *; lia) Hl2) as [HA HB].
        rewrite halve_one by done. split; [|by intros []].
        rewrite runs_below_blank. apply runs_below_after_blank; [|done].
        by apply HB.
  - rewrite runs_below_other in Hl by done.
    destruct (IH l ltac:(lia) Hl) as [HA HB].
    rewrite halve_other by done. split; [|done].
    by rewrite runs_below_other.
Qed.

(** The length of the text is fuel enough for [str.replace]: more changes
    nothing. *)
Lemma replace_fuel_enough old new :
  old ≠ [] →
  ∀ n m l, length l ≤ n → length l ≤ m →
           replace_fuel n old new l = replace_fuel m old new l.
Proof.
  intros Hold. induction n as [|n IH]; intros m l Hn Hm.
  - destruct l; [|simpl in Hn; lia]. by destruct m.
  - destruct l as [|c l]; [by destruct m|].
    destruct m as [|m]; [simpl in Hm; lia|]. simpl in *.
    destruct (starts_with old (c :: l)).
    + f_equal. apply IH; rewrite length_drop; destruct old; try done; simpl; lia.
    + f_equal. apply IH; lia.
Qed.

(** What holds of every character put in and of every character of the
    text holds of every character of the result. *)
Lemma replace_fuel_Forall (P : ascii → Prop) old new n :
  Forall P new → ∀ l, Forall P l → Forall P (replace_fuel n old new l).
Proof.
  intros Hnew. induction n as [|n IH]; intros l Hl; simpl; [done|].
  destruct l as [|c l]; [done|].
  destruct (starts_with old (c :: l)).
  - apply Forall_app. split; [done|]. apply IH. by apply Forall_drop.
  - apply Forall_cons in Hl as [? ?]. apply Forall_cons. split; [done|]. by apply IH.
Qed.

Lemma apply_replacements_Forall (P : ascii → Prop) l :
  Forall (λ on, Forall P (chars on.2)) Merge.replacements →
  Forall P l → Forall P (Merge.apply_replacements l).
Proof.
  unfold Merge.apply_replacements. generalize Merge.replacements.
  intros rs. revert l. induction rs as [|on rs IH]; intros l Hrs Hl; simpl; [done|].
  apply Forall_cons in Hrs as [Hon Hrs].
  apply IH; [done|]. by apply replace_fuel_Forall.
Qed.

Lemma strip_Forall (P : ascii → Prop) l : Forall P l → Forall P (strip_chars l).
Proof.
  intros Hl. unfold strip_chars.
  destruct (lstrip_suffix l) as [pre Hpre].
  destruct (rstrip_prefix (lstrip_chars l)) as [rest Hrest].
  rewrite Hpre in Hl. apply Forall_app in Hl as [_ Hl].
  rewrite Hrest in Hl. by apply Forall_app in Hl as [Hl _].
Qed.

Lemma before_first_Forall (P : ascii → Prop) c l :
  Forall P l → Forall P (before_first c l).
Proof.
  intros Hl. destruct (before_first_prefix c l) as [rest Hrest].
  rewrite Hrest in Hl. by apply Forall_app in Hl as [Hl _].
Qed.

Lemma before_first_free c l : Forall (λ x, x ≠ c) (before_first c l).
Proof.
  induction l as [|x l IH]; simpl; [done|].
  destruct (decide (x = c)); [done|]. by apply Forall_cons.
Qed.

Lemma cut_at_comma_free l :
  Forall (λ x, x ≠ ","%char)
         (if bool_decide (","%char ∈ l) then before_first ","%char l else l).
Proof.
  case_bool_decide as Hin; [apply before_first_free|].
  apply Forall_forall. intros x Hx ->. done.
Qed.

Lemma lower_chars_fixed l : Forall (λ c, lower_char c = c) (lower_chars l).
Proof.
  unfold lower_chars. apply Forall_fmap, Forall_true.
  intros c. apply ScoreFacts.lower_char_idem.
Qed.

Lemma normalize_chars_no_comma l :
  Forall (λ x, x ≠ ","%char) (Merge.normalize_chars l).
Proof.
  unfold Merge.normalize_chars.
  apply strip_Forall, apply_replacements_Forall; [|apply cut_at_comma_free].
  unfold Merge.replacements. repeat (apply Forall_cons; split); try done;
    simpl; repeat (apply Forall_cons; split); done.
Qed.

Lemma normalize_chars_lower l :
  Forall (λ c, lower_char c = c) (Merge.normalize_chars l).
Proof.
  unfold Merge.normalize_chars.
  apply strip_Forall, apply_replacements_Forall.
  - unfold Merge.replacements. repeat (apply Forall_cons; split); try done;
      simpl; repeat (apply Forall_cons; split); done.
  - case_bool_decide; [apply before_first_Forall|]; apply lower_chars_fixed.
Qed.

Lemma normalize_chars_runs l :
  runs_below 3 0 l = true → runs_below 2 0 (Merge.normalize_chars l) = true.
Proof.
  intros Hl. unfold Merge.normalize_chars.
  apply runs_below_strip.
  assert (Hcut : runs_below 3 0
                   (if bool_decide (","%char ∈ lower_chars l)
                    then before_first ","%char (lower_chars l) else lower_chars l)
                 = true).
  { rewrite <- (runs_below_lower 3 0 l) in Hl. case_bool_decide; [|done].
    destruct (before_first_prefix ","%char (lower_chars l)) as [rest Hrest].
    rewrite Hrest in Hl. by apply runs_below_prefix in Hl. }
  revert Hcut. generalize (if bool_decide (","%char ∈ lower_chars l)
                           then before_first ","%char (lower_chars l)
                           else lower_chars l).
  intros t Ht. unfold Merge.apply_replacements, Merge.replacements.
  cbn [fold_left fst snd]. unfold replace_chars at 1.
  apply runs_below_halved; [done|].
  repeat (unfold replace_chars at 1;
          apply runs_below_replace_word;
          [ simpl; repeat (apply Forall_cons; split); done
          | done
          | simpl; repeat (apply Forall_cons; split); done
          | done
          | ]).
  exact Ht.
Qed.

End AddressFacts.

(** How far the last replacement reaches.  [normalize_address] lower-cases,
    keeps what stands before the first comma, replaces the eight street
    words one after the other, then runs [replace('  ', ' ')] once, and
    strips.  The result has no comma and no capital; when the address has no
    run of three or more blanks, the result has no two adjacent blanks. *)
Lemma normalize_address_no_adjacent_blanks (addr : string) :
  PyStr.runs_below 3 0 (PyStr.chars addr) = true →
  PyStr.runs_below 2 0 (PyStr.chars (Merge.normalize_address addr)) = true ∧
  Forall (λ c, c ≠ ","%char) (PyStr.chars (Merge.normalize_address addr)) ∧
  Forall (λ c, PyStr.lower_char c = c) (PyStr.chars (Merge.normalize_address addr)) ∧
  (∀ l, Merge.normalize_chars l
        = PyStr.strip_chars
            (Merge.apply_replacements
               (if bool_decide (","%char ∈ PyStr.lower_chars l)
                then PyStr.before_first ","%char (PyStr.lower_chars l)
                else PyStr.lower_chars l))).
Proof.
  intros Hruns. unfold Merge.normalize_address.
  destruct (PyStr.is_empty addr); [by repeat split|].
  rewrite ScoreFacts.chars_str. repeat split.
  - by apply AddressFacts.normalize_chars_runs.
  - apply AddressFacts.normalize_chars_no_comma.
  - apply AddressFacts.normalize_chars_lower.
Qed.

Lemma normalize_address_no_adjacent_blanks_witness :
  PyStr.runs_below 3 0 (PyStr.chars "12  Broadway  Avenue, New York") = true ∧
  PyStr.runs_below 2 0
    (PyStr.chars (Merge.normalize_address "12  Broadway  Avenue, New York")) = true.
Proof.
  assert (H : PyStr.runs_below 3 0 (PyStr.chars "12  Broadway  Avenue, New York") = true)
    by reflexivity.
  split; [exact H|].
  exact (proj1 (normalize_address_no_adjacent_blanks _ H)).
Defined.

(** C7.  The normalization is to collapse every run of blanks to one, and
    the code means to (its last replacement is commented [double spaces]),
    but [str.replace] goes over the text once: of three blanks in a row the
    first two become one and the third stays, so two adjacent blanks come
    out.  The lower-casing, the cut at the comma and the street words are
    as the claim has them on this input; the scrapers' own
    [re.sub(r'\s+', ' ', name)] does collapse the same run. *)
Theorem normalize_address_leaves_adjacent_blanks :
  Merge.normalize_address "12   Main Street, Queens" = "12  main st"%string ∧
  PyStr.runs_below 2 0
    (PyStr.chars (Merge.normalize_address "12   Main Street, Queens")) = false ∧
  PyStr.str (Common.sub_spaces false (PyStr.chars "12   Main Street"))
  = "12 Main Street"%string.
Proof. repeat split; reflexivity. Qed.

(** ** The progress dictionary *)

Module ProgressFacts.
Import Common PyDictFacts.

Lemma empty_counts : counts_agree empty_progress.
Proof. reflexivity. Qed.

Lemma empty_keyed : results_keyed empty_progress.
Proof. intros o Ho. simpl in Ho. by apply elem_of_nil in Ho. Qed.

Lemma record_ids r o p :
  scraped_ids (record r o p) = scraped_ids p ++ [restaurant_id r].
Proof. unfold record. by destruct (PyDict.truthy _). Qed.

Lemma record_found r o p :
  PyDict.truthy (PyDict.get "found" o) = true →
  results (record r o p) = results p ++ [o] ∧ failed (record r o p) = failed p.
Proof. intros H. unfold record. by rewrite H. Qed.

Lemma record_not_found r o p :
  PyDict.truthy (PyDict.get "found" o) = false →
  results (record r o p) = results p ∧ failed (record r o p) = failed p ++ [o].
Proof. intros H. unfold record. by rewrite H. Qed.

Lemma record_last_updated r o p : last_updated (record r o p) = last_updated p.
Proof. unfold record. by destruct (PyDict.truthy _). Qed.

Lemma record_counts r o p : counts_agree p → counts_agree (record r o p).
Proof.
  unfold counts_agree, record. intros H.
  destruct (PyDict.truthy _); simpl; rewrite !length_app; simpl; lia.
Qed.

Lemma record_keyed r o p :
  result_id o = restaurant_id r → results_keyed p → results_keyed (record r o p).
Proof.
  intros Hid Hp o' Ho'. rewrite record_ids.
  assert (Hcases : o' ∈ results p ++ failed p ∨ o' = o).
  { unfold record in Ho'. destruct (PyDict.truthy _); simpl in Ho';
      rewrite !elem_of_app in Ho'; rewrite elem_of_app;
      rewrite ?list_elem_of_singleton in Ho'; tauto. }
  apply elem_of_app. destruct Hcases as [Hin | ->].
  - left. by apply Hp.
  - right. rewrite Hid. by apply list_elem_of_singleton.
Qed.

Lemma base_result_id now r : result_id (base_result now r) = restaurant_id r.
Proof. reflexivity. Qed.

(** Writing under another key than the two original ones keeps the
    identity key. *)
Lemma result_id_set k v d :
  k ≠ "original_name"%string → k ≠ "original_address"%string →
  result_id (PyDict.set k v d) = result_id d.
Proof.
  intros H1 H2. unfold result_id. by rewrite !get_set_ne by done.
Qed.

Lemma result_id_update d other :
  Forall (λ kv, kv.1 ≠ "original_name"%string ∧ kv.1 ≠ "original_address"%string) other →
  result_id (PyDict.update d other) = result_id d.
Proof.
  unfold PyDict.update. revert d.
  induction other as [|[k v] other IH]; intros d Hk; simpl; [done|].
  apply Forall_cons in Hk as [[H1 H2] Hk].
  rewrite IH by done. by apply result_id_set.
Qed.

Lemma parallel_info_keys p :
  Forall (λ kv, kv.1 ≠ "original_name"%string ∧ kv.1 ≠ "original_address"%string)
         (Parallel.extract_place_info p).
Proof.
  destruct (page_url p) as [url|e] eqn:E.
  - rewrite (VerdictFacts.parallel_info_got _ _ E).
    repeat (apply Forall_cons; split); done.
  - rewrite (VerdictFacts.parallel_info_raised _ _ E).
    repeat (apply Forall_cons; split); done.
Qed.

Lemma single_info_keys p :
  Forall (λ kv, kv.1 ≠ "original_name"%string ∧ kv.1 ≠ "original_address"%string)
         (Single.extract_place_info p).
Proof.
  destruct (page_url p) as [url|e] eqn:E.
  - rewrite (VerdictFacts.single_info_got _ _ E).
    repeat (apply Forall_cons; split); done.
  - rewrite (VerdictFacts.single_info_raised _ _ E).
    repeat (apply Forall_cons; split); done.
Qed.

Lemma parallel_result_id round2 now r v :
  result_id (Parallel.scrape_restaurant round2 now r v) = restaurant_id r.
Proof.
  unfold Parallel.scrape_restaurant. destruct v as [e|p].
  - by rewrite !result_id_set.
  - repeat case_match; rewrite ?result_id_set by done;
      by rewrite result_id_update by apply parallel_info_keys.
Qed.

Lemma single_result_id round2 now r v :
  result_id (Single.scrape_restaurant round2 now r v) = restaurant_id r.
Proof.
  unfold Single.scrape_restaurant. destruct v as [e|p].
  - by rewrite !result_id_set.
  - repeat case_match; rewrite ?result_id_set by done;
      by rewrite result_id_update by apply single_info_keys.
Qed.

Section Trace.
Variable scrape : string → restaurant → visit → dict.
Hypothesis scrape_id : ∀ now r v, result_id (scrape now r v) = restaurant_id r.

Lemma record_all_ids trace p :
  scraped_ids (record_all scrape trace p)
  = scraped_ids p ++ map (λ t, restaurant_id t.1.1) trace.
Proof.
  unfold record_all. revert p.
  induction trace as [|t trace IH]; intros p; simpl; [by rewrite app_nil_r|].
  rewrite IH, record_ids. by rewrite <- app_assoc.
Qed.

Lemma record_all_counts trace p :
  counts_agree p → counts_agree (record_all scrape trace p).
Proof.
  unfold record_all. revert p.
  induction trace as [|t trace IH]; intros p Hp; simpl; [done|].
  by apply IH, record_counts.
Qed.

Lemma record_all_keyed trace p :
  results_keyed p → results_keyed (record_all scrape trace p).
Proof.
  unfold record_all. revert p.
  induction trace as [|t trace IH]; intros p Hp; simpl; [done|].
  by apply IH, record_keyed.
Qed.
End Trace.

Lemma single_loop_cons round2 json_dumps w clock i r remaining st :
  Single.scrape_loop round2 json_dumps w clock i (r :: remaining) st
  = let p := record r (Single.scrape_restaurant round2 (w i).1 r (w i).2) st.1 in
    Single.scrape_loop round2 json_dumps w clock (S i) remaining
      (if (i + 1) mod 10 =? 0
       then Single.save_progress json_dumps (clock i) p
       else (p, st.2)).
Proof. simpl. by destruct (w i). Qed.

Lemma single_save_or_not json_dumps (c : bool) now p f :
  scraped_ids (if c then Single.save_progress json_dumps now p else (p, f)).1
  = scraped_ids p
  ∧ results (if c then Single.save_progress json_dumps now p else (p, f)).1
    = results p
  ∧ failed (if c then Single.save_progress json_dumps now p else (p, f)).1
    = failed p.
Proof. by destruct c. Qed.

(** The loop of the single-stream scraper records one key for each
    restaurant, in order; its saves only stamp the dictionary. *)
Lemma single_loop_ids round2 json_dumps w clock remaining :
  ∀ i st,
    scraped_ids (Single.scrape_loop round2 json_dumps w clock i remaining st).1
    = scraped_ids st.1 ++ (restaurant_id <$> remaining).
Proof.
  induction remaining as [|r remaining IH]; intros i st;
    [by rewrite app_nil_r|].
  rewrite single_loop_cons. cbv zeta. rewrite IH.
  rewrite (proj1 (single_save_or_not _ _ _ _ _)), record_ids.
  by rewrite <- app_assoc.
Qed.

Lemma single_loop_counts round2 json_dumps w clock remaining :
  ∀ i st,
    counts_agree st.1 →
    counts_agree (Single.scrape_loop round2 json_dumps w clock i remaining st).1.
Proof.
  induction remaining as [|r remaining IH]; intros i st Hst; [done|].
  rewrite single_loop_cons. cbv zeta. apply IH.
  unfold counts_agree.
  destruct (single_save_or_not json_dumps ((i + 1) mod 10 =? 0) (clock i)
              (record r (Single.scrape_restaurant round2 (w i).1 r (w i).2) st.1) st.2)
    as (-> & -> & ->).
  by apply record_counts.
Qed.

(** The pool of workers only ever records. *)
Lemma step_invariant round2 n s s' :
  Parallel.step round2 n s s' →
  counts_agree (Parallel.progress_data s) ∧ results_keyed (Parallel.progress_data s) →
  (counts_agree (Parallel.progress_data s') ∧ results_keyed (Parallel.progress_data s'))
  ∧ ∃ more, scraped_ids (Parallel.progress_data s')
            = scraped_ids (Parallel.progress_data s) ++ more.
Proof.
  intros Hstep [Hc Hk]. destruct Hstep; simpl in *.
  - split; [done|]. exists []. by rewrite app_nil_r.
  - split; [split|].
    + by apply record_counts.
    + apply record_keyed; [apply parallel_result_id | done].
    + eexists. apply record_ids.
Qed.

Lemma run_invariant round2 n s s' :
  rtc (Parallel.step round2 n) s s' →
  counts_agree (Parallel.progress_data s) ∧ results_keyed (Parallel.progress_data s) →
  (counts_agree (Parallel.progress_data s') ∧ results_keyed (Parallel.progress_data s'))
  ∧ ∃ more, scraped_ids (Parallel.progress_data s')
            = scraped_ids (Parallel.progress_data s) ++ more.
Proof.
  induction 1 as [s|s1 s2 s3 Hstep _ IH]; intros Hinv.
  - split; [done|]. exists []. by rewrite app_nil_r.
  - destruct (step_invariant _ _ _ _ Hstep Hinv) as [Hinv2 [m1 Hm1]].
    destruct (IH Hinv2) as [Hinv3 [m2 Hm2]].
    split; [done|]. exists (m1 ++ m2). by rewrite Hm2, Hm1, app_assoc.
Qed.

End ProgressFacts.

(** C1, as amended.  From a dictionary with as many keys as outcomes and
    with the key of every outcome among the keys (the empty one is such),
    every sequence of recordings, of either scraper, leaves a dictionary of
    that kind; the keys it had are still there, in place, followed by one key
    per recording, so a key stands there once for each time it was recorded:
    exactly once when the recorded keys are distinct and new.  The same holds
    of every state the pool of workers can reach. *)
Theorem progress_invariant_under_recording
        (round2 : Q → number) (scrape : string → Common.restaurant → Common.visit → dict)
        (trace : list (Common.restaurant * string * Common.visit))
        (p0 : Common.progress) :
  scrape = Parallel.scrape_restaurant round2 ∨ scrape = Single.scrape_restaurant round2 →
  Common.counts_agree p0 → Common.results_keyed p0 →
  let p := Common.record_all scrape trace p0 in
  let keys := map (λ t, Common.restaurant_id t.1.1) trace in
  Common.counts_agree p ∧
  Common.results_keyed p ∧
  Common.scraped_ids p = Common.scraped_ids p0 ++ keys ∧
  (NoDup (Common.scraped_ids p0 ++ keys) → NoDup (Common.scraped_ids p)) ∧
  (∀ n s s', rtc (Parallel.step round2 n) s s' →
             Common.counts_agree (Parallel.progress_data s)
             ∧ Common.results_keyed (Parallel.progress_data s) →
             (Common.counts_agree (Parallel.progress_data s')
              ∧ Common.results_keyed (Parallel.progress_data s'))
             ∧ ∃ more, Common.scraped_ids (Parallel.progress_data s')
                       = Common.scraped_ids (Parallel.progress_data s) ++ more) ∧
  Common.counts_agree Common.empty_progress ∧
  Common.results_keyed Common.empty_progress.
Proof.
  intros Hscrape Hc Hk p keys.
  assert (Hid : ∀ now r v, Common.result_id (scrape now r v) = Common.restaurant_id r).
  { intros now r v. destruct Hscrape as [-> | ->].
    - apply ProgressFacts.parallel_result_id.
    - apply ProgressFacts.single_result_id. }
  assert (Hids : Common.scraped_ids p = Common.scraped_ids p0 ++ keys)
    by apply ProgressFacts.record_all_ids.
  repeat split.
  - by apply ProgressFacts.record_all_counts.
  - by apply ProgressFacts.record_all_keyed.
  - exact Hids.
  - by rewrite Hids.
  - eapply ProgressFacts.run_invariant; eauto.
  - eapply ProgressFacts.run_invariant; eauto.
  - eapply ProgressFacts.run_invariant; eauto.
  - apply ProgressFacts.empty_keyed.
Qed.

Lemma progress_invariant_under_recording_witness :
  let scrape := Parallel.scrape_restaurant Sample.round2 in
  let trace := [ (Sample.joes, Sample.now, Common.Arrived Sample.joes_page);
                 (Sample.cafe, Sample.later, Common.GotoRaised "timeout"%string) ] in
  (scrape = Parallel.scrape_restaurant Sample.round2
   ∨ scrape = Single.scrape_restaurant Sample.round2) ∧
  Common.counts_agree Common.empty_progress ∧
  Common.results_keyed Common.empty_progress ∧
  Common.counts_agree (Common.record_all scrape trace Common.empty_progress) ∧
  Common.scraped_ids (Common.record_all scrape trace Common.empty_progress)
  = [ "Joe's Pizza|123 Bleecker St"; "Cafe X|1 Main St" ]%string.
Proof.
  intros scrape trace.
  assert (H1 : scrape = Parallel.scrape_restaurant Sample.round2
               ∨ scrape = Single.scrape_restaurant Sample.round2) by (left; reflexivity).
  assert (H2 : Common.counts_agree Common.empty_progress) by reflexivity.
  assert (H3 : Common.results_keyed Common.empty_progress)
    by apply ProgressFacts.empty_keyed.
  destruct (progress_invariant_under_recording Sample.round2 scrape trace
              Common.empty_progress H1 H2 H3) as (Hc & _ & Hids & _).
  split; [exact H1|]. split; [exact H2|]. split; [exact H3|].
  split; [exact Hc | exact Hids].
Defined.

(** C1, as the claim has it, fails: a catalog that lists a name and address
    twice has both entries queued, and the run records their key twice. *)
Lemma key_recorded_twice :
  let q := Parallel.task_queue (Parallel.Args None false 1 true)
             [Sample.joes; Sample.joes] Common.empty_progress in
  let p := Parallel.worker Sample.round2
             (λ _, (Sample.now, Common.Arrived Sample.joes_page)) 0 q
             Common.empty_progress in
  Common.scraped_ids p
  = [ "Joe's Pizza|123 Bleecker St"; "Joe's Pizza|123 Bleecker St" ]%string ∧
  Common.result_id <$> Common.results p
  = [ "Joe's Pizza|123 Bleecker St"; "Joe's Pizza|123 Bleecker St" ]%string ∧
  ¬ NoDup (Common.scraped_ids p).
Proof.
  assert (Hids : Common.scraped_ids
                   (Parallel.worker Sample.round2
                      (λ _, (Sample.now, Common.Arrived Sample.joes_page)) 0
                      (Parallel.task_queue (Parallel.Args None false 1 true)
                         [Sample.joes; Sample.joes] Common.empty_progress)
                      Common.empty_progress)
                 = [ "Joe's Pizza|123 Bleecker St"; "Joe's Pizza|123 Bleecker St" ]%string)
    by (vm_compute; reflexivity).
  cbv zeta. split; [exact Hids|]. split; [vm_compute; reflexivity|].
  rewrite Hids. intros Hnd. apply NoDup_cons in Hnd as [Hnot _].
  apply Hnot. by apply list_elem_of_singleton.
Qed.

(** ** Errors of a visit *)

Module WorkerFacts.
Import Common PyDictFacts.

Lemma worker_ids round2 w queue :
  ∀ tick p,
    scraped_ids (Parallel.worker round2 w tick queue p)
    = scraped_ids p ++ (restaurant_id <$> queue).
Proof.
  induction queue as [|r queue IH]; intros tick p; simpl; [by rewrite app_nil_r|].
  destruct (w tick) as [now v]. rewrite IH, ProgressFacts.record_ids.
  by rewrite <- app_assoc.
Qed.

Lemma goto_raised_outcome round2 now r e :
  PyDict.get "found" (Parallel.scrape_restaurant round2 now r (GotoRaised e))
  = Some (JBool false) ∧
  PyDict.get "error" (Parallel.scrape_restaurant round2 now r (GotoRaised e))
  = Some (JStr e).
Proof.
  unfold Parallel.scrape_restaurant. split.
  - apply get_set_eq.
  - rewrite get_set_ne by done. apply get_set_eq.
Qed.

Lemma extract_raised_outcome round2 now r e h a c rt rv :
  let o := Parallel.scrape_restaurant round2 now r
             (Arrived (Page (Raised e) h a c rt rv)) in
  PyDict.get "found" o = Some (JBool false) ∧ PyDict.get "error" o = Some (JStr e).
Proof. split; reflexivity. Qed.

(** An error that [scrape_restaurant] or [extract_place_info] catches:
    the one of [page.goto], or the one of [page.url]. *)
Lemma caught_outcome round2 now r e s :
  Parallel.goto s = Raised e
  ∨ (Parallel.goto s = Got tt ∧ Parallel.url s = Raised e) →
  let o := Parallel.scrape_restaurant round2 now r (Parallel.visit_of s) in
  PyDict.get "found" o = Some (JBool false) ∧ PyDict.get "error" o = Some (JStr e).
Proof.
  intros [Hgoto | [Hgoto Hurl]]; unfold Parallel.visit_of; rewrite Hgoto.
  - apply goto_raised_outcome.
  - unfold Parallel.page_of. rewrite Hurl. apply extract_raised_outcome.
Qed.

(** A block that finds nothing and a block that meets an error leave the
    same to read. *)
Lemma guarded_quiet {A} (block : attempt (option A)) :
  Parallel.guarded (Parallel.quiet block) = Parallel.guarded block.
Proof. by destruct block. Qed.

Lemma fallback_quiet value block :
  Parallel.fallback value (Parallel.quiet block) = Parallel.fallback value block.
Proof. unfold Parallel.fallback. by rewrite guarded_quiet. Qed.

Lemma visit_without_errors s :
  Parallel.visit_of (Parallel.without_errors s) = Parallel.visit_of s.
Proof.
  destruct s. unfold Parallel.visit_of, Parallel.page_of, Parallel.without_errors.
  cbn -[Parallel.fallback Parallel.guarded Parallel.quiet].
  by rewrite !guarded_quiet, !fallback_quiet.
Qed.

(** A visit that arrives and reads the address of the page: no error text,
    and found or not by the name alone. *)
Lemma read_outcome round2 now r s u :
  Parallel.goto s = Got tt → Parallel.url s = Got u →
  let o := Parallel.scrape_restaurant round2 now r (Parallel.visit_of s) in
  PyDict.get "error" o = None ∧
  PyDict.get "found" o
  = Some (JBool (PyDict.truthy (Some (read_name (Parallel.page_of s))))).
Proof.
  intros Hgoto Hurl. unfold Parallel.visit_of. rewrite Hgoto.
  unfold Parallel.scrape_restaurant.
  rewrite (VerdictFacts.parallel_info_got (Parallel.page_of s) u) by done.
  repeat case_match; split; reflexivity.
Qed.

Lemma record_once r o p :
  scraped_ids (record r o p) = scraped_ids p ++ [restaurant_id r] ∧
  length (results (record r o p)) + length (failed (record r o p))
  = S (length (results p) + length (failed p)).
Proof.
  split; [apply ProgressFacts.record_ids|].
  unfold record. destruct (PyDict.truthy _); simpl; rewrite length_app; simpl; lia.
Qed.

(** While work is left, the pool can move. *)
Lemma pool_can_step round2 n s :
  0 < n → Parallel.queue s ≠ [] ∨ Parallel.busy s ≠ [] →
  ∃ s', Parallel.step round2 n s s'.
Proof.
  intros Hn Hwork. destruct s as [q bs p]. simpl in Hwork.
  destruct bs as [|[wid r] bs].
  - destruct q as [|r q]; [by destruct Hwork|].
    eexists. apply (Parallel.step_take round2 n 0 r q [] p); [done|].
    simpl. apply not_elem_of_nil.
  - eexists.
    apply (Parallel.step_record round2 n wid r EmptyString (GotoRaised EmptyString)
             q [] bs p).
Qed.

End WorkerFacts.

(** C4, as amended.  An error of [page.goto], or one that escapes the
    blocks of [extract_place_info] (the read of [page.url]), ends as an
    outcome with [found] false that carries the error text; recording it
    adds it to [failed], one entry more, and nothing to [results].  An
    error inside a block of [extract_place_info] (the wait for the main
    element, a read of the name, of the address, of the category) is
    swallowed by the block: the outcome is the one of the same visit with
    every such block finding nothing; it carries no error text and is found
    or not by the name that was read.  Whatever the visit, its outcome is
    recorded, once; the worker goes on with the rest of the queue, and a
    worker that has drained its queue has recorded every task. *)
Theorem errors_become_failed_outcomes
        (round2 : Q → number) (now : string) (r : Common.restaurant) (e : string)
        (s : Parallel.session)
        (w : Parallel.world) (tick : nat) (queue : list Common.restaurant)
        (p : Common.progress) :
  let o := Parallel.scrape_restaurant round2 now r (Parallel.visit_of s) in
  (Parallel.goto s = Common.Raised e
   ∨ (Parallel.goto s = Common.Got tt ∧ Parallel.url s = Common.Raised e) →
   PyDict.get "found" o = Some (JBool false)
   ∧ PyDict.get "error" o = Some (JStr e)
   ∧ Common.failed (Common.record r o p) = Common.failed p ++ [o]
   ∧ length (Common.failed (Common.record r o p)) = S (length (Common.failed p))
   ∧ Common.results (Common.record r o p) = Common.results p) ∧
  Parallel.visit_of (Parallel.without_errors s) = Parallel.visit_of s ∧
  (∀ u, Parallel.goto s = Common.Got tt → Parallel.url s = Common.Got u →
        PyDict.get "error" o = None
        ∧ PyDict.get "found" o
          = Some (JBool (PyDict.truthy
                           (Some (Common.read_name (Parallel.page_of s)))))) ∧
  (∀ v, let o := Parallel.scrape_restaurant round2 now r v in
        Common.scraped_ids (Common.record r o p)
        = Common.scraped_ids p ++ [Common.restaurant_id r]
        ∧ length (Common.results (Common.record r o p))
          + length (Common.failed (Common.record r o p))
          = S (length (Common.results p) + length (Common.failed p))) ∧
  Parallel.worker round2 w tick (r :: queue) p
  = Parallel.worker round2 w (S tick) queue
      (Common.record r (Parallel.scrape_restaurant round2 (w tick).1 r (w tick).2) p) ∧
  Common.scraped_ids (Parallel.worker round2 w tick queue p)
  = Common.scraped_ids p ++ (Common.restaurant_id <$> queue) ∧
  (∀ n st, 0 < n → Parallel.queue st ≠ [] ∨ Parallel.busy st ≠ [] →
           ∃ st', Parallel.step round2 n st st').
Proof.
  intros o. split_and!.
  - intros Hcaught.
    destruct (WorkerFacts.caught_outcome round2 now r e s Hcaught) as [Hfound Herror].
    fold o in Hfound, Herror.
    assert (Hf : PyDict.truthy (PyDict.get "found" o) = false) by (by rewrite Hfound).
    destruct (ProgressFacts.record_not_found r o p Hf) as [Hres Hfail].
    rewrite Hfail, Hres, length_app. simpl. split_and!; try done. lia.
  - apply WorkerFacts.visit_without_errors.
  - intros u Hgoto Hurl. by apply (WorkerFacts.read_outcome round2 now r s u).
  - intros v. apply WorkerFacts.record_once.
  - simpl. by destruct (w tick).
  - apply WorkerFacts.worker_ids.
  - apply WorkerFacts.pool_can_step.
Qed.

(** C4, as the claim has it, fails: in this visit the wait for the main
    element times out and so does the read of the address button; both
    errors are swallowed, the outcome is found, carries no error text and
    goes to [results], and [failed] stays as it was. *)
Lemma swallowed_error_is_found :
  let o := Parallel.scrape_restaurant Sample.round2 Sample.now Sample.joes
             (Parallel.visit_of Sample.joes_session) in
  Parallel.main_wait Sample.joes_session = Common.Raised "Timeout 5000ms exceeded." ∧
  Parallel.address_button Sample.joes_session
  = Common.Raised "Timeout 30000ms exceeded." ∧
  PyDict.get "found" o = Some (JBool true) ∧
  PyDict.get "error" o = None ∧
  PyDict.get "google_address" o = Some JNull ∧
  Common.results (Common.record Sample.joes o Common.empty_progress) = [o] ∧
  Common.failed (Common.record Sample.joes o Common.empty_progress) = [].
Proof. vm_compute. repeat split. Qed.

(** ** The queue of a run *)

Module QueueFacts.
Import Common.

Lemma filter_none {X} (P : X → Prop) `{∀ x, Decision (P x)} (l : list X) :
  Forall (λ x, ¬ P x) l → filter P l = [].
Proof.
  induction 1 as [|x l Hx Hl IH]; [done|]. by rewrite filter_cons_False.
Qed.

Lemma filter_all {X} (P : X → Prop) `{∀ x, Decision (P x)} (l : list X) :
  Forall P l → filter P l = l.
Proof.
  induction 1 as [|x l Hx Hl IH]; [done|]. rewrite filter_cons_True by done.
  by f_equal.
Qed.

(** The scraped set only serves membership. *)
Lemma unscraped_filter rs p :
  remaining_tasks None false rs p
  = filter (λ r, restaurant_id r ∉ scraped_ids p) rs.
Proof.
  unfold remaining_tasks, slice_to. apply list_filter_iff.
  intros r. by rewrite elem_of_list_to_set.
Qed.

Lemma slice_to_prefix sample l : ∃ rest, l = slice_to sample l ++ rest.
Proof.
  unfold slice_to. destruct sample as [n|]; [|exists []; by rewrite app_nil_r].
  repeat case_match; try (exists []; by rewrite app_nil_r);
    eexists; symmetry; apply take_drop.
Qed.

Lemma slice_to_all sample l :
  sample = None ∨ (∃ n, sample = Some n ∧ ((n = 0)%Z ∨ (Z.of_nat (length l) ≤ n)%Z)) →
  slice_to sample l = l.
Proof.
  intros [-> | (n & -> & Hn)]; [done|]. unfold slice_to.
  destruct (n =? 0)%Z eqn:E0; [done|].
  apply Z.eqb_neq in E0. destruct Hn as [?|Hn]; [done|].
  assert (0 < n)%Z by lia. rewrite (proj2 (Z.ltb_lt 0 n)) by done.
  apply take_ge. lia.
Qed.

Lemma remaining_cut sample pr rs p :
  remaining_tasks sample pr rs p = slice_to sample (remaining_tasks None pr rs p).
Proof. reflexivity. Qed.

Lemma remaining_prioritized rs p :
  remaining_tasks None true rs p
  = filter (λ r, is_unspecified r = true) (remaining_tasks None false rs p)
    ++ filter (λ r, is_unspecified r ≠ true) (remaining_tasks None false rs p).
Proof. reflexivity. Qed.

Lemma remaining_perm pr rs p :
  remaining_tasks None pr rs p ≡ₚ filter (λ r, restaurant_id r ∉ scraped_ids p) rs.
Proof.
  destruct pr; [|by rewrite unscraped_filter].
  rewrite remaining_prioritized, unscraped_filter.
  apply (filter_app_complement (λ r, is_unspecified r = true)).
Qed.

Lemma remaining_unscraped sample pr rs p r :
  r ∈ remaining_tasks sample pr rs p → (restaurant_id r ∉ scraped_ids p) ∧ r ∈ rs.
Proof.
  rewrite remaining_cut. intros Hr.
  destruct (slice_to_prefix sample (remaining_tasks None pr rs p)) as [rest Hrest].
  assert (Hin : r ∈ remaining_tasks None pr rs p).
  { rewrite Hrest. apply elem_of_app. by left. }
  rewrite remaining_perm in Hin. by apply list_elem_of_filter in Hin.
Qed.

Lemma remaining_length pr rs done p :
  NoDup (restaurant_id <$> rs) →
  done ⊆+ rs →
  (∀ k, k ∈ scraped_ids p ↔ k ∈ restaurant_id <$> done) →
  length (remaining_tasks None pr rs p) = length rs - length done.
Proof.
  intros Hnd Hsub Hids.
  destruct (submseteq_Permutation _ _ Hsub) as [rest Hperm].
  rewrite remaining_perm, Hperm, filter_app, length_app.
  rewrite Hperm, fmap_app in Hnd. apply NoDup_app in Hnd as (_ & Hdisj & _).
  rewrite filter_none, filter_all.
  - rewrite length_app. simpl. lia.
  - apply Forall_forall. intros r Hr Hin. apply Hids in Hin.
    apply (Hdisj _ Hin). apply list_elem_of_fmap. by exists r.
  - apply Forall_forall. intros r Hr Hnot. apply Hnot, Hids.
    apply list_elem_of_fmap. by exists r.
Qed.

End QueueFacts.

(** C2, as amended.  The queue is what is left of the catalog once every
    entry whose key is scraped is taken out, the "Unspecified" entries first
    when asked, cut to the sample size when one is given; none of its keys is
    scraped.  When the keys of the catalog are distinct, [done] holds the
    entries that were completed, and no sample size cuts the queue, a resumed
    run queues the original count less the count of [done]. *)
Theorem task_queue_after_resume
        (sample : option Z) (prioritize : bool)
        (restaurants done : list Common.restaurant) (p : Common.progress) :
  NoDup (Common.restaurant_id <$> restaurants) →
  done ⊆+ restaurants →
  (∀ k, k ∈ Common.scraped_ids p ↔ k ∈ Common.restaurant_id <$> done) →
  sample = None
  ∨ (∃ n, sample = Some n ∧ ((n = 0)%Z ∨ (Z.of_nat (length restaurants) ≤ n)%Z)) →
  length (Common.remaining_tasks sample prioritize restaurants p)
  = length restaurants - length done ∧
  (∀ s pr rs p' r,
      r ∈ Common.remaining_tasks s pr rs p' →
      (Common.restaurant_id r ∉ Common.scraped_ids p') ∧ r ∈ rs) ∧
  (∀ rs p',
      Common.remaining_tasks None false rs p'
      = filter (λ r, Common.restaurant_id r ∉ Common.scraped_ids p') rs) ∧
  (∀ rs p',
      Common.remaining_tasks None true rs p'
      = filter (λ r, Common.is_unspecified r = true)
               (Common.remaining_tasks None false rs p')
        ++ filter (λ r, Common.is_unspecified r ≠ true)
                  (Common.remaining_tasks None false rs p')) ∧
  (∀ s pr rs p',
      Common.remaining_tasks s pr rs p'
      = Common.slice_to s (Common.remaining_tasks None pr rs p')) ∧
  (∀ a rs p', Parallel.task_queue a rs p'
              = Common.remaining_tasks (Parallel.sample_size a)
                  (Parallel.prioritize_unspecified a) rs p').
Proof.
  intros Hnd Hsub Hids Hsample. repeat split.
  - rewrite QueueFacts.remaining_cut.
    pose proof (QueueFacts.remaining_length prioritize _ _ _ Hnd Hsub Hids) as Hlen.
    rewrite QueueFacts.slice_to_all; [done|].
    destruct Hsample as [-> | (n & -> & Hn)]; [by left|].
    right. exists n. split; [done|]. destruct Hn as [?|Hn]; [by left|]. right.
    rewrite Hlen. lia.
  - by eapply QueueFacts.remaining_unscraped.
  - by eapply QueueFacts.remaining_unscraped.
  - apply QueueFacts.unscraped_filter.
Qed.

Lemma task_queue_after_resume_witness :
  let catalog := [Sample.joes; Sample.cafe; Sample.deli] in
  let p := Common.record Sample.joes
             (Parallel.scrape_restaurant Sample.round2 Sample.now Sample.joes
                (Common.Arrived Sample.joes_page)) Common.empty_progress in
  NoDup (Common.restaurant_id <$> catalog) ∧
  [Sample.joes] ⊆+ catalog ∧
  (∀ k, k ∈ Common.scraped_ids p ↔ k ∈ Common.restaurant_id <$> [Sample.joes]) ∧
  length (Common.remaining_tasks None true catalog p) = 2.
Proof.
  intros catalog p.
  assert (H1 : NoDup (Common.restaurant_id <$> catalog)).
  { refine (bool_decide_unpack _ _). vm_compute. exact I. }
  assert (H2 : [Sample.joes] ⊆+ catalog).
  { apply submseteq_skip, submseteq_nil_l. }
  assert (H3 : ∀ k, k ∈ Common.scraped_ids p ↔ k ∈ Common.restaurant_id <$> [Sample.joes]).
  { intros k. reflexivity. }
  split; [exact H1|]. split; [exact H2|]. split; [exact H3|].
  exact (proj1 (task_queue_after_resume None true catalog [Sample.joes] p
                  H1 H2 H3 (or_introl eq_refl))).
Defined.

(** C2, as the claim has it, fails.  With one of two entries of the same key
    completed, the resumed queue is empty, not of one task; and a sample size
    of one leaves one task of three, with none completed. *)
Lemma resumed_queue_count_off :
  let p := Common.record Sample.joes
             (Parallel.scrape_restaurant Sample.round2 Sample.now Sample.joes
                (Common.Arrived Sample.joes_page)) Common.empty_progress in
  (length (Common.scraped_ids p) = 1 ∧
   length (Parallel.task_queue (Parallel.Args None true 5 true)
             [Sample.joes; Sample.joes] p) = 0) ∧
  length (Parallel.task_queue (Parallel.Args (Some 1%Z) true 5 true)
            [Sample.joes; Sample.cafe; Sample.deli] Common.empty_progress) = 1.
Proof. vm_compute. repeat split. Qed.


(** ** The JSON text read back *)

Module JsonFacts.
Import JsonText.

Lemma read_digits_chars u rest :
  closes rest → read_digits (uint_chars u ++ rest) = (u, rest).
Proof.
  intros Hrest. induction u; simpl; rewrite ?IHu; try done.
  destruct rest as [|c rest]; [done|]. simpl in *.
  destruct Hrest as [-> | [-> | ->]]; reflexivity.
Qed.

Lemma read_digits_point u rest :
  read_digits (uint_chars u ++ "."%char :: rest) = (u, "."%char :: rest).
Proof. induction u; simpl; rewrite ?IHu; done. Qed.

Lemma to_uint_normal n : Decimal.unorm (N.to_uint n) = N.to_uint n.
Proof.
  rewrite <- (DecimalN.Unsigned.to_of (N.to_uint n)).
  by rewrite DecimalN.Unsigned.of_to.
Qed.

Lemma to_uint_not_nil n : is_nil (N.to_uint n) = false.
Proof.
  destruct (N.to_uint n) eqn:E; try done.
  pose proof (DecimalN.Unsigned.of_to n) as Hn. rewrite E in Hn.
  simpl in Hn. subst n. discriminate E.
Qed.

Lemma uint_beq_refl u : Decimal.uint_beq u u = true.
Proof. by apply Decimal.internal_uint_dec_lb. Qed.

Lemma starts_exponent_closes rest : closes rest → starts_exponent rest = false.
Proof.
  destruct rest as [|c rest]; [done|]. simpl.
  intros [-> | [-> | ->]]; reflexivity.
Qed.

Lemma read_sign_chars (neg : bool) u tail :
  is_nil u = false →
  read_sign ((if neg then ["-"%char] else []) ++ uint_chars u ++ tail)
  = (neg, uint_chars u ++ tail).
Proof.
  intros Hu. destruct neg; [reflexivity|]. simpl.
  destruct u; try done; reflexivity.
Qed.

Lemma read_fraction_none rest :
  closes rest → read_fraction rest = Some (Decimal.Nil, rest).
Proof.
  destruct rest as [|c rest]; [done|]. simpl.
  intros [-> | [-> | ->]]; reflexivity.
Qed.

Lemma read_fraction_chars f rest :
  is_nil f = false → Decimal.uint_beq (trim_fraction f) f = true → closes rest →
  read_fraction ("."%char :: uint_chars f ++ rest) = Some (f, rest).
Proof.
  intros Hf Htrim Hrest. unfold read_fraction.
  rewrite (read_digits_chars _ _ Hrest), Hf.
  by rewrite (Decimal.internal_uint_dec_bl _ _ Htrim).
Qed.

Lemma parse_number_chars n rest :
  canonical n = true → closes rest →
  parse_number (number_chars n ++ rest) = Some (n, rest).
Proof.
  intros Hcan Hrest. destruct n as [neg w f]. unfold canonical in Hcan. simpl in Hcan.
  unfold number_chars, parse_number. simpl negative. simpl whole. simpl fraction.
  rewrite <- !app_assoc, read_sign_chars by apply to_uint_not_nil.
  destruct (is_nil f) eqn:Ef.
  - destruct f; try done. simpl app.
    rewrite (read_digits_chars _ _ Hrest).
    rewrite to_uint_not_nil, to_uint_normal, uint_beq_refl. simpl orb. cbv iota.
    rewrite (read_fraction_none _ Hrest), (starts_exponent_closes _ Hrest).
    rewrite DecimalN.Unsigned.of_to. simpl is_nil. cbv iota.
    f_equal. f_equal. f_equal.
    destruct neg; [|done]. simpl in *. by destruct (w =? 0)%N.
  - assert (Htrim : Decimal.uint_beq (trim_fraction f) f = true) by (by destruct f).
    replace (fraction_chars f) with ("."%char :: uint_chars f) by (by destruct f).
    change (("."%char :: uint_chars f) ++ rest) with ("."%char :: uint_chars f ++ rest).
    rewrite read_digits_point.
    rewrite to_uint_not_nil, to_uint_normal, uint_beq_refl. simpl orb. cbv iota.
    rewrite (read_fraction_chars _ _ Ef Htrim Hrest), (starts_exponent_closes _ Hrest).
    by rewrite DecimalN.Unsigned.of_to, Ef.
Qed.

(** *** Strings *)

Lemma scan_escape c s acc :
  scan_string (escape_char c ++ s) acc = scan_string s (c :: acc).
Proof. destruct c as [[] [] [] [] [] [] [] []]; reflexivity. Qed.

Lemma scan_string_chars l rest :
  ∀ acc, scan_string (concat (map escape_char l) ++ "034"%char :: rest) acc
         = Some (List.rev acc ++ l, rest).
Proof.
  induction l as [|c l IH]; intros acc; simpl.
  - by rewrite app_nil_r.
  - rewrite <- app_assoc, scan_escape, IH. simpl. by rewrite <- app_assoc.
Qed.

(** *** White space *)

Lemma parse_value_space fuel s :
  parse_value fuel (" "%char :: s) = parse_value fuel s.
Proof. by destruct fuel. Qed.

Lemma parse_items_space fuel s acc :
  parse_items fuel (" "%char :: s) acc = parse_items fuel s acc.
Proof. destruct fuel; [done|]. simpl. by rewrite parse_value_space. Qed.

Lemma parse_members_space fuel s acc :
  parse_members fuel (" "%char :: s) acc = parse_members fuel s acc.
Proof. by destruct fuel. Qed.

(** *** The head of a printed value *)

Lemma uint_chars_head u tail :
  is_nil u = false →
  ∃ c tl, uint_chars u ++ tail = c :: tl ∧ is_Some (digit_of c).
Proof. destruct u; try done; intros _; eexists _, _; split; try reflexivity; by eexists. Qed.

Lemma digit_opens c : is_Some (digit_of c) → opens c.
Proof.
  intros [d Hd]. destruct c as [[] [] [] [] [] [] [] []]; try discriminate Hd;
    repeat split; done.
Qed.

Lemma number_chars_head n tail :
  ∃ c tl, number_chars n ++ tail = c :: tl
          ∧ (c = "-"%char ∨ is_Some (digit_of c)).
Proof.
  unfold number_chars. destruct (negative n).
  - eexists _, _. split; [reflexivity | by left].
  - simpl. rewrite <- app_assoc.
    destruct (uint_chars_head (N.to_uint (whole n))
                (fraction_chars (fraction n) ++ tail) (to_uint_not_nil _))
      as (c & tl & -> & Hc).
    eexists _, _. split; [reflexivity | by right].
Qed.

Lemma print_head v tail : ∃ c tl, print v ++ tail = c :: tl ∧ opens c.
Proof.
  destruct v as [|[]|n|s|l|kvs]; try (eexists _, _; split; [reflexivity|repeat split; done]).
  destruct (number_chars_head n tail) as (c & tl & Heq & [-> | Hc]).
  - eexists _, _. split; [exact Heq | repeat split; done].
  - eexists _, _. split; [exact Heq | by apply digit_opens].
Qed.

Lemma skip_ws_opens c tl : opens c → skip_ws (c :: tl) = c :: tl.
Proof. intros [Hc _]. simpl. by rewrite Hc. Qed.

(** A value that starts as a number is read as one. *)
Lemma parse_value_number fuel c tl :
  c = "-"%char ∨ is_Some (digit_of c) →
  parse_value (S fuel) (c :: tl)
  = match parse_number (c :: tl) with
    | Some (n, r') => Some (JNum n, r')
    | None => None
    end.
Proof.
  intros Hc.
  destruct c as [[] [] [] [] [] [] [] []];
    try (exfalso; destruct Hc as [Hc | [d Hc]]; discriminate Hc);
    reflexivity.
Qed.

(** *** Joined parts *)

Lemma join_one x : join [x] = x.
Proof. reflexivity. Qed.

Lemma join_more x y l :
  join (x :: y :: l) = x ++ ","%char :: " "%char :: join (y :: l).
Proof. reflexivity. Qed.

Lemma print_obj kvs :
  print (JObj kvs) = "{"%char :: join (map member kvs) ++ ["}"%char].
Proof.
  simpl. f_equal. f_equal. f_equal. apply map_ext. by intros [k x].
Qed.

Lemma set_fresh k v (d : dict) :
  k ∉ map fst d → PyDict.set k v d = d ++ [(k, v)].
Proof.
  induction d as [|[k' v'] d IH]; simpl; intros Hk; [done|].
  apply not_elem_of_cons in Hk as [Hne Hk].
  rewrite decide_False by done. by rewrite IH.
Qed.

Lemma join_cons_app x l rest : ∃ tail, join (x :: l) ++ rest = x ++ tail.
Proof.
  destruct l as [|y l].
  - by exists rest.
  - rewrite join_more, <- app_assoc. by eexists.
Qed.

Lemma length_print_arr l :
  length (print (JArr l)) = length (join (map print l)) + 2.
Proof. simpl. rewrite length_app. simpl. lia. Qed.

Lemma length_print_obj kvs :
  length (print (JObj kvs)) = length (join (map member kvs)) + 2.
Proof. rewrite print_obj. simpl. rewrite length_app. simpl. lia. Qed.

Lemma length_member kv : length (print kv.2) < length (member kv).
Proof. unfold member. rewrite length_app. simpl. lia. Qed.

Lemma length_print_pos v : 0 < length (print v).
Proof.
  destruct (print_head v []) as (c & tl & Heq & _).
  rewrite app_nil_r in Heq. rewrite Heq. simpl. lia.
Qed.

Lemma parse_value_array fuel r :
  (∃ c tl, r = c :: tl ∧ opens c) →
  parse_value (S fuel) ("["%char :: r) = parse_items fuel r [].
Proof.
  intros (c & tl & -> & Hc). simpl. rewrite (proj1 Hc).
  rewrite bool_decide_false; [done|]. apply Hc.
Qed.

Lemma parse_value_object fuel r :
  (∃ c tl, r = c :: tl ∧ opens c) →
  parse_value (S fuel) ("{"%char :: r) = parse_members fuel r [].
Proof.
  intros (c & tl & -> & Hc). simpl. rewrite (proj1 Hc).
  rewrite bool_decide_false; [done|]. apply Hc.
Qed.

Lemma closes_comma tl : closes (","%char :: tl).
Proof. by left. Qed.

Lemma closes_bracket tl : closes ("]"%char :: tl).
Proof. right. by left. Qed.

Lemma closes_brace tl : closes ("}"%char :: tl).
Proof. right. by right. Qed.

(** One step of the items loop and of the members loop, once the value is
    read. *)
Lemma parse_items_step fuel s acc v r :
  parse_value fuel s = Some (v, r) →
  parse_items (S fuel) s acc
  = match skip_ws r with
    | c :: r' =>
        if bool_decide (c = ","%char) then parse_items fuel r' (acc ++ [v])
        else if bool_decide (c = "]"%char) then Some (JArr (acc ++ [v]), r')
        else None
    | [] => None
    end.
Proof. intros H. simpl. by rewrite H. Qed.

Lemma parse_members_step fuel k x tail acc :
  parse_value fuel (print x ++ tail) = Some (x, tail) →
  parse_members (S fuel) (member (k, x) ++ tail) acc
  = match skip_ws tail with
    | c :: r' =>
        if bool_decide (c = ","%char)
        then parse_members fuel r' (PyDict.set k x acc)
        else if bool_decide (c = "}"%char)
        then Some (JObj (PyDict.set k x acc), r')
        else None
    | [] => None
    end.
Proof.
  intros H. unfold member, quote_chars. simpl fst. simpl snd.
  rewrite <- !app_assoc. simpl app.
  change (parse_members (S fuel) ("034"%char :: ?s) acc)
    with (match scan_string s [] with
          | Some (k0, r1) =>
              match skip_ws r1 with
              | c1 :: r2 =>
                  if bool_decide (c1 = ":"%char) then
                    match parse_value fuel r2 with
                    | Some (v, r3) =>
                        match skip_ws r3 with
                        | c3 :: r4 =>
                            if bool_decide (c3 = ","%char)
                            then parse_members fuel r4 (PyDict.set (PyStr.str k0) v acc)
                            else if bool_decide (c3 = "}"%char)
                            then Some (JObj (PyDict.set (PyStr.str k0) v acc), r4)
                            else None
                        | [] => None
                        end
                    | None => None
                    end
                  else None
              | [] => None
              end
          | None => None
          end).
  rewrite <- app_assoc. simpl app.
  rewrite scan_string_chars. simpl List.rev. simpl app.
  change (skip_ws (":"%char :: ?r)) with (":"%char :: r).
  cbv iota beta. rewrite (bool_decide_true (":"%char = ":"%char)) by done.
  rewrite parse_value_space, H. by rewrite ScoreFacts.str_chars.
Qed.

Lemma parse_items_comma fuel s acc v r :
  parse_value fuel s = Some (v, ","%char :: r) →
  parse_items (S fuel) s acc = parse_items fuel r (acc ++ [v]).
Proof. intros H. by rewrite (parse_items_step _ _ _ _ _ H). Qed.

Lemma parse_items_close fuel s acc v r :
  parse_value fuel s = Some (v, "]"%char :: r) →
  parse_items (S fuel) s acc = Some (JArr (acc ++ [v]), r).
Proof. intros H. by rewrite (parse_items_step _ _ _ _ _ H). Qed.

Lemma parse_members_comma fuel k x r acc :
  parse_value fuel (print x ++ ","%char :: r) = Some (x, ","%char :: r) →
  parse_members (S fuel) (member (k, x) ++ ","%char :: r) acc
  = parse_members fuel r (PyDict.set k x acc).
Proof. intros H. by rewrite (parse_members_step _ _ _ _ _ H). Qed.

Lemma parse_members_close fuel k x r acc :
  parse_value fuel (print x ++ "}"%char :: r) = Some (x, "}"%char :: r) →
  parse_members (S fuel) (member (k, x) ++ "}"%char :: r) acc
  = Some (JObj (PyDict.set k x acc), r).
Proof. intros H. by rewrite (parse_members_step _ _ _ _ _ H). Qed.

Lemma length_join_more (x y : list ascii) l :
  length (join (x :: y :: l)) = length x + 2 + length (join (y :: l)).
Proof. rewrite join_more, length_app. simpl. lia. Qed.

(** *** Values *)

Lemma reads_items_step fuel :
  reads_values fuel → reads_items fuel → reads_items (S fuel).
Proof.
  intros HV HI l acc rest Hne Hlen Hwf.
  destruct l as [|x l]; [done|].
  change (forallb well_formed (x :: l))
    with (well_formed x && forallb well_formed l) in Hwf.
  apply andb_true_iff in Hwf as [Hx Hl].
  destruct l as [|y l].
  - change (join (map print [x])) with (print x) in *.
    apply parse_items_close. apply HV; [lia | done | apply closes_bracket].
  - change (map print (x :: y :: l)) with (print x :: map print (y :: l)) in *.
    change (map print (y :: l)) with (print y :: map print l) in *.
    rewrite length_join_more in Hlen.
    rewrite join_more, <- app_assoc. simpl app.
    erewrite parse_items_comma; [|apply HV; [lia | done | apply closes_comma]].
    rewrite parse_items_space.
    etrans; [apply (HI (y :: l) (acc ++ [x]) rest); [done | simpl map; lia | done]|].
    by rewrite <- app_assoc.
Qed.

Lemma reads_members_step fuel :
  reads_values fuel → reads_members fuel → reads_members (S fuel).
Proof.
  intros HV HM kvs acc rest Hne Hlen Hnd Hwf.
  destruct kvs as [|[k x] kvs]; [done|].
  change (forallb (λ kv, well_formed kv.2) ((k, x) :: kvs))
    with (well_formed x && forallb (λ kv, well_formed kv.2) kvs) in Hwf.
  apply andb_true_iff in Hwf as [Hx Hl].
  assert (Hfresh : PyDict.set k x acc = acc ++ [(k, x)]).
  { apply set_fresh. rewrite map_app in Hnd. simpl in Hnd.
    apply NoDup_app in Hnd as (_ & Hdisj & _).
    intros Hin. apply (Hdisj _ Hin). by left. }
  pose proof (length_member (k, x)) as Hmem. simpl snd in Hmem.
  destruct kvs as [|kv kvs].
  - change (join (map member [(k, x)])) with (member (k, x)) in *.
    rewrite parse_members_close; [by rewrite Hfresh|].
    apply HV; [lia | done | apply closes_brace].
  - change (map member ((k, x) :: kv :: kvs))
      with (member (k, x) :: map member (kv :: kvs)) in *.
    change (map member (kv :: kvs)) with (member kv :: map member kvs) in *.
    rewrite length_join_more in Hlen.
    rewrite join_more, <- app_assoc, <- !app_comm_cons.
    rewrite parse_members_comma; [|apply HV; [lia | done | apply closes_comma]].
    rewrite parse_members_space, Hfresh.
    etrans; [apply (HM (kv :: kvs) (acc ++ [(k, x)]) rest);
             [done | simpl map; lia | by rewrite <- app_assoc | done]|].
    by rewrite <- app_assoc.
Qed.

Lemma reads_values_step fuel :
  reads_values fuel → reads_items fuel → reads_members fuel → reads_values (S fuel).
Proof.
  intros HV HI HM v rest Hlen Hwf Hrest.
  destruct v as [|[]|n|s|l|kvs]; try reflexivity.
  - (* a number *)
    destruct (number_chars_head n rest) as (c & tl & Heq & Hc).
    change (print (JNum n)) with (number_chars n).
    rewrite Heq, (parse_value_number _ _ _ Hc), <- Heq.
    by rewrite parse_number_chars.
  - (* a string *)
    change (print (JStr s)) with (quote_chars (PyStr.chars s)).
    unfold quote_chars. simpl app. rewrite <- app_assoc. simpl app.
    change (parse_value (S fuel) ("034"%char :: ?r))
      with (match scan_string r [] with
            | Some (l, r') => Some (JStr (PyStr.str l), r')
            | None => None
            end).
    rewrite scan_string_chars. simpl. by rewrite ScoreFacts.str_chars.
  - (* an array *)
    destruct l as [|x l]; [reflexivity|].
    rewrite length_print_arr in Hlen.
    change (print (JArr (x :: l)))
      with ("["%char :: join (map print (x :: l)) ++ ["]"%char]).
    rewrite <- app_comm_cons, <- app_assoc.
    change (["]"%char] ++ rest) with ("]"%char :: rest).
    rewrite parse_value_array.
    + apply (HI (x :: l) [] rest); [done | lia | done].
    + change (map print (x :: l)) with (print x :: map print l).
      destruct (join_cons_app (print x) (map print l) ("]"%char :: rest))
        as [tail ->].
      destruct (print_head x tail) as (c & tl & -> & Hc). eauto.
  - (* an object *)
    destruct kvs as [|kv kvs]; [reflexivity|].
    rewrite length_print_obj in Hlen. rewrite print_obj.
    change (well_formed (JObj (kv :: kvs)))
      with (bool_decide (NoDup (map fst (kv :: kvs)))
            && forallb (λ kv, well_formed kv.2) (kv :: kvs)) in Hwf.
    apply andb_true_iff in Hwf as [Hnd Hwf].
    apply bool_decide_eq_true in Hnd.
    rewrite <- app_comm_cons, <- app_assoc.
    change (["}"%char] ++ rest) with ("}"%char :: rest).
    rewrite parse_value_object.
    + apply (HM (kv :: kvs) [] rest); [done | lia | done | done].
    + change (map member (kv :: kvs)) with (member kv :: map member kvs).
      destruct (join_cons_app (member kv) (map member kvs) ("}"%char :: rest))
        as [tail ->].
      unfold member, quote_chars. rewrite <- !app_comm_cons.
      eexists _, _. split; [reflexivity|]. repeat split; done.
Qed.

Lemma reads_all fuel : reads_values fuel ∧ reads_items fuel ∧ reads_members fuel.
Proof.
  induction fuel as [|fuel (HV & HI & HM)].
  - repeat split.
    + intros v rest Hlen. pose proof (length_print_pos v). lia.
    + intros l acc rest _ Hlen. lia.
    + intros kvs acc rest _ Hlen. lia.
  - repeat split.
    + by apply reads_values_step.
    + by apply reads_items_step.
    + by apply reads_members_step.
Qed.

(** What [json.dumps] writes, [json.loads] reads back. *)
Lemma loads_dumps v : well_formed v = true → loads (dumps v) = Some v.
Proof.
  intros Hwf. unfold loads, dumps. rewrite ScoreFacts.chars_str.
  destruct (reads_all (S (length (print v)))) as (HV & _ & _).
  pose proof (HV v [] ltac:(lia) Hwf I) as Hv. rewrite app_nil_r in Hv.
  by rewrite Hv.
Qed.

End JsonFacts.


(** ** The checkpoint *)

Module CheckpointFacts.
Import Common.

Lemma strings_inj (l1 l2 : list string) : map JStr l1 = map JStr l2 → l1 = l2.
Proof.
  revert l2. induction l1 as [|x l1 IH]; intros [|y l2] [=]; [done|].
  subst. f_equal. by apply IH.
Qed.

Lemma dicts_inj (l1 l2 : list dict) : map JObj l1 = map JObj l2 → l1 = l2.
Proof.
  revert l2. induction l1 as [|x l1 IH]; intros [|y l2] [=]; [done|].
  subst. f_equal. by apply IH.
Qed.

(** The document tells the dictionary: two dictionaries that are written
    the same are the same. *)
Lemma progress_to_json_inj p q : progress_to_json p = progress_to_json q → p = q.
Proof.
  destruct p as [ids res fl lu], q as [ids' res' fl' lu'].
  unfold progress_to_json. simpl. intros [= H1 H2 H3 H4].
  apply strings_inj in H1. apply dicts_inj in H2. apply dicts_inj in H3.
  subst. f_equal. destruct lu, lu'; simpl in H4; congruence.
Qed.

(** With any [json] module that reads back what it writes. *)
Lemma load_save (json_dumps : json → string) (json_loads : string → option json) now p :
  let p' := Progress (scraped_ids p) (results p) (failed p) (Some now) in
  json_loads (json_dumps (progress_to_json p')) = Some (progress_to_json p') →
  Parallel.save_progress json_dumps now p = (p', Some (json_dumps (progress_to_json p')))
  ∧ Parallel.load_progress json_loads (Some (json_dumps (progress_to_json p')))
    = Got (progress_to_json p').
Proof.
  intros p' Hlaw. split; [reflexivity|].
  unfold Parallel.load_progress. by rewrite Hlaw.
Qed.

(** The keys of a dictionary of the scraper, read as [run_scraper] reads
    them. *)
Lemma omap_strings (ids : list string) : omap json_str (JStr <$> ids) = ids.
Proof. induction ids as [|k ids IH]; [done|]. csimpl. by rewrite IH. Qed.

Lemma hashable_strings (ids : list string) : forallb hashable (JStr <$> ids) = true.
Proof. by induction ids. Qed.

Lemma scraped_set_listed (d : dict) ids :
  PyDict.get "scraped_ids" d = Some (JArr (JStr <$> ids)) →
  scraped_set (JObj d) = Got (list_to_set ids).
Proof.
  intros Hget. unfold scraped_set, getitem. rewrite Hget.
  unfold mbind, attempt_bind, str_items.
  by rewrite hashable_strings, omap_strings.
Qed.

Lemma scraped_keys_listed a (d : dict) ids :
  PyDict.get "scraped_ids" d = Some (JArr (JStr <$> ids)) →
  Parallel.scraped_keys a (JObj d) = Got (list_to_set ids).
Proof.
  intros Hget. unfold Parallel.scraped_keys.
  rewrite (scraped_set_listed d ids Hget). unfold getitem. rewrite Hget.
  destruct (Parallel.resume a); [|done].
  unfold mbind, attempt_bind, len. by destruct (PyDict.truthy _).
Qed.

Lemma scraped_keys_same n s r pr v :
  Single.scraped_keys (Single.Args s r pr) v
  = Parallel.scraped_keys (Parallel.Args s r n pr) v.
Proof. reflexivity. Qed.

(** The stamp does not count for the shape of the document. *)
Lemma stamped_well_formed now p :
  JsonText.well_formed (progress_to_json p) = true →
  JsonText.well_formed
    (progress_to_json (Progress (scraped_ids p) (results p) (failed p) (Some now))) = true.
Proof.
  unfold progress_to_json. simpl. rewrite !andb_true_r.
  rewrite !andb_true_iff. tauto.
Qed.

End CheckpointFacts.

(** ** Every dictionary a run builds can be written and read back *)

Module ReachFacts.
Import Common.

Lemma set_keys_fresh k v (d : dict) :
  k ∉ map fst d → map fst (PyDict.set k v d) = map fst d ++ [k].
Proof. intros Hk. by rewrite JsonFacts.set_fresh, map_app. Qed.

Lemma set_keys_known k v (d : dict) :
  k ∈ map fst d → map fst (PyDict.set k v d) = map fst d.
Proof.
  induction d as [|[k' v'] d IH]; simpl; intros Hk.
  - by apply elem_of_nil in Hk.
  - destruct (decide (k' = k)) as [->|Hne]; [done|]. simpl. f_equal.
    apply IH. apply elem_of_cons in Hk as [?|?]; [congruence | done].
Qed.

(** Writing a well-formed value under a key keeps a dictionary well-formed. *)
Lemma set_well_formed k v (d : dict) :
  JsonText.well_formed v = true →
  JsonText.well_formed (JObj d) = true →
  JsonText.well_formed (JObj (PyDict.set k v d)) = true.
Proof.
  intros Hv Hd.
  change (bool_decide (NoDup (map fst d))
          && forallb (λ kv, JsonText.well_formed kv.2) d = true) in Hd.
  apply andb_true_iff in Hd as [Hnd Hvals]. apply bool_decide_eq_true in Hnd.
  change (bool_decide (NoDup (map fst (PyDict.set k v d)))
          && forallb (λ kv, JsonText.well_formed kv.2) (PyDict.set k v d) = true).
  apply andb_true_iff. split.
  - apply bool_decide_eq_true.
    destruct (decide (k ∈ map fst d)) as [Hin|Hnot].
    + by rewrite set_keys_known.
    + rewrite set_keys_fresh by done. apply NoDup_app. repeat split; [done| |].
      * intros x Hx Hx'. apply list_elem_of_singleton in Hx'. by subst.
      * apply NoDup_singleton.
  - clear Hnd. induction d as [|[k' v'] d IH]; simpl in *.
    + by rewrite Hv.
    + apply andb_true_iff in Hvals as [Hv' Hvals].
      destruct (decide (k' = k)); simpl.
      * by rewrite Hv, Hvals.
      * by rewrite Hv', IH.
Qed.

Lemma update_well_formed (d other : dict) :
  JsonText.well_formed (JObj d) = true →
  forallb (λ kv, JsonText.well_formed kv.2) other = true →
  JsonText.well_formed (JObj (PyDict.update d other)) = true.
Proof.
  unfold PyDict.update. revert d.
  induction other as [|[k v] other IH]; intros d Hd Ho; simpl; [done|].
  simpl in Ho. apply andb_true_iff in Ho as [Hv Ho].
  apply IH; [|done]. by apply set_well_formed.
Qed.

Lemma of_opt_well_formed o : JsonText.well_formed (PyDict.of_opt o) = true.
Proof. by destruct o. Qed.

Lemma read_name_well_formed p : JsonText.well_formed (read_name p) = true.
Proof. unfold read_name. by repeat case_match. Qed.

Lemma parallel_info_well_formed p :
  forallb (λ kv, JsonText.well_formed kv.2) (Parallel.extract_place_info p) = true.
Proof.
  destruct (page_url p) as [url|e] eqn:E.
  - rewrite (VerdictFacts.parallel_info_got _ _ E). simpl.
    by rewrite read_name_well_formed, !of_opt_well_formed.
  - by rewrite (VerdictFacts.parallel_info_raised _ _ E).
Qed.

Lemma parallel_result_well_formed round2 now r v :
  (∀ q, JsonText.canonical (round2 q) = true) →
  JsonText.well_formed (JObj (Parallel.scrape_restaurant round2 now r v)) = true.
Proof.
  intros Hround. unfold Parallel.scrape_restaurant.
  assert (Hbase : JsonText.well_formed (JObj (base_result now r)) = true) by reflexivity.
  destruct v as [e|p].
  - by repeat apply set_well_formed.
  - pose proof (update_well_formed _ _ Hbase (parallel_info_well_formed p)) as Hup.
    repeat case_match; repeat apply set_well_formed; try done; apply Hround.
Qed.

Lemma forallb_strings ids : forallb JsonText.well_formed (map JStr ids) = true.
Proof. by induction ids. Qed.

Lemma forallb_dicts (ds : list dict) :
  forallb JsonText.well_formed (map JObj ds) = true
  ↔ Forall (λ d, JsonText.well_formed (JObj d) = true) ds.
Proof.
  induction ds as [|d ds IH].
  - split; [by constructor | done].
  - change (forallb JsonText.well_formed (map JObj (d :: ds)))
      with (JsonText.well_formed (JObj d) && forallb JsonText.well_formed (map JObj ds)).
    rewrite andb_true_iff, Forall_cons, IH. done.
Qed.

(** A progress dictionary is well-formed when its outcomes are. *)
Lemma progress_well_formed p :
  JsonText.well_formed (progress_to_json p) = true
  ↔ Forall (λ d, JsonText.well_formed (JObj d) = true) (results p)
    ∧ Forall (λ d, JsonText.well_formed (JObj d) = true) (failed p).
Proof.
  unfold progress_to_json.
  change (JsonText.well_formed (JObj ?kvs))
    with (bool_decide (NoDup (map fst kvs))
          && forallb (λ kv, JsonText.well_formed kv.2) kvs).
  cbn [map fst forallb snd].
  change (JsonText.well_formed (JArr ?l)) with (forallb JsonText.well_formed l).
  rewrite forallb_strings, of_opt_well_formed, !andb_true_r.
  rewrite bool_decide_true by (by apply (bool_decide_unpack _)).
  rewrite !andb_true_l, andb_true_iff, !forallb_dicts. reflexivity.
Qed.

Lemma record_well_formed r o p :
  JsonText.well_formed (JObj o) = true →
  JsonText.well_formed (progress_to_json p) = true →
  JsonText.well_formed (progress_to_json (record r o p)) = true.
Proof.
  intros Ho. rewrite !progress_well_formed. intros [Hres Hfail].
  unfold record. destruct (PyDict.truthy _); simpl; split; try done;
    apply Forall_app; split; try done; by apply Forall_singleton.
Qed.

(** Every dictionary a run of the parallel scraper builds from the empty
    one is well-formed, when [round] gives numbers as [repr] writes them. *)
Lemma recorded_well_formed round2 trace :
  (∀ q, JsonText.canonical (round2 q) = true) →
  ∀ p, JsonText.well_formed (progress_to_json p) = true →
       JsonText.well_formed
         (progress_to_json (record_all (Parallel.scrape_restaurant round2) trace p))
       = true.
Proof.
  intros Hround. unfold record_all.
  induction trace as [|t trace IH]; intros p Hp; simpl; [done|].
  apply IH, record_well_formed; [|done]. by apply parallel_result_well_formed.
Qed.

End ReachFacts.

(** C6.  Writing a progress dictionary with [save_progress] and loading the
    file with [load_progress] gives back the dictionary as it stands after
    the write, and no other: the same keys, the same found outcomes, the
    same failed ones, and the stamp of the write.  The dictionary is one a
    Python program can hold: no key twice in an outcome, numbers as [repr]
    writes them; every dictionary the scraper builds from the empty one is
    such. *)
Theorem checkpoint_round_trip (now : string) (p : Common.progress) :
  JsonText.well_formed (Common.progress_to_json p) = true →
  let saved := Parallel.save_progress JsonText.dumps now p in
  Parallel.load_progress JsonText.loads saved.2
  = Common.Got (Common.progress_to_json saved.1) ∧
  (∀ q, Common.progress_to_json q = Common.progress_to_json saved.1 → q = saved.1) ∧
  Common.scraped_ids saved.1 = Common.scraped_ids p ∧
  Common.results saved.1 = Common.results p ∧
  Common.failed saved.1 = Common.failed p ∧
  Common.last_updated saved.1 = Some now ∧
  (∀ round2 trace,
      (∀ q, JsonText.canonical (round2 q) = true) →
      JsonText.well_formed
        (Common.progress_to_json
           (Common.record_all (Parallel.scrape_restaurant round2) trace
              Common.empty_progress)) = true).
Proof.
  intros Hwf saved.
  destruct (CheckpointFacts.load_save JsonText.dumps JsonText.loads now p) as [Hsave Hload].
  { apply JsonFacts.loads_dumps. by apply CheckpointFacts.stamped_well_formed. }
  unfold saved. rewrite Hsave. repeat split; try done.
  - intros q Hq. by apply CheckpointFacts.progress_to_json_inj.
  - intros round2 trace Hround. by apply ReachFacts.recorded_well_formed.
Qed.

Lemma checkpoint_round_trip_witness :
  JsonText.well_formed (Common.progress_to_json Sample.two_results) = true ∧
  Parallel.load_progress JsonText.loads
    (Parallel.save_progress JsonText.dumps Sample.later Sample.two_results).2
  = Common.Got
      (Common.progress_to_json
         (Parallel.save_progress JsonText.dumps Sample.later Sample.two_results).1).
Proof.
  assert (H : JsonText.well_formed (Common.progress_to_json Sample.two_results) = true)
    by (vm_compute; reflexivity).
  split; [exact H|].
  exact (proj1 (checkpoint_round_trip Sample.later Sample.two_results H)).
Defined.

(** C5, as amended.  Without [resume] the file is not read and the run
    starts from the empty dictionary; with [resume] and no file it starts
    from the empty dictionary as well, and says nothing.  With [resume] and
    a file, a text that is no JSON raises in the load; any document is
    handed over as it is, unchecked, so the run starts from the empty
    dictionary only when the file holds it, and from what [save_progress]
    wrote when it wrote the file.  What the load lets through is met by the
    next lines of [run_scraper]: a document that is no dictionary, or that
    has no [scraped_ids], raises there; one whose [scraped_ids] is a list
    of keys is taken with these keys, whatever else it holds or lacks.
    Both scrapers do the same. *)
Theorem resume_without_file_starts_empty
        (json_loads : string → option json)
        (s : option Z) (n : nat) (pr : bool) (f : option string) (text : string) :
  let fresh := Common.Got (Common.progress_to_json Common.empty_progress) in
  let resumed := Parallel.Args s true n pr in
  Parallel.initial_progress json_loads (Parallel.Args s false n pr) f = fresh ∧
  Parallel.initial_progress json_loads resumed None = fresh ∧
  (json_loads text = None →
   Parallel.initial_progress json_loads resumed (Some text)
   = Common.Raised "JSONDecodeError") ∧
  (∀ v, json_loads text = Some v →
        Parallel.initial_progress json_loads resumed (Some text) = Common.Got v) ∧
  (Parallel.initial_progress json_loads resumed (Some text) = fresh →
   json_loads text = Some (Common.progress_to_json Common.empty_progress)) ∧
  (∀ v, (∀ d, v ≠ JObj d) →
        Parallel.scraped_keys resumed v = Common.Raised "TypeError") ∧
  (∀ d, PyDict.get "scraped_ids" d = None →
        Parallel.scraped_keys resumed (JObj d) = Common.Raised "KeyError") ∧
  (∀ d ids, PyDict.get "scraped_ids" d = Some (JArr (JStr <$> ids)) →
            Parallel.scraped_keys resumed (JObj d) = Common.Got (list_to_set ids)) ∧
  Parallel.initial_progress JsonText.loads resumed (Some "[1, 2")
  = Common.Raised "JSONDecodeError" ∧
  Parallel.initial_progress JsonText.loads resumed (Some "[]") = Common.Got (JArr []) ∧
  Parallel.scraped_keys resumed (JArr []) = Common.Raised "TypeError" ∧
  Single.initial_progress json_loads (Single.Args s false pr) f = fresh ∧
  Single.initial_progress json_loads (Single.Args s true pr) None = fresh ∧
  Single.initial_progress json_loads (Single.Args s true pr) (Some text)
  = Parallel.initial_progress json_loads resumed (Some text) ∧
  (∀ v, Single.scraped_keys (Single.Args s true pr) v = Parallel.scraped_keys resumed v) ∧
  (∀ now p,
      JsonText.well_formed (Common.progress_to_json p) = true →
      Parallel.initial_progress JsonText.loads resumed
        (Parallel.save_progress JsonText.dumps now p).2
      = Common.Got (Common.progress_to_json (Parallel.save_progress JsonText.dumps now p).1)).
Proof.
  intros fresh resumed.
  assert (Hload : ∀ v, json_loads text = Some v →
                       Parallel.initial_progress json_loads resumed (Some text)
                       = Common.Got v).
  { intros v Hv. unfold Parallel.initial_progress, Parallel.load_progress. simpl.
    by rewrite Hv. }
  split_and!; try reflexivity; try done.
  - intros Hnone. unfold Parallel.initial_progress, Parallel.load_progress. simpl.
    by rewrite Hnone.
  - unfold Parallel.initial_progress, Parallel.load_progress. simpl.
    destruct (json_loads text) as [v|]; [|done]. unfold fresh. by intros [= ->].
  - intros v Hv. destruct v; try done. by destruct (Hv kvs).
  - intros d Hd. unfold Parallel.scraped_keys, Common.getitem. simpl. by rewrite Hd.
  - intros d ids Hd. by apply CheckpointFacts.scraped_keys_listed.
  - intros now p Hwf.
    destruct (CheckpointFacts.load_save JsonText.dumps JsonText.loads now p)
      as [Hsave Hback].
    { apply JsonFacts.loads_dumps. by apply CheckpointFacts.stamped_well_formed. }
    by rewrite Hsave.
Qed.

(** C5, as the claim has it, fails: a run told to resume that finds no
    progress file starts from the empty dictionary, without an error, and
    takes no restaurant as scraped. *)
Lemma resume_silently_fresh :
  Parallel.initial_progress JsonText.loads
    (Parallel.Args None true Parallel.DEFAULT_WORKERS true) None
  = Common.Got (Common.progress_to_json Common.empty_progress) ∧
  Parallel.scraped_keys (Parallel.Args None true Parallel.DEFAULT_WORKERS true)
    (Common.progress_to_json Common.empty_progress)
  = Common.Got ∅.
Proof. split; reflexivity. Qed.


(** ** Worked inputs *)

Module Worked.
Import Common.

(** The examples of the documentation of [difflib]. *)
Example longest_match_abcd :
  Difflib.find_longest_match (PyStr.chars " abcd") (PyStr.chars "abcd abcd") 0 5 0 9
  = Difflib.Best 0 4 5.
Proof. reflexivity. Qed.

Example longest_match_none :
  Difflib.find_longest_match (PyStr.chars "ab") (PyStr.chars "c") 0 2 0 1
  = Difflib.Best 0 0 0.
Proof. reflexivity. Qed.

Example matching_blocks_abxcd :
  Difflib.get_matching_blocks (PyStr.chars "abxcd") (PyStr.chars "abcd")
  = [(0, 0, 2); (3, 2, 2); (5, 4, 0)].
Proof. reflexivity. Qed.

Example ratio_abcd_bcde :
  Qred (Difflib.ratio (PyStr.chars "abcd") (PyStr.chars "bcde")) = (3 # 4)%Q.
Proof. reflexivity. Qed.

(** Joe's Pizza, found under its own name with the long form of its
    address: the names agree as 1, the normalized addresses as 1, the raw
    addresses as 0.625, and the parallel scraper is confident. *)
Example joes_scores :
  Qred (Common.similarity "Joe's Pizza" "Joe's Pizza") = 1%Q ∧
  Merge.normalize_address "123 Bleecker Street, New York, NY" = "123 bleecker st"%string ∧
  Qred (Merge.address_similarity "123 Bleecker St" "123 Bleecker Street, New York, NY")
  = 1%Q ∧
  Qred (Common.similarity "123 Bleecker St" "123 Bleecker Street, New York, NY")
  = (5 # 8)%Q ∧
  PyDict.get "confident_match"
    (Parallel.scrape_restaurant Sample.round2 Sample.now Sample.joes
       (Arrived Sample.joes_page))
  = Some (JBool true).
Proof. repeat split; vm_compute; reflexivity. Qed.

(** A visit that times out. *)
Example timeout_outcome :
  Parallel.scrape_restaurant Sample.round2 Sample.now Sample.cafe (GotoRaised "timeout")
  = [ ("original_name", JStr "Cafe X"); ("original_address", JStr "1 Main St");
      ("original_category", JStr "Asian (Unspecified)"); ("original_boro", JStr "Queens");
      ("search_query", JStr (build_search_query Sample.cafe));
      ("scraped_at", JStr Sample.now); ("error", JStr "timeout");
      ("found", JBool false) ]%string.
Proof. reflexivity. Qed.

(** What [json.dumps] writes for a small list. *)
Example dumps_text :
  JsonText.dumps
    (JArr [ JNum (Sample.round2 (87 # 100)); JNum (number_of_int (-12)); JNull;
            JBool true; JArr []; JObj [] ])
  = "[0.87, -12, null, true, [], {}]"%string.
Proof. reflexivity. Qed.

(** Ten restaurants, seven scraped and saved, then a run that resumes from
    the file: it loads the seven keys and queues the three that are left. *)
Example resume_after_seven :
  let ten := Sample.ten in
  let w : Parallel.world := λ _, (Sample.now, GotoRaised "timeout"%string) in
  let p7 := Parallel.worker Sample.round2 w 0 (take 7 ten) empty_progress in
  let saved := Parallel.save_progress JsonText.dumps Sample.later p7 in
  let a := Parallel.Args None true Parallel.DEFAULT_WORKERS true in
  Parallel.initial_progress JsonText.loads a saved.2 = Got (progress_to_json saved.1) ∧
  length (scraped_ids saved.1) = 7 ∧
  name <$> Parallel.task_queue a ten saved.1 = ["R7"; "R8"; "R9"]%string.
Proof. vm_compute. repeat split. Qed.

End Worked.

(** * Further properties *)

(** ** What an outcome holds *)

Module OutcomeFacts.
Import Common PyDictFacts.

Lemma read_name_cases p :
  read_name p = JNull ∨ ∃ s, read_name p = JStr s.
Proof.
  unfold read_name. destruct (h1_text p) as [text|]; [|by left].
  destruct (_ && _); [right; eauto | by left].
Qed.

Lemma parallel_outcome_raised round2 now r e :
  Parallel.scrape_restaurant round2 now r (GotoRaised e)
  = base_result now r ++ [("error", JStr e); ("found", JBool false)]%string.
Proof. reflexivity. Qed.

End OutcomeFacts.


Ltac settle_shape :=
  simpl; repeat split; eauto; try done;
  try (intros [? ?]; done); try (intros [? [? ?]]; done);
  try (intros [? ?]; by eauto).

(** X1.  Every outcome of a scraper, whatever the visit did, has a boolean
    under [found] and the three original fields of its restaurant.  It is
    found exactly when it holds a non-empty Google name, exactly when it
    holds a verdict under [confident_match], and exactly when it holds a
    number under [name_similarity]; an outcome that is not found has no
    verdict at all, and one that carries an [error] is not found. *)
Theorem outcome_verdict_iff_found
        (round2 : Q → number) (scrape : string → Common.restaurant → Common.visit → dict)
        (now : string) (r : Common.restaurant) (v : Common.visit) :
  scrape = Parallel.scrape_restaurant round2 ∨ scrape = Single.scrape_restaurant round2 →
  let o := scrape now r v in
  let found := PyDict.truthy (PyDict.get "found" o) in
  (∃ b, PyDict.get "found" o = Some (JBool b)) ∧
  (found = true ↔ ∃ s, PyDict.get "google_name" o = Some (JStr s) ∧ s ≠ EmptyString) ∧
  (found = true ↔ ∃ b, PyDict.get "confident_match" o = Some (JBool b)) ∧
  (found = false ↔ PyDict.get "confident_match" o = None) ∧
  (found = true ↔ ∃ n, PyDict.get "name_similarity" o = Some (JNum n)) ∧
  (is_Some (PyDict.get "error" o) → found = false) ∧
  PyDict.get "original_name" o = Some (JStr (Common.name r)) ∧
  PyDict.get "original_address" o = Some (JStr (Common.address r)) ∧
  PyDict.get "original_category" o = Some (JStr (Common.category r)).
Proof.
  intros [-> | ->].
  - destruct v as [e|p]; [cbv zeta; settle_shape|].
    destruct (Common.page_url p) as [url|e] eqn:E.
    2:{ cbv zeta. unfold Parallel.scrape_restaurant.
        rewrite (VerdictFacts.parallel_info_raised _ _ E). settle_shape. }
    cbv zeta. unfold Parallel.scrape_restaurant.
    rewrite (VerdictFacts.parallel_info_got _ _ E).
    destruct (OutcomeFacts.read_name_cases p) as [Hn | [s Hn]]; rewrite Hn;
      [settle_shape|].
    destruct s as [|c s].
    { settle_shape. intros (s & Hs & Hne). by inversion Hs. }
    change (PyDict.truthy (PyDict.get "google_name" _)) with true. cbv iota.
    destruct (PyDict.truthy _ && _); settle_shape.
  - destruct v as [e|p]; [cbv zeta; settle_shape|].
    destruct (Common.page_url p) as [url|e] eqn:E.
    2:{ cbv zeta. unfold Single.scrape_restaurant.
        rewrite (VerdictFacts.single_info_raised _ _ E). settle_shape. }
    cbv zeta. unfold Single.scrape_restaurant.
    rewrite (VerdictFacts.single_info_got _ _ E).
    destruct (OutcomeFacts.read_name_cases p) as [Hn | [s Hn]]; rewrite Hn;
      [settle_shape|].
    destruct s as [|c s].
    { settle_shape. intros (s & Hs & Hne). by inversion Hs. }
    settle_shape.
Qed.

Lemma outcome_verdict_iff_found_witness :
  let scrape := Parallel.scrape_restaurant Sample.round2 in
  (scrape = Parallel.scrape_restaurant Sample.round2
   ∨ scrape = Single.scrape_restaurant Sample.round2) ∧
  ∃ b, PyDict.get "found"
         (scrape Sample.now Sample.joes (Common.Arrived Sample.joes_page))
       = Some (JBool b).
Proof.
  intros scrape.
  assert (H : scrape = Parallel.scrape_restaurant Sample.round2
              ∨ scrape = Single.scrape_restaurant Sample.round2) by (left; reflexivity).
  split; [exact H|].
  exact (proj1 (outcome_verdict_iff_found Sample.round2 scrape Sample.now Sample.joes
                  (Common.Arrived Sample.joes_page) H)).
Defined.

(** ** The pool of workers *)

Module PoolFacts.
Import Common.

Lemma record_all_app scrape t1 t2 p :
  record_all scrape (t1 ++ t2) p = record_all scrape t2 (record_all scrape t1 p).
Proof. unfold record_all. apply fold_left_app. Qed.

Lemma record_all_outcomes scrape trace :
  ∀ p, length (results (record_all scrape trace p)) + length (failed (record_all scrape trace p))
       = length (results p) + length (failed p) + length trace.
Proof.
  induction trace as [|t trace IH]; intros p; [simpl; lia|].
  change (record_all scrape (t :: trace) p)
    with (record_all scrape trace (record t.1.1 (scrape t.1.2 t.1.1 t.2) p)).
  rewrite IH. unfold record. destruct (PyDict.truthy _); simpl; rewrite length_app; simpl; lia.
Qed.

(** What a state of the pool has done since it started on [q]: the
    recordings so far, in the order they were made, account with the busy
    workers and what is left of the queue for all of [q]. *)
Lemma pool_linear round2 n q p0 s :
  rtc (Parallel.step round2 n) (Parallel.Pool q [] p0) s →
  ∃ trace,
    Parallel.progress_data s
    = record_all (Parallel.scrape_restaurant round2) trace p0 ∧
    (trace.*1.*1) ++ (Parallel.busy s).*2 ++ Parallel.queue s ≡ₚ q.
Proof.
  revert s. apply rtc_ind_r.
  - exists []. by split.
  - intros s s' Hrun Hstep (trace & Hp & Hperm).
    inversion Hstep as [wid r q' bs p Hwid Hfree | wid r now v q' bs1 bs2 p]; subst;
      simpl in *.
    + exists trace. split; [done|]. rewrite <- Hperm.
      apply Permutation_app_head. simpl. apply Permutation_middle.
    + exists (trace ++ [(r, now, v)]). split.
      * rewrite record_all_app, <- Hp. reflexivity.
      * rewrite <- Hperm, !fmap_app. simpl. rewrite <- !app_assoc.
        apply Permutation_app_head. simpl. apply Permutation_middle.
Qed.

(** Each step uses up one unit of [2 * queue + busy]. *)
Lemma pool_steps round2 n k s s' :
  nsteps (Parallel.step round2 n) k s s' →
  2 * length (Parallel.queue s) + length (Parallel.busy s)
  = k + 2 * length (Parallel.queue s') + length (Parallel.busy s').
Proof.
  induction 1 as [|k s s1 s' Hstep _ IH]; [done|].
  inversion Hstep; subst; simpl in *; rewrite ?length_app in *; simpl in *; lia.
Qed.

(** One worker alone is one of the schedules. *)
Lemma worker_is_schedule round2 n (w : Parallel.world) q :
  0 < n →
  ∀ tick p,
    rtc (Parallel.step round2 n) (Parallel.Pool q [] p)
        (Parallel.Pool [] [] (Parallel.worker round2 w tick q p)).
Proof.
  intros Hn. induction q as [|r q IH]; intros tick p; [done|].
  simpl. destruct (w tick) as [now v].
  eapply rtc_l; [apply (Parallel.step_take round2 n 0 r q [] p); [done|apply not_elem_of_nil]|].
  eapply rtc_l; [apply (Parallel.step_record round2 n 0 r now v q [] [] p)|].
  apply IH.
Qed.

End PoolFacts.

(** X2.  Whatever the interleaving of the workers, once the queue is empty and
    no worker is busy, the keys the run has added to [scraped_ids] are the
    keys of the queued restaurants, each restaurant once, in the order the
    workers came back; there is one outcome more per restaurant; and the run
    has taken two steps per restaurant, a take and a recording.  With one
    worker at least such a run exists: one worker draining the queue alone
    is one. *)
Theorem pool_records_each_task_once
        (round2 : Q → number) (n k : nat) (q : list Common.restaurant)
        (p0 : Common.progress) (s' : Parallel.pool) :
  nsteps (Parallel.step round2 n) k (Parallel.Pool q [] p0) s' →
  Parallel.queue s' = [] → Parallel.busy s' = [] →
  let p := Parallel.progress_data s' in
  (∃ order, order ≡ₚ q ∧
            Common.scraped_ids p
            = Common.scraped_ids p0 ++ (Common.restaurant_id <$> order)) ∧
  length (Common.results p) + length (Common.failed p)
  = length (Common.results p0) + length (Common.failed p0) + length q ∧
  k = 2 * length q ∧
  (0 < n → ∀ (w : Parallel.world) tick,
     rtc (Parallel.step round2 n) (Parallel.Pool q [] p0)
         (Parallel.Pool [] [] (Parallel.worker round2 w tick q p0))).
Proof.
  intros Hrun Hq Hb p.
  destruct (PoolFacts.pool_linear round2 n q p0 s') as (trace & Hp & Hperm);
    [by eapply rtc_nsteps_2|].
  rewrite Hq, Hb in Hperm. simpl in Hperm. rewrite app_nil_r in Hperm.
  split; [|split; [|split]].
  - exists (trace.*1.*1). split; [done|]. unfold p. rewrite Hp.
    rewrite ProgressFacts.record_all_ids.
    f_equal. rewrite <- !list_fmap_compose. reflexivity.
  - unfold p. rewrite Hp, PoolFacts.record_all_outcomes.
    rewrite <- Hperm, !length_fmap. reflexivity.
  - apply PoolFacts.pool_steps in Hrun. rewrite Hq, Hb in Hrun. simpl in Hrun. lia.
  - intros Hn w tick. by apply PoolFacts.worker_is_schedule.
Qed.

Lemma pool_records_each_task_once_witness :
  let s1 := Parallel.Pool [Sample.joes; Sample.cafe] [] Common.empty_progress in
  let o1 := Parallel.scrape_restaurant Sample.round2 Sample.now Sample.cafe
              (Common.GotoRaised "timeout") in
  let o2 := Parallel.scrape_restaurant Sample.round2 Sample.later Sample.joes
              (Common.Arrived Sample.joes_page) in
  let s' := Parallel.Pool [] []
              (Common.record Sample.joes o2
                 (Common.record Sample.cafe o1 Common.empty_progress)) in
  nsteps (Parallel.step Sample.round2 2) 4 s1 s' ∧
  Common.scraped_ids (Parallel.progress_data s')
  = ["Cafe X|1 Main St"; "Joe's Pizza|123 Bleecker St"]%string.
Proof.
  intros s1 o1 o2 s'.
  assert (Hrun : nsteps (Parallel.step Sample.round2 2) 4 s1 s').
  { eapply nsteps_l.
    { apply (Parallel.step_take Sample.round2 2 0 Sample.joes [Sample.cafe] []
               Common.empty_progress); [lia | apply not_elem_of_nil]. }
    eapply nsteps_l.
    { apply (Parallel.step_take Sample.round2 2 1 Sample.cafe [] [(0, Sample.joes)]
               Common.empty_progress); [lia|].
      simpl. intros H. apply list_elem_of_singleton in H. done. }
    eapply nsteps_l.
    { apply (Parallel.step_record Sample.round2 2 1 Sample.cafe Sample.now
               (Common.GotoRaised "timeout") [] [] [(0, Sample.joes)]
               Common.empty_progress). }
    eapply nsteps_l.
    { apply (Parallel.step_record Sample.round2 2 0 Sample.joes Sample.later
               (Common.Arrived Sample.joes_page) [] [] []). }
    apply nsteps_O. }
  split; [exact Hrun|].
  destruct (pool_records_each_task_once Sample.round2 2 4 _ _ s' Hrun eq_refl eq_refl)
    as ([order [_ Hids]] & _).
  vm_compute. reflexivity.
Defined.

(** ** The tracker *)

Module TrackerFacts.
Section Durations.
Context {duration : Type}.
Implicit Types (t : Tracker.tracker duration) (us : list (bool * duration)).

Lemma deque_append_window (l : list duration) x :
  Tracker.deque_append duration (drop (length l - 50) l) x
  = drop (length (l ++ [x]) - 50) (l ++ [x]).
Proof.
  unfold Tracker.deque_append. rewrite length_drop, length_app. simpl.
  destruct (decide (length l < 50)) as [Hlt|Hge].
  - replace (length l - 50) with 0 by lia. replace (length l + 1 - 50) with 0 by lia.
    simpl. rewrite !drop_0. by rewrite (proj2 (Nat.ltb_lt _ _)) by lia.
  - rewrite (proj2 (Nat.ltb_ge _ _)) by lia.
    rewrite drop_drop, drop_app_le by lia. f_equal. f_equal. lia.
Qed.

Lemma run_snoc us u t :
  Tracker.updates duration (us ++ [u]) t
  = Tracker.update duration u.1 u.2 (Tracker.updates duration us t).
Proof. unfold Tracker.updates. by rewrite fold_left_app. Qed.

Lemma run_counts us total :
  let t := Tracker.updates duration us (Tracker.init duration total) in
  Tracker.total _ t = total ∧
  Tracker.completed _ t = length us ∧
  Tracker.found _ t = length (filter (λ u, u.1 = true) us) ∧
  Tracker.failed _ t = length (filter (λ u, u.1 ≠ true) us) ∧
  Tracker.recent_times _ t = drop (length us - 50) (us.*2).
Proof.
  induction us as [|u us IH] using rev_ind; [done|].
  cbv zeta in *. rewrite run_snoc. destruct IH as (Ht & Hc & Hf & Hx & Hr).
  rewrite !filter_app, !length_app, fmap_app.
  destruct u as [[|] d]; unfold Tracker.update; simpl;
    rewrite Ht, Hc, Hf, Hx, Hr;
    rewrite ?filter_cons_True, ?filter_cons_False by (simpl; congruence); simpl;
    (repeat split; try lia);
    rewrite <- (length_fmap snd us), deque_append_window, length_app; done.
Qed.

Lemma filter_split {X} (P : X → Prop) `{∀ x, Decision (P x)} (l : list X) :
  length (filter P l) + length (filter (λ x, ¬ P x) l) = length l.
Proof.
  induction l as [|x l IH]; [done|].
  destruct (decide (P x)).
  - rewrite filter_cons_True, (filter_cons_False (λ x, ¬ P x)) by tauto. simpl. lia.
  - rewrite filter_cons_False, (filter_cons_True (λ x, ¬ P x)) by tauto. simpl. lia.
Qed.

End Durations.
End TrackerFacts.

(** X3.  After any sequence of updates of a fresh tracker, [completed] is the
    number of updates and equals [found + failed]; [found] counts the
    updates that were passed a true value; [recent_times] holds the last 50
    durations, all of them while there are fewer, oldest first; [total]
    stays; and [get_eta] is past "calculating..." from the first update on. *)
Theorem tracker_counts_and_window
        (duration : Type) (total : nat) (us : list (bool * duration)) :
  let t := Tracker.updates duration us (Tracker.init duration total) in
  Tracker.completed _ t = length us ∧
  Tracker.completed _ t = Tracker.found _ t + Tracker.failed _ t ∧
  Tracker.found _ t = length (filter (λ u, u.1 = true) us) ∧
  Tracker.recent_times _ t = drop (length us - 50) (us.*2) ∧
  length (Tracker.recent_times _ t) = length us `min` 50 ∧
  Tracker.total _ t = total ∧
  (Tracker.eta_unknown _ t = true ↔ us = []).
Proof.
  intros t. destruct (TrackerFacts.run_counts us total) as (Ht & Hc & Hf & Hx & Hr).
  fold t in Ht, Hc, Hf, Hx, Hr.
  repeat split; try done.
  - rewrite Hc, Hf, Hx. symmetry. apply (TrackerFacts.filter_split (λ u, u.1 = true)).
  - rewrite Hr, length_drop, length_fmap. lia.
  - unfold Tracker.eta_unknown. rewrite Hr, Hc.
    destruct us as [|u us]; [done|]. intros H. exfalso.
    destruct (drop _ _) eqn:E; [|done].
    apply (f_equal length) in E. rewrite length_drop, length_fmap in E. simpl in E. lia.
  - by intros ->.
Qed.

Module TrackedFacts.
Import Common.

Lemma worker_fst {duration} round2 w (took : nat → duration) q :
  ∀ tick st,
    (Tracker.worker duration round2 w took tick q st).1
    = Parallel.worker round2 w tick q st.1.
Proof.
  induction q as [|r q IH]; intros tick st; [done|].
  simpl. destruct (w tick) as [now v]. by rewrite IH.
Qed.

Lemma worker_counts {duration} round2 w (took : nat → duration) q :
  ∀ tick st,
    let st' := Tracker.worker duration round2 w took tick q st in
    Tracker.completed _ st'.2 = Tracker.completed _ st.2 + length q ∧
    Tracker.found _ st'.2 + length (results st.1)
    = Tracker.found _ st.2 + length (results st'.1) ∧
    Tracker.failed _ st'.2 + length (failed st.1)
    = Tracker.failed _ st.2 + length (failed st'.1) ∧
    Tracker.total _ st'.2 = Tracker.total _ st.2.
Proof.
  induction q as [|r q IH]; intros tick st; [cbv zeta; simpl; lia|].
  cbv zeta. simpl. destruct (w tick) as [now v].
  specialize (IH (S tick)
                 (record r (Parallel.scrape_restaurant round2 now r v) st.1,
                  Tracker.update duration
                    (PyDict.truthy (PyDict.get "found"
                                      (Parallel.scrape_restaurant round2 now r v)))
                    (took tick) st.2)).
  cbv zeta in IH. destruct IH as (Hc & Hf & Hx & Ht).
  rewrite Hc, Ht. clear Hc Ht. simpl in Hf, Hx.
  unfold record, Tracker.update in *.
  destruct (PyDict.truthy _); simpl in *; rewrite ?length_app in *; simpl in *;
    repeat split; lia.
Qed.

End TrackedFacts.

(** X4.  A worker that starts with a fresh tracker for its queue ends with
    [completed = total]: the status line ends at all of the queue.  The
    tracker's [found] and [failed] are the numbers of outcomes the run has
    added to [results] and to [failed] of the progress dictionary, and the
    dictionary is the one the worker builds without a tracker. *)
Theorem tracker_agrees_with_progress
        (duration : Type) (round2 : Q → number) (w : Parallel.world)
        (took : nat → duration) (tick : nat) (q : list Common.restaurant)
        (p0 : Common.progress) :
  let st := Tracker.worker duration round2 w took tick q
              (p0, Tracker.init duration (length q)) in
  st.1 = Parallel.worker round2 w tick q p0 ∧
  Tracker.completed _ st.2 = Tracker.total _ st.2 ∧
  Tracker.completed _ st.2 = length q ∧
  length (Common.results st.1) = length (Common.results p0) + Tracker.found _ st.2 ∧
  length (Common.failed st.1) = length (Common.failed p0) + Tracker.failed _ st.2 ∧
  Tracker.completed _ st.2 = Tracker.found _ st.2 + Tracker.failed _ st.2.
Proof.
  intros st.
  pose proof (TrackedFacts.worker_fst round2 w took q tick
                (p0, Tracker.init duration (length q))) as Hfst.
  destruct (TrackedFacts.worker_counts round2 w took q tick
              (p0, Tracker.init duration (length q))) as (Hc & Hf & Hx & Ht).
  fold st in Hfst, Hc, Hf, Hx, Ht. simpl in *.
  assert (Hout : length (Common.results st.1) + length (Common.failed st.1)
                 = length (Common.results p0) + length (Common.failed p0) + length q).
  { rewrite Hfst. clear. revert tick p0.
    induction q as [|r q IH]; intros tick p0; [simpl; lia|].
    simpl. destruct (w tick) as [now v]. rewrite IH.
    unfold Common.record. destruct (PyDict.truthy _); simpl; rewrite length_app; simpl; lia. }
  repeat split; try done; lia.
Qed.

(** ** Whole runs *)

(** A dictionary of the scraper's own making and the document it is: what
    the run does to the one, it does to the other. *)
Module ShapeFacts.
Import Common.

Lemma bind_got {A B} (x : A) (f : A → attempt B) : (Got x ≫= f) = f x.
Proof. reflexivity. Qed.

Lemma bind_raised {A B} e (f : A → attempt B) : (Raised e ≫= f) = Raised e.
Proof. reflexivity. Qed.

Lemma task_queue_typed s pr rs p :
  Runs.task_queue s pr rs (list_to_set (scraped_ids p)) = remaining_tasks s pr rs p.
Proof. reflexivity. Qed.

Lemma scraped_keys_typed a p :
  Parallel.scraped_keys a (progress_to_json p) = Got (list_to_set (scraped_ids p)).
Proof. by apply CheckpointFacts.scraped_keys_listed. Qed.

Lemma record_typed r o p :
  Runs.record r o (progress_to_json p) = Got (progress_to_json (Common.record r o p)).
Proof.
  destruct p as [ids res fl lu]. unfold Runs.record, Common.record.
  unfold progress_to_json.
  destruct (PyDict.truthy (PyDict.get "found" o));
    cbn [scraped_ids results failed last_updated]; rewrite !map_app; reflexivity.
Qed.

Lemma save_progress_typed json_dumps now p :
  Runs.save_progress json_dumps now (progress_to_json p)
  = Got (progress_to_json (Parallel.save_progress json_dumps now p).1,
         (Parallel.save_progress json_dumps now p).2).
Proof. reflexivity. Qed.

Lemma parallel_finish_typed json_dumps now1 now2 p :
  Runs.parallel_finish json_dumps now1 now2 (progress_to_json p)
  = Got (Runs.Disk
           (Parallel.save_progress json_dumps now1 p).2
           (Some (JObj [ ("scraped_at", JStr now2);
                         ("count", JNum (number_of_int (Z.of_nat (length (results p)))));
                         ("results", JArr (JObj <$> results p)) ]%string))).
Proof.
  unfold Runs.parallel_finish.
  rewrite save_progress_typed, bind_got.
  rewrite <- (length_map JObj (results p)). reflexivity.
Qed.

Lemma parallel_start_typed json_loads a rs f p0 :
  Parallel.initial_progress json_loads a f = Got (progress_to_json p0) →
  Runs.parallel_start json_loads a rs f
  = Got (progress_to_json p0, Parallel.task_queue a rs p0).
Proof.
  intros Hinit. unfold Runs.parallel_start.
  by rewrite Hinit, bind_got, scraped_keys_typed.
Qed.

Section Pool.
Variable round2 : Q → number.
Variable n : nat.

Lemma step_typed q bs p s2 :
  Runs.step round2 n (Runs.Pool q bs (progress_to_json p)) s2 →
  ∃ q2 bs2 p2,
    s2 = Runs.Pool q2 bs2 (progress_to_json p2)
    ∧ Parallel.step round2 n (Parallel.Pool q bs p) (Parallel.Pool q2 bs2 p2).
Proof.
  intros Hstep. inversion Hstep as [wid r q' bs' d Hwid Hfree | wid r now v q' bs1 bs2 d d' Hrec];
    subst.
  - eexists _, _, p. split; [done|]. by constructor.
  - rewrite record_typed in Hrec. injection Hrec as <-.
    eexists _, _, _. split; [done|]. apply Parallel.step_record.
Qed.

Lemma steps_typed q bs p s2 :
  rtc (Runs.step round2 n) (Runs.Pool q bs (progress_to_json p)) s2 →
  ∃ q2 bs2 p2,
    s2 = Runs.Pool q2 bs2 (progress_to_json p2)
    ∧ rtc (Parallel.step round2 n) (Parallel.Pool q bs p) (Parallel.Pool q2 bs2 p2).
Proof.
  intros Hsteps. remember (Runs.Pool q bs (progress_to_json p)) as s1 eqn:E.
  revert q bs p E.
  induction Hsteps as [s|s1 s2 s3 Hstep _ IH]; intros q bs p ->.
  - by eexists _, _, _.
  - apply step_typed in Hstep as (q2 & bs2 & p2 & -> & Hstep).
    destruct (IH q2 bs2 p2 eq_refl) as (q3 & bs3 & p3 & -> & Hrest).
    eexists _, _, _. split; [done|]. by eapply rtc_l.
Qed.

Lemma steps_lift s s' :
  rtc (Parallel.step round2 n) s s' →
  rtc (Runs.step round2 n)
      (Runs.Pool (Parallel.queue s) (Parallel.busy s)
                 (progress_to_json (Parallel.progress_data s)))
      (Runs.Pool (Parallel.queue s') (Parallel.busy s')
                 (progress_to_json (Parallel.progress_data s'))).
Proof.
  induction 1 as [s|s1 s2 s3 Hstep _ IH]; [done|].
  eapply rtc_l; [|exact IH]. destruct Hstep; simpl.
  - by constructor.
  - apply Runs.step_record with now v. apply record_typed.
Qed.

Lemma no_crash_typed q bs p e :
  ¬ Runs.crash round2 (Runs.Pool q bs (progress_to_json p)) e.
Proof.
  intros Hcrash. inversion Hcrash as [wid r now v q' bs1 bs2 d e' Hrec]; subst.
  by rewrite record_typed in Hrec.
Qed.

End Pool.

End ShapeFacts.

(** What the run does to any document. *)
Module DocumentFacts.
Import Common PyDictFacts.

(** An exception is one of a few. *)
Ltac listed := first [ by repeat constructor | rewrite ?elem_of_cons in *; tauto ].

Lemma getitem_setitem_eq k v obj obj' :
  setitem k v obj = Got obj' → getitem k obj' = Got v.
Proof.
  destruct obj; try done. intros [= <-]. unfold getitem. by rewrite get_set_eq.
Qed.

Lemma getitem_setitem_ne k k' v obj obj' :
  k ≠ k' → setitem k' v obj = Got obj' → getitem k obj' = getitem k obj.
Proof.
  intros Hne. destruct obj; try done. intros [= <-]. unfold getitem.
  by rewrite get_set_ne.
Qed.

Lemma setitem_after_getitem k k' v obj x :
  getitem k obj = Got x → ∃ obj', setitem k' v obj = Got obj'.
Proof. destruct obj; try done. intros _. by eexists. Qed.

(** Appending to a list under a key changes that list, and nothing
    else. *)
Lemma append_list k x obj items :
  getitem k obj = Got (JArr items) →
  ∃ obj', append k x obj = Got obj'
          ∧ getitem k obj' = Got (JArr (items ++ [x]))
          ∧ ∀ k', k' ≠ k → getitem k' obj' = getitem k' obj.
Proof.
  intros Hget. unfold append. rewrite Hget, ShapeFacts.bind_got.
  destruct (setitem_after_getitem k k (JArr (items ++ [x])) obj _ Hget) as [obj' Hset].
  exists obj'. split; [done|]. split.
  - by eapply getitem_setitem_eq.
  - intros k' Hne. by eapply getitem_setitem_ne.
Qed.

Lemma getitem_errors k obj e :
  getitem k obj = Raised e → e ∈ ["KeyError"; "TypeError"]%string.
Proof.
  unfold getitem. destruct obj; try (intros [= <-]; listed).
  destruct (PyDict.get k kvs); intros [= <-]. listed.
Qed.

Lemma len_errors obj e : len obj = Raised e → e = "TypeError"%string.
Proof. destruct obj; by intros [= <-]. Qed.

Lemma append_errors k x obj e :
  append k x obj = Raised e → e ∈ ["KeyError"; "AttributeError"; "TypeError"]%string.
Proof.
  unfold append. destruct (getitem k obj) as [l|e'] eqn:E.
  - rewrite ShapeFacts.bind_got.
    destruct l; try (intros [= <-]; listed).
    destruct (setitem_after_getitem k k (JArr (l ++ [x])) obj _ E) as [obj' ->]. done.
  - rewrite ShapeFacts.bind_raised. intros [= <-].
    apply getitem_errors in E. listed.
Qed.

Lemma three_lists_typed p : Runs.three_lists (progress_to_json p).
Proof. by exists (JStr <$> scraped_ids p), (JObj <$> results p), (JObj <$> failed p). Qed.

(** On a dictionary with its three lists a recording goes through and
    leaves such a dictionary. *)
Lemma record_lists r o doc :
  Runs.three_lists doc →
  ∃ doc', Runs.record r o doc = Got doc' ∧ Runs.three_lists doc'.
Proof.
  intros (ids & res & fl & Hids & Hres & Hfl). unfold Runs.record.
  destruct (append_list "scraped_ids" (JStr (restaurant_id r)) doc ids Hids)
    as (doc1 & -> & Hids1 & Hother1).
  rewrite ShapeFacts.bind_got.
  rewrite <- (Hother1 "results"%string) in Hres by done.
  rewrite <- (Hother1 "failed"%string) in Hfl by done.
  destruct (PyDict.truthy (PyDict.get "found" o)).
  - destruct (append_list "results" (JObj o) doc1 res Hres) as (doc2 & -> & Hres2 & Hother2).
    exists doc2. split; [done|]. eexists _, _, _. split_and!; [|exact Hres2|].
    + by rewrite Hother2.
    + by rewrite Hother2.
  - destruct (append_list "failed" (JObj o) doc1 fl Hfl) as (doc2 & -> & Hfl2 & Hother2).
    exists doc2. split; [done|]. eexists _, _, _. split_and!; [| |exact Hfl2].
    + by rewrite Hother2.
    + by rewrite Hother2.
Qed.

Lemma record_errors r o doc e :
  Runs.record r o doc = Raised e →
  e ∈ ["KeyError"; "AttributeError"; "TypeError"]%string.
Proof.
  unfold Runs.record.
  destruct (append "scraped_ids" _ doc) as [doc1|e1] eqn:E1.
  - rewrite ShapeFacts.bind_got.
    destruct (PyDict.truthy _); apply append_errors.
  - rewrite ShapeFacts.bind_raised. intros [= <-]. by eapply append_errors.
Qed.

Lemma save_progress_dict json_dumps now doc x :
  getitem "scraped_ids" doc = Got x →
  ∃ doc', Runs.save_progress json_dumps now doc = Got (doc', Some (json_dumps doc'))
          ∧ ∀ k, k ≠ "last_updated"%string → getitem k doc' = getitem k doc.
Proof.
  intros Hget. unfold Runs.save_progress.
  destruct (setitem_after_getitem _ "last_updated" (JStr now) doc _ Hget) as [doc' Hset].
  rewrite Hset, ShapeFacts.bind_got. exists doc'. split; [done|].
  intros k Hk. by eapply getitem_setitem_ne.
Qed.

(** The end of a run on a dictionary with its three lists writes both
    files. *)
Lemma parallel_finish_lists json_dumps now1 now2 doc :
  Runs.three_lists doc →
  ∃ text out, Runs.parallel_finish json_dumps now1 now2 doc
              = Got (Runs.Disk (Some text) (Some out)).
Proof.
  intros (ids & res & fl & Hids & Hres & Hfl). unfold Runs.parallel_finish.
  destruct (save_progress_dict json_dumps now1 doc _ Hids) as (doc' & -> & Hsame).
  rewrite ShapeFacts.bind_got. cbn [fst snd].
  rewrite !Hsame by done. rewrite Hres, Hids, Hfl.
  by eexists _, _.
Qed.

(** However it ends, the end of a run writes both files or raises from
    the dictionary. *)
Lemma parallel_finish_outcome json_dumps now1 now2 doc :
  match Runs.parallel_finish json_dumps now1 now2 doc with
  | Got d' => is_Some (Runs.progress_file d') ∧ is_Some (Runs.output_file d')
  | Raised e => e ∈ ["KeyError"; "AttributeError"; "TypeError"]%string
  end.
Proof.
  unfold Runs.parallel_finish, Runs.save_progress, Runs.save_results.
  destruct (setitem "last_updated" (JStr now1) doc) as [doc'|e] eqn:E1;
    [|destruct doc; try done; injection E1 as <-; cbn; listed].
  rewrite !ShapeFacts.bind_got. cbn [fst snd].
  destruct (getitem "results" doc') as [res|e] eqn:E2;
    [|rewrite ShapeFacts.bind_raised; apply getitem_errors in E2; listed].
  rewrite ShapeFacts.bind_got.
  destruct (len res) as [count|e] eqn:E3;
    [|rewrite !ShapeFacts.bind_raised; apply len_errors in E3; listed].
  rewrite !ShapeFacts.bind_got.
  destruct (getitem "scraped_ids" doc') as [ids|e] eqn:E4;
    [|rewrite ShapeFacts.bind_raised; apply getitem_errors in E4; listed].
  rewrite ShapeFacts.bind_got.
  destruct (len ids) as [n1|e] eqn:E5;
    [|rewrite !ShapeFacts.bind_raised; apply len_errors in E5; listed].
  rewrite ShapeFacts.bind_got.
  destruct (getitem "failed" doc') as [fl|e] eqn:E6;
    [|rewrite ShapeFacts.bind_raised; apply getitem_errors in E6; listed].
  rewrite ShapeFacts.bind_got.
  destruct (len fl) as [n2|e] eqn:E7;
    [|rewrite !ShapeFacts.bind_raised; apply len_errors in E7; listed].
  rewrite ShapeFacts.bind_got. simpl. split; by eexists.
Qed.

Lemma str_items_errors v e : str_items v = Raised e → e = "TypeError"%string.
Proof.
  destruct v; simpl; try by intros [= <-].
  destruct (forallb hashable l); by intros [= <-].
Qed.

Lemma scraped_set_errors v e :
  scraped_set v = Raised e → e ∈ ["KeyError"; "TypeError"]%string.
Proof.
  unfold scraped_set. destruct (getitem "scraped_ids" v) as [ids|e1] eqn:E1.
  - rewrite ShapeFacts.bind_got. destruct (str_items ids) as [l|e2] eqn:E2; [done|].
    rewrite ShapeFacts.bind_raised. intros [= <-].
    apply str_items_errors in E2. listed.
  - rewrite ShapeFacts.bind_raised. intros [= <-]. by apply getitem_errors in E1.
Qed.

Lemma scraped_keys_errors a v e :
  Parallel.scraped_keys a v = Raised e → e ∈ ["KeyError"; "TypeError"]%string.
Proof.
  unfold Parallel.scraped_keys.
  destruct (Parallel.resume a).
  - destruct (getitem "scraped_ids" v) as [ids|e1] eqn:E1.
    + rewrite ShapeFacts.bind_got.
      destruct (PyDict.truthy (Some ids)).
      * destruct (len ids) as [n|e2] eqn:E2.
        -- rewrite ShapeFacts.bind_got. apply scraped_set_errors.
        -- rewrite ShapeFacts.bind_raised. intros [= <-].
           apply len_errors in E2. listed.
      * rewrite ShapeFacts.bind_got. apply scraped_set_errors.
    + rewrite !ShapeFacts.bind_raised. intros [= <-]. by apply getitem_errors in E1.
  - rewrite ShapeFacts.bind_got. apply scraped_set_errors.
Qed.

(** A run that cannot begin: the text is no JSON, or the document has no
    keys to make a set of. *)
Lemma parallel_start_errors json_loads a rs f e :
  Runs.parallel_start json_loads a rs f = Raised e →
  e ∈ ["JSONDecodeError"; "KeyError"; "TypeError"]%string.
Proof.
  unfold Runs.parallel_start.
  destruct (Parallel.initial_progress json_loads a f) as [doc|e1] eqn:E1.
  - rewrite ShapeFacts.bind_got.
    destruct (Parallel.scraped_keys a doc) as [keys|e2] eqn:E2; [done|].
    rewrite ShapeFacts.bind_raised. intros [= <-].
    apply scraped_keys_errors in E2. listed.
  - rewrite ShapeFacts.bind_raised. intros [= <-].
    unfold Parallel.initial_progress, Parallel.load_progress in E1.
    destruct (Parallel.resume a); [|done].
    destruct f as [text|]; [|done].
    destruct (json_loads text); [done|]. injection E1 as <-. listed.
Qed.

Section Pool.
Variable round2 : Q → number.
Variable n : nat.

Lemma steps_lists s s' :
  rtc (Runs.step round2 n) s s' →
  Runs.three_lists (Runs.progress_data s) → Runs.three_lists (Runs.progress_data s').
Proof.
  induction 1 as [s|s1 s2 s3 Hstep _ IH]; [done|]. intros Hl. apply IH.
  destruct Hstep as [|wid r now v q bs1 bs2 d d' Hrec]; [done|]. simpl in *.
  destruct (record_lists r (Parallel.scrape_restaurant round2 now r v) d Hl)
    as (d2 & Hrec2 & Hl2).
  rewrite Hrec in Hrec2. by injection Hrec2 as ->.
Qed.

Lemma crash_lists s e :
  Runs.three_lists (Runs.progress_data s) → ¬ Runs.crash round2 s e.
Proof.
  intros Hl Hcrash. destruct Hcrash as [wid r now v q bs1 bs2 d e Hrec]. simpl in Hl.
  destruct (record_lists r (Parallel.scrape_restaurant round2 now r v) d Hl)
    as (d2 & Hrec2 & _).
  by rewrite Hrec in Hrec2.
Qed.

Lemma crash_errors s e :
  Runs.crash round2 s e → e ∈ ["KeyError"; "AttributeError"; "TypeError"]%string.
Proof. intros [wid r now v q bs1 bs2 d e' Hrec]. by eapply record_errors. Qed.

(** With a worker, the pool goes on until a worker cannot record or the
    queue is drained: one worker alone can take it there. *)
Lemma pool_ends q :
  0 < n →
  ∀ doc,
    (∃ s e, rtc (Runs.step round2 n) (Runs.Pool q [] doc) s ∧ Runs.crash round2 s e)
    ∨ (∃ s', rtc (Runs.step round2 n) (Runs.Pool q [] doc) s'
             ∧ Runs.queue s' = [] ∧ Runs.busy s' = []).
Proof.
  intros Hn. induction q as [|r q IH]; intros doc.
  - right. by exists (Runs.Pool [] [] doc).
  - assert (Htake : Runs.step round2 n (Runs.Pool (r :: q) [] doc)
                      (Runs.Pool q [(0, r)] doc)).
    { apply Runs.step_take; [done|]. simpl. apply not_elem_of_nil. }
    destruct (Runs.record r (Parallel.scrape_restaurant round2 EmptyString r
                               (GotoRaised EmptyString)) doc) as [doc'|e] eqn:E.
    + assert (Hrec : Runs.step round2 n (Runs.Pool q [(0, r)] doc) (Runs.Pool q [] doc')).
      { by apply (Runs.step_record round2 n 0 r EmptyString (GotoRaised EmptyString)
                    q [] [] doc doc'). }
      destruct (IH doc') as [(s & e & Hsteps & Hcrash) | (s' & Hsteps & Hq & Hb)].
      * left. exists s, e. split; [|done]. by do 2 (eapply rtc_l; [done|]).
      * right. exists s'. split; [|done]. by do 2 (eapply rtc_l; [done|]).
    + left. exists (Runs.Pool q [(0, r)] doc), e. split; [by eapply rtc_once|].
      by apply (Runs.crash_record round2 0 r EmptyString (GotoRaised EmptyString)
                  q [] [] doc e).
Qed.

End Pool.

End DocumentFacts.

(** ** Whole runs of the parallel scraper *)

Module RunFacts.
Import Common.

(** Nothing is left to queue once every key of the catalog is scraped. *)
Lemma nothing_remains sample pr rs p :
  (∀ r, r ∈ rs → restaurant_id r ∈ scraped_ids p) →
  remaining_tasks sample pr rs p = [].
Proof.
  intros Hall. destruct (remaining_tasks sample pr rs p) as [|r l] eqn:E; [done|].
  assert (Hr : r ∈ remaining_tasks sample pr rs p) by (rewrite E; left).
  apply QueueFacts.remaining_unscraped in Hr as [Hnot Hin]. destruct Hnot. by apply Hall.
Qed.

(** With nothing scraped, everything is queued when no sample cuts. *)
Lemma all_remain pr rs :
  remaining_tasks None pr rs empty_progress ≡ₚ rs.
Proof.
  rewrite QueueFacts.remaining_perm. rewrite QueueFacts.filter_all; [done|].
  apply Forall_forall. intros r _. simpl. apply not_elem_of_nil.
Qed.

(** The state a complete run of the pool ends in, and what is on the disk
    after the final save. *)
Lemma saved_loads round2 now trace p0 :
  (∀ q, JsonText.canonical (round2 q) = true) →
  JsonText.well_formed (progress_to_json p0) = true →
  let p := record_all (Parallel.scrape_restaurant round2) trace p0 in
  Parallel.load_progress JsonText.loads (Parallel.save_progress JsonText.dumps now p).2
  = Got (progress_to_json (Progress (scraped_ids p) (results p) (failed p) (Some now))).
Proof.
  intros Hround Hwf p.
  destruct (CheckpointFacts.load_save JsonText.dumps JsonText.loads now p) as [Hsave Hload].
  { apply JsonFacts.loads_dumps, CheckpointFacts.stamped_well_formed.
    by apply ReachFacts.recorded_well_formed. }
  by rewrite Hsave.
Qed.

(** What a run that starts from a dictionary of the scraper's own making
    and has work and workers can end as: it writes both files. *)
Lemma typed_run_complete round2 json_dumps json_loads s resume n pr rs d out p0 :
  Runs.parallel_run round2 json_dumps json_loads s resume n pr rs d out →
  (0 < n)%Z →
  Parallel.initial_progress json_loads (Parallel.Args s resume (Z.to_nat n) pr)
    (Runs.progress_file d) = Got (progress_to_json p0) →
  remaining_tasks s pr rs p0 ≠ [] →
  ∃ p now1 now2,
    rtc (Parallel.step round2 (Z.to_nat n))
        (Parallel.Pool (remaining_tasks s pr rs p0) [] p0) (Parallel.Pool [] [] p) ∧
    out = Got (Runs.Disk
                 (Parallel.save_progress json_dumps now1 p).2
                 (Some (JObj [ ("scraped_at", JStr now2);
                               ("count",
                                JNum (number_of_int (Z.of_nat (length (results p)))));
                               ("results", JArr (JObj <$> results p)) ]%string))).
Proof.
  intros Hrun Hn Hinit Hwork.
  pose proof (ShapeFacts.parallel_start_typed json_loads _ rs _ p0 Hinit) as Hstart.
  unfold Parallel.task_queue in Hstart. simpl in Hstart.
  inversion Hrun as [ e H1 | q0 H1 | q0 rem H1 H2 H3 | q0 rem now1 now2 H1 H2 H3
                      | q0 rem st e H1 H2 H3 Hsteps Hcrash
                      | q0 rem s' now1 now2 H1 H2 H3 Hsteps Hq Hb ]; subst;
    rewrite Hstart in H1; try done; injection H1 as E1 E2; try lia.
  - by rewrite E2 in Hwork.
  - subst q0 rem.
    apply ShapeFacts.steps_typed in Hsteps as (q2 & bs2 & p2 & -> & _).
    by apply ShapeFacts.no_crash_typed in Hcrash.
  - subst q0 rem.
    apply ShapeFacts.steps_typed in Hsteps as (q2 & bs2 & p2 & -> & Hsteps).
    simpl in Hq, Hb. subst q2 bs2.
    exists p2, now1, now2. split; [done|]. simpl.
    apply ShapeFacts.parallel_finish_typed.
Qed.

(** A schedule of the pool on a dictionary of the scraper's own making
    is a run. *)
Lemma typed_run round2 json_dumps json_loads s resume n pr rs d p0 p now1 now2 :
  Parallel.initial_progress json_loads (Parallel.Args s resume (Z.to_nat n) pr)
    (Runs.progress_file d) = Got (progress_to_json p0) →
  remaining_tasks s pr rs p0 ≠ [] →
  (0 < n)%Z →
  rtc (Parallel.step round2 (Z.to_nat n))
      (Parallel.Pool (remaining_tasks s pr rs p0) [] p0) (Parallel.Pool [] [] p) →
  Runs.parallel_run round2 json_dumps json_loads s resume n pr rs d
    (Got (Runs.Disk
            (Parallel.save_progress json_dumps now1 p).2
            (Some (JObj [ ("scraped_at", JStr now2);
                          ("count",
                           JNum (number_of_int (Z.of_nat (length (results p)))));
                          ("results", JArr (JObj <$> results p)) ]%string)))).
Proof.
  intros Hinit Hwork Hn Hsteps.
  rewrite <- (ShapeFacts.parallel_finish_typed json_dumps now1 now2 p).
  apply (Runs.run_complete round2 json_dumps json_loads s resume n pr rs d
           (progress_to_json p0) (remaining_tasks s pr rs p0)
           (Runs.Pool [] [] (progress_to_json p)) now1 now2); try done.
  - by apply ShapeFacts.parallel_start_typed.
  - by apply ShapeFacts.steps_lift in Hsteps.
Qed.

(** What a complete run leaves on the disk. *)
Lemma complete_run_saved round2 s resume n pr rs d d' p0 :
  (∀ q, JsonText.canonical (round2 q) = true) →
  Runs.parallel_run round2 JsonText.dumps JsonText.loads s resume n pr rs d (Got d') →
  (0 < n)%Z →
  Parallel.initial_progress JsonText.loads (Parallel.Args s resume (Z.to_nat n) pr)
    (Runs.progress_file d) = Got (progress_to_json p0) →
  JsonText.well_formed (progress_to_json p0) = true →
  remaining_tasks s pr rs p0 ≠ [] →
  ∃ p' now2,
    Parallel.load_progress JsonText.loads (Runs.progress_file d')
    = Got (progress_to_json p') ∧
    (∃ order, order ≡ₚ remaining_tasks s pr rs p0 ∧
              scraped_ids p' = scraped_ids p0 ++ (restaurant_id <$> order)) ∧
    Runs.output_file d'
    = Some (JObj [ ("scraped_at", JStr now2);
                   ("count", JNum (number_of_int (Z.of_nat (length (results p')))));
                   ("results", JArr (JObj <$> results p')) ]%string).
Proof.
  intros Hround Hrun Hn Hinit Hwf Hwork.
  destruct (typed_run_complete _ _ _ _ _ _ _ _ _ _ _ Hrun Hn Hinit Hwork)
    as (p & now1 & now2 & Hsteps & [= ->]).
  destruct (PoolFacts.pool_linear _ _ _ _ _ Hsteps) as (trace & Hp & Hperm).
  simpl in Hp, Hperm. rewrite app_nil_r in Hperm. subst p.
  eexists _, now2. split; [by apply saved_loads|].
  split; [|reflexivity].
  exists (trace.*1.*1). split; [done|]. simpl.
  rewrite ProgressFacts.record_all_ids. f_equal.
  rewrite <- !list_fmap_compose. reflexivity.
Qed.

(** The ways a run can go, by how it starts. *)
Lemma parallel_run_cases round2 json_dumps json_loads s resume n pr rs d out :
  Runs.parallel_run round2 json_dumps json_loads s resume n pr rs d out →
  match Runs.parallel_start json_loads (Parallel.Args s resume (Z.to_nat n) pr) rs
          (Runs.progress_file d) with
  | Raised e => out = Raised e
  | Got (p0, []) => out = Got d
  | Got (p0, _ :: _) =>
      (n = 0%Z ∧ out = Raised "ZeroDivisionError")
      ∨ (n ≠ 0%Z ∧ ∃ e, out = Raised e ∧ ¬ Runs.three_lists p0
                      ∧ e ∈ ["KeyError"; "AttributeError"; "TypeError"]%string)
      ∨ (n ≠ 0%Z ∧ ∃ now1 now2 doc,
                      out = Runs.parallel_finish json_dumps now1 now2 doc
                      ∧ (Runs.three_lists p0 → Runs.three_lists doc))
  end.
Proof.
  intros Hrun.
  inversion Hrun as [ e H1 | q0 H1 | q0 rem H1 H2 H3 | q0 rem now1 now2 H1 H2 H3
                      | q0 rem st e H1 H2 H3 Hsteps Hcrash
                      | q0 rem s' now1 now2 H1 H2 H3 Hsteps Hq Hb ]; subst; rewrite H1.
  - done.
  - done.
  - destruct rem; [done|]. by left.
  - destruct rem; [done|]. right. right. split; [lia|]. by exists now1, now2, q0.
  - destruct rem; [done|]. right. left. split; [lia|]. exists e. split_and!; [done| |].
    + intros Hl. eapply (DocumentFacts.crash_lists round2 st e); [|done].
      by apply (DocumentFacts.steps_lists _ _ _ _ Hsteps).
    + by eapply DocumentFacts.crash_errors.
  - destruct rem; [done|]. right. right. split; [lia|].
    exists now1, now2, (Runs.progress_data s'). split; [done|].
    intros Hl. by apply (DocumentFacts.steps_lists _ _ _ _ Hsteps).
Qed.

Lemma digit_of_N_cases m :
  JsonText.digit_of_N m ∈ [Decimal.D0; Decimal.D1; Decimal.D2; Decimal.D3; Decimal.D4;
                           Decimal.D5; Decimal.D6; Decimal.D7; Decimal.D8; Decimal.D9].
Proof.
  destruct m as [|p]; [set_solver|].
  do 4 (try destruct p as [p|p|]); simpl; set_solver.
Qed.

Lemma digit_of_N_zero m : (0 < m)%N → JsonText.digit_of_N m ≠ Decimal.D0.
Proof.
  destruct m as [|p]; [lia|]. intros _.
  do 4 (try destruct p as [p|p|]); simpl; intros H;
    apply (f_equal (λ f, f Decimal.Nil)) in H; discriminate.
Qed.

(** The stand-in for [round] writes numbers as [repr] would. *)
Lemma sample_round2_canonical q : JsonText.canonical (Sample.round2 q) = true.
Proof.
  unfold Sample.round2. set (n := Z.to_N _).
  pose proof (digit_of_N_cases ((n mod 100) / 10)) as H1.
  pose proof (digit_of_N_cases (n mod 10)) as H2.
  pose proof (digit_of_N_zero (n mod 10)) as H3.
  destruct (n mod 10 =? 0)%N eqn:E.
  - clear H2 H3. unfold JsonText.canonical. simpl.
    set_unfold in H1. destruct H1 as [->|[->|[->|[->|[->|[->|[->|[->|[->|[->|[]]]]]]]]]]];
      reflexivity.
  - apply N.eqb_neq in E. apply N.neq_0_lt_0 in E. specialize (H3 E).
    unfold JsonText.canonical. simpl.
    set_unfold in H1. set_unfold in H2.
    destruct H1 as [->|[->|[->|[->|[->|[->|[->|[->|[->|[->|[]]]]]]]]]]];
      destruct H2 as [H2|[H2|[H2|[H2|[H2|[H2|[H2|[H2|[H2|[H2|[]]]]]]]]]]];
      rewrite H2 in *; try done.
Qed.

End RunFacts.

(** X5.  A complete run of the parallel scraper with work to do and workers
    to do it ends with a progress file that [load_progress] reads back: the
    keys the run started from, then the key of each queued restaurant once,
    in the order the workers came back, whatever the interleaving; and the
    results file holds the found outcomes of that dictionary under
    [results] and their number under [count]. *)
Theorem complete_run_is_checkpointed
        (round2 : Q → number) (s : option Z) (resume : bool) (n : Z) (pr : bool)
        (rs : list Common.restaurant) (d d' : Runs.disk) (p0 : Common.progress) :
  (∀ q, JsonText.canonical (round2 q) = true) →
  Runs.parallel_run round2 JsonText.dumps JsonText.loads s resume n pr rs d
    (Common.Got d') →
  (0 < n)%Z →
  Parallel.initial_progress JsonText.loads (Parallel.Args s resume (Z.to_nat n) pr)
    (Runs.progress_file d) = Common.Got (Common.progress_to_json p0) →
  JsonText.well_formed (Common.progress_to_json p0) = true →
  Common.remaining_tasks s pr rs p0 ≠ [] →
  ∃ p' now2,
    Parallel.load_progress JsonText.loads (Runs.progress_file d')
    = Common.Got (Common.progress_to_json p') ∧
    (∃ order, order ≡ₚ Common.remaining_tasks s pr rs p0 ∧
              Common.scraped_ids p'
              = Common.scraped_ids p0 ++ (Common.restaurant_id <$> order)) ∧
    Runs.output_file d'
    = Some (JObj [ ("scraped_at", JStr now2);
                   ("count", JNum (number_of_int (Z.of_nat (length (Common.results p')))));
                   ("results", JArr (JObj <$> Common.results p')) ]%string).
Proof.
  intros Hround Hrun Hn Hinit Hwf Hwork.
  destruct (RunFacts.complete_run_saved round2 s resume n pr rs d d' p0)
    as (p' & now2 & Hload & Hids & Hout); try done.
  by exists p', now2.
Qed.

Lemma complete_run_is_checkpointed_witness :
  let rs := [Sample.joes; Sample.cafe] in
  let d := Runs.Disk None None in
  let o1 := Parallel.scrape_restaurant Sample.round2 Sample.now Sample.cafe
              (Common.GotoRaised "timeout") in
  let o2 := Parallel.scrape_restaurant Sample.round2 Sample.now Sample.joes
              (Common.Arrived Sample.joes_page) in
  let p := Common.record Sample.joes o2
             (Common.record Sample.cafe o1 Common.empty_progress) in
  let d' := Runs.Disk
              (Parallel.save_progress JsonText.dumps Sample.later p).2
              (Some (JObj [ ("scraped_at", JStr Sample.later);
                            ("count", JNum (number_of_int 1));
                            ("results", JArr [JObj o2]) ]%string)) in
  (∀ q, JsonText.canonical (Sample.round2 q) = true) ∧
  Runs.parallel_run Sample.round2 JsonText.dumps JsonText.loads None false 2 true rs d
    (Common.Got d') ∧
  (0 < 2)%Z ∧
  JsonText.well_formed (Common.progress_to_json Common.empty_progress) = true ∧
  Common.remaining_tasks None true rs Common.empty_progress ≠ [] ∧
  ∃ p' now2,
    Parallel.load_progress JsonText.loads (Runs.progress_file d')
    = Common.Got (Common.progress_to_json p') ∧
    Common.scraped_ids p' = ["Cafe X|1 Main St"; "Joe's Pizza|123 Bleecker St"]%string ∧
    Runs.output_file d'
    = Some (JObj [ ("scraped_at", JStr now2);
                   ("count", JNum (number_of_int (Z.of_nat (length (Common.results p')))));
                   ("results", JArr (JObj <$> Common.results p')) ]%string).
Proof.
  intros rs d o1 o2 p d'.
  assert (Hwork : Common.remaining_tasks None true rs Common.empty_progress
                  = [Sample.cafe; Sample.joes]) by (vm_compute; reflexivity).
  assert (Hne : Common.remaining_tasks None true rs Common.empty_progress ≠ [])
    by (rewrite Hwork; discriminate).
  assert (Hrun : Runs.parallel_run Sample.round2 JsonText.dumps JsonText.loads None false
                   2 true rs d (Common.Got d')).
  { apply (RunFacts.typed_run Sample.round2 JsonText.dumps JsonText.loads None false 2 true
             rs d Common.empty_progress p Sample.later Sample.later);
      [reflexivity | exact Hne | lia | ].
    rewrite Hwork. change (Z.to_nat 2) with 2.
    eapply rtc_l.
    { apply (Parallel.step_take Sample.round2 2 0 Sample.cafe [Sample.joes] []
               Common.empty_progress); [lia | apply not_elem_of_nil]. }
    eapply rtc_l.
    { apply (Parallel.step_record Sample.round2 2 0 Sample.cafe Sample.now
               (Common.GotoRaised "timeout") [Sample.joes] [] []). }
    eapply rtc_l.
    { apply (Parallel.step_take Sample.round2 2 1 Sample.joes [] [] _);
        [lia | apply not_elem_of_nil]. }
    eapply rtc_l.
    { apply (Parallel.step_record Sample.round2 2 1 Sample.joes Sample.now
               (Common.Arrived Sample.joes_page) [] [] []). }
    apply rtc_refl. }
  split; [exact RunFacts.sample_round2_canonical|].
  split; [exact Hrun|]. split; [lia|]. split; [reflexivity|]. split; [exact Hne|].
  destruct (complete_run_is_checkpointed Sample.round2 None false 2 true rs d d'
              Common.empty_progress RunFacts.sample_round2_canonical Hrun
              ltac:(lia) eq_refl eq_refl Hne)
    as (p' & now2 & Hload & (order & Hperm & Hids) & Hout).
  exists p', now2. split; [exact Hload|]. split; [|exact Hout].
  assert (Hsaved : Parallel.load_progress JsonText.loads (Runs.progress_file d')
                   = Common.Got (Common.progress_to_json
                                   (Parallel.save_progress JsonText.dumps Sample.later p).1))
    by (vm_compute; reflexivity).
  rewrite Hsaved in Hload.
  assert (Hsame : Common.progress_to_json
                    (Parallel.save_progress JsonText.dumps Sample.later p).1
                  = Common.progress_to_json p') by congruence.
  apply CheckpointFacts.progress_to_json_inj in Hsame. by rewrite <- Hsame.
Defined.

(** X6.  After a run without [--resume] over the whole catalog, a run with
    [--resume] finds nothing to scrape and leaves both files as they are,
    whatever its sample size, its number of workers and its priorities. *)
Theorem resume_after_full_run_is_idle
        (round2 : Q → number) (n : Z) (pr : bool) (rs : list Common.restaurant)
        (d d1 : Runs.disk)
        (s2 : option Z) (n2 : Z) (pr2 : bool) (out : Common.attempt Runs.disk) :
  (∀ q, JsonText.canonical (round2 q) = true) →
  rs ≠ [] → (0 < n)%Z →
  Runs.parallel_run round2 JsonText.dumps JsonText.loads None false n pr rs d
    (Common.Got d1) →
  Runs.parallel_run round2 JsonText.dumps JsonText.loads s2 true n2 pr2 rs d1 out →
  out = Common.Got d1.
Proof.
  intros Hround Hrs Hn Hrun1 Hrun2.
  assert (Hwork : Common.remaining_tasks None pr rs Common.empty_progress ≠ []).
  { intros E. pose proof (RunFacts.all_remain pr rs) as Hperm. rewrite E in Hperm.
    apply Permutation_nil_l in Hperm. done. }
  assert (Hload : ∃ p1, Parallel.load_progress JsonText.loads (Runs.progress_file d1)
                        = Common.Got (Common.progress_to_json p1)
                        ∧ ∀ r, r ∈ rs → Common.restaurant_id r ∈ Common.scraped_ids p1).
  { destruct (RunFacts.complete_run_saved round2 None false n pr rs d d1
                Common.empty_progress Hround Hrun1 Hn eq_refl eq_refl Hwork)
      as (p1 & now2 & Hl & (order & Hperm & Hids) & _).
    exists p1. split; [done|]. intros r Hr. rewrite Hids. simpl.
    apply list_elem_of_fmap. exists r. split; [done|].
    rewrite Hperm, RunFacts.all_remain. done. }
  destruct Hload as (p1 & Hload & Hall).
  assert (Hstart : Runs.parallel_start JsonText.loads
                     (Parallel.Args s2 true (Z.to_nat n2) pr2) rs (Runs.progress_file d1)
                   = Common.Got (Common.progress_to_json p1, [])).
  { rewrite (ShapeFacts.parallel_start_typed _ _ _ _ p1) by done.
    unfold Parallel.task_queue. simpl. by rewrite RunFacts.nothing_remains. }
  inversion Hrun2 as [ e H1 | q0 H1 | q0 rem H1 H2 H3 | q0 rem now1 now2 H1 H2 H3
                       | q0 rem st e H1 H2 H3 Hsteps Hcrash
                       | q0 rem s' now1 now2 H1 H2 H3 Hsteps Hq Hb ]; subst;
    rewrite Hstart in H1; try done; by injection H1 as E1 E2; subst.
Qed.

(** X7.  Every run of the parallel scraper ends, and how.  A run that
    cannot begin raises in its first lines: the load under [--resume] when
    the file is no JSON, the reading of the keys when the document is no
    dictionary with keys under [scraped_ids] to make a set of.  With
    nothing to scrape the run returns before it writes anything, and the
    two files stay as they were; with something to scrape and
    [--workers 0] the estimate of the time divides by zero.  In every other
    case the run writes both files or raises from the dictionary: a worker
    that cannot record, or the end of the run that cannot read the lists.
    It writes both files whenever the dictionary has a list under each of
    [scraped_ids], [results] and [failed]: the fresh dictionary has, a file
    of [save_progress] has, and so has a document without [last_updated]
    or with more keys.  Without [--resume] a run that has work does not
    read the progress file, so its outcome is the same whatever the file
    held. *)
Theorem parallel_run_ends
        (round2 : Q → number) (json_dumps : json → string)
        (json_loads : string → option json)
        (s : option Z) (resume : bool) (n : Z) (pr : bool)
        (rs : list Common.restaurant) (d : Runs.disk) :
  let start := Runs.parallel_start json_loads
                 (Parallel.Args s resume (Z.to_nat n) pr) rs (Runs.progress_file d) in
  let run := Runs.parallel_run round2 json_dumps json_loads s resume n pr rs in
  (∃ out, run d out) ∧
  (∀ out, run d out →
     (∀ e, start = Common.Raised e →
           out = Common.Raised e
           ∧ e ∈ ["JSONDecodeError"; "KeyError"; "TypeError"]%string) ∧
     (∀ p0, start = Common.Got (p0, []) → out = Common.Got d) ∧
     (∀ p0 r q, start = Common.Got (p0, r :: q) → n = 0%Z →
                out = Common.Raised "ZeroDivisionError") ∧
     (∀ p0 r q, start = Common.Got (p0, r :: q) → n ≠ 0%Z →
                (∃ d', out = Common.Got d' ∧ is_Some (Runs.progress_file d')
                       ∧ is_Some (Runs.output_file d'))
                ∨ (∃ e, out = Common.Raised e
                        ∧ e ∈ ["KeyError"; "AttributeError"; "TypeError"]%string)) ∧
     (∀ p0 r q, start = Common.Got (p0, r :: q) → n ≠ 0%Z → Runs.three_lists p0 →
                ∃ d', out = Common.Got d' ∧ is_Some (Runs.progress_file d')
                      ∧ is_Some (Runs.output_file d'))) ∧
  (∀ p, Runs.three_lists (Common.progress_to_json p)) ∧
  (∀ kvs ids res fl,
      PyDict.get "scraped_ids" kvs = Some (JArr ids) →
      PyDict.get "results" kvs = Some (JArr res) →
      PyDict.get "failed" kvs = Some (JArr fl) →
      Runs.three_lists (JObj kvs)) ∧
  (resume = false →
   start = Common.Got (Common.progress_to_json Common.empty_progress,
                       Common.remaining_tasks s pr rs Common.empty_progress)) ∧
  (resume = false → Common.remaining_tasks s pr rs Common.empty_progress ≠ [] →
   ∀ d2 out, run d out ↔ run d2 out).
Proof.
  intros start run.
  assert (Hfresh : resume = false →
                   ∀ d0, Runs.parallel_start json_loads
                           (Parallel.Args s resume (Z.to_nat n) pr) rs (Runs.progress_file d0)
                         = Common.Got (Common.progress_to_json Common.empty_progress,
                                       Common.remaining_tasks s pr rs Common.empty_progress)).
  { intros -> d0. by apply ShapeFacts.parallel_start_typed. }
  split_and!.
  - unfold run. destruct start as [[p0 q]|e] eqn:E;
      [|eexists; by apply Runs.run_start_raised].
    destruct q as [|r q]; [eexists; by eapply Runs.run_nothing|].
    destruct (Z.lt_trichotomy n 0) as [Hn|[Hn|Hn]].
    + eexists. by eapply (Runs.run_idle _ _ _ _ _ _ _ _ _ p0 (r :: q) EmptyString EmptyString).
    + eexists. by eapply (Runs.run_no_worker _ _ _ _ _ _ _ _ _ p0 (r :: q)).
    + destruct (DocumentFacts.pool_ends round2 (Z.to_nat n) (r :: q) ltac:(lia) p0)
        as [(st & e & Hsteps & Hcrash) | (s' & Hsteps & Hq & Hb)].
      * eexists. by eapply (Runs.run_crashed _ _ _ _ _ _ _ _ _ p0 (r :: q) st e).
      * eexists.
        by eapply (Runs.run_complete _ _ _ _ _ _ _ _ _ p0 (r :: q) s'
                     EmptyString EmptyString).
  - intros out Hrun.
    assert (Hend : ∀ now1 now2 doc,
               (∃ d', Runs.parallel_finish json_dumps now1 now2 doc = Common.Got d'
                      ∧ is_Some (Runs.progress_file d') ∧ is_Some (Runs.output_file d'))
               ∨ (∃ e, Runs.parallel_finish json_dumps now1 now2 doc = Common.Raised e
                       ∧ e ∈ ["KeyError"; "AttributeError"; "TypeError"]%string)).
    { intros now1 now2 doc.
      pose proof (DocumentFacts.parallel_finish_outcome json_dumps now1 now2 doc) as H.
      destruct (Runs.parallel_finish json_dumps now1 now2 doc) as [d'|e]; eauto. }
    assert (Hgood : ∀ now1 now2 doc, Runs.three_lists doc →
               ∃ d', Runs.parallel_finish json_dumps now1 now2 doc = Common.Got d'
                     ∧ is_Some (Runs.progress_file d') ∧ is_Some (Runs.output_file d')).
    { intros now1 now2 doc Hl.
      destruct (DocumentFacts.parallel_finish_lists json_dumps now1 now2 doc Hl)
        as (text & o & ->).
      eexists. split; [done|]. split; by eexists. }
    pose proof (RunFacts.parallel_run_cases _ _ _ _ _ _ _ _ _ _ Hrun) as Hcases.
    fold start in Hcases. split_and!.
    + intros e He. rewrite He in Hcases. split; [done|].
      by eapply DocumentFacts.parallel_start_errors.
    + intros p0 He. by rewrite He in Hcases.
    + intros p0 r q He Hn. rewrite He in Hcases.
      destruct Hcases as [[_ ->] | [[Hn' _] | [Hn' _]]]; done.
    + intros p0 r q He Hn. rewrite He in Hcases.
      destruct Hcases as [[Hn' _] | [(_ & e & -> & _ & He') | (_ & now1 & now2 & doc & -> & _)]].
      * done.
      * right. by exists e.
      * apply Hend.
    + intros p0 r q He Hn Hl. rewrite He in Hcases.
      destruct Hcases as [[Hn' _] | [(_ & e & _ & Hno & _) | (_ & now1 & now2 & doc & -> & Hdoc)]].
      * done.
      * done.
      * by apply Hgood, Hdoc.
  - apply DocumentFacts.three_lists_typed.
  - intros kvs ids res fl H1 H2 H3. exists ids, res, fl.
    unfold Common.getitem. by rewrite H1, H2, H3.
  - intros Hres. by apply Hfresh.
  - intros Hres Hwork d2 out. unfold run.
    split; intros Hrun;
      inversion Hrun as [ e H1 | q0 H1 | q0 rem H1 H2 H3 | q0 rem now1 now2 H1 H2 H3
                          | q0 rem st e H1 H2 H3 Hsteps Hcrash
                          | q0 rem s' now1 now2 H1 H2 H3 Hsteps Hq Hb ]; subst out;
      rewrite (Hfresh Hres) in H1; try done; injection H1 as E1 E2; subst q0;
      try (by rewrite <- E2 in Hwork); subst rem.
    + eapply Runs.run_no_worker; [by apply Hfresh | done | done].
    + eapply Runs.run_idle; [by apply Hfresh | done | done].
    + eapply Runs.run_crashed; [by apply Hfresh | done | done | done | done].
    + eapply Runs.run_complete; [by apply Hfresh | done | done | done | done | done].
    + eapply Runs.run_no_worker; [by apply Hfresh | done | done].
    + eapply Runs.run_idle; [by apply Hfresh | done | done].
    + eapply Runs.run_crashed; [by apply Hfresh | done | done | done | done].
    + eapply Runs.run_complete; [by apply Hfresh | done | done | done | done | done].
Qed.

Lemma resume_after_full_run_is_idle_witness :
  let rs := [Sample.joes; Sample.cafe] in
  let o1 := Parallel.scrape_restaurant Sample.round2 Sample.now Sample.cafe
              (Common.GotoRaised "timeout") in
  let o2 := Parallel.scrape_restaurant Sample.round2 Sample.now Sample.joes
              (Common.Arrived Sample.joes_page) in
  let p := Common.record Sample.joes o2
             (Common.record Sample.cafe o1 Common.empty_progress) in
  let d1 := Runs.Disk
              (Parallel.save_progress JsonText.dumps Sample.later p).2
              (Some (JObj [ ("scraped_at", JStr Sample.later);
                            ("count", JNum (number_of_int 1));
                            ("results", JArr [JObj o2]) ]%string)) in
  (∀ q, JsonText.canonical (Sample.round2 q) = true) ∧
  rs ≠ [] ∧ (0 < 2)%Z ∧
  Runs.parallel_run Sample.round2 JsonText.dumps JsonText.loads None false 2 true rs
    (Runs.Disk None None) (Common.Got d1) ∧
  Runs.parallel_run Sample.round2 JsonText.dumps JsonText.loads (Some 5%Z) true 3 false rs
    d1 (Common.Got d1).
Proof.
  intros rs o1 o2 p d1.
  assert (Hwork : Common.remaining_tasks None true rs Common.empty_progress
                  = [Sample.cafe; Sample.joes]) by (vm_compute; reflexivity).
  assert (Hrun : Runs.parallel_run Sample.round2 JsonText.dumps JsonText.loads None false
                   2 true rs (Runs.Disk None None) (Common.Got d1)).
  { apply (RunFacts.typed_run Sample.round2 JsonText.dumps JsonText.loads None false 2 true
             rs (Runs.Disk None None) Common.empty_progress p Sample.later Sample.later);
      [reflexivity | rewrite Hwork; discriminate | lia | ].
    rewrite Hwork. change (Z.to_nat 2) with 2.
    eapply rtc_l.
    { apply (Parallel.step_take Sample.round2 2 0 Sample.cafe [Sample.joes] []
               Common.empty_progress); [lia | apply not_elem_of_nil]. }
    eapply rtc_l.
    { apply (Parallel.step_record Sample.round2 2 0 Sample.cafe Sample.now
               (Common.GotoRaised "timeout") [Sample.joes] [] []). }
    eapply rtc_l.
    { apply (Parallel.step_take Sample.round2 2 1 Sample.joes [] [] _);
        [lia | apply not_elem_of_nil]. }
    eapply rtc_l.
    { apply (Parallel.step_record Sample.round2 2 1 Sample.joes Sample.now
               (Common.Arrived Sample.joes_page) [] [] []). }
    apply rtc_refl. }
  assert (Hrun2 : Runs.parallel_run Sample.round2 JsonText.dumps JsonText.loads
                    (Some 5%Z) true 3 false rs d1 (Common.Got d1)).
  { apply (Runs.run_nothing Sample.round2 JsonText.dumps JsonText.loads (Some 5%Z) true 3
             false rs d1
             (Common.progress_to_json
                (Common.Progress (Common.scraped_ids p) (Common.results p)
                                 (Common.failed p) (Some Sample.later)))).
    vm_compute. reflexivity. }
  split; [exact RunFacts.sample_round2_canonical|].
  split; [discriminate|]. split; [lia|]. split; [exact Hrun|].
  pose proof (resume_after_full_run_is_idle Sample.round2 2 true rs (Runs.Disk None None)
                d1 (Some 5%Z) 3 false (Common.Got d1)
                RunFacts.sample_round2_canonical ltac:(discriminate) ltac:(lia)
                Hrun Hrun2) as Hout.
  exact (eq_ind _ (λ o, Runs.parallel_run Sample.round2 JsonText.dumps JsonText.loads
                          (Some 5%Z) true 3 false rs d1 o) Hrun2 _ Hout).
Defined.

(** X8.  What [main] makes of [--all] and [--sample N], and what it means
    for the queue: [--all] queues every restaurant that is not scraped yet;
    [--sample N] with [N] above 0 queues [N] at most; with neither, and
    with [--sample 0], the default of the script holds, 100 restaurants for
    the parallel scraper and 10 for the single-stream one; a negative [N]
    leaves the last [-N] of the unscraped out.  [run_scraper] is never
    handed a sample size of 0. *)
Theorem main_sample_bounds_queue
        (default : Z) (all : bool) (sample : option Z) (pr : bool)
        (rs : list Common.restaurant) (p : Common.progress) :
  let s := Runs.main_sample_size default all sample in
  let q := Common.remaining_tasks s pr rs p in
  let unscraped := filter (λ r, Common.restaurant_id r ∉ Common.scraped_ids p) rs in
  (default ≠ 0%Z → s ≠ Some 0%Z) ∧
  (all = true → q ≡ₚ unscraped) ∧
  (all = false → ∀ n, sample = Some n → (0 < n)%Z →
                      length q = Z.to_nat n `min` length unscraped) ∧
  (all = false → sample = None ∨ sample = Some 0%Z → (0 < default)%Z →
   length q = Z.to_nat default `min` length unscraped) ∧
  (all = false → ∀ n, sample = Some n → (n < 0)%Z →
                      length q = length unscraped - Z.to_nat (- n)) ∧
  Runs.main_sample_size 100 false None = Some 100%Z ∧
  Runs.main_sample_size 10 false (Some 0%Z) = Some 10%Z.
Proof.
  intros s q unscraped.
  assert (Hlen : length (Common.remaining_tasks None pr rs p) = length unscraped).
  { unfold unscraped. by rewrite QueueFacts.remaining_perm. }
  assert (Hcut : ∀ n, (n ≠ 0)%Z →
                      length (Common.remaining_tasks (Some n) pr rs p)
                      = if (0 <? n)%Z then Z.to_nat n `min` length unscraped
                        else length unscraped - Z.to_nat (- n)).
  { intros n Hn. rewrite QueueFacts.remaining_cut. unfold Common.slice_to.
    rewrite (proj2 (Z.eqb_neq n 0)) by done.
    destruct (0 <? n)%Z; rewrite length_take, Hlen; lia. }
  unfold q, s, Runs.main_sample_size. split_and!; try done.
  - intros Hd. destruct all; [done|]. destruct sample as [n|]; [|congruence].
    destruct (n =? 0)%Z eqn:E; [congruence|]. apply Z.eqb_neq in E. congruence.
  - intros ->. apply QueueFacts.remaining_perm.
  - intros -> n -> Hn. rewrite (proj2 (Z.eqb_neq n 0)) by lia.
    rewrite Hcut by lia. by rewrite (proj2 (Z.ltb_lt 0 n)).
  - intros -> Hs Hd.
    replace (match sample with
             | Some n => if (n =? 0)%Z then Some default else Some n
             | None => Some default
             end) with (Some default) by (by destruct Hs as [-> | ->]).
    rewrite Hcut by lia. by rewrite (proj2 (Z.ltb_lt 0 default)).
  - intros -> n -> Hn. rewrite (proj2 (Z.eqb_neq n 0)) by lia.
    rewrite Hcut by lia. by rewrite (proj2 (Z.ltb_ge 0 n)) by lia.
Qed.

(** ** The single-stream loop and run *)

Module LoopFacts.
Import Common.
Section Loop.
Variable round2 : Q → number.
Variable json_dumps : json → string.
Variable w : Single.world.
Variable clock : nat → string.

Lemma loop_app l1 l2 :
  ∀ i st, Single.scrape_loop round2 json_dumps w clock i (l1 ++ l2) st = Single.scrape_loop round2 json_dumps w clock (i + length l1) l2 (Single.scrape_loop round2 json_dumps w clock i l1 st).
Proof.
  induction l1 as [|r l1 IH]; intros i st.
  - simpl. by rewrite Nat.add_0_r.
  - rewrite <- app_comm_cons, !ProgressFacts.single_loop_cons. cbv zeta.
    rewrite IH. simpl length. by rewrite Nat.add_succ_comm.
Qed.

(** Between two saves the file stays. *)
Lemma loop_no_save l :
  ∀ i st, (∀ j, i ≤ j < i + length l → (j + 1) mod 10 ≠ 0) →
          (Single.scrape_loop round2 json_dumps w clock i l st).2 = st.2.
Proof.
  induction l as [|r l IH]; intros i st Hno; [done|].
  rewrite ProgressFacts.single_loop_cons. cbv zeta.
  rewrite IH by (intros j Hj; apply Hno; simpl; lia).
  rewrite (proj2 (Nat.eqb_neq _ _)); [done|]. apply Hno. simpl. lia.
Qed.

(** Right after a save the file is the dictionary. *)
Lemma loop_saved l r i st :
  (i + length l + 1) mod 10 = 0 →
  (Single.scrape_loop round2 json_dumps w clock i (l ++ [r]) st).2
  = Some (json_dumps (progress_to_json (Single.scrape_loop round2 json_dumps w clock i (l ++ [r]) st).1)).
Proof.
  intros Hten. rewrite loop_app, ProgressFacts.single_loop_cons. cbv zeta.
  rewrite (proj2 (Nat.eqb_eq _ _)) by done. reflexivity.
Qed.

End Loop.
End LoopFacts.

(** X9.  The single-stream loop saves after every tenth restaurant of the
    run.  When it has gone through the queue, the progress file is what it
    was if the queue had fewer than ten; else it is the dictionary as it
    stood after the last full ten, and lacks only the restaurants after
    them, fewer than ten; the dictionary holds the keys of all. *)
Theorem single_loop_saves_every_tenth
        (round2 : Q → number) (json_dumps : json → string)
        (w : Single.world) (clock : nat → string)
        (q : list Common.restaurant) (p0 : Common.progress) (f0 : option string) :
  let st := Single.scrape_loop round2 json_dumps w clock 0 q (p0, f0) in
  let k := 10 * (length q `div` 10) in
  let st_k := Single.scrape_loop round2 json_dumps w clock 0 (take k q) (p0, f0) in
  (length q < 10 → st.2 = f0) ∧
  (10 ≤ length q →
   st.2 = Some (json_dumps (Common.progress_to_json st_k.1)) ∧
   Common.last_updated st_k.1 = Some (clock (k - 1))) ∧
  Common.scraped_ids st_k.1
  = Common.scraped_ids p0 ++ (Common.restaurant_id <$> take k q) ∧
  Common.scraped_ids st.1
  = Common.scraped_ids st_k.1 ++ (Common.restaurant_id <$> drop k q) ∧
  length (drop k q) < 10.
Proof.
  intros st k st_k.
  assert (Hk : k ≤ length q ∧ length q - k < 10 ∧ k mod 10 = 0).
  { unfold k. pose proof (Nat.div_mod_eq (length q) 10) as Hdm.
    pose proof (Nat.mod_upper_bound (length q) 10 ltac:(lia)).
    rewrite Nat.mul_comm, Nat.Div0.mod_mul. lia. }
  destruct Hk as (Hk1 & Hk2 & Hk3).
  assert (Hst : st = Single.scrape_loop round2 json_dumps w clock (0 + length (take k q))
                       (drop k q) st_k).
  { unfold st, st_k. rewrite <- LoopFacts.loop_app, take_drop. reflexivity. }
  assert (Htail : st.2 = st_k.2).
  { rewrite Hst. apply LoopFacts.loop_no_save.
    rewrite length_take, length_drop. intros j Hj.
    replace (k `min` length q) with k in Hj by lia.
    intros Hj0. apply Nat.Div0.mod_divides in Hk3 as [a Ha].
    apply Nat.Div0.mod_divides in Hj0 as [b Hb]. lia. }
  split; [|split; [|split; [|split]]].
  - intros Hlt. rewrite Htail. unfold st_k.
    replace k with 0 by (unfold k; rewrite Nat.div_small; lia). reflexivity.
  - intros Hge. rewrite Htail.
    assert (Hpos : 0 < k) by (unfold k; pose proof (Nat.div_str_pos (length q) 10); lia).
    destruct (exists_last (l := take k q)) as (l0 & r0 & E).
    { intros E. apply (f_equal length) in E. rewrite length_take in E. simpl in E. lia. }
    apply (f_equal length) in E as Hlen.
    rewrite length_take, length_app in Hlen. simpl in Hlen.
    unfold st_k. rewrite E. split.
    + apply LoopFacts.loop_saved. replace (0 + length l0 + 1) with k by lia. done.
    + rewrite LoopFacts.loop_app, ProgressFacts.single_loop_cons. cbv zeta.
      replace (0 + length l0 + 1) with k by lia.
      rewrite (proj2 (Nat.eqb_eq _ _)) by done. simpl. do 2 f_equal. lia.
  - unfold st_k. by rewrite ProgressFacts.single_loop_ids.
  - rewrite Hst. by rewrite ProgressFacts.single_loop_ids.
  - rewrite length_drop. lia.
Qed.

Module SingleFacts.
Import Common.

Section Loop.
Variable round2 : Q → number.
Variable json_dumps : json → string.
Variable w : Single.world.
Variable clock : nat → string.

Lemma document_loop_cons i r remaining st :
  Runs.scrape_loop round2 json_dumps w clock i (r :: remaining) st
  = progress ← Runs.record r (Single.scrape_restaurant round2 (w i).1 r (w i).2) st.1;
    st' ← (if (i + 1) mod 10 =? 0 then
             saved ← Runs.save_progress json_dumps (clock i) progress;
             results ← getitem "results" saved.1;
             _ ← len results;
             failed ← getitem "failed" saved.1;
             _ ← len failed;
             Got saved
           else Got (progress, st.2));
    Runs.scrape_loop round2 json_dumps w clock (S i) remaining st'.
Proof. simpl. by destruct (w i). Qed.

Lemma save_typed now p :
  (saved ← Runs.save_progress json_dumps now (progress_to_json p);
   results ← getitem "results" saved.1;
   _ ← len results;
   failed ← getitem "failed" saved.1;
   _ ← len failed;
   Got saved)
  = Got (progress_to_json (Single.save_progress json_dumps now p).1,
         (Single.save_progress json_dumps now p).2).
Proof. reflexivity. Qed.

(** On a dictionary of the scraper's own making the loop is the loop of
    the dictionaries. *)
Lemma loop_typed remaining :
  ∀ i p f,
    Runs.scrape_loop round2 json_dumps w clock i remaining (progress_to_json p, f)
    = Got (progress_to_json
             (Single.scrape_loop round2 json_dumps w clock i remaining (p, f)).1,
           (Single.scrape_loop round2 json_dumps w clock i remaining (p, f)).2).
Proof.
  induction remaining as [|r remaining IH]; intros i p f; [done|].
  rewrite document_loop_cons, ProgressFacts.single_loop_cons. cbv zeta. cbn [fst snd].
  rewrite ShapeFacts.record_typed, ShapeFacts.bind_got.
  destruct ((i + 1) mod 10 =? 0).
  - rewrite save_typed, ShapeFacts.bind_got.
    destruct (Single.save_progress json_dumps (clock i) _) as [p' f'] eqn:E.
    apply IH.
  - rewrite ShapeFacts.bind_got. apply IH.
Qed.

(** The loop on a dictionary with its three lists goes through, leaves
    such a dictionary, and the list of the keys is not empty once a
    restaurant went through the loop. *)
Lemma save_lists now doc :
  Runs.three_lists doc →
  ∃ doc', (saved ← Runs.save_progress json_dumps now doc;
           results ← getitem "results" saved.1;
           _ ← len results;
           failed ← getitem "failed" saved.1;
           _ ← len failed;
           Got saved) = Got (doc', Some (json_dumps doc'))
          ∧ ∀ k, k ≠ "last_updated"%string → getitem k doc' = getitem k doc.
Proof.
  intros (ids & res & fl & Hids & Hres & Hfl).
  destruct (DocumentFacts.save_progress_dict json_dumps now doc _ Hids)
    as (doc' & -> & Hsame).
  exists doc'. rewrite ShapeFacts.bind_got. cbn [fst snd].
  rewrite !Hsame by done. by rewrite Hres, Hfl.
Qed.

Lemma three_lists_same doc doc' :
  (∀ k, k ≠ "last_updated"%string → getitem k doc' = getitem k doc) →
  Runs.three_lists doc → Runs.three_lists doc'.
Proof.
  intros Hsame (ids & res & fl & Hids & Hres & Hfl). exists ids, res, fl.
  by rewrite !Hsame.
Qed.

Lemma loop_lists remaining :
  ∀ i st, Runs.three_lists st.1 →
          ∃ st', Runs.scrape_loop round2 json_dumps w clock i remaining st = Got st'
                 ∧ Runs.three_lists st'.1.
Proof.
  induction remaining as [|r remaining IH]; intros i st Hl; [by exists st|].
  rewrite document_loop_cons.
  destruct (DocumentFacts.record_lists r
              (Single.scrape_restaurant round2 (w i).1 r (w i).2) st.1 Hl)
    as (doc1 & -> & Hl1).
  rewrite ShapeFacts.bind_got.
  destruct ((i + 1) mod 10 =? 0).
  - destruct (save_lists (clock i) doc1 Hl1) as (doc2 & -> & Hsame).
    rewrite ShapeFacts.bind_got. apply IH. simpl. by eapply three_lists_same.
  - rewrite ShapeFacts.bind_got. by apply IH.
Qed.

End Loop.

(** The keys a recording leaves: a list that is not empty. *)
Lemma record_keys r o doc doc' :
  Runs.record r o doc = Got doc' →
  ∃ ids, getitem "scraped_ids" doc' = Got (JArr ids) ∧ ids ≠ [].
Proof.
  unfold Runs.record, append.
  destruct (getitem "scraped_ids" doc) as [l|e] eqn:E1; [|done].
  rewrite ShapeFacts.bind_got. destruct l as [| | | |ids|]; try done.
  destruct (setitem "scraped_ids" _ doc) as [doc1|e] eqn:E2; [|done].
  rewrite ShapeFacts.bind_got.
  pose proof (DocumentFacts.getitem_setitem_eq _ _ _ _ E2) as Hids.
  assert (Hkeep : ∀ k x doc2, k ≠ "scraped_ids"%string →
             (l ← getitem k doc1;
              match l with
              | JArr items => setitem k (JArr (items ++ [x])) doc1
              | _ => Raised "AttributeError"
              end) = Got doc2 →
             getitem "scraped_ids" doc2 = getitem "scraped_ids" doc1).
  { intros k x doc2 Hk. destruct (getitem k doc1) as [l|e] eqn:E3; [|done].
    rewrite ShapeFacts.bind_got. destruct l; try done.
    intros Hset. by eapply DocumentFacts.getitem_setitem_ne. }
  destruct (PyDict.truthy _); intros Happ; apply Hkeep in Happ; try done;
    rewrite Happ, Hids; eexists; (split; [done|]); by destruct ids.
Qed.

Lemma save_keeps_keys json_dumps now doc st :
  (saved ← Runs.save_progress json_dumps now doc;
   results ← getitem "results" saved.1;
   _ ← len results;
   failed ← getitem "failed" saved.1;
   _ ← len failed;
   Got saved) = Got st →
  getitem "scraped_ids" st.1 = getitem "scraped_ids" doc.
Proof.
  unfold Runs.save_progress.
  destruct (setitem "last_updated" (JStr now) doc) as [doc'|e] eqn:E; [|done].
  rewrite !ShapeFacts.bind_got. cbn [fst snd].
  destruct (getitem "results" doc') as [res|e]; [|done].
  rewrite ShapeFacts.bind_got. destruct (len res); [|done].
  rewrite ShapeFacts.bind_got. destruct (getitem "failed" doc') as [fl|e]; [|done].
  rewrite ShapeFacts.bind_got. destruct (len fl); [|done].
  rewrite ShapeFacts.bind_got. intros [= <-]. simpl.
  by apply (DocumentFacts.getitem_setitem_ne _ "last_updated" (JStr now)).
Qed.

Lemma save_errors json_dumps now doc e :
  (saved ← Runs.save_progress json_dumps now doc;
   results ← getitem "results" saved.1;
   _ ← len results;
   failed ← getitem "failed" saved.1;
   _ ← len failed;
   Got saved) = Raised e →
  e ∈ ["KeyError"; "AttributeError"; "TypeError"]%string.
Proof.
  unfold Runs.save_progress.
  destruct (setitem "last_updated" (JStr now) doc) as [doc'|e1] eqn:E.
  - rewrite !ShapeFacts.bind_got. cbn [fst snd].
    destruct (getitem "results" doc') as [res|e1] eqn:E1.
    + rewrite ShapeFacts.bind_got. destruct (len res) as [n1|e2] eqn:E2.
      * rewrite ShapeFacts.bind_got. destruct (getitem "failed" doc') as [fl|e3] eqn:E3.
        -- rewrite ShapeFacts.bind_got. destruct (len fl) as [n2|e4] eqn:E4; [done|].
           rewrite ShapeFacts.bind_raised. intros [= <-].
           apply DocumentFacts.len_errors in E4. subst. DocumentFacts.listed.
        -- rewrite ShapeFacts.bind_raised. intros [= <-].
           apply DocumentFacts.getitem_errors in E3. DocumentFacts.listed.
      * rewrite ShapeFacts.bind_raised. intros [= <-].
        apply DocumentFacts.len_errors in E2. subst. DocumentFacts.listed.
    + rewrite ShapeFacts.bind_raised. intros [= <-].
      apply DocumentFacts.getitem_errors in E1. DocumentFacts.listed.
  - destruct doc; try done; injection E as <-; rewrite !ShapeFacts.bind_raised;
      intros [= <-]; DocumentFacts.listed.
Qed.

Section Run.
Variable round2 : Q → number.
Variable json_dumps : json → string.
Variable w : Single.world.
Variable clock : nat → string.

(** Once a restaurant went through the loop, the keys are a list that is
    not empty. *)
Lemma loop_keys remaining :
  ∀ i st st',
    Runs.scrape_loop round2 json_dumps w clock i remaining st = Got st' →
    remaining ≠ []
    ∨ (∃ ids, getitem "scraped_ids" st.1 = Got (JArr ids) ∧ ids ≠ []) →
    ∃ ids, getitem "scraped_ids" st'.1 = Got (JArr ids) ∧ ids ≠ [].
Proof.
  induction remaining as [|r remaining IH]; intros i st st' Hloop Hst.
  - injection Hloop as <-. by destruct Hst.
  - rewrite document_loop_cons in Hloop.
    destruct (Runs.record r _ st.1) as [doc1|e] eqn:E1; [|done].
    rewrite ShapeFacts.bind_got in Hloop.
    apply record_keys in E1.
    destruct ((i + 1) mod 10 =? 0).
    + match type of Hloop with
      | (?blk ≫= _) = _ => destruct blk as [st1|e] eqn:E2; [|done]
      end.
      rewrite ShapeFacts.bind_got in Hloop.
      apply save_keeps_keys in E2.
      apply (IH _ _ _ Hloop). right. by rewrite E2.
    + rewrite ShapeFacts.bind_got in Hloop.
      apply (IH _ _ _ Hloop). by right.
Qed.

Lemma loop_errors remaining :
  ∀ i st e,
    Runs.scrape_loop round2 json_dumps w clock i remaining st = Raised e →
    e ∈ ["KeyError"; "AttributeError"; "TypeError"]%string.
Proof.
  induction remaining as [|r remaining IH]; intros i st e Hloop; [done|].
  rewrite document_loop_cons in Hloop.
  destruct (Runs.record r _ st.1) as [doc1|e1] eqn:E1.
  - rewrite ShapeFacts.bind_got in Hloop.
    destruct ((i + 1) mod 10 =? 0).
    + match type of Hloop with
      | (?blk ≫= _) = _ => destruct blk as [st1|e2] eqn:E2
      end.
      * rewrite ShapeFacts.bind_got in Hloop. by eapply IH.
      * rewrite ShapeFacts.bind_raised in Hloop. injection Hloop as <-.
        by eapply save_errors.
    + rewrite ShapeFacts.bind_got in Hloop. by eapply IH.
  - rewrite ShapeFacts.bind_raised in Hloop. injection Hloop as <-.
    by eapply DocumentFacts.record_errors.
Qed.

End Run.

(** The end of the run, when the keys are a list that is not empty: both
    files are written, or the dictionary raises; the match rate divides. *)
Lemma single_finish_outcome json_dumps now1 now2 doc ids :
  getitem "scraped_ids" doc = Got (JArr ids) → ids ≠ [] →
  match Runs.single_finish json_dumps now1 now2 doc with
  | Got d' => is_Some (Runs.progress_file d') ∧ is_Some (Runs.output_file d')
  | Raised e => e ∈ ["KeyError"; "AttributeError"; "TypeError"]%string
  end.
Proof.
  intros Hids Hne. unfold Runs.single_finish.
  destruct (DocumentFacts.save_progress_dict json_dumps now1 doc _ Hids)
    as (doc' & -> & Hsame).
  rewrite ShapeFacts.bind_got. cbn [fst snd].
  destruct (getitem "results" doc') as [res|e] eqn:E2;
    [|rewrite ShapeFacts.bind_raised; apply DocumentFacts.getitem_errors in E2;
      DocumentFacts.listed].
  rewrite ShapeFacts.bind_got. unfold Runs.save_results.
  destruct (len res) as [count|e] eqn:E3;
    [|rewrite !ShapeFacts.bind_raised; apply DocumentFacts.len_errors in E3; subst;
      DocumentFacts.listed].
  rewrite !ShapeFacts.bind_got. rewrite (Hsame "scraped_ids"%string) by done.
  rewrite Hids, ShapeFacts.bind_got. cbn [len]. rewrite ShapeFacts.bind_got.
  destruct (getitem "failed" doc') as [fl|e] eqn:E6;
    [|rewrite ShapeFacts.bind_raised; apply DocumentFacts.getitem_errors in E6;
      DocumentFacts.listed].
  rewrite ShapeFacts.bind_got.
  destruct (len fl) as [n2|e] eqn:E7;
    [|rewrite !ShapeFacts.bind_raised; apply DocumentFacts.len_errors in E7; subst;
      DocumentFacts.listed].
  rewrite ShapeFacts.bind_got. destruct ids; [done|]. simpl. split; by eexists.
Qed.

Lemma single_finish_lists json_dumps now1 now2 doc ids :
  Runs.three_lists doc →
  getitem "scraped_ids" doc = Got (JArr ids) → ids ≠ [] →
  ∃ d', Runs.single_finish json_dumps now1 now2 doc = Got d'
        ∧ is_Some (Runs.progress_file d') ∧ is_Some (Runs.output_file d').
Proof.
  intros (ids' & res & fl & Hids' & Hres & Hfl) Hids Hne. unfold Runs.single_finish.
  destruct (DocumentFacts.save_progress_dict json_dumps now1 doc _ Hids)
    as (doc' & -> & Hsame).
  rewrite ShapeFacts.bind_got. cbn [fst snd].
  rewrite !Hsame by done. rewrite Hres, Hids, Hfl.
  destruct ids; [done|]. eexists. split; [reflexivity|]. split; by eexists.
Qed.

Lemma single_finish_typed json_dumps now1 now2 p :
  scraped_ids p ≠ [] →
  Runs.single_finish json_dumps now1 now2 (progress_to_json p)
  = Got (Runs.Disk
           (Single.save_progress json_dumps now1 p).2
           (Some (JObj [ ("scraped_at", JStr now2);
                         ("count", JNum (number_of_int (Z.of_nat (length (results p)))));
                         ("results", JArr (JObj <$> results p)) ]%string))).
Proof.
  intros Hne. unfold Runs.single_finish.
  rewrite ShapeFacts.save_progress_typed, ShapeFacts.bind_got.
  rewrite <- (length_map JObj (results p)).
  destruct p as [[|k ids] res fl lu]; [done|]. reflexivity.
Qed.


Lemma single_start_same json_loads s resume n pr rs f :
  Runs.single_start json_loads (Single.Args s resume pr) rs f
  = Runs.parallel_start json_loads (Parallel.Args s resume n pr) rs f.
Proof. reflexivity. Qed.

End SingleFacts.

(** X10.  A run of the single-stream scraper.  A run that cannot begin
    raises in its first lines: the load under [--resume] when the file is
    no JSON, the reading of the keys when the document is no dictionary
    with keys under [scraped_ids] to make a set of.  With nothing to scrape
    the run leaves both files as they are.  With something to scrape it writes both files or raises
    from the dictionary; by the summary the list of the keys is not empty,
    so the match rate never divides by zero.  It writes both files whenever
    the dictionary has a list under each of [scraped_ids], [results] and
    [failed].  From a dictionary of the scraper's own making (the fresh
    one, or a file of [save_progress]) the progress file ends as the
    dictionary of the run: the keys it started from, then the keys of the
    queue in the order of the queue, stamped with the time of the final
    save; and the results file holds the found outcomes of that dictionary
    and their number. *)
Theorem single_run_saves_all
        (round2 : Q → number) (json_dumps : json → string)
        (json_loads : string → option json)
        (a : Single.args) (rs : list Common.restaurant) (w : Single.world)
        (clock : nat → string) (now1 now2 : string) (d : Runs.disk) :
  let out := Runs.single_run round2 json_dumps json_loads a rs w clock now1 now2 d in
  let start := Runs.single_start json_loads a rs (Runs.progress_file d) in
  (∀ e, start = Common.Raised e →
        out = Common.Raised e
        ∧ e ∈ ["JSONDecodeError"; "KeyError"; "TypeError"]%string) ∧
  (∀ p0, start = Common.Got (p0, []) → out = Common.Got d) ∧
  (∀ p0 r q, start = Common.Got (p0, r :: q) →
             (∃ d', out = Common.Got d' ∧ is_Some (Runs.progress_file d')
                    ∧ is_Some (Runs.output_file d'))
             ∨ (∃ e, out = Common.Raised e
                     ∧ e ∈ ["KeyError"; "AttributeError"; "TypeError"]%string)) ∧
  (∀ p0 r q, start = Common.Got (p0, r :: q) → Runs.three_lists p0 →
             ∃ d', out = Common.Got d' ∧ is_Some (Runs.progress_file d')
                   ∧ is_Some (Runs.output_file d')) ∧
  (∀ p0, Single.initial_progress json_loads a (Runs.progress_file d)
         = Common.Got (Common.progress_to_json p0) →
         Single.task_queue a rs p0 ≠ [] →
     ∃ p', out = Common.Got
                   (Runs.Disk
                      (Some (json_dumps (Common.progress_to_json p')))
                      (Some (JObj [ ("scraped_at", JStr now2);
                                    ("count",
                                     JNum (number_of_int
                                             (Z.of_nat (length (Common.results p')))));
                                    ("results", JArr (JObj <$> Common.results p')) ]%string)))
           ∧ Common.scraped_ids p'
             = Common.scraped_ids p0 ++ (Common.restaurant_id <$> Single.task_queue a rs p0)
           ∧ Common.scraped_ids p' ≠ []
           ∧ Common.last_updated p' = Some now1
           ∧ (Common.counts_agree p0 → Common.counts_agree p')).
Proof.
  intros out start. unfold out, Runs.single_run. fold start.
  split_and!.
  - intros e He. rewrite He. split; [done|]. destruct a as [s resume pr].
    unfold start in He. rewrite (SingleFacts.single_start_same _ _ _ 0) in He.
    by eapply DocumentFacts.parallel_start_errors.
  - by intros p0 ->.
  - intros p0 r q ->. rewrite ShapeFacts.bind_got. cbn [fst snd].
    destruct (Runs.scrape_loop round2 json_dumps w clock 0 (r :: q) _) as [st|e] eqn:E.
    + rewrite ShapeFacts.bind_got.
      destruct (SingleFacts.loop_keys _ _ _ _ _ _ _ _ E) as (ids & Hids & Hne); [by left|].
      pose proof (SingleFacts.single_finish_outcome json_dumps now1 now2 _ _ Hids Hne) as H.
      destruct (Runs.single_finish json_dumps now1 now2 st.1) as [d'|e]; eauto.
    + rewrite ShapeFacts.bind_raised. right. exists e. split; [done|].
      by eapply SingleFacts.loop_errors.
  - intros p0 r q -> Hl. rewrite ShapeFacts.bind_got. cbn [fst snd].
    destruct (SingleFacts.loop_lists round2 json_dumps w clock (r :: q) 0
                (p0, Runs.progress_file d) Hl) as (st & E & Hl').
    rewrite E, ShapeFacts.bind_got.
    destruct (SingleFacts.loop_keys _ _ _ _ _ _ _ _ E) as (ids & Hids & Hne); [by left|].
    by eapply SingleFacts.single_finish_lists.
  - intros p0 Hinit Hq.
    assert (Hstart : start = Common.Got (Common.progress_to_json p0,
                                         Single.task_queue a rs p0)).
    { unfold start, Runs.single_start. rewrite Hinit, ShapeFacts.bind_got.
      destruct a as [s resume pr].
      rewrite (CheckpointFacts.scraped_keys_same 0), ShapeFacts.scraped_keys_typed.
      reflexivity. }
    rewrite Hstart, ShapeFacts.bind_got. cbn [fst snd].
    destruct (Single.task_queue a rs p0) as [|r q] eqn:E; [done|].
    rewrite SingleFacts.loop_typed, ShapeFacts.bind_got. cbn [fst snd].
    set (st := Single.scrape_loop round2 json_dumps w clock 0 (r :: q)
                 (p0, Runs.progress_file d)).
    assert (Hids : Common.scraped_ids st.1
                   = Common.scraped_ids p0 ++ (Common.restaurant_id <$> r :: q))
      by apply ProgressFacts.single_loop_ids.
    assert (Hne : Common.scraped_ids st.1 ≠ []).
    { rewrite Hids. intros H. by apply app_eq_nil in H as [_ ?]. }
    rewrite SingleFacts.single_finish_typed by done.
    exists (Common.Progress (Common.scraped_ids st.1) (Common.results st.1)
                            (Common.failed st.1) (Some now1)).
    split_and!; try done.
    intros Hc.
    pose proof (ProgressFacts.single_loop_counts round2 json_dumps w clock (r :: q) 0
                  (p0, Runs.progress_file d) Hc) as H.
    unfold Common.counts_agree in *. exact H.
Qed.

(** ** Worked runs *)

Module WorkedRuns.
Import Common.

(** A progress file that holds a list and no dictionary: the load goes
    through, and the run raises at its first read of the keys. *)
Example resume_on_a_list :
  Parallel.load_progress JsonText.loads (Some "[]") = Got (JArr []) ∧
  Runs.single_run Sample.round2 JsonText.dumps JsonText.loads
    (Single.Args None true true) [Sample.joes; Sample.cafe]
    (λ _, (Sample.now, GotoRaised "timeout")) (λ _, Sample.later)
    Sample.later Sample.later (Runs.Disk (Some "[]") None)
  = Raised "TypeError".
Proof. split; vm_compute; reflexivity. Qed.

(** A progress file without [last_updated]: the run resumes from its keys,
    scrapes what is left, and the final save adds the stamp at the end of
    the dictionary. *)
Example resume_without_stamp :
  let doc := JObj [ ("scraped_ids", JArr [JStr "Cafe X|1 Main St"]);
                    ("results", JArr []); ("failed", JArr []) ]%string in
  let o := Single.scrape_restaurant Sample.round2 Sample.now Sample.joes
             (GotoRaised "timeout") in
  Runs.single_run Sample.round2 JsonText.dumps JsonText.loads
    (Single.Args None true true) [Sample.joes; Sample.cafe]
    (λ _, (Sample.now, GotoRaised "timeout")) (λ _, Sample.later)
    Sample.later Sample.later (Runs.Disk (Some (JsonText.dumps doc)) None)
  = Got (Runs.Disk
           (Some (JsonText.dumps
                    (JObj [ ("scraped_ids",
                             JArr [JStr "Cafe X|1 Main St";
                                   JStr "Joe's Pizza|123 Bleecker St"]);
                            ("results", JArr []); ("failed", JArr [JObj o]);
                            ("last_updated", JStr Sample.later) ]%string)))
           (Some (JObj [ ("scraped_at", JStr Sample.later);
                         ("count", JNum (number_of_int 0));
                         ("results", JArr []) ]%string))).
Proof. vm_compute. reflexivity. Qed.

(** A progress file without [failed]: the first restaurant that is not
    found cannot be recorded. *)
Example resume_without_failed :
  let doc := JObj [ ("scraped_ids", JArr []); ("results", JArr []) ]%string in
  Runs.single_run Sample.round2 JsonText.dumps JsonText.loads
    (Single.Args None true true) [Sample.joes]
    (λ _, (Sample.now, GotoRaised "timeout")) (λ _, Sample.later)
    Sample.later Sample.later (Runs.Disk (Some (JsonText.dumps doc)) None)
  = Raised "KeyError".
Proof. vm_compute. reflexivity. Qed.

End WorkedRuns.

(** ** The search query *)

Module QueryFacts.
Import Common PyStr.

Lemma blank_is_space : is_space " "%char = true.
Proof. reflexivity. Qed.

(** After [re.sub(r'\s+', ' ', s)] the only white space is the blank, and
    no two blanks touch. *)
Lemma sub_spaces_blanks l :
  ∀ b, Forall (λ c, is_space c = true → c = " "%char) (sub_spaces b l).
Proof.
  induction l as [|c l IH]; intros b; simpl; [done|].
  destruct (is_space c) eqn:E.
  - destruct b; [apply IH|]. apply Forall_cons. split; [done|apply IH].
  - apply Forall_cons. split; [congruence|apply IH].
Qed.

Lemma sub_spaces_runs l :
  ∀ b : bool, runs_below 2 (if b then 1 else 0) (sub_spaces b l) = true.
Proof.
  induction l as [|c l IH]; intros b; simpl; [done|].
  destruct (is_space c) eqn:E.
  - destruct b; [apply (IH true)|].
    rewrite AddressFacts.runs_below_blank. apply (IH true).
  - rewrite AddressFacts.runs_below_other by (intros ->; by rewrite blank_is_space in E).
    apply (IH false).
Qed.

Lemma sub_spaces_keeps l :
  ∀ b, filter (λ c, is_space c = false) (sub_spaces b l)
       = filter (λ c, is_space c = false) l.
Proof.
  induction l as [|c l IH]; intros b; simpl; [done|].
  destruct (is_space c) eqn:E.
  - rewrite (filter_cons_False _ c) by congruence.
    destruct b; [apply IH|]. rewrite filter_cons_False by (rewrite blank_is_space; done).
    apply IH.
  - rewrite !filter_cons_True by done. f_equal. apply IH.
Qed.

Lemma lstrip_keeps l :
  filter (λ c, is_space c = false) (lstrip_chars l) = filter (λ c, is_space c = false) l.
Proof.
  induction l as [|c l IH]; simpl; [done|].
  destruct (is_space c) eqn:E; [|done]. by rewrite filter_cons_False by congruence.
Qed.

Lemma filter_rev {X} (P : X → Prop) `{∀ x, Decision (P x)} (l : list X) :
  filter P (rev l) = rev (filter P l).
Proof.
  induction l as [|x l IH]; [done|]. simpl. rewrite filter_app, IH.
  destruct (decide (P x)).
  - rewrite !filter_cons_True by done. simpl. done.
  - rewrite !filter_cons_False by done. simpl. by rewrite app_nil_r.
Qed.

Lemma strip_keeps l :
  filter (λ c, is_space c = false) (strip_chars l) = filter (λ c, is_space c = false) l.
Proof.
  unfold strip_chars, rstrip_chars.
  rewrite filter_rev, lstrip_keeps, filter_rev, rev_involutive. apply lstrip_keeps.
Qed.

Lemma lstrip_head l c l' : lstrip_chars l = c :: l' → is_space c = false.
Proof.
  induction l as [|x l IH]; simpl; [done|].
  destruct (is_space x) eqn:E; [done|]. intros [= <- _]. done.
Qed.

Lemma lstrip_fixed l : (∀ c l', l = c :: l' → is_space c = false) → lstrip_chars l = l.
Proof. destruct l as [|c l]; [done|]. intros H. simpl. by rewrite (H c l). Qed.

Lemma strip_ends l :
  (∀ c l', strip_chars l = c :: l' → is_space c = false) ∧
  (∀ c l', strip_chars l = l' ++ [c] → is_space c = false).
Proof.
  unfold strip_chars, rstrip_chars. split.
  - intros c l' E.
    destruct (lstrip_chars l) as [|x t] eqn:El; [done|].
    pose proof (lstrip_head _ _ _ El) as Hx.
    destruct (AddressFacts.rstrip_prefix (x :: t)) as [rest Hrest].
    unfold rstrip_chars in Hrest. rewrite E in Hrest. by inversion Hrest; subst.
  - intros c l' E. apply (f_equal (@rev ascii)) in E.
    rewrite rev_involutive, rev_app_distr in E. simpl in E.
    by apply lstrip_head in E.
Qed.

End QueryFacts.

(** X11.  The name inside the quotes of the search query is the restaurant's
    name with its white space cleaned: the characters that are not white
    space are kept, in order; the only white space left is the blank; no two
    blanks touch; and the name neither begins nor ends with one. *)
Theorem query_name_is_collapsed (r : Common.restaurant) :
  let cleaned := PyStr.strip_chars (Common.sub_spaces false (PyStr.chars (Common.name r))) in
  Common.build_search_query r
  = (Common.quote +:+ PyStr.str cleaned +:+ Common.quote +:+ " " +:+ Common.address r
     +:+ " " +:+ Common.boro r +:+ " NYC")%string ∧
  filter (λ c, PyStr.is_space c = false) cleaned
  = filter (λ c, PyStr.is_space c = false) (PyStr.chars (Common.name r)) ∧
  Forall (λ c, PyStr.is_space c = true → c = " "%char) cleaned ∧
  PyStr.runs_below 2 0 cleaned = true ∧
  (∀ c l, cleaned = c :: l → PyStr.is_space c = false) ∧
  (∀ c l, cleaned = l ++ [c] → PyStr.is_space c = false).
Proof.
  intros cleaned. split; [|split; [|split; [|split]]].
  - unfold Common.build_search_query, PyStr.strip. by rewrite ScoreFacts.chars_str.
  - unfold cleaned. by rewrite QueryFacts.strip_keeps, QueryFacts.sub_spaces_keeps.
  - apply AddressFacts.strip_Forall, QueryFacts.sub_spaces_blanks.
  - apply AddressFacts.runs_below_strip, (QueryFacts.sub_spaces_runs _ false).
  - apply QueryFacts.strip_ends.
Qed.

(** ** The categories *)

Module CategoryFacts.
Import PyStr CategoryMapping.

Lemma lookup_Some {V} k (v : V) d : lookup k d = Some v → (k, v) ∈ d.
Proof.
  induction d as [|[k' v'] d IH]; simpl; [done|].
  case_decide as E; [intros [= ->]; subst; left | intros H; right; by apply IH].
Qed.

Lemma lookup_first {V} k (v : V) d :
  NoDup d.*1 → (k, v) ∈ d → lookup k d = Some v.
Proof.
  induction d as [|[k' v'] d IH]; simpl; [by intros _ ?%elem_of_nil|].
  intros [Hk Hd]%NoDup_cons [[= -> ->]|Hin]%elem_of_cons.
  - by rewrite decide_True.
  - case_decide as E; [|by apply IH]. subst. destruct Hk.
    apply list_elem_of_fmap. by exists (k, v).
Qed.

Lemma span_app p l : ∀ a b, span p l = (a, b) → l = a ++ b.
Proof.
  induction l as [|c l IH]; intros a b; simpl; [by intros [= <- <-]|].
  destruct (p c); [|by intros [= <- <-]].
  destruct (span p l) as [a' b']. intros [= <- <-]. simpl. f_equal. by apply IH.
Qed.

Lemma contains_here sub l : starts_with sub l = true → contains_chars sub l = true.
Proof. intros H. destruct l; simpl in *; by rewrite H. Qed.

Lemma contains_later sub pre l :
  contains_chars sub l = true → contains_chars sub (pre ++ l) = true.
Proof.
  intros H. induction pre as [|c pre IH]; [done|]. simpl. rewrite IH. apply orb_true_r.
Qed.

Lemma contains_cons sub c l :
  contains_chars sub (c :: l) = starts_with sub (c :: l) || contains_chars sub l.
Proof. reflexivity. Qed.

(** A match of the pattern holds the word it ends with. *)
Lemma search_cuisine_contains l w :
  search_cuisine l = Some w → contains_chars (chars "restaurant") l = true.
Proof.
  induction l as [|c l IH]; [done|].
  cbn [search_cuisine]. destruct (is_word c) eqn:Ew.
  2:{ intros H. rewrite contains_cons, (IH H). apply orb_true_r. }
  destruct (span is_word (c :: l)) as [word rest] eqn:E1.
  destruct (span is_space rest) as [blanks rest'] eqn:E2.
  destruct (_ && _) eqn:Ematch.
  - intros _. apply andb_true_iff in Ematch as [_ Hs].
    rewrite (span_app _ _ _ _ E1), (span_app _ _ _ _ E2).
    by apply contains_later, contains_later, contains_here.
  - intros H. rewrite contains_cons, (IH H). apply orb_true_r.
Qed.

Lemma table_keys : NoDup GOOGLE_TO_ETHNICITY.*1.
Proof. refine (bool_decide_unpack _ _). vm_compute. exact I. Qed.

Lemma table_keys_given : Forall (λ kv, is_empty kv.1 = false) GOOGLE_TO_ETHNICITY.
Proof. refine (bool_decide_unpack _ _). vm_compute. exact I. Qed.

Lemma table_values :
  Forall (λ kv, ∀ c, kv.2 = Some c →
                     c ∈ LOCATION_BASED_CATEGORIES ∨ c ∈ FOOD_TYPE_CATEGORIES)
         GOOGLE_TO_ETHNICITY.
Proof.
  assert (H : forallb (λ kv : string * option string,
                         match kv.2 with
                         | Some c => bool_decide (c ∈ LOCATION_BASED_CATEGORIES)
                                     || bool_decide (c ∈ FOOD_TYPE_CATEGORIES)
                         | None => true
                         end) GOOGLE_TO_ETHNICITY = true)
    by (vm_compute; reflexivity).
  apply Forall_forall. intros [k e] Hin c [= ->].
  rewrite forallb_forall in H. specialize (H (k, Some c)).
  rewrite <- list_elem_of_In in H. specialize (H Hin). simpl in H.
  apply orb_true_iff in H as [H|H]; apply bool_decide_eq_true in H; tauto.
Qed.

Lemma generic_key : (("restaurant", None) : string * option string) ∈ GOOGLE_TO_ETHNICITY.
Proof. refine (bool_decide_unpack _ _). vm_compute. exact I. Qed.

Lemma strip_lower_empty : strip (lower EmptyString) = EmptyString.
Proof. reflexivity. Qed.


(** What the chain and the top of a key of the table are. *)
Lemma climbs_of_keys k p :
  (k, p) ∈ SPECIFIC_TO_GENERAL →
  let chain := climb (S (length SPECIFIC_TO_GENERAL)) k [] [k] in
  let top := climb_top (S (length SPECIFIC_TO_GENERAL)) k [] in
  lookup top SPECIFIC_TO_GENERAL = None ∧
  last chain = Some top ∧
  head chain = Some k ∧
  is_path chain = true ∧
  length chain ≤ 4 ∧
  NoDup chain ∧
  climb 4 k [] [k] = chain.
Proof.
  assert (H : forallb
                (λ kv : string * string,
                   let chain := climb (S (length SPECIFIC_TO_GENERAL)) kv.1 [] [kv.1] in
                   let top := climb_top (S (length SPECIFIC_TO_GENERAL)) kv.1 [] in
                   bool_decide (lookup top SPECIFIC_TO_GENERAL = None)
                   && bool_decide (last chain = Some top)
                   && bool_decide (head chain = Some kv.1)
                   && is_path chain
                   && bool_decide (length chain ≤ 4)
                   && bool_decide (NoDup chain)
                   && bool_decide (climb 4 kv.1 [] [kv.1] = chain))
                SPECIFIC_TO_GENERAL = true)
    by (vm_compute; reflexivity).
  intros Hin. rewrite forallb_forall in H. specialize (H (k, p)).
  rewrite <- list_elem_of_In in H. specialize (H Hin). cbv zeta in H. simpl fst in H.
  rewrite !andb_true_iff, !bool_decide_eq_true in H. cbv zeta. tauto.
Qed.

Lemma parents_given : Forall (λ kv, is_empty kv.2 = false) SPECIFIC_TO_GENERAL.
Proof. refine (bool_decide_unpack _ _). vm_compute. exact I. Qed.

Lemma hierarchy_keys : NoDup SPECIFIC_TO_GENERAL.*1.
Proof. refine (bool_decide_unpack _ _). vm_compute. exact I. Qed.

End CategoryFacts.

(** X12.  [map_google_category] answers by its first two strategies alone:
    the label, lower-cased and stripped, as a key of the table, else the
    first key of the table, in the order of the source, that the label
    contains.  The third strategy, the pattern [(\w+)\s+restaurant], never
    answers: a label it matches contains the key [restaurant], which is too
    generic to map and has been met by the second.  An answer is a category
    of one of the two lists of categories; a key of the table, written in
    any case and with white space around, gets the value of the key. *)
Theorem map_google_category_two_strategies (google_category : string) :
  let normalized := PyStr.strip (PyStr.lower google_category) in
  CategoryMapping.map_google_category google_category
  = (if PyStr.is_empty google_category then None
     else match CategoryMapping.lookup normalized CategoryMapping.GOOGLE_TO_ETHNICITY with
          | Some ethnicity => ethnicity
          | None =>
              match CategoryMapping.partial_match normalized with
              | Some (_, ethnicity) => ethnicity
              | None => None
              end
          end) ∧
  (CategoryMapping.partial_match normalized = None →
   CategoryMapping.search_cuisine (PyStr.chars normalized) = None) ∧
  (∀ c, CategoryMapping.map_google_category google_category = Some c →
        c ∈ CategoryMapping.LOCATION_BASED_CATEGORIES
        ∨ c ∈ CategoryMapping.FOOD_TYPE_CATEGORIES) ∧
  (∀ k ethnicity, (k, ethnicity) ∈ CategoryMapping.GOOGLE_TO_ETHNICITY →
                  normalized = k →
                  CategoryMapping.map_google_category google_category = ethnicity).
Proof.
  intros normalized.
  assert (Hdead : CategoryMapping.partial_match normalized = None →
                  CategoryMapping.search_cuisine (PyStr.chars normalized) = None).
  { intros Hnone.
    destruct (CategoryMapping.search_cuisine _) as [w|] eqn:E; [|done].
    apply CategoryFacts.search_cuisine_contains in E.
    pose proof (find_none _ _ Hnone ("restaurant"%string, None)) as Hno.
    rewrite <- list_elem_of_In in Hno.
    specialize (Hno CategoryFacts.generic_key). simpl in Hno.
    unfold PyStr.contains in Hno. congruence. }
  assert (Heq : CategoryMapping.map_google_category google_category
                = (if PyStr.is_empty google_category then None
                   else match CategoryMapping.lookup normalized
                                CategoryMapping.GOOGLE_TO_ETHNICITY with
                        | Some ethnicity => ethnicity
                        | None =>
                            match CategoryMapping.partial_match normalized with
                            | Some (_, ethnicity) => ethnicity
                            | None => None
                            end
                        end)).
  { unfold CategoryMapping.map_google_category. fold normalized.
    destruct (PyStr.is_empty google_category); [done|].
    destruct (CategoryMapping.lookup normalized _); [done|].
    destruct (CategoryMapping.partial_match normalized) as [[k e]|] eqn:E; [done|].
    by rewrite (Hdead eq_refl). }
  split; [exact Heq|]. split; [exact Hdead|]. split.
  - intros c. rewrite Heq. destruct (PyStr.is_empty google_category); [done|].
    pose proof CategoryFacts.table_values as Hvals. rewrite Forall_forall in Hvals.
    destruct (CategoryMapping.lookup normalized _) as [e|] eqn:El.
    + intros ->. apply CategoryFacts.lookup_Some in El. by apply (Hvals _ El).
    + destruct (CategoryMapping.partial_match normalized) as [[k e]|] eqn:Ep; [|done].
      intros ->. apply find_some in Ep as [Hin _]. apply list_elem_of_In in Hin.
      by apply (Hvals _ Hin).
  - intros k e Hin Hk. rewrite Heq.
    destruct (PyStr.is_empty google_category) eqn:Ee.
    { destruct google_category; [|done]. unfold normalized in Hk.
      rewrite CategoryFacts.strip_lower_empty in Hk. subst k.
      pose proof CategoryFacts.table_keys_given as Hg. rewrite Forall_forall in Hg.
      by specialize (Hg _ Hin). }
    rewrite Hk, (CategoryFacts.lookup_first _ _ _ CategoryFacts.table_keys Hin). done.
Qed.

(** X13.  The hierarchy of [SPECIFIC_TO_GENERAL] has no cycle and is three
    levels deep at most.  For every category, [get_category_chain] starts at
    the category, goes from each item to its parent in the table, repeats
    none, has four items at most and ends at an item without a parent, and
    [get_top_level_category] is that last item; the guard against cycles
    never ends a climb, and four turns of the loop are as good as any
    number.  A category that is no key is its own chain and its own top; an
    empty one or [None] has neither. *)
Theorem category_chain_reaches_top (category : option string) :
  let chain := CategoryMapping.get_category_chain category in
  let top := CategoryMapping.get_top_level_category category in
  (CategoryMapping.given category = false → chain = [] ∧ top = None) ∧
  (∀ c, category = Some c → CategoryMapping.given category = true →
        (∃ t, top = Some t ∧
              CategoryMapping.lookup t CategoryMapping.SPECIFIC_TO_GENERAL = None ∧
              last chain = Some t) ∧
        head chain = Some c ∧
        CategoryMapping.is_path chain = true ∧
        length chain ≤ 4 ∧
        NoDup chain ∧
        CategoryMapping.climb 4 c [] [c] = chain ∧
        (CategoryMapping.lookup c CategoryMapping.SPECIFIC_TO_GENERAL = None →
         chain = [c] ∧ top = Some c)).
Proof.
  intros chain top. split.
  - destruct category as [[|a s]|]; try done.
  - intros c -> Hgiven. unfold chain, top.
    unfold CategoryMapping.get_category_chain, CategoryMapping.get_top_level_category.
    simpl in Hgiven. apply negb_true_iff in Hgiven. rewrite Hgiven.
    destruct (CategoryMapping.lookup c CategoryMapping.SPECIFIC_TO_GENERAL) as [p|] eqn:E.
    + apply CategoryFacts.lookup_Some in E.
      destruct (CategoryFacts.climbs_of_keys _ _ E) as (H1 & H2 & H3 & H4 & H5 & H6 & H7).
      repeat split; try done. eauto.
    + cbn [CategoryMapping.climb CategoryMapping.climb_top length]. rewrite E.
      repeat split; try done; try (simpl; lia).
      * exists c. by rewrite E.
      * apply NoDup_singleton.
Qed.

(** X14.  [determine_final_categories] gives one of its two arguments as the
    specific category: the Google one when it is location-based, else the
    original one when that is, else the Google one when there is any, else
    the original.  So a location-based category is never replaced by one
    that is not, and the specific category is location-based exactly when
    one of the two is.  The general category is the parent of the specific
    one in the table, or the specific one itself when it has none, and is
    there whenever the specific one is. *)
Theorem final_category_prefers_location (original_cat google_cat_mapped : option string) :
  let final := CategoryMapping.determine_final_categories original_cat google_cat_mapped in
  let loc := CategoryMapping.is_location_based in
  (final.1 = google_cat_mapped ∨ final.1 = original_cat) ∧
  (loc google_cat_mapped = true → final.1 = google_cat_mapped) ∧
  (loc google_cat_mapped = false → loc original_cat = true → final.1 = original_cat) ∧
  (loc google_cat_mapped = false → loc original_cat = false →
   final.1 = if CategoryMapping.given google_cat_mapped then google_cat_mapped
             else original_cat) ∧
  loc final.1 = loc google_cat_mapped || loc original_cat ∧
  CategoryMapping.given final.1
  = CategoryMapping.given google_cat_mapped || CategoryMapping.given original_cat ∧
  final.2 = CategoryMapping.get_general_category final.1 ∧
  (CategoryMapping.given final.1 = true → CategoryMapping.given final.2 = true) ∧
  CategoryMapping.determine_final_category original_cat google_cat_mapped = final.1.
Proof.
  intros final loc.
  assert (Hloc : ∀ c, loc c = true → CategoryMapping.given c = true).
  { intros [c|]; [|done]. unfold loc. simpl. by intros [? _]%andb_true_iff. }
  assert (Hgen : ∀ c, CategoryMapping.given c = true →
                      CategoryMapping.given (CategoryMapping.get_general_category c) = true).
  { intros [c|]; [|done]. unfold CategoryMapping.get_general_category.
    cbn [CategoryMapping.given]. intros Hc%negb_true_iff. rewrite Hc.
    destruct (CategoryMapping.lookup c CategoryMapping.SPECIFIC_TO_GENERAL) as [p|] eqn:E;
      [|change (negb (PyStr.is_empty c) = true); by rewrite Hc].
    apply CategoryFacts.lookup_Some in E.
    pose proof CategoryFacts.parents_given as H. rewrite Forall_forall in H.
    specialize (H _ E). change (negb (PyStr.is_empty p) = true).
    change (PyStr.is_empty p = false) in H. by rewrite H. }
  unfold final, CategoryMapping.determine_final_category,
    CategoryMapping.determine_final_categories. cbn [fst snd].
  destruct (loc google_cat_mapped) eqn:Eg; fold loc; rewrite ?Eg.
  { pose proof (Hloc _ Eg) as Gg. rewrite Gg. simpl. rewrite Eg.
    split_and!; try done; try tauto. intros _. by apply Hgen. }
  rewrite andb_false_r.
  destruct (loc original_cat) eqn:Eo; rewrite ?Eo.
  { pose proof (Hloc _ Eo) as Go. rewrite Go. simpl. rewrite Eo, orb_true_r.
    split_and!; try done; try tauto. intros _. by apply Hgen. }
  rewrite andb_false_r.
  destruct (CategoryMapping.given google_cat_mapped) eqn:Gg.
  - rewrite Eg, Gg. split_and!; try done; try tauto. intros _. by apply Hgen.
  - rewrite Eo. split_and!; try done; try tauto. apply Hgen.
Qed.

(** ** The merge *)

Module MergeFacts.
Import MergeData.
Section Runtime.
Variable round2 : Q → number.
Variable round2_stored : number → number.

(** What one turn of the loop does, case by case. *)
Lemma merge_one_cases dry_run lookup st r :
  (lookup !! restaurant_key r = None ∧ merge_one round2 round2_stored dry_run lookup st r = (r, st)) ∨
  (∃ g, lookup !! restaurant_key r = Some g ∧
        ((is_confident r g = false ∧
          merge_one round2 round2_stored dry_run lookup st r
          = (r, Stats (total_restaurants st) (google_matches st + 1)
                      (confident_matches st) (low_confidence_skipped st + 1)
                      (no_google_category st) (matches st))) ∨
         (is_confident r g = true ∧
          PyDict.truthy (PyDict.get "google_category" g) = false ∧
          merge_one round2 round2_stored dry_run lookup st r
          = (r, Stats (total_restaurants st) (google_matches st + 1)
                      (confident_matches st + 1) (low_confidence_skipped st)
                      (no_google_category st + 1) (matches st))) ∨
         (is_confident r g = true ∧
          PyDict.truthy (PyDict.get "google_category" g) = true ∧
          merge_one round2 round2_stored dry_run lookup st r
          = (if dry_run then r else enrich round2 round2_stored r g,
             Stats (total_restaurants st) (google_matches st + 1)
                   (confident_matches st + 1) (low_confidence_skipped st)
                   (no_google_category st)
                   (matches st ++ [match_entry round2 round2_stored r g]))))).
Proof.
  unfold merge_one. destruct (lookup !! restaurant_key r) as [g|]; [|by left].
  right. exists g. split; [done|].
  destruct (is_confident r g); simpl; [|by left].
  right. destruct (PyDict.truthy _); simpl; [right|left]; done.
Qed.

Lemma loop_cons dry_run lookup r rs st :
  merge_loop round2 round2_stored dry_run lookup (r :: rs) st
  = ((merge_one round2 round2_stored dry_run lookup st r).1 :: (merge_loop round2 round2_stored dry_run lookup rs (merge_one round2 round2_stored dry_run lookup st r).2).1,
     (merge_loop round2 round2_stored dry_run lookup rs (merge_one round2 round2_stored dry_run lookup st r).2).2).
Proof.
  simpl. destruct (merge_one _ _ _ _ _ _) as [r' st'].
  by destruct (merge_loop _ _ _ _ _ _) as [rest st''].
Qed.

(** The counters keep their sums. *)
Lemma loop_counts dry_run lookup rs :
  ∀ st,
    let out := merge_loop round2 round2_stored dry_run lookup rs st in
    length out.1 = length rs ∧
    total_restaurants out.2 = total_restaurants st ∧
    google_matches out.2 ≤ google_matches st + length rs ∧
    (google_matches st = confident_matches st + low_confidence_skipped st →
     google_matches out.2 = confident_matches out.2 + low_confidence_skipped out.2) ∧
    (confident_matches st = no_google_category st + length (matches st) →
     confident_matches out.2 = no_google_category out.2 + length (matches out.2)).
Proof.
  induction rs as [|r rs IH]; intros st;
    [cbv zeta; simpl; repeat split; try done; lia|].
  cbv zeta. rewrite loop_cons. cbn [fst snd length].
  specialize (IH (merge_one round2 round2_stored dry_run lookup st r).2). cbv zeta in IH.
  destruct IH as (Hl & Ht & Hg & Hs1 & Hs2).
  rewrite Hl, Ht.
  destruct (merge_one_cases dry_run lookup st r)
    as [[_ E] | (g & _ & [[_ E] | [(_ & _ & E) | (_ & _ & E)]])];
    rewrite E in *; cbn [fst snd total_restaurants google_matches confident_matches
                           low_confidence_skipped no_google_category matches] in *;
    rewrite ?length_app in *; cbn [length] in *;
    (split; [done|]); (split; [done|]); (split; [lia|]);
    split; intros H; [apply Hs1 | apply Hs2 | apply Hs1 | apply Hs2
                      | apply Hs1 | apply Hs2 | apply Hs1 | apply Hs2]; lia.
Qed.

(** A dry run counts as a real one and touches no restaurant. *)
Lemma loop_dry lookup rs :
  ∀ st, (merge_loop round2 round2_stored true lookup rs st).1 = rs ∧
        (merge_loop round2 round2_stored true lookup rs st).2 = (merge_loop round2 round2_stored false lookup rs st).2.
Proof.
  induction rs as [|r rs IH]; intros st; [done|].
  rewrite !loop_cons. cbn [fst snd].
  assert (H1 : (merge_one round2 round2_stored true lookup st r).1 = r ∧ (merge_one round2 round2_stored true lookup st r).2 = (merge_one round2 round2_stored false lookup st r).2).
  { unfold merge_one. destruct (lookup !! restaurant_key r) as [g|]; [|done].
    destruct (is_confident r g); simpl; [|done].
    by destruct (PyDict.truthy _). }
  destruct H1 as [H1 H2]. rewrite H1, H2.
  destruct (IH (merge_one round2 round2_stored false lookup st r).2) as [H3 H4]. by rewrite H3, H4.
Qed.

(** The other keys of an enriched restaurant are as they were. *)
Lemma enrich_keeps r g k :
  k ∉ enrichment_keys →
  PyDict.get k (enrich round2 round2_stored r g) = PyDict.get k r.
Proof.
  intros Hk. unfold enrich. cbv zeta.
  rewrite !PyDictFacts.get_set_ne; [done|..];
    intros ->; apply Hk; unfold enrichment_keys; set_solver.
Qed.

(** Each restaurant of the result, beside the one it comes from. *)
Lemma loop_pointwise dry_run lookup rs :
  ∀ st,
    Forall2 (λ r out,
               out = r ∨
               ∃ g, lookup !! restaurant_key r = Some g ∧
                    is_confident r g = true ∧
                    PyDict.truthy (PyDict.get "google_category" g) = true ∧
                    dry_run = false ∧
                    out = enrich round2 round2_stored r g)
            rs (merge_loop round2 round2_stored dry_run lookup rs st).1.
Proof.
  induction rs as [|r rs IH]; intros st; [constructor|].
  rewrite loop_cons. cbn [fst]. constructor; [|apply IH].
  destruct (merge_one_cases dry_run lookup st r)
    as [[_ E] | (g & Hg & [[Hc E] | [(Hc & Hx & E) | (Hc & Hx & E)]])]; rewrite E;
    cbn [fst]; try (by left).
  destruct dry_run; [by left|]. right. by exists g.
Qed.

Lemma lookup_snoc rs g k :
  google_lookup (rs ++ [g]) !! k
  = if decide (result_key g = k) then Some g else google_lookup rs !! k.
Proof.
  unfold google_lookup. rewrite fold_left_app. simpl.
  case_decide as E; [subst; by rewrite lookup_insert_eq | by rewrite lookup_insert_ne].
Qed.

End Runtime.

(** Without an address score nothing is confident. *)
Lemma not_confident_without_address n : Merge.is_confident n 0 = false.
Proof.
  unfold Merge.is_confident.
  change (Qgtb 0 (7 # 10)) with false. change (Qgtb 0 (9 # 10)) with false.
  by rewrite !andb_false_r.
Qed.

End MergeFacts.

(** X15.  The counters of [merge_data] add up: every restaurant found in the
    Google data is either a confident match or skipped for low confidence;
    every confident match either lacks a Google category or has its entry
    in [matches]; no more restaurants are found than were processed.  The
    data returned holds as many restaurants as were processed: all of them
    when there is no limit or the limit is 0, the first [n] at most under a
    limit [n] above 0. *)
Theorem merge_counters_add_up
        (round2 : Q → number) (round2_stored : number → number)
        (restaurants google_results : list dict) (dry_run : bool) (limit : option Z) :
  let out := MergeData.merge_data round2 round2_stored restaurants google_results
               dry_run limit in
  let st := out.2 in
  MergeData.google_matches st
  = MergeData.confident_matches st + MergeData.low_confidence_skipped st ∧
  MergeData.confident_matches st
  = MergeData.no_google_category st + length (MergeData.matches st) ∧
  MergeData.google_matches st ≤ MergeData.total_restaurants st ∧
  MergeData.total_restaurants st = length out.1 ∧
  length out.1 = length (MergeData.slice limit restaurants) ∧
  (limit = None ∨ limit = Some 0%Z → length out.1 = length restaurants) ∧
  (∀ n, limit = Some n → (0 < n)%Z →
        length out.1 = Z.to_nat n `min` length restaurants).
Proof.
  intros out st. unfold st, out, MergeData.merge_data.
  destruct (MergeFacts.loop_counts round2 round2_stored dry_run
              (MergeData.google_lookup google_results)
              (MergeData.slice limit restaurants)
              (MergeData.Stats (length (MergeData.slice limit restaurants)) 0 0 0 0 []))
    as (Hl & Ht & Hg & Hs1 & Hs2).
  cbn [MergeData.total_restaurants MergeData.google_matches MergeData.confident_matches
         MergeData.low_confidence_skipped MergeData.no_google_category
         MergeData.matches length] in *.
  split_and!; try lia; try (by apply Hs1); try (by apply Hs2).
  - intros [-> | ->]; by rewrite Hl.
  - intros n -> Hn. rewrite Hl. unfold MergeData.slice.
    rewrite (proj2 (Z.eqb_neq n 0)) by lia. rewrite (proj2 (Z.ltb_lt 0 n)) by lia.
    by rewrite length_take.
Qed.

(** X16.  [merge_data] changes a restaurant only by writing the eight
    Google keys, and only when the run is no dry run, the restaurant's
    [name|address] key is in the Google data, the stored name score [n] and
    the address score [a] of the normalized addresses pass
    [(n > 0.8 and a > 0.7) or (n > 0.5 and a > 0.9)], and the result has a
    Google category.  Every other key of every restaurant reads as before,
    and the restaurants keep their order. *)
Theorem merge_enriches_only_confident
        (round2 : Q → number) (round2_stored : number → number)
        (restaurants google_results : list dict) (dry_run : bool) (limit : option Z) :
  Forall2
    (λ r out,
       (∀ k, k ∉ MergeData.enrichment_keys → PyDict.get k out = PyDict.get k r) ∧
       (out ≠ r →
        dry_run = false ∧
        ∃ g, MergeData.google_lookup google_results !! MergeData.restaurant_key r = Some g ∧
             (let n := MergeData.number_to_Q
                         (MergeData.stored_score (PyDict.get "name_similarity" g)) in
              let a := MergeData.addr_sim_of r g in
              ((8 # 10 < n)%Q ∧ (7 # 10 < a)%Q) ∨ ((5 # 10 < n)%Q ∧ (9 # 10 < a)%Q)) ∧
             PyDict.truthy (PyDict.get "google_category" g) = true ∧
             out = MergeData.enrich round2 round2_stored r g))
    (MergeData.slice limit restaurants)
    (MergeData.merge_data round2 round2_stored restaurants google_results dry_run limit).1.
Proof.
  unfold MergeData.merge_data.
  eapply Forall2_impl; [apply MergeFacts.loop_pointwise|].
  intros r out [-> | (g & Hg & Hc & Hx & Hd & ->)]; [done|].
  split; [intros k Hk; by apply MergeFacts.enrich_keeps|].
  intros _. split; [done|]. exists g. split_and!; try done.
  unfold MergeData.is_confident, Merge.is_confident in Hc.
  rewrite orb_true_iff, !andb_true_iff, !ScoreFacts.Qgtb_lt in Hc. exact Hc.
Qed.

(** X17.  A restaurant without an address, or whose Google result has none,
    is never merged, however close the names: the address score is then 0
    and both branches of the rule ask for more.  The verdict the scraper
    stored under [confident_match] plays no part. *)
Theorem merge_needs_both_addresses
        (round2 : Q → number) (round2_stored : number → number)
        (restaurants google_results : list dict) (dry_run : bool) (limit : option Z) :
  Forall2
    (λ r out,
       (PyDict.truthy (PyDict.get "address" r) = false ∨
        ∀ g, MergeData.google_lookup google_results !! MergeData.restaurant_key r = Some g →
             PyDict.truthy (PyDict.get "google_address" g) = false) →
       out = r)
    (MergeData.slice limit restaurants)
    (MergeData.merge_data round2 round2_stored restaurants google_results dry_run limit).1
  ∧ (∀ r g, PyDict.truthy (PyDict.get "address" r) = false
            ∨ PyDict.truthy (PyDict.get "google_address" g) = false →
            MergeData.is_confident r g = false).
Proof.
  assert (Hrule : ∀ r g, PyDict.truthy (PyDict.get "address" r) = false
                         ∨ PyDict.truthy (PyDict.get "google_address" g) = false →
                         MergeData.is_confident r g = false).
  { intros r g H. unfold MergeData.is_confident, MergeData.addr_sim_of.
    replace (PyDict.truthy (PyDict.get "google_address" g)
             && PyDict.truthy (PyDict.get "address" r)) with false
      by (destruct H as [-> | ->]; by rewrite ?andb_false_r).
    apply MergeFacts.not_confident_without_address. }
  split; [|exact Hrule].
  unfold MergeData.merge_data.
  eapply Forall2_impl; [apply MergeFacts.loop_pointwise|].
  intros r out [-> | (g & Hg & Hc & _)]; [done|].
  intros [Ha | Ha].
  - rewrite Hrule in Hc by (by left). done.
  - rewrite Hrule in Hc by (right; by apply Ha). done.
Qed.

(** X18.  A dry run is a faithful preview: it counts and lists exactly what a
    real run would, leaves every restaurant as it is, and [main] writes no
    file after it.  After a real run [main] writes the merged restaurants
    when at least one match was confident, and nothing else. *)
Theorem dry_run_previews
        (round2 : Q → number) (round2_stored : number → number)
        (restaurants google_results : list dict) (limit : option Z) :
  let dry := MergeData.merge_data round2 round2_stored restaurants google_results true limit in
  let real := MergeData.merge_data round2 round2_stored restaurants google_results false limit in
  dry.2 = real.2 ∧
  dry.1 = MergeData.slice limit restaurants ∧
  MergeData.main round2 round2_stored restaurants google_results true limit = None ∧
  MergeData.main round2 round2_stored restaurants google_results false limit
  = (if 0 <? MergeData.confident_matches real.2 then Some real.1 else None).
Proof.
  intros dry real. unfold dry, real, MergeData.main, MergeData.merge_data.
  destruct (MergeFacts.loop_dry round2 round2_stored
              (MergeData.google_lookup google_results)
              (MergeData.slice limit restaurants)
              (MergeData.Stats (length (MergeData.slice limit restaurants)) 0 0 0 0 []))
    as [H1 H2].
  split_and!; try done.
  - by destruct (MergeData.merge_loop _ _ true _ _ _).
  - by destruct (MergeData.merge_loop _ _ false _ _ _).
Qed.

(** X19.  When the Google data holds several results for one [name|address]
    key, the lookup keeps the last of them; a key is in the lookup exactly
    when some result has it; and an outcome of the scrapers has the key of
    the restaurant it was scraped for, so the merge finds it under the
    restaurant's own name and address. *)
Theorem lookup_keeps_last (google_results : list dict) (k : string) :
  MergeData.google_lookup google_results !! k
  = last (filter (λ g, MergeData.result_key g = k) google_results) ∧
  (is_Some (MergeData.google_lookup google_results !! k)
   ↔ ∃ g, g ∈ google_results ∧ MergeData.result_key g = k) ∧
  (∀ round2 now r v,
     MergeData.result_key (Parallel.scrape_restaurant round2 now r v)
     = MergeData.create_lookup_key (Common.name r) (Common.address r) ∧
     MergeData.result_key (Single.scrape_restaurant round2 now r v)
     = MergeData.create_lookup_key (Common.name r) (Common.address r)).
Proof.
  assert (Hlast : MergeData.google_lookup google_results !! k
                  = last (filter (λ g, MergeData.result_key g = k) google_results)).
  { induction google_results as [|g rs IH] using rev_ind; [done|].
    rewrite MergeFacts.lookup_snoc, filter_app.
    case_decide as E.
    - rewrite filter_cons_True, filter_nil by done. by rewrite last_snoc.
    - rewrite filter_cons_False, filter_nil by done. by rewrite app_nil_r. }
  split; [exact Hlast|]. split.
  - rewrite Hlast. split.
    + intros [g Hg]. exists g. apply last_Some in Hg as [l' Hg].
      assert (Hin : g ∈ filter (λ g, MergeData.result_key g = k) google_results).
      { rewrite Hg. apply elem_of_app. right. by left. }
      by apply list_elem_of_filter in Hin as [? ?].
    + intros (g & Hin & Hk).
      destruct (filter (λ g, MergeData.result_key g = k) google_results) as [|x l] eqn:E
        using rev_ind.
      * assert (H : g ∈ filter (λ g, MergeData.result_key g = k) google_results)
          by (by apply list_elem_of_filter).
        rewrite E in H. by apply elem_of_nil in H.
      * rewrite last_snoc. eauto.
  - intros round2 now r v. split.
    + apply (ProgressFacts.parallel_result_id round2 now r v).
    + apply (ProgressFacts.single_result_id round2 now r v).
Qed.

(** ** The cleaning of a scraped address *)

Module CleanFacts.
Import CleanAddress.

Lemma clean_filter_rev {X} (P : X → Prop) `{∀ x, Decision (P x)} (l : list X) :
  filter P (rev l) = rev (filter P l).
Proof.
  induction l as [|x l IH]; [done|]. simpl. rewrite filter_app, IH.
  destruct (decide (P x)).
  - rewrite !filter_cons_True by done. simpl. done.
  - rewrite !filter_cons_False by done. simpl. by rewrite app_nil_r.
Qed.

(** Both sides lose or keep the same head. *)
Lemma keeps_cons (P : N → Prop) `{∀ x, Decision (P x)} c l l' :
  filter P l = filter P l' → filter P (c :: l) = filter P (c :: l').
Proof.
  intros E. destruct (decide (P c)).
  - rewrite !filter_cons_True by done. by f_equal.
  - by rewrite !filter_cons_False by done.
Qed.

Lemma space_not_core c : is_space c = true → is_core c ≠ true.
Proof. unfold is_core. by intros ->. Qed.

Lemma comma_not_core : is_core comma ≠ true.
Proof. done. Qed.

Lemma blank_not_core : is_core blank ≠ true.
Proof. done. Qed.

Lemma private_not_core c : is_private c = true → is_core c ≠ true.
Proof. unfold is_core. intros ->. by rewrite andb_false_r. Qed.

Lemma edge_not_core c : is_edge c = true → is_core c ≠ true.
Proof.
  unfold is_edge. intros [->%N.eqb_eq | ->%N.eqb_eq]%orb_true_iff; done.
Qed.

Lemma newline_space c : (c =? newline)%N = true → is_space c = true.
Proof. by intros ->%N.eqb_eq. Qed.

(** *** What each step keeps *)

Lemma drop_private_keeps l :
  filter (λ c, is_core c = true) (drop_private l) = filter (λ c, is_core c = true) l.
Proof.
  unfold drop_private. induction l as [|c l IH]; [done|]. cbn [List.filter].
  destruct (is_private c) eqn:E; cbn [negb].
  - by rewrite (filter_cons_False _ c) by (by apply private_not_core).
  - by apply keeps_cons.
Qed.

Lemma sub_newlines_keeps l :
  ∀ b, filter (λ c, is_core c = true) (sub_newlines b l)
       = filter (λ c, is_core c = true) l.
Proof.
  induction l as [|c l IH]; intros b; [done|]. cbn [sub_newlines].
  destruct (c =? newline)%N eqn:E; [|by apply keeps_cons].
  rewrite (filter_cons_False _ c) by (by apply space_not_core, newline_space).
  destruct b; [apply IH|].
  rewrite (filter_cons_False _ comma) by apply comma_not_core.
  rewrite (filter_cons_False _ blank) by apply blank_not_core. apply IH.
Qed.

Lemma clean_skip_spaces_keeps l :
  filter (λ c, is_core c = true) (skip_spaces l) = filter (λ c, is_core c = true) l.
Proof.
  induction l as [|c l IH]; [done|]. cbn [skip_spaces].
  destruct (is_space c) eqn:E; [|done].
  by rewrite (filter_cons_False _ c) by (by apply space_not_core).
Qed.

Lemma sub_commas_keeps fuel :
  ∀ l, filter (λ c, is_core c = true) (sub_commas fuel l)
       = filter (λ c, is_core c = true) l.
Proof.
  induction fuel as [|fuel IH]; intros l; [done|].
  destruct l as [|c l]; [done|]. cbn [sub_commas].
  destruct (c =? comma)%N eqn:E; [|by apply keeps_cons].
  apply N.eqb_eq in E. subst c.
  destruct (skip_spaces l) as [|d rest] eqn:Es; [by apply keeps_cons|].
  destruct (d =? comma)%N eqn:Ed; [|by apply keeps_cons].
  apply N.eqb_eq in Ed. subst d.
  rewrite !(filter_cons_False _ comma) by apply comma_not_core.
  rewrite IH, <- (clean_skip_spaces_keeps l), Es.
  by rewrite (filter_cons_False _ comma) by apply comma_not_core.
Qed.

Lemma clean_sub_spaces_keeps l :
  ∀ b, filter (λ c, is_core c = true) (sub_spaces b l)
       = filter (λ c, is_core c = true) l.
Proof.
  induction l as [|c l IH]; intros b; [done|]. cbn [sub_spaces].
  destruct (is_space c) eqn:E; [|by apply keeps_cons].
  rewrite (filter_cons_False _ c) by (by apply space_not_core).
  destruct b; [apply IH|].
  rewrite (filter_cons_False _ blank) by apply blank_not_core. apply IH.
Qed.

Lemma clean_lstrip_keeps l :
  filter (λ c, is_core c = true) (lstrip l) = filter (λ c, is_core c = true) l.
Proof.
  induction l as [|c l IH]; [done|]. cbn [lstrip].
  destruct (is_edge c) eqn:E; [|done].
  by rewrite (filter_cons_False _ c) by (by apply edge_not_core).
Qed.

Lemma clean_strip_keeps l :
  filter (λ c, is_core c = true) (strip l) = filter (λ c, is_core c = true) l.
Proof.
  unfold strip. rewrite clean_filter_rev, clean_lstrip_keeps, clean_filter_rev, rev_involutive.
  apply clean_lstrip_keeps.
Qed.

(** *** What each step brings in *)

Lemma sub_newlines_Forall (P : N → Prop) l :
  P comma → P blank → ∀ b, Forall P l → Forall P (sub_newlines b l).
Proof.
  intros Hc Hb. induction l as [|c l IH]; intros b Hl; [done|].
  apply Forall_cons in Hl as [Hx Hl]. cbn [sub_newlines].
  destruct (c =? newline)%N; [destruct b|]; repeat (apply Forall_cons; split);
    try done; by apply IH.
Qed.

Lemma skip_spaces_Forall (P : N → Prop) l : Forall P l → Forall P (skip_spaces l).
Proof.
  induction l as [|c l IH]; [done|]. intros Hl. cbn [skip_spaces].
  destruct (is_space c); [|done]. apply Forall_cons in Hl as [_ Hl]. by apply IH.
Qed.

Lemma sub_commas_Forall (P : N → Prop) fuel :
  ∀ l, Forall P l → Forall P (sub_commas fuel l).
Proof.
  induction fuel as [|fuel IH]; intros l Hl; [done|].
  destruct l as [|c l]; [done|]. cbn [sub_commas].
  apply Forall_cons in Hl as [Hx Hl].
  destruct (c =? comma)%N eqn:E; [|apply Forall_cons; split; [done|by apply IH]].
  pose proof (skip_spaces_Forall P l Hl) as Hs.
  destruct (skip_spaces l) as [|d rest]; [apply Forall_cons; split; [done|by apply IH]|].
  apply Forall_cons in Hs as [Hd Hrest].
  destruct (d =? comma)%N eqn:Ed; apply Forall_cons; split; try done; try (by apply IH).
  apply N.eqb_eq in Ed. by subst d.
Qed.

Lemma skip_spaces_length l : length (skip_spaces l) ≤ length l.
Proof.
  induction l as [|c l IH]; [done|]. cbn [skip_spaces].
  destruct (is_space c); simpl; lia.
Qed.

(** The fuel of the comma pass is enough: more changes nothing. *)
Lemma sub_commas_enough n :
  ∀ m l, length l ≤ n → length l ≤ m → sub_commas n l = sub_commas m l.
Proof.
  induction n as [|n IH]; intros m l Hn Hm.
  - destruct l; [|simpl in Hn; lia]. by destruct m.
  - destruct l as [|c l]; [by destruct m|].
    destruct m as [|m]; [simpl in Hm; lia|]. simpl in Hn, Hm. cbn [sub_commas].
    pose proof (skip_spaces_length l) as Hs.
    destruct (c =? comma)%N; [|f_equal; apply IH; lia].
    destruct (skip_spaces l) as [|d rest]; [f_equal; apply IH; lia|].
    simpl in Hs.
    destruct (d =? comma)%N; f_equal; apply IH; lia.
Qed.

Lemma clean_lstrip_suffix l : ∃ pre, l = pre ++ lstrip l.
Proof.
  induction l as [|c l [pre IH]]; [by exists []|]. cbn [lstrip].
  destruct (is_edge c); [|by exists []]. exists (c :: pre). simpl. by f_equal.
Qed.

Lemma clean_strip_middle l : ∃ pre suf, l = pre ++ strip l ++ suf.
Proof.
  unfold strip. destruct (clean_lstrip_suffix l) as [pre Hpre].
  destruct (clean_lstrip_suffix (rev (lstrip l))) as [suf Hsuf].
  exists pre, (rev suf). rewrite <- rev_app_distr, <- Hsuf, rev_involutive. done.
Qed.

Lemma clean_strip_Forall (P : N → Prop) l : Forall P l → Forall P (strip l).
Proof.
  destruct (clean_strip_middle l) as (pre & suf & E). rewrite E at 1.
  rewrite !Forall_app. tauto.
Qed.

Lemma clean_sub_spaces_blanks l :
  ∀ b, Forall (λ c, is_space c = true → c = blank) (sub_spaces b l).
Proof.
  induction l as [|c l IH]; intros b; [done|]. cbn [sub_spaces].
  destruct (is_space c) eqn:E.
  - destruct b; [apply IH|]. apply Forall_cons. split; [done|apply IH].
  - apply Forall_cons. split; [congruence|apply IH].
Qed.

Lemma clean_sub_spaces_Forall (P : N → Prop) l :
  P blank → ∀ b, Forall P l → Forall P (sub_spaces b l).
Proof.
  intros Hb. induction l as [|c l IH]; intros b Hl; [done|].
  apply Forall_cons in Hl as [Hx Hl]. cbn [sub_spaces].
  destruct (is_space c); [destruct b|]; repeat (apply Forall_cons; split);
    try done; by apply IH.
Qed.

Lemma drop_private_Forall l : Forall (λ c, is_private c = false) (drop_private l).
Proof.
  unfold drop_private. apply Forall_forall. intros c Hc.
  apply list_elem_of_In, filter_In in Hc as [_ Hc]. by apply negb_true_iff.
Qed.

Lemma clean_sub_spaces_apart l : ∀ b, blanks_apart b (sub_spaces b l) = true.
Proof.
  induction l as [|c l IH]; intros b; [done|]. cbn [sub_spaces].
  destruct (is_space c) eqn:E.
  - destruct b; [apply IH|]. cbn [blanks_apart]. rewrite N.eqb_refl. apply (IH true).
  - cbn [blanks_apart]. destruct (c =? blank)%N eqn:Eb; [|apply (IH false)].
    apply N.eqb_eq in Eb. subst c. done.
Qed.

Lemma blanks_apart_weaken l : ∀ b, blanks_apart b l = true → blanks_apart false l = true.
Proof.
  destruct l as [|c l]; intros b; [done|]. cbn [blanks_apart].
  destruct (c =? blank)%N; [|done]. by intros [_ H]%andb_true_iff.
Qed.

Lemma blanks_apart_suffix pre l :
  ∀ b, blanks_apart b (pre ++ l) = true → blanks_apart false l = true.
Proof.
  induction pre as [|c pre IH]; intros b; [apply blanks_apart_weaken|].
  rewrite <- app_comm_cons. cbn [blanks_apart].
  destruct (c =? blank)%N; [intros [_ H]%andb_true_iff; by apply (IH true)|].
  apply (IH false).
Qed.

Lemma blanks_apart_prefix l suf :
  ∀ b, blanks_apart b (l ++ suf) = true → blanks_apart b l = true.
Proof.
  induction l as [|c l IH]; intros b; [done|].
  rewrite <- app_comm_cons. cbn [blanks_apart].
  destruct (c =? blank)%N; [|apply IH].
  intros [H1 H2]%andb_true_iff. rewrite H1. by apply IH.
Qed.

Lemma clean_strip_apart l : blanks_apart false l = true → blanks_apart false (strip l) = true.
Proof.
  destruct (clean_strip_middle l) as (pre & suf & E). rewrite E at 1.
  intros H. apply (blanks_apart_suffix pre _ false) in H.
  by apply blanks_apart_prefix in H.
Qed.

Lemma clean_lstrip_head l c l' : lstrip l = c :: l' → is_edge c = false.
Proof.
  induction l as [|x l IH]; cbn [lstrip]; [done|].
  destruct (is_edge x) eqn:E; [done|]. by intros [= <- _].
Qed.

Lemma clean_strip_ends l :
  (∀ c l', strip l = c :: l' → is_edge c = false) ∧
  (∀ c l', strip l = l' ++ [c] → is_edge c = false).
Proof.
  unfold strip. split.
  - intros c l' E.
    destruct (lstrip l) as [|x t] eqn:El; [done|].
    pose proof (clean_lstrip_head _ _ _ El) as Hx.
    destruct (clean_lstrip_suffix (rev (x :: t))) as [pre Hpre].
    apply (f_equal (@rev N)) in Hpre.
    rewrite rev_involutive, rev_app_distr, E in Hpre. by inversion Hpre; subst.
  - intros c l' E. apply (f_equal (@rev N)) in E.
    rewrite rev_involutive, rev_app_distr in E. simpl in E.
    by apply clean_lstrip_head in E.
Qed.

End CleanFacts.

(** X20.  [clean_address] gives no address for an empty text and for a text
    with nothing in it but white space, commas and icons, never an empty
    one.  An address it gives holds every other code point of the text, in
    order, and nothing else but blanks and commas; it has no icon of the
    private use area, no newline and no white space other than the blank;
    no two blanks touch; and it neither begins nor ends with a blank or a
    comma. *)
Theorem clean_address_is_tidy (t : CleanAddress.text) :
  let core := filter (λ c, CleanAddress.is_core c = true) in
  (CleanAddress.clean_address t = None ↔ core t = []) ∧
  (∀ out, CleanAddress.clean_address t = Some out →
     out ≠ [] ∧
     core out = core t ∧
     Forall (λ c, CleanAddress.is_core c = true ∨ c = CleanAddress.blank
                  ∨ c = CleanAddress.comma) out ∧
     Forall (λ c, CleanAddress.is_private c = false) out ∧
     Forall (λ c, CleanAddress.is_space c = true → c = CleanAddress.blank) out ∧
     CleanAddress.blanks_apart false out = true ∧
     (∀ c l, out = c :: l → CleanAddress.is_edge c = false) ∧
     (∀ c l, out = l ++ [c] → CleanAddress.is_edge c = false)) ∧
  (∀ n, length t ≤ n →
        CleanAddress.sub_commas n t = CleanAddress.sub_commas (length t) t).
Proof.
  intros core.
  cut ((CleanAddress.clean_address t = None ↔ core t = []) ∧
       (∀ out, CleanAddress.clean_address t = Some out →
          out ≠ [] ∧
          core out = core t ∧
          Forall (λ c, CleanAddress.is_core c = true ∨ c = CleanAddress.blank
                       ∨ c = CleanAddress.comma) out ∧
          Forall (λ c, CleanAddress.is_private c = false) out ∧
          Forall (λ c, CleanAddress.is_space c = true → c = CleanAddress.blank) out ∧
          CleanAddress.blanks_apart false out = true ∧
          (∀ c l, out = c :: l → CleanAddress.is_edge c = false) ∧
          (∀ c l, out = l ++ [c] → CleanAddress.is_edge c = false))).
  { intros [H1 H2]. split; [exact H1|]. split; [exact H2|].
    intros n Hn. by apply CleanFacts.sub_commas_enough. }
  set (t1 := CleanAddress.drop_private t).
  set (t2 := CleanAddress.sub_newlines false t1).
  set (t3 := CleanAddress.sub_commas (length t2) t2).
  set (t4 := CleanAddress.sub_spaces false t3).
  set (t5 := CleanAddress.strip t4).
  assert (Hkeep : core t5 = core t).
  { unfold core, t5, t4, t3, t2, t1.
    by rewrite CleanFacts.clean_strip_keeps, CleanFacts.clean_sub_spaces_keeps,
         CleanFacts.sub_commas_keeps, CleanFacts.sub_newlines_keeps,
         CleanFacts.drop_private_keeps. }
  assert (Hclean : CleanAddress.clean_address t
                   = match t with
                     | [] => None
                     | _ => match t5 with [] => None | _ => Some t5 end
                     end) by (by destruct t).
  assert (Hpriv : Forall (λ c, CleanAddress.is_private c = false) t5).
  { apply CleanFacts.clean_strip_Forall, CleanFacts.clean_sub_spaces_Forall; [done|].
    apply CleanFacts.sub_commas_Forall, CleanFacts.sub_newlines_Forall; [done..|].
    apply CleanFacts.drop_private_Forall. }
  assert (Hblank : Forall (λ c, CleanAddress.is_space c = true → c = CleanAddress.blank) t5)
    by apply CleanFacts.clean_strip_Forall, CleanFacts.clean_sub_spaces_blanks.
  assert (Hapart : CleanAddress.blanks_apart false t5 = true)
    by apply CleanFacts.clean_strip_apart, (CleanFacts.clean_sub_spaces_apart _ false).
  destruct (CleanFacts.clean_strip_ends t4) as [Hhead Hlast]. fold t5 in Hhead, Hlast.
  assert (Hshape : Forall (λ c, CleanAddress.is_core c = true ∨ c = CleanAddress.blank
                                ∨ c = CleanAddress.comma) t5).
  { rewrite Forall_forall in Hpriv, Hblank. apply Forall_forall. intros c Hc.
    specialize (Hpriv c Hc). specialize (Hblank c Hc). simpl in Hpriv.
    unfold CleanAddress.is_core. rewrite Hpriv.
    destruct (CleanAddress.is_space c); [right; left; by apply Hblank|].
    destruct (c =? CleanAddress.comma)%N eqn:Ec;
      [right; right; by apply N.eqb_eq | by left]. }
  assert (Hnone : core t5 = [] → t5 = []).
  { destruct t5 as [|c l] eqn:E5; [done|]. intros Hn. exfalso.
    apply Forall_cons in Hshape as [[Hc | [-> | ->]] _].
    - unfold core in Hn. by rewrite filter_cons_True in Hn by done.
    - by specialize (Hhead _ _ eq_refl).
    - by specialize (Hhead _ _ eq_refl). }
  split.
  - rewrite Hclean. destruct t as [|c0 t0]; [done|].
    rewrite <- Hkeep. destruct t5 as [|c l] eqn:E5; [done|].
    split; [done|]. intros Hn. by specialize (Hnone Hn).
  - intros out. rewrite Hclean. destruct t as [|c0 t0]; [done|].
    destruct t5 as [|c l] eqn:E5; [done|]. intros [= <-].
    split_and!; try done.
Qed.

(** ** More on the normal form of an address and the rule of the merge *)

Module LocalityFacts.
Import PyStr.

Lemma chars_app s1 s2 : chars (s1 +:+ s2) = chars s1 ++ chars s2.
Proof. induction s1 as [|c s1 IH]; [done|]. simpl. by rewrite <- IH. Qed.

Lemma lower_char_comma c : lower_char c = ","%char → c = ","%char.
Proof.
  unfold lower_char, code. set (n := nat_of_ascii c).
  pose proof (nat_ascii_bounded c) as Hb. fold n in Hb.
  destruct (_ || _) eqn:E; [|done]. intros H. exfalso.
  assert (Hn : (65 ≤ n ∧ n ≤ 90) ∨ (192 ≤ n ∧ n ≤ 222)).
  { apply orb_true_iff in E as [E|E].
    - apply andb_true_iff in E as [E1 E2]. apply Nat.leb_le in E1, E2. lia.
    - apply andb_true_iff in E as [E _]. apply andb_true_iff in E as [E1 E2].
      apply Nat.leb_le in E1, E2. lia. }
  apply (f_equal nat_of_ascii) in H. rewrite nat_ascii_embedding in H by lia.
  change (nat_of_ascii ","%char) with 44 in H. lia.
Qed.

Lemma lower_chars_comma l : ","%char ∉ l → ","%char ∉ lower_chars l.
Proof.
  intros Hl Hin. apply list_elem_of_fmap in Hin as (c & Hc & Hin).
  symmetry in Hc. apply lower_char_comma in Hc. by subst.
Qed.

Lemma before_first_app c l1 l2 : c ∉ l1 → before_first c (l1 ++ c :: l2) = l1.
Proof.
  induction l1 as [|x l1 IH]; intros Hc; simpl.
  - by rewrite decide_True.
  - apply not_elem_of_cons in Hc as [Hx Hc]. rewrite decide_False by done.
    f_equal. by apply IH.
Qed.

(** What stands after the first comma does not reach the normal form. *)
Lemma normalize_chars_cut l1 l2 :
  ","%char ∉ l1 →
  Merge.normalize_chars (l1 ++ ","%char :: l2) = Merge.normalize_chars l1.
Proof.
  intros Hc. unfold Merge.normalize_chars, lower_chars.
  rewrite fmap_app, fmap_cons.
  change (lower_char ","%char) with ","%char.
  pose proof (lower_chars_comma l1 Hc) as Hl. unfold lower_chars in Hl.
  rewrite bool_decide_true by (apply elem_of_app; right; left).
  rewrite before_first_app by done.
  by rewrite bool_decide_false by done.
Qed.

Lemma lower_chars_idem l : lower_chars (lower_chars l) = lower_chars l.
Proof.
  induction l as [|c l IH]; [done|]. simpl. by rewrite ScoreFacts.lower_char_idem, IH.
Qed.

Lemma normalize_chars_nil : Merge.normalize_chars [] = [].
Proof. reflexivity. Qed.

End LocalityFacts.

(** X21.  The normal form of an address depends neither on the case of its
    letters nor on what follows its first comma: city, state and zip after
    the comma never reach the address score of the merge. *)
Theorem normalize_address_ignores_locality (street rest other : string) :
  ","%char ∉ PyStr.chars street →
  Merge.normalize_address (street +:+ "," +:+ rest) = Merge.normalize_address street ∧
  Merge.normalize_address (PyStr.lower street) = Merge.normalize_address street ∧
  Merge.address_similarity (street +:+ "," +:+ rest) other
  = Merge.address_similarity street other ∧
  Merge.address_similarity other (street +:+ "," +:+ rest)
  = Merge.address_similarity other street.
Proof.
  intros Hc.
  assert (H1 : Merge.normalize_address (street +:+ "," +:+ rest)
               = Merge.normalize_address street).
  { unfold Merge.normalize_address.
    replace (PyStr.is_empty (street +:+ "," +:+ rest)) with false
      by (by destruct street).
    rewrite !LocalityFacts.chars_app.
    change (PyStr.chars ",") with [","%char].
    change ([","%char] ++ PyStr.chars rest) with (","%char :: PyStr.chars rest).
    rewrite LocalityFacts.normalize_chars_cut by done.
    by destruct street. }
  split; [exact H1|]. split.
  - unfold Merge.normalize_address. rewrite ScoreFacts.is_empty_lower.
    destruct (PyStr.is_empty street); [done|]. f_equal.
    unfold PyStr.lower. rewrite ScoreFacts.chars_str.
    unfold Merge.normalize_chars. by rewrite LocalityFacts.lower_chars_idem.
  - unfold Merge.address_similarity. by rewrite H1.
Qed.

Lemma normalize_address_ignores_locality_witness :
  (","%char ∉ PyStr.chars "9 Elm Avenue") ∧
  Merge.normalize_address ("9 Elm Avenue" +:+ "," +:+ " Bronx, NY 10451")
  = Merge.normalize_address "9 Elm Avenue".
Proof.
  assert (H : ","%char ∉ PyStr.chars "9 Elm Avenue").
  { refine (bool_decide_unpack _ _). vm_compute. exact I. }
  split; [exact H|].
  exact (proj1 (normalize_address_ignores_locality "9 Elm Avenue" " Bronx, NY 10451"
                  EmptyString H)).
Defined.

(** X22.  The rule of the merge is monotone in both scores: a pair of scores
    that is confident stays confident when the name score, the address
    score or both go up. *)
Theorem merge_rule_monotone (n1 n2 a1 a2 : Q) :
  (n1 <= n2)%Q → (a1 <= a2)%Q →
  Merge.is_confident n1 a1 = true → Merge.is_confident n2 a2 = true.
Proof.
  intros Hn Ha. unfold Merge.is_confident.
  rewrite !orb_true_iff, !andb_true_iff.
  intros [[H1 H2] | [H1 H2]]; [left | right]; split;
    eapply ScoreFacts.Qgtb_mono; eauto.
Qed.

Lemma merge_rule_monotone_witness :
  (6 # 10 <= 85 # 100)%Q ∧ (95 # 100 <= 1)%Q ∧
  Merge.is_confident (6 # 10) (95 # 100) = true ∧
  Merge.is_confident (85 # 100) 1 = true.
Proof.
  assert (H1 : (6 # 10 <= 85 # 100)%Q) by (unfold Qle; simpl; lia).
  assert (H2 : (95 # 100 <= 1)%Q) by (unfold Qle; simpl; lia).
  assert (H3 : Merge.is_confident (6 # 10) (95 # 100) = true) by reflexivity.
  split; [exact H1|]. split; [exact H2|]. split; [exact H3|].
  exact (merge_rule_monotone _ _ _ _ H1 H2 H3).
Defined.

(** ** The ends of the similarity score *)

Module DiagonalFacts.
Import Difflib Diagonal.
Section Same.

Context {A : Type} `{EqDecision A}.
Variable a : list A.

Lemma run_live i : live a i = true → run a i = S (prev_run a i).
Proof. intros H. destruct i; simpl; by rewrite H. Qed.

Lemma run_dead i : live a i = false → run a i = 0.
Proof. intros H. destruct i; simpl; by rewrite H. Qed.

(** *** The rows of [b2j] *)

Lemma indices_from_spec (l : list A) x :
  ∀ s j, j ∈ indices_from s l x ↔ s ≤ j ∧ l !! (j - s) = Some x.
Proof.
  induction l as [|y l IH]; intros s j; simpl.
  - split; [by intros ?%elem_of_nil | by intros [_ ?]].
  - destruct (decide (y = x)) as [->|Hne].
    + rewrite elem_of_cons, IH. split.
      * intros [-> | [Hs Hj]]; [by rewrite Nat.sub_diag|].
        split; [lia|]. by replace (j - s) with (S (j - S s)) by lia.
      * intros [Hs Hj]. destruct (decide (j = s)) as [->|Hjs]; [by left|].
        right. split; [lia|].
        by replace (j - s) with (S (j - S s)) in Hj by lia.
    + rewrite IH. split.
      * intros [Hs Hj]. split; [lia|]. by replace (j - s) with (S (j - S s)) by lia.
      * intros [Hs Hj]. destruct (decide (j = s)) as [->|Hjs].
        { rewrite Nat.sub_diag in Hj. simpl in Hj. congruence. }
        split; [lia|]. by replace (j - s) with (S (j - S s)) in Hj by lia.
Qed.

Lemma indices_from_sorted (l : list A) x :
  ∀ s, StronglySorted lt (indices_from s l x).
Proof.
  induction l as [|y l IH]; intros s; simpl; [constructor|].
  destruct (decide (y = x)); [|apply IH].
  constructor; [apply IH|]. apply Forall_forall. intros j Hj.
  apply indices_from_spec in Hj. lia.
Qed.

(** The row of a live index: the indices that hold the same element, in
    increasing order, the index itself among them. *)
Lemma live_row i x :
  a !! i = Some x → live a i = true →
  b2j a x = indices_from 0 a x ∧
  i ∈ b2j a x ∧
  StronglySorted lt (b2j a x) ∧
  Forall (λ j, j < length a ∧ live a j = true) (b2j a x).
Proof.
  intros Hi Hl. unfold live in Hl. rewrite Hi in Hl. apply negb_true_iff in Hl.
  unfold b2j. rewrite Hl. split_and!; try done.
  - apply indices_from_spec. rewrite Nat.sub_0_r. split; [lia|done].
  - apply indices_from_sorted.
  - apply Forall_forall. intros j Hj. apply indices_from_spec in Hj as [_ Hj].
    rewrite Nat.sub_0_r in Hj. split; [by eapply lookup_lt_Some|].
    unfold live. by rewrite Hj, Hl.
Qed.

Lemma dead_row i x : a !! i = Some x → live a i = false → b2j a x = [].
Proof.
  intros Hi Hl. unfold live in Hl. rewrite Hi in Hl. apply negb_false_iff in Hl.
  unfold b2j. by rewrite Hl.
Qed.

(** *** One row *)

Lemma j2len_get_le i m j :
  row_inv a i m → j2len_get m j ≤ prev_run a i ∧ j2len_get m j ≤ prev_run a j.
Proof.
  intros [Hm _]. destruct j as [|j]; simpl; [lia|].
  destruct (m !! j) as [k|] eqn:E; simpl; [|lia]. by apply Hm.
Qed.

Lemma scan_row_diag i m :
  i < length a → live a i = true → row_inv a i m →
  ∀ js bst new,
    StronglySorted lt js →
    Forall (λ j, j < length a ∧ live a j = true) js →
    best_inv a i bst →
    (i ∈ js ∨ run a i ≤ bestsize bst) →
    (∀ j k, new !! j = Some k → k ≤ run a i ∧ k ≤ run a j) →
    (i ∈ js ∨ j2len_get new (S i) = run a i) →
    best_inv a (S i) (scan_row i 0 (length a) m js bst new).1 ∧
    row_inv a (S i) (scan_row i 0 (length a) m js bst new).2.
Proof.
  intros Hi Hlive Hrow. induction js as [|j js IH];
    intros bst new Hsorted Hjs [Hdiag Hbest] Hpast Hnew Hat.
  - simpl. destruct Hpast as [?%elem_of_nil | Hpast]; [done|].
    destruct Hat as [?%elem_of_nil | Hat]; [done|].
    split; [split; [done|] | split; [|done]].
    + intros t Ht. destruct (decide (t = i)) as [->|]; [done|]. apply Hbest. lia.
    + intros j k Hjk. simpl. by apply Hnew.
  - apply StronglySorted_inv in Hsorted as [Hsorted Hlt].
    apply Forall_cons in Hjs as [[Hj Hlj] Hjs].
    cbn [scan_row]. change (j <? 0) with false. cbv iota.
    rewrite (proj2 (Nat.leb_gt (length a) j)) by done.
    destruct (j2len_get_le i m j Hrow) as [Hk1 Hk2].
    pose proof (run_live i Hlive) as Hri. pose proof (run_live j Hlj) as Hrj.
    assert (Hnew' : ∀ j' k', <[j := j2len_get m j + 1]> new !! j' = Some k' →
                             k' ≤ run a i ∧ k' ≤ run a j').
    { intros j' k'. destruct (decide (j' = j)) as [->|Hne].
      - rewrite lookup_insert_eq. intros [= <-]. lia.
      - rewrite lookup_insert_ne by done. apply Hnew. }
    assert (Hnot : i ≠ j → i ∈ j :: js → i ∈ js ∧ i > j).
    { intros Hne [?|Hin]%elem_of_cons; [done|]. split; [done|].
      rewrite Forall_forall in Hlt. by apply Hlt. }
    destruct (decide (j = i)) as [->|Hne].
    + (* the diagonal *)
      assert (Hk : j2len_get m i + 1 = run a i).
      { destruct Hrow as [_ Hd]. rewrite Hd, Hri. lia. }
      assert (Hgone : i ∉ js).
      { intros Hin. rewrite Forall_forall in Hlt. specialize (Hlt _ Hin). lia. }
      assert (Hat' : j2len_get (<[i := j2len_get m i + 1]> new) (S i) = run a i).
      { simpl. rewrite lookup_insert_eq. simpl. done. }
      destruct (bestsize bst <? j2len_get m i + 1) eqn:Eb.
      * apply Nat.ltb_lt in Eb. apply IH; try done.
        -- split; [simpl; lia|]. intros t Ht. simpl. specialize (Hbest t Ht). lia.
        -- right. simpl. lia.
        -- by right.
      * apply Nat.ltb_ge in Eb. apply IH; try done.
        -- right. lia.
        -- by right.
    + (* off the diagonal: no better block *)
      assert (Hle : j2len_get m j + 1 ≤ bestsize bst).
      { destruct (decide (j < i)) as [Hji|Hji].
        - specialize (Hbest j Hji). lia.
        - destruct Hpast as [Hin|Hpast]; [|lia].
          destruct (Hnot ltac:(done) Hin). lia. }
      rewrite (proj2 (Nat.ltb_ge _ _)) by done.
      assert (Hstill : ∀ P : Prop, i ∈ j :: js ∨ P → i ∈ js ∨ P).
      { intros P [Hin|HP]; [left; by apply Hnot | by right]. }
      apply IH; try done.
      * by apply Hstill.
      * destruct Hat as [Hin|Hat]; [left; by apply Hnot|]. right.
        simpl in *. by rewrite lookup_insert_ne by done.
Qed.

(** *** All the rows *)

Lemma scan_rows_diag rows :
  ∀ i m bst,
    i + rows = length a →
    row_inv a i m → best_inv a i bst →
    best_inv a (length a) (scan_rows a a rows i 0 (length a) m bst).
Proof.
  induction rows as [|rows IH]; intros i m bst Hn Hrow Hbst.
  - simpl. by replace (length a) with i by lia.
  - cbn [scan_rows].
    destruct (a !! i) as [x|] eqn:Hi; [|apply lookup_ge_None in Hi; lia].
    destruct (live a i) eqn:Hl.
    + destruct (live_row i x Hi Hl) as (_ & Hin & Hsorted & Hjs).
      destruct (scan_row_diag i m ltac:(lia) Hl Hrow (b2j a x) bst ∅)
        as [Hb' Hr']; try done; try (by left).
      destruct (scan_row i 0 (length a) m (b2j a x) bst ∅) as [bst' new].
      apply IH; [lia | done | done].
    + rewrite (dead_row i x Hi Hl). simpl scan_row. cbv iota beta.
      pose proof (run_dead i Hl) as Hr0.
      apply IH; [lia | |].
      * split; [by intros j k ?|]. simpl. by rewrite lookup_empty.
      * destruct Hbst as [Hd Hb]. split; [done|]. intros t Ht.
        destruct (decide (t = i)) as [->|]; [lia|]. apply Hb. lia.
Qed.

(** *** The longest match of a sequence with itself is all of it *)

Lemma same_at_diag i : i < length a → same_at a a i i = true.
Proof.
  intros Hi. unfold same_at. destruct (a !! i) eqn:E.
  - by rewrite bool_decide_true.
  - apply lookup_ge_None in E. lia.
Qed.

Lemma extend_left_diag d :
  ∀ k, d ≤ length a → extend_left a a 0 0 d d k = Best 0 0 (k + d).
Proof.
  induction d as [|d IH]; intros k Hd; simpl.
  - by rewrite Nat.add_0_r.
  - rewrite same_at_diag by lia. simpl. rewrite IH by lia. f_equal. lia.
Qed.

Lemma extend_right_diag fuel :
  ∀ k, k ≤ length a → length a - k ≤ fuel →
       extend_right a a fuel (length a) (length a) 0 0 k = length a.
Proof.
  induction fuel as [|fuel IH]; intros k Hk Hf; simpl; [lia|].
  destruct (decide (k < length a)) as [Hlt|Hge].
  - rewrite (proj2 (Nat.ltb_lt k (length a))) by done.
    rewrite same_at_diag by done. simpl. apply IH; lia.
  - rewrite (proj2 (Nat.ltb_ge k (length a))) by lia. simpl. lia.
Qed.

Lemma find_longest_match_self :
  find_longest_match a a 0 (length a) 0 (length a) = Best 0 0 (length a).
Proof.
  unfold find_longest_match. rewrite Nat.sub_0_r.
  set (b0 := scan_rows a a (length a) 0 0 (length a) ∅ (Best 0 0 0)).
  assert (Hdiag : besti b0 = bestj b0).
  { apply (scan_rows_diag (length a) 0 ∅ (Best 0 0 0)); [done| |].
    - split; [by intros j k ?|done].
    - split; [done|]. intros t Ht. lia. }
  assert (Hin : inside 0 (length a) 0 (length a) b0).
  { apply (DifflibFacts.scan_rows_inside a a (length a) 0 0 (length a) 0 (length a) ∅
             (Best 0 0 0));
      [lia | lia | apply DifflibFacts.row_ok_empty | unfold inside; simpl; lia]. }
  destruct Hin as (_ & Hin & _).
  rewrite <- Hdiag, extend_left_diag by lia. cbn [besti bestj bestsize].
  f_equal. apply extend_right_diag; lia.
Qed.

Lemma matches_self : matches a a = length a.
Proof.
  rewrite DifflibFacts.matches_drain. unfold drain_fuel.
  replace (2 * length a + 1) with (S (2 * length a)) by lia.
  rewrite DifflibFacts.drain_step, find_longest_match_self.
  cbv zeta. cbn [besti bestj bestsize].
  destruct (length a =? 0) eqn:E.
  - apply Nat.eqb_eq in E. rewrite E. by destruct (2 * 0).
  - change (0 <? 0) with false. cbn [andb Nat.add app]. rewrite Nat.ltb_irrefl.
    cbn [andb]. by destruct (2 * length a); simpl; rewrite Nat.add_0_r.
Qed.

Lemma ratio_self : a ≠ [] → (ratio a a == 1)%Q.
Proof.
  intros Ha. unfold ratio. rewrite matches_self. unfold calculate_ratio.
  assert (Hn : length a ≠ 0) by (destruct a; [done | simpl; lia]).
  rewrite (proj2 (Nat.eqb_neq _ _)) by lia.
  assert (Hden : Zpos (Pos.of_nat (length a + length a))
                 = Z.of_nat (length a + length a)).
  { rewrite <- positive_nat_Z, Nat2Pos.id by lia. done. }
  unfold Qeq. cbn [Qnum Qden]. rewrite Hden. lia.
Qed.

End Same.
End DiagonalFacts.

Module DisjointFacts.
Import Difflib.
Section Apart.

Context {A : Type} `{EqDecision A}.
Variables a b : list A.
Hypothesis apart : ∀ x, x ∈ a → x ∉ b.

Lemma indices_from_none (l : list A) x : x ∉ l → ∀ s, indices_from s l x = [].
Proof.
  induction l as [|y l IH]; intros Hx s; simpl; [done|].
  apply not_elem_of_cons in Hx as [Hne Hx]. rewrite decide_False by done. by apply IH.
Qed.

Lemma row_none i x : a !! i = Some x → b2j b x = [].
Proof.
  intros Hi. unfold b2j. destruct (popular b x); [done|].
  apply indices_from_none, apart. by eapply list_elem_of_lookup_2.
Qed.

Lemma scan_rows_none rows :
  ∀ i blo bhi m bst, scan_rows a b rows i blo bhi m bst = bst.
Proof.
  induction rows as [|rows IH]; intros i blo bhi m bst; [done|].
  cbn [scan_rows]. destruct (a !! i) as [x|] eqn:Hi.
  - rewrite (row_none i x Hi). simpl. apply IH.
  - simpl. apply IH.
Qed.

Lemma same_at_none i j : same_at a b i j = false.
Proof.
  unfold same_at. destruct (a !! i) as [x|] eqn:Ha; [|done].
  destruct (b !! j) as [y|] eqn:Hb; [|done].
  apply bool_decide_eq_false. intros ->.
  apply (apart y); by eapply list_elem_of_lookup_2.
Qed.

Lemma find_longest_match_none :
  find_longest_match a b 0 (length a) 0 (length b) = Best 0 0 0.
Proof.
  unfold find_longest_match. rewrite scan_rows_none. cbn [besti bestj bestsize].
  simpl extend_left. cbn [besti bestj bestsize]. f_equal.
  destruct (length a - (0 + 0)); simpl; [done|].
  by rewrite same_at_none, andb_false_r.
Qed.

Lemma matches_none : matches a b = 0.
Proof.
  rewrite DifflibFacts.matches_drain. unfold drain_fuel.
  replace (2 * length a + 1) with (S (2 * length a)) by lia.
  rewrite DifflibFacts.drain_step, find_longest_match_none.
  cbv zeta. cbn [bestsize]. simpl. by destruct (length a + _).
Qed.

Lemma ratio_none : a ≠ [] → (ratio a b == 0)%Q.
Proof.
  intros Ha. unfold ratio. rewrite matches_none. unfold calculate_ratio.
  assert (Hn : length a ≠ 0) by (destruct a; [done | simpl; lia]).
  rewrite (proj2 (Nat.eqb_neq _ _)) by lia. done.
Qed.

End Apart.
End DisjointFacts.

Module EndFacts.

Lemma lower_given a : PyStr.is_empty a = false → PyStr.chars (PyStr.lower a) ≠ [].
Proof.
  intros Ha. pose proof (ScoreFacts.is_empty_lower a) as He.
  destruct (PyStr.lower a) eqn:E; [|done]. rewrite Ha in He. done.
Qed.

(** The same name up to case scores 1. *)
Lemma similarity_same_case a b :
  PyStr.is_empty a = false → PyStr.lower a = PyStr.lower b →
  (Common.similarity a b == 1)%Q.
Proof.
  intros Ha Hab.
  assert (Hb : PyStr.is_empty b = false).
  { rewrite <- (ScoreFacts.is_empty_lower b), <- Hab, ScoreFacts.is_empty_lower. done. }
  unfold Common.similarity. rewrite Ha, Hb. simpl orb. cbv iota. rewrite <- Hab.
  by apply DiagonalFacts.ratio_self, lower_given.
Qed.

End EndFacts.

(** X23.  The two ends of the similarity score.  Two non-empty names that are
    the same up to the case of their letters score 1, whatever their length
    and however many of their characters [autojunk] holds for popular, so
    both scrapers judge them a confident match, with or without an address.
    Two names without a character in common, case apart, score 0. *)
Theorem similarity_of_same_and_of_unlike (a b : string) :
  (PyStr.is_empty a = false → PyStr.lower a = PyStr.lower b →
   (Common.similarity a b == 1)%Q ∧
   (∀ addr_sim, Parallel.confident_match (Common.similarity a b) addr_sim = true) ∧
   Single.confident_match (Common.similarity a b) = true) ∧
  ((∀ c, c ∈ PyStr.chars (PyStr.lower a) → c ∉ PyStr.chars (PyStr.lower b)) →
   (Common.similarity a b == 0)%Q).
Proof.
  split.
  - intros Ha Hab.
    assert (H1 : (Common.similarity a b == 1)%Q)
      by by apply EndFacts.similarity_same_case.
    split; [exact H1|]. split.
    + intros s. unfold Parallel.confident_match.
      apply orb_true_iff. left. apply ScoreFacts.Qgtb_lt. by rewrite H1.
    + unfold Single.confident_match. apply ScoreFacts.Qgtb_lt. by rewrite H1.
  - intros Hapart. unfold Common.similarity.
    destruct (PyStr.is_empty a) eqn:Ha; [done|].
    destruct (PyStr.is_empty b) eqn:Hb; [done|]. simpl orb. cbv iota.
    apply DisjointFacts.ratio_none; [done|]. by apply EndFacts.lower_given.
Qed.

(** X24.  Two addresses with the same non-empty normal form have an address
    score of 1, so for them the rule of the merge comes down to the stored
    name score alone: confident when it is above 0.5, not confident
    otherwise. *)
Theorem same_normal_form_scores_one (addr1 addr2 : string) (name_sim : Q) :
  Merge.normalize_address addr1 = Merge.normalize_address addr2 →
  PyStr.is_empty (Merge.normalize_address addr1) = false →
  (Merge.address_similarity addr1 addr2 == 1)%Q ∧
  Merge.is_confident name_sim (Merge.address_similarity addr1 addr2)
  = Qgtb name_sim (5 # 10).
Proof.
  intros Hsame Hgiven.
  assert (H1 : (Merge.address_similarity addr1 addr2 == 1)%Q).
  { unfold Merge.address_similarity, Merge.similarity. cbv zeta. rewrite <- Hsame.
    by apply EndFacts.similarity_same_case. }
  split; [exact H1|]. unfold Merge.is_confident.
  assert (H7 : Qgtb (Merge.address_similarity addr1 addr2) (7 # 10) = true)
    by (apply ScoreFacts.Qgtb_lt; by rewrite H1).
  assert (H9 : Qgtb (Merge.address_similarity addr1 addr2) (9 # 10) = true)
    by (apply ScoreFacts.Qgtb_lt; by rewrite H1).
  rewrite H7, H9, !andb_true_r.
  destruct (Qgtb name_sim (8 # 10)) eqn:E8; [|done]. simpl. symmetry.
  apply ScoreFacts.Qgtb_lt. apply ScoreFacts.Qgtb_lt in E8.
  eapply Qlt_trans; [|exact E8]. done.
Qed.

Lemma same_normal_form_scores_one_witness :
  Merge.normalize_address "123 Bleecker St"
  = Merge.normalize_address "123 Bleecker Street, New York, NY" ∧
  PyStr.is_empty (Merge.normalize_address "123 Bleecker St") = false ∧
  Merge.is_confident (6 # 10)
    (Merge.address_similarity "123 Bleecker St" "123 Bleecker Street, New York, NY")
  = true.
Proof.
  assert (H1 : Merge.normalize_address "123 Bleecker St"
               = Merge.normalize_address "123 Bleecker Street, New York, NY")
    by reflexivity.
  assert (H2 : PyStr.is_empty (Merge.normalize_address "123 Bleecker St") = false)
    by reflexivity.
  split; [exact H1|]. split; [exact H2|].
  rewrite (proj2 (same_normal_form_scores_one _ _ (6 # 10) H1 H2)). reflexivity.
Defined.
